(* ===== verification/_CoqProject ===== *)
-Q . S2P
Prelude.v
GoStrings.v
Floats.v
Config.v
Model.v
Durations.v
DurationsProofs.v
Schema.v
SchemaProofs.v
Logging.v
LoggingProofs.v
Metrics.v
Buckets.v
BucketsProofs.v
ChecksPolicy.v
Engine.v
Scheduler.v
NetIP.v
Net.v
Defaults.v
Validate.v
Registry.v
Diff.v
PolicyManager.v
PolicyProofs.v
BGPManager.v
BGPProofs.v
PolicyWitness.v
System.v
Daemon.v
Reload.v
ReloadProofs.v
ReloadStaging.v
ReloadFrame.v
ReloadOutcome.v
ReloadOwns.v
ReloadSync.v
ReloadGoverns.v
ReloadApply.v
ReloadRun.v
ReloadWitness.v
DefaultsProofs.v
ValidateProofs.v
Loader.v
LoadProofs.v
LocalAddr.v
Loaded.v
LoadedWitness.v
Checkers.v
Backends.v
SQLBackend.v
Guarded.v
CheckersProofs.v
BackendsProofs.v
CheckersWitness.v
HTTPAPI.v
HTTPAPIProofs.v
HTTPWitness.v
Commands.v
CheckPrint.v
CheckPrintProofs.v
CommandsProofs.v
CommandsWitness.v
Watcher.v
Telemetry.v
Platform.v
Wiring.v
RunCommand.v
WiringProofs.v
Startup.v
DaemonRun.v
HotReload.v
WiringWitness.v
