(* ===== verification/Prelude.v ===== *)
(** * pathosd: a health-aware BGP announcer of virtual addresses, verified

    ** The program

    pathosd announces VIPs (prefixes) over BGP as long as the services behind
    them pass their health checks.  Its parts, all under src/internal:

    - config: the structs of the config file (config.go), loading it with
      environment placeholders (load.go), defaults (defaults.go), validation
      (validate.go), the policy that combines the checks of a VIP
      (checkspolicy.go), and the difference between two configs (diff.go);
    - checks: the checkers (http.go, dns.go, ping.go, tcp.go, udp.go,
      listen.go, grpc.go, kafka.go, sql.go, factory.go), the guard that fails
      them while the VIP's address is not local (localaddr.go), a scheduler
      per check with rise and fall hysteresis (scheduler.go), and the registry
      that owns the goroutines (registry.go);
    - policy: the decision table and the route attributes (engine.go), and the
      manager that keeps a state per VIP and drives BGP (manager.go,
      reload.go);
    - bgp: the embedded GoBGP speaker (manager.go, route_state_metrics.go),
      the lines logged about its sessions (watcher.go) and its own log
      (gobgp_logger.go);
    - reload: the reloader, which applies a changed file to the running
      daemon (reload.go);
    - httpapi: the status API, ad-hoc checks and reload requests (server.go);
    - model and metrics: the statuses and the exported series;
    - logging, telemetry, systemd, caps: the tree of log handlers, the
      OpenTelemetry providers, the notify socket, file capabilities;
    - daemon: builds all of the above and starts and stops it (daemon.go,
      sdstatus.go);
    - cmd/pathosd (outside internal): the subcommands run, validate, check,
      healthcheck, reload and jq-test.

    A check result goes scheduler -> policy manager -> BGP manager -> GoBGP.
    A reload diffs the file against what governs the routes, builds every new
    scheduler first, and stages a VIP whose checks changed: the new checks run
    as shadows, unseen by the policy manager, until all have a verdict or a
    deadline passes; then they replace the old ones in one commit.  The daemon
    constructs the components in the order they need each other, runs the
    start hooks in that order and the stop hooks in reverse.

    ** The files

    - Prelude: Go's nil-able slices and maps, panics ([outcome]), errors
      ([result]), int64 wrap-around, the tactics and the hint database
      [pathosd], generic list lemmas.
    - GoStrings, NetIP, Net, Floats: the parts of Go's strings, strconv,
      net/netip and net the program uses, and float64 on [SpecFloat].
    - Config: a [Record] per struct of config.go, its methods, and
      [reflect.DeepEqual] as a class of decision procedures ([DeepEqual]).
    - Model, Metrics: internal/model, [checks.Result], and the series of
      internal/metrics as a map from vector and labels to a value.
    - Durations: duration.go with time.ParseDuration and Duration.String;
      DurationsProofs.  Buckets: GenerateCheckBuckets of metrics.go with
      math.Pow and math.Round; BucketsProofs.
    - Logging: logging.go and gobgp_logger.go, a handler as a tree whose leaves
      are the class [Sinks]; LoggingProofs.
    - ChecksPolicy, Engine: checkspolicy.go and engine.go.
    - Scheduler: scheduler.go; [applyResult] is the locked part of runCheck.
      The specification [specHealthy] speaks of windows of results only.
    - Defaults, Validate, Loader: defaults.go, validate.go and load.go.
      DefaultsProofs, ValidateProofs, LoadProofs: their theorems; [ValidConfig]
      says declaratively what validation accepts, [expandSpec] is a one-pass
      reference for the placeholder expansion.
    - Registry: registry.go; schedulers are pointers, goroutines are run
      numbers, and the array behind a slice is explicit where the code ranges
      over it while it deletes.
    - Diff: diff.go.
    - PolicyManager: policy/manager.go and policy/reload.go, one function per
      method on the record [Manager]; BGP is the class [BGPNotifier], and
      [BGPNotifierLaws] what the manager may rely on.  PolicyProofs: its
      theorems.  PolicyWitness: a reference speaker and the theorems applied.
    - BGPManager: bgp/manager.go and route_state_metrics.go over the class
      [GoBGP].  BGPProofs: the laws of GoBGP ([GoBGPLaws]) and the instance
      that discharges [BGPNotifierLaws] from them.
    - System: schedulers wired to the policy manager, over every interleaving
      of check results.  Daemon: the policy manager on the BGP manager on
      GoBGP, with a reference server.
    - Reload: reload.go; the policy manager enters through the class [Policy]
      of the source.  ReloadProofs: lemmas on single steps.  ReloadStaging:
      the reloader as a step relation [rl_step] and its invariants.
      ReloadOutcome: what each outcome of a reload leaves behind.
      ReloadWitness: the policy manager as [Policy] and the theorems applied.
    - LocalAddr: localaddr.go, and guarded checks under a scheduler.
    - Loaded: validation and its consumers put together, so that the theorems
      on the policy manager and the daemon hold for every loaded config.
      LoadedWitness: a config file loaded and run.
    - Checkers, Backends, SQLBackend: the checkers as functions of what the
      network answers, and their constructors.  CheckersProofs, BackendsProofs:
      exactly when each passes and starts; CheckersWitness: runs.
    - HTTPAPI: server.go on the heap of schedulers; HTTPAPIProofs, HTTPWitness.
    - Commands: check, healthcheck and reload; CommandsProofs, CommandsWitness.
    - Watcher: watcher.go.  Telemetry: telemetry.go over the class [OTelSDK].
      Platform: systemd.go, sdstatus.go and the caps package.
    - Wiring: daemon.go; [App] is the running process, [construct] the
      constructors, [hooks] the lifecycle, [Run] the daemon, and [d_step] a
      daemon whose checks, reloads, signals and stop hooks interleave.  fx is
      the class [Fx] with the laws [FxLaws].  Startup: theorems on the
      constructors and start hooks; WiringProofs: on the shutdown.
      RunCommand: run.go, validate.go and jqtest.go.  WiringWitness: a daemon
      started, reloaded and stopped.

    ** What the theorems show

    - From result to route: a check is healthy exactly when the hysteresis
      specification says so ([Run_hysteresis]), transitions alternate and a
      verdict is reached in bounded time; a VIP under the policy all is
      announced exactly while every check passes ([announced_iff_checks_pass]);
      what the status API reports is what GoBGP originates unless an operation
      is pending ([status_matches_gobgp]), and a pending operation is retried
      on the next result ([OnCheckResult_retries]).
    - Components: the invariant of the policy manager over every sequence of
      operations ([policy_invariant]), its behaviour on each error branch, the
      isolation of VIPs; the atomicity of BGP updates and the faithful
      encoding of route attributes; no goroutine of a scheduler is leaked
      ([registry_no_leak]); [DiffVIPs] accounts for every VIP exactly once and
      for the right reason.
    - Config: validation accepts exactly the valid configs ([Validate_spec]),
      defaults are idempotent, complete and what the consumers assume
      ([defaults_agree]), placeholders expand as by the reference
      ([expand_equiv]) and escaping is undone ([escape_roundtrip]); a loaded
      config meets the assumptions of the other theorems, so that they hold
      from the file to the route ([loaded_announced_iff_checks_pass],
      [loaded_status_matches_gobgp], [loaded_consumable]).
    - Checks: for each checker the exact condition under which it passes
      ([HTTP_Check_passes], [Listen_Check_passes], [Kafka_Check_passes],
      [SQL_Check_passes] and so on), a validated check can be built
      ([valid_check_starts]), a guarded check passes only while the address is
      on the host ([guard_gates]).
    - Outside view: the status API shows the schedulers' counters
      ([status_counters]), an ad-hoc check runs exactly what was asked
      ([trigger_exact]), the exit codes of the subcommands mean what they say
      ([check_exit], [healthcheck_ready], [reload_exit]) and agree with the
      API ([check_agrees_with_api]).
    - The daemon: a config is built exactly when its jq programs and guarded
      prefixes parse ([construct_succeeds]); a daemon that starts runs one
      scheduler per check, wired to the policy manager, and is in a state the
      theorems on reloads start from ([startup_runs_config]); one that does not
      start leaves nothing running ([failed_start_unwinds]); after the registry
      stopped nothing but its own hook touches BGP, if the SIGHUP goroutine had
      ended ([shutdown_quiet]), and otherwise a reload may still start a
      scheduler ([shutdown_late_reload]).  [--debug] holds through every reload
      ([debug_level_sticks]), every log destination gets what its own level
      admits ([log_delivery]), telemetry set-up leaks no provider
      ([Setup_no_leak]).
    - Numbers: durations survive printing and parsing ([duration_roundtrip]),
      and histogram bounds always increase strictly ([buckets_increasing]).
    - Reload: a rejected reload touches nothing that runs, an applied one is
      idempotent, a failed removal is kept and retried; shadows never reach
      the policy manager, verdicts are never lost, a staged VIP does not
      outlive its deadline, and [Reload] returns if no removed VIP has two
      running checks.
    - Where the code does not do what its comments promise the theorems say so:
      [RemoveVIP_panics] (the registry dereferences nil when it removes a VIP
      with two checks), [RemoveVIP_leaks_pending], [EffectiveHeaders_spec],
      [CommitVIP_keeps_route_without_verdict], [pessimized_may_outrank],
      [validated_unannounceable], [nan_ratio_always_passes],
      [userAgent_unused], [Setup_panics], [connect_failure_shown],
      [peer_named], [shutdown_late_reload].

    ** Conventions and bounds

    Every method that holds its lock for its whole body is one step, so
    interleavings are sequences of steps; callbacks a method fires after it
    released its lock come back as a list of calls.  Times are nanoseconds
    given as arguments, and so are the answers of the file system.  Integers
    are [Z]; widths matter in the deadline of a staging (int64, [wrap64]) and
    in communities (16 and 32 bits).  uint64(d.Seconds()) is integer division,
    exact below 2^22 seconds.  No definition takes arbitrary fuel: loops are
    structural on the list they range over; [removeVIPLoop] counts the length
    of the slice header, and [parseLoop] the length of the string, which is
    enough because every turn shortens it ([parseLoop_fuel]).  A lifecycle hook
    is one step, and so is a reload; what fx does between hooks is [FxLaws].  Iteration over a Go map is the order of
    [map_to_list].  The policy manager, the BGP manager and the reloader write
    disjoint metric vectors, and each model keeps its own store.

    Case mapping and white space are ASCII.  An error is its format and its
    arguments, not its text, and [errText] renders it where a text is built
    from it.  The placeholder theorems assume that no file or variable holds
    the NUL sentinel the code uses.  An answer of the network is an argument
    of the check, as a function of what the check asks for.

    ** What is not modelled

    Traces and contexts; GoBGP, fx, the OpenTelemetry SDK, expr-lang, gojq, regular
    expressions, URL parsing, the database, Kafka and gRPC clients and
    SHA-256, which are parameters (a hash is any function; nothing needs it to
    be injective); YAML and TOML decoding; the template of the landing page,
    static files and the metrics exposition; flag parsing and the table that
    check prints; the JSON schema generator, which runs at build time. *)

From stdpp Require Export gmap strings list fin_maps pretty sorting.
From Stdlib Require Export ZArith Lia.

Open Scope Z_scope.

(** ** Go values

    A Go slice distinguishes [nil] from an empty slice, and so does
    [reflect.DeepEqual]; a map likewise, and writing to a nil map panics. *)
Definition slice (A : Type) : Type := option (list A).
Definition gomap (V : Type) : Type := option (gmap string V).

Definition elems {A} (s : slice A) : list A := default [] s.
Definition entries {V} (m : gomap V) : gmap string V := default ∅ m.

(** [len(s)], a Go [int]. *)
Definition len {A} (l : list A) : Z := Z.of_nat (length l).

(** The result of code that can panic. *)
Inductive outcome (A : Type) : Type :=
| Ret (a : A)
| Panic.
Arguments Ret {A} a.
Arguments Panic {A}.

(** The result of a Go function that returns [(T, error)]. *)
Inductive result (E A : Type) : Type :=
| Ok (a : A)
| Err (e : E).
Arguments Ok {E A} a.
Arguments Err {E A} e.

Declare Scope go_scope.
Delimit Scope go_scope with go.
Open Scope go_scope.

Notation "'try' x <- e ; k" :=
  (match e with Ok x => k | Err err => Err err end)
  (at level 60, x name, e at next level, right associativity) : go_scope.

(** [int64] arithmetic wraps around. *)
Definition wrap64 (z : Z) : Z := (z + 2 ^ 63) mod 2 ^ 64 - 2 ^ 63.

Lemma wrap64_id z : - 2 ^ 63 ≤ z < 2 ^ 63 → wrap64 z = z.
Proof. intros H. unfold wrap64. rewrite Z.mod_small; lia. Qed.

(** [slices.Contains]. *)
Definition mem {A} `{EqDecision A} (x : A) (l : list A) : bool :=
  bool_decide (x ∈ l).

Lemma mem_true {A} `{EqDecision A} (x : A) l : mem x l = true ↔ x ∈ l.
Proof. apply bool_decide_eq_true. Qed.

Lemma mem_false {A} `{EqDecision A} (x : A) l : mem x l = false ↔ x ∉ l.
Proof. apply bool_decide_eq_false. Qed.

(** ** Tactics of the development *)

(** Decides a closed proposition by evaluation. *)
Ltac by_compute := apply (bool_decide_unpack _); vm_compute; exact I.

(** The database of the facts that close the routine side conditions. *)
Create HintDb pathosd.
#[export] Hint Resolve lookup_insert_eq lookup_delete_eq : pathosd.

(** ** Generic lemmas *)

Lemma NoDup_fmap_lookup {A K} (key : A → K) (l : list A) i j x y :
  NoDup (key <$> l) → l !! i = Some x → l !! j = Some y → key x = key y → i = j.
Proof.
  intros Hnd Hi Hj Hk.
  apply (NoDup_lookup _ i j (key x) Hnd); rewrite list_lookup_fmap.
  - by rewrite Hi.
  - by rewrite Hj, Hk.
Qed.

Lemma NoDup_fmap_elem_of {A K} (key : A → K) (l : list A) x y :
  NoDup (key <$> l) → x ∈ l → y ∈ l → key x = key y → x = y.
Proof.
  intros Hnd Hx Hy Hk.
  apply list_elem_of_lookup in Hx as [i Hi], Hy as [j Hj].
  pose proof (NoDup_fmap_lookup key l i j x y Hnd Hi Hj Hk). congruence.
Qed.

(** A loop keeps what every round keeps. *)
Lemma foldl_keeps {S A X} (proj : S → X) (f : S → A → S) l r :
  (∀ r a, proj (f r a) = proj r) → proj (foldl f r l) = proj r.
Proof. intros Hf. revert r. induction l as [|a l IH]; intros r; cbn; [done|]. by rewrite IH. Qed.

Lemma foldl_ind {S A} (I : S → Prop) (f : S → A → S) l r :
  (∀ r a, I r → I (f r a)) → I r → I (foldl f r l).
Proof. intros Hf. revert r. induction l as [|a l IH]; intros r Hr; cbn; [done|]. by apply IH, Hf. Qed.
