(* ===== verification/GoStrings.v ===== *)
(** * The parts of Go's [strings], [strconv], [sort] and [regexp] the daemon uses

    [string] is Rocq's byte string, which is what a Go string is.  Everything
    is executable. *)

From S2P Require Import Prelude.
From Stdlib Require Import Ascii.

Module GoStrings.

(** [strings.Join]. *)
Fixpoint Join (l : list string) (sep : string) : string :=
  match l with
  | [] => EmptyString
  | [s] => s
  | s :: l' => s +:+ sep +:+ Join l' sep
  end.

(** [strings.HasPrefix] and the rest of the string after the prefix
    ([s[len(p):]], [strings.CutPrefix]). *)
Fixpoint CutPrefix (s p : string) : option string :=
  match p, s with
  | EmptyString, _ => Some s
  | String a p', String b s' => if decide (a = b) then CutPrefix s' p' else None
  | String _ _, EmptyString => None
  end.

Definition HasPrefix (s p : string) : bool := bool_decide (is_Some (CutPrefix s p)).

(** Cut at the first occurrence of a byte: the part before it and the part
    after it. *)
Fixpoint Cut (s : string) (c : ascii) : option (string * string) :=
  match s with
  | EmptyString => None
  | String a s' =>
      if decide (a = c) then Some (EmptyString, s')
      else match Cut s' c with
           | Some (b, r) => Some (String a b, r)
           | None => None
           end
  end.

(** [strings.SplitN(s, sep, 2)] for a one-byte separator. *)
Definition SplitN2 (s : string) (c : ascii) : list string :=
  match Cut s c with
  | Some (b, r) => [b; r]
  | None => [s]
  end.

(** [strconv.Itoa] and [%d]. *)
Definition Itoa (z : Z) : string := pretty z.

(** [strconv.ParseUint(s, 10, bits)]: a non-empty string of decimal digits
    whose value fits in [bits] bits.  No sign, no underscore, no space. *)
Definition digit (a : ascii) : option Z :=
  match Ascii.is_nat a with Some n => Some (Z.of_nat n) | None => None end.

Fixpoint parse_digits (s : string) (acc : Z) : option Z :=
  match s with
  | EmptyString => Some acc
  | String a s' =>
      match digit a with
      | Some d => parse_digits s' (acc * 10 + d)
      | None => None
      end
  end.

Definition ParseUint (s : string) (bits : Z) : option Z :=
  match s with
  | EmptyString => None
  | _ =>
      match parse_digits s 0 with
      | Some v => if decide (v < 2 ^ bits) then Some v else None
      | None => None
      end
  end.

(** [sort.Strings] and [slices.Sort] on strings: byte-wise order. *)
Definition sortStrings (l : list string) : list string := merge_sort String.le l.

(** [strings.ToLower] and [strings.ToUpper] on ASCII. *)
Definition is_upper (a : ascii) : bool :=
  let n := nat_of_ascii a in (65 <=? n)%nat && (n <=? 90)%nat.
Definition is_lower (a : ascii) : bool :=
  let n := nat_of_ascii a in (97 <=? n)%nat && (n <=? 122)%nat.
Definition is_digit (a : ascii) : bool :=
  let n := nat_of_ascii a in (48 <=? n)%nat && (n <=? 57)%nat.
Definition is_underscore (a : ascii) : bool := bool_decide (a = "_"%char).

Definition lower_ascii (a : ascii) : ascii :=
  if is_upper a then ascii_of_nat (nat_of_ascii a + 32) else a.
Definition upper_ascii (a : ascii) : ascii :=
  if is_lower a then ascii_of_nat (nat_of_ascii a - 32) else a.

Fixpoint map_string (f : ascii → ascii) (s : string) : string :=
  match s with
  | EmptyString => EmptyString
  | String a s' => String (f a) (map_string f s')
  end.
Definition ToLower : string → string := map_string lower_ascii.
Definition ToUpper : string → string := map_string upper_ascii.

Fixpoint all_chars (f : ascii → bool) (s : string) : bool :=
  match s with
  | EmptyString => true
  | String a s' => f a && all_chars f s'
  end.

(** [strings.Contains]. *)
Fixpoint Contains (s sub : string) : bool :=
  HasPrefix s sub || match s with String _ s' => Contains s' sub | EmptyString => false end.

(** A text in double quotes, as the messages spell one. *)
Definition inQuotes (s : string) : string := String "034" s +:+ String "034" EmptyString.

(** [strings.TrimSpace] on ASCII. *)
Definition is_space (a : ascii) : bool :=
  let n := nat_of_ascii a in ((9 <=? n)%nat && (n <=? 13)%nat) || (n =? 32)%nat.
Fixpoint trimRight (s : string) : string :=
  match s with
  | EmptyString => EmptyString
  | String a s' =>
      match trimRight s' with
      | EmptyString => if is_space a then EmptyString else String a EmptyString
      | t => String a t
      end
  end.
Fixpoint trimLeft (s : string) : string :=
  match s with
  | EmptyString => EmptyString
  | String a s' => if is_space a then trimLeft s' else s
  end.
Definition TrimSpace (s : string) : string := trimRight (trimLeft s).

(** The size of the rune a string starts with ([utf8.DecodeRuneInString]);
    [None] is an encoding that is not valid, which counts as one byte. *)
Definition inRange (lo hi : nat) (s : string) : bool :=
  match s with
  | String a _ => (lo <=? nat_of_ascii a)%nat && (nat_of_ascii a <=? hi)%nat
  | EmptyString => false
  end.
Definition runeLen (s : string) : option nat :=
  match s with
  | EmptyString => None
  | String a s1 =>
      let n := nat_of_ascii a in
      let s2 := match s1 with String _ t => t | EmptyString => EmptyString end in
      let s3 := match s2 with String _ t => t | EmptyString => EmptyString end in
      let three lo hi := if inRange lo hi s1 && inRange 128 191 s2 then Some 3%nat else None in
      let four lo hi :=
        if inRange lo hi s1 && inRange 128 191 s2 && inRange 128 191 s3 then Some 4%nat else None in
      if (n <? 128)%nat then Some 1%nat
      else if (n <? 194)%nat then None
      else if (n <? 224)%nat then if inRange 128 191 s1 then Some 2%nat else None
      else if (n =? 224)%nat then three 160%nat 191%nat
      else if (n =? 237)%nat then three 128%nat 159%nat
      else if (n <? 240)%nat then three 128%nat 191%nat
      else if (n =? 240)%nat then four 144%nat 191%nat
      else if (n <? 244)%nat then four 128%nat 191%nat
      else if (n =? 244)%nat then four 128%nat 143%nat
      else None
  end.

(** [utf8.RuneCountInString]; [skip] bytes belong to the rune before. *)
Fixpoint runeCountFrom (skip : nat) (s : string) : nat :=
  match s, skip with
  | EmptyString, _ => 0%nat
  | String _ s', S k => runeCountFrom k s'
  | String _ s', O => S (runeCountFrom (default 1%nat (runeLen s) - 1) s')
  end.
Definition RuneCount (s : string) : nat := runeCountFrom 0 s.

(** [bytes.ToValidUTF8(s, nil)]: invalid bytes are left out. *)
Fixpoint toValidFrom (skip : nat) (s : string) : string :=
  match s, skip with
  | EmptyString, _ => EmptyString
  | String a s', S k => String a (toValidFrom k s')
  | String a s', O =>
      match runeLen s with
      | Some n => String a (toValidFrom (n - 1) s')
      | None => toValidFrom 0 s'
      end
  end.
Definition ToValidUTF8 (s : string) : string := toValidFrom 0 s.

Example utf8_ex :
  (RuneCount "µs", ToValidUTF8 ("a" +:+ String "255" "b"), TrimSpace "  x y "%string) = (2%nat, "ab"%string, "x y"%string).
Proof. by vm_compute. Qed.

(** ** Lemmas *)

Lemma app_cons a (p s : string) : String a p +:+ s = String a (p +:+ s).
Proof. done. Qed.
Lemma app_empty (s : string) : EmptyString +:+ s = s.
Proof. done. Qed.

Lemma CutPrefix_app p s : CutPrefix (p +:+ s) p = Some s.
Proof.
  induction p as [|a p IH]; [by destruct s|].
  rewrite app_cons. cbn. by rewrite decide_True.
Qed.

Lemma CutPrefix_Some s p r : CutPrefix s p = Some r → s = p +:+ r.
Proof.
  revert s. induction p as [|a p IH]; intros [|b s]; cbn; intros H; simplify_eq/=; try done.
  case_decide; [|done]. subst. by rewrite (IH _ H), app_cons.
Qed.

Lemma Cut_None_iff s c : Cut s c = None ↔ all_chars (λ a, negb (bool_decide (a = c))) s = true.
Proof.
  induction s as [|a s IH]; cbn; [done|]. case_decide; case_bool_decide; try done.
  cbn. rewrite <-IH. by destruct (Cut s c) as [[??]|].
Qed.

Lemma Cut_Some s c b r :
  Cut s c = Some (b, r) →
  s = b +:+ String c r ∧ all_chars (λ a, negb (bool_decide (a = c))) b = true.
Proof.
  revert b. induction s as [|a s IH]; cbn; intros b H; [done|].
  case_decide; simplify_eq/=; [done|].
  destruct (Cut s c) as [[b' r']|] eqn:E; [|done]. simplify_eq/=.
  destruct (IH _ eq_refl) as [-> Hb]. split; [done|].
  rewrite bool_decide_eq_false_2 by done. by rewrite Hb.
Qed.

Lemma Cut_app b c r :
  all_chars (λ a, negb (bool_decide (a = c))) b = true →
  Cut (b +:+ String c r) c = Some (b, r).
Proof.
  induction b as [|a b IH]; rewrite ?app_cons, ?app_empty; cbn; intros H;
    [by rewrite decide_True|].
  apply andb_true_iff in H as [Ha Hb]. case_bool_decide; [done|].
  rewrite decide_False by done. by rewrite IH.
Qed.

Lemma digit_range a d : digit a = Some d → 0 ≤ d ≤ 9.
Proof.
  unfold digit. destruct (Ascii.is_nat a) as [n|] eqn:E; [|done]. intros [= <-].
  assert (n ≤ 9)%nat; [|lia].
  destruct a as [[] [] [] [] [] [] [] []]; cbn in E; simplify_eq; lia.
Qed.

Lemma parse_digits_nonneg s acc v :
  0 ≤ acc → parse_digits s acc = Some v → 0 ≤ v.
Proof.
  revert acc. induction s as [|a s IH]; cbn; intros acc Hacc H; [by simplify_eq|].
  destruct (digit a) as [d|] eqn:E; [|done]. apply digit_range in E.
  eapply IH; [|exact H]. lia.
Qed.

Lemma ParseUint_range s bits v : ParseUint s bits = Some v → 0 ≤ v < 2 ^ bits.
Proof.
  unfold ParseUint. destruct s as [|a s]; [done|].
  destruct (parse_digits _ 0) as [w|] eqn:E; [|done].
  case_decide; intros [= <-]. split; [|done].
  by eapply parse_digits_nonneg; [|exact E].
Qed.

(** Printing a number and parsing it back. *)
Lemma digit_pretty_char x : (x < 10)%N → digit (pretty_N_char x) = Some (Z.of_N x).
Proof.
  intros Hx. assert (x = 0 ∨ x = 1 ∨ x = 2 ∨ x = 3 ∨ x = 4 ∨ x = 5 ∨ x = 6
    ∨ x = 7 ∨ x = 8 ∨ x = 9)%N as H by lia.
  by repeat destruct H as [->|H]; [..|subst].
Qed.

Lemma parse_digits_pretty_go x s acc :
  ∃ k, parse_digits (pretty_N_go x s) acc = parse_digits s (acc * 10 ^ Z.of_nat k + Z.of_N x)
       ∧ (x = 0%N → k = 0%nat).
Proof.
  revert s acc. induction (N.lt_wf_0 x) as [x _ IH]; intros s acc.
  assert (x = 0 ∨ 0 < x)%N as [->|Hx] by lia.
  { exists 0%nat. split; [|done]. rewrite pretty_N_go_0. f_equal. cbn. lia. }
  rewrite pretty_N_go_step by done.
  destruct (IH (x `div` 10)%N) with (s := String (pretty_N_char (x `mod` 10)) s) (acc := acc)
    as [k [-> _]]; [by apply N.div_lt|].
  exists (S k). split; [|lia]. cbn [parse_digits].
  rewrite digit_pretty_char by (by apply N.mod_lt). f_equal.
  rewrite Nat2Z.inj_succ, Z.pow_succ_r by lia.
  rewrite (N.div_mod x 10) at 3 by done. lia.
Qed.

Lemma ParseUint_Itoa z bits : 0 ≤ z < 2 ^ bits → ParseUint (Itoa z) bits = Some z.
Proof.
  intros Hz. unfold Itoa.
  assert (∃ a s, pretty z = String a s ∧ parse_digits (pretty z) 0 = Some z)
    as (a & s & Hs & Hp).
  { destruct z as [|p|p]; [by eexists _, _| |lia].
    change (pretty (Z.pos p)) with (pretty (N.pos p)).
    unfold pretty, pretty_N. rewrite decide_False by done.
    destruct (parse_digits_pretty_go (N.pos p) EmptyString 0) as (k & Hk & _).
    destruct (pretty_N_go (N.pos p) EmptyString) as [|a s] eqn:E.
    { cbn in Hk. injection Hk. lia. }
    eexists _, _. split; [done|]. rewrite Hk. done. }
  unfold ParseUint. rewrite Hp, Hs. by rewrite decide_True by lia.
Qed.

Lemma sortStrings_perm l : sortStrings l ≡ₚ l.
Proof. apply merge_sort_Permutation. Qed.

Lemma sortStrings_sorted l : Sorted String.le (sortStrings l).
Proof. apply Sorted_merge_sort, _. Qed.

End GoStrings.
Export GoStrings.
