(* ===== verification/Floats.v ===== *)
(** * float64

    The double-precision arithmetic of Go on [SpecFloat]: conversions from and
    to integers, and the lemma the duration parser rests on, that products of
    integers below 2^53 are exact. *)

From Stdlib Require Import SpecFloat.
From S2P Require Import Prelude.

Module Floats.

Abbreviation float := spec_float.

(** [a * b], [a / b] and [a + b] on float64. *)
Definition fmul (a b : float) : float := SFmul 53 1024 a b.
Definition fdiv (a b : float) : float := SFdiv 53 1024 a b.
Definition fadd (a b : float) : float := SFadd 53 1024 a b.

(** [float64(z)], rounded to nearest. *)
Definition float_of_Z (z : Z) : float := binary_normalize 53 1024 z 0 false.

(** [uint64(f)] and [int64(f)] of a value in range: truncation. *)
Definition float_to_Z (f : float) : Z :=
  match f with
  | S754_finite s m e =>
      cond_Zopp s (if 0 <=? e then Z.pos m * 2 ^ e else Z.pos m / 2 ^ (- e))
  | _ => 0
  end.

(** ** Digits *)

Lemma digits2_log2 p : Z.pos (digits2_pos p) = Z.log2 (Z.pos p) + 1.
Proof.
  induction p as [p IH|p IH|]; cbn [digits2_pos]; [| |done]; rewrite Pos2Z.inj_succ, IH.
  - change (Z.pos p~1) with (2 * Z.pos p + 1). rewrite Z.log2_succ_double by lia. lia.
  - change (Z.pos p~0) with (2 * Z.pos p). rewrite Z.log2_double by lia. lia.
Qed.

Lemma digits2_shift p k : 0 ≤ k → Z.pos (digits2_pos (Z.to_pos (Z.pos p * 2 ^ k))) = Z.pos (digits2_pos p) + k.
Proof.
  intros Hk. rewrite !digits2_log2, Z2Pos.id by (pose proof (Z.pow_pos_nonneg 2 k); lia).
  rewrite Z.log2_mul_pow2 by lia. lia.
Qed.

Lemma digits2_le p k : 0 ≤ k → Z.pos p < 2 ^ k → Z.pos (digits2_pos p) ≤ k.
Proof. intros Hk Hp. rewrite digits2_log2. apply Z.log2_lt_pow2 in Hp; lia. Qed.

Lemma iter_xO p d : Z.pos (Pos.iter xO p d) = Z.pos p * 2 ^ Z.pos d.
Proof.
  induction d as [|d IH] using Pos.peano_ind; [cbn; lia|].
  rewrite Pos.iter_succ, Pos2Z.inj_succ, Z.pow_succ_r by lia. lia.
Qed.

(** ** Exact rounding *)

Lemma iter_pos_nat {A} (f : A → A) p x : SpecFloat.iter_pos f p x = Nat.iter (Pos.to_nat p) f x.
Proof.
  revert x. induction p as [p IH|p IH|]; intros x; cbn [SpecFloat.iter_pos]; [| |done]; rewrite !IH.
  - rewrite <-Nat.iter_succ_r, <-Nat.iter_add. f_equal. lia.
  - rewrite <-Nat.iter_add. f_equal. lia.
Qed.

Lemma shr_exact m n :
  0 < m → Nat.iter n shr_1 (Build_shr_record (m * 2 ^ Z.of_nat n) false false) = Build_shr_record m false false.
Proof.
  intros Hm. induction n as [|n IH]; [by cbn; rewrite Z.mul_1_r|].
  rewrite Nat2Z.inj_succ, Z.pow_succ_r, Nat.iter_succ_r by lia.
  replace (m * (2 * 2 ^ Z.of_nat n)) with (2 * (m * 2 ^ Z.of_nat n)) by lia.
  pose proof (Z.pow_pos_nonneg 2 (Z.of_nat n)).
  destruct (m * 2 ^ Z.of_nat n) as [|p|p] eqn:E; [lia| |lia]. exact IH.
Qed.

(** Rounding a mantissa whose low bits are zero: nothing is lost. *)
Lemma shr_fexp_exact p n e :
  0 ≤ n → fexp 53 1024 (Z.pos (digits2_pos p) + n + e) = e + n →
  shr_fexp 53 1024 (Z.pos p * 2 ^ n) e loc_Exact = (Build_shr_record (Z.pos p) false false, e + n).
Proof.
  intros Hn Hf. unfold shr_fexp. cbn [shr_record_of_loc].
  assert (0 < Z.pos p * 2 ^ n) as Hpos by (pose proof (Z.pow_pos_nonneg 2 n); lia).
  assert (Zdigits2 (Z.pos p * 2 ^ n) = Z.pos (digits2_pos p) + n) as ->.
  { rewrite <-digits2_shift by done. destruct (Z.pos p * 2 ^ n); [lia|done|lia]. }
  rewrite Hf. replace (e + n - e) with n by lia.
  destruct n as [|n|n]; [|clear Hf|lia]; cbn [shr].
  - by rewrite Z.pow_0_r, Z.mul_1_r, Z.add_0_r.
  - rewrite iter_pos_nat. f_equal. rewrite <-(positive_nat_Z n). by apply shr_exact.
Qed.

Lemma round_exact p n e :
  0 ≤ n → fexp 53 1024 (Z.pos (digits2_pos p) + n + e) = e + n → e + n ≤ 971 →
  binary_round_aux 53 1024 false (Z.pos p * 2 ^ n) e loc_Exact = S754_finite false p (e + n).
Proof.
  intros Hn Hf He. unfold binary_round_aux. rewrite shr_fexp_exact by done. cbn [shr_m loc_of_shr_record round_nearest_even].
  pose proof (shr_fexp_exact p 0 (e + n)) as H2. rewrite Z.pow_0_r, Z.mul_1_r, !Z.add_0_r in H2.
  rewrite H2; [|lia|etrans; [|exact Hf]; f_equal; lia]. cbn [shr_m].
  rewrite (proj2 (Z.leb_le _ _)); [done|]. cbn. lia.
Qed.

(** ** Integers below 2^53 *)

(** The float64 of a positive integer: a mantissa of 53 digits. *)
Definition mant (p : positive) : positive := Z.to_pos (Z.pos p * 2 ^ (53 - Z.pos (digits2_pos p))).
Definition expo (p : positive) : Z := Z.pos (digits2_pos p) - 53.

Lemma mant_pos p : Z.pos (digits2_pos p) ≤ 53 → Z.pos (mant p) = Z.pos p * 2 ^ (53 - Z.pos (digits2_pos p)).
Proof. intros Hp. unfold mant. rewrite Z2Pos.id; [done|]. pose proof (Z.pow_pos_nonneg 2 (53 - Z.pos (digits2_pos p))). lia. Qed.

Lemma digits2_mant p : Z.pos (digits2_pos p) ≤ 53 → Z.pos (digits2_pos (mant p)) = 53.
Proof. intros Hp. unfold mant. rewrite digits2_shift; lia. Qed.

Lemma fexp_normal d : -1000 ≤ d → fexp 53 1024 d = d - 53.
Proof. unfold fexp, emin. lia. Qed.

Lemma float_of_pos p : Z.pos (digits2_pos p) ≤ 53 → float_of_Z (Z.pos p) = S754_finite false (mant p) (expo p).
Proof.
  intros Hp. unfold float_of_Z, binary_normalize, binary_round. rewrite fexp_normal by lia.
  assert (shl_align p 0 (Z.pos (digits2_pos p) + 0 - 53) = (mant p, expo p)) as ->.
  { unfold shl_align, expo. replace (Z.pos (digits2_pos p) + 0 - 53 - 0) with (- (53 - Z.pos (digits2_pos p))) by lia.
    destruct (53 - Z.pos (digits2_pos p)) as [|k|k] eqn:E; [| |lia]; cbn [Z.opp].
    - f_equal; [|lia]. unfold mant. by rewrite E, Z.pow_0_r, Z.mul_1_r.
    - f_equal. apply Pos2Z.inj. rewrite iter_xO, mant_pos by done. by rewrite E. }
  pose proof (round_exact (mant p) 0 (expo p)) as Hr. rewrite Z.pow_0_r, Z.mul_1_r, !Z.add_0_r in Hr.
  apply Hr; [lia| |unfold expo; lia]. rewrite digits2_mant by done. unfold expo. rewrite fexp_normal; lia.
Qed.

Lemma float_of_Z_digits z : 0 < z < 2 ^ 53 → ∃ p, z = Z.pos p ∧ Z.pos (digits2_pos p) ≤ 53.
Proof. intros Hz. destruct z as [|p|p]; [lia| |lia]. exists p. split; [done|]. apply digits2_le; lia. Qed.

Lemma fmul_exact a b :
  0 < a → 0 < b → a * b < 2 ^ 53 → fmul (float_of_Z a) (float_of_Z b) = float_of_Z (a * b).
Proof.
  intros Ha Hb Hab.
  destruct (float_of_Z_digits a) as (p & -> & Hp); [nia|]. destruct (float_of_Z_digits b) as (q & -> & Hq); [nia|].
  assert (Z.pos (digits2_pos (p * q)) ≤ 53) as Hpq by (apply digits2_le; lia).
  rewrite <-Pos2Z.inj_mul, !float_of_pos by done. cbn [fmul SFmul xorb].
  set (n := Z.pos (digits2_pos (p * q)) + 53 - Z.pos (digits2_pos p) - Z.pos (digits2_pos q)).
  assert (0 ≤ n) as Hn.
  { unfold n. rewrite !digits2_log2, Pos2Z.inj_mul. pose proof (Z.log2_mul_below (Z.pos p) (Z.pos q)). lia. }
  assert (Z.pos (mant p * mant q) = Z.pos (mant (p * q)) * 2 ^ n) as ->.
  { rewrite !Pos2Z.inj_mul, !mant_pos by done. rewrite Pos2Z.inj_mul. unfold n.
    set (dp := Z.pos (digits2_pos p)) in *. set (dq := Z.pos (digits2_pos q)) in *. set (d := Z.pos (digits2_pos (p * q))) in *.
    replace (Z.pos p * 2 ^ (53 - dp) * (Z.pos q * 2 ^ (53 - dq))) with (Z.pos p * Z.pos q * (2 ^ (53 - dp) * 2 ^ (53 - dq))) by lia.
    rewrite <-Z.pow_add_r, <-(Z.mul_assoc _ (2 ^ (53 - d))), <-Z.pow_add_r by lia. do 2 f_equal. lia. }
  assert (expo p + expo q + n = expo (p * q)) as He by (unfold n, expo; lia).
  unfold fmul, SFmul. cbn [xorb]. rewrite round_exact; rewrite ?He; [done|done| |unfold expo; lia].
  rewrite digits2_mant by done. rewrite fexp_normal; unfold n, expo in *; lia.
Qed.

Lemma float_to_of_Z z : 0 ≤ z < 2 ^ 53 → float_to_Z (float_of_Z z) = z.
Proof.
  intros Hz. destruct (decide (z = 0)) as [->|Hne]; [done|].
  destruct (float_of_Z_digits z) as (p & -> & Hp); [lia|]. rewrite float_of_pos by done. cbn [float_to_Z cond_Zopp].
  rewrite mant_pos by done. unfold expo. destruct (Z.leb_spec 0 (Z.pos (digits2_pos p) - 53)) as [He|He].
  - replace (Z.pos (digits2_pos p)) with 53 by lia. cbn. lia.
  - replace (- (Z.pos (digits2_pos p) - 53)) with (53 - Z.pos (digits2_pos p)) by lia.
    apply Z.div_mul. pose proof (Z.pow_pos_nonneg 2 (53 - Z.pos (digits2_pos p))). lia.
Qed.

End Floats.
