(* ===== verification/Config.v ===== *)
(** * The configuration: the structs of internal/config/config.go

    One [Record] per struct, in the source's field order; a field is named
    after the struct it belongs to and the Go field ([VIP_Prefix] is
    [VIPConfig.Prefix]).  A pointer field is an [option], a slice a [slice]
    (nil or a list), a map a [gomap] (nil or a map), a [*Duration] an
    [option Z] of nanoseconds, a [float64] an IEEE value of [SpecFloat].
    [deepEqual] is [reflect.DeepEqual] on each of them. *)

From S2P Require Import Prelude GoStrings.
From Stdlib Require Import SpecFloat.

Module Config.

Abbreviation float64 := spec_float.

(** ** Check type constants *)
Definition CheckTypeHTTP : string := "http".
Definition CheckTypeDNS : string := "dns".
Definition CheckTypePing : string := "ping".
Definition CheckTypeUDP : string := "udp".
Definition CheckTypeTCP : string := "tcp".
Definition CheckTypeGRPC : string := "grpc".
Definition CheckTypeListen : string := "listen".
Definition CheckTypeSQL : string := "sql".
Definition CheckTypeKafka : string := "kafka".

Definition KafkaSASLPlain : string := "plain".
Definition KafkaSASLScramSHA256 : string := "scram-sha-256".
Definition KafkaSASLScramSHA512 : string := "scram-sha-512".

Definition SQLDriverMySQL : string := "mysql".
Definition SQLDriverPostgres : string := "postgres".

(** ** Sections of the file *)
Record PathsConfig := mkPathsConfig { Paths_Procfs : string }.

Record OTelSignalConfig := mkOTelSignalConfig {
  Sig_Endpoint : string;
  Sig_Enabled : option bool;
  Sig_Insecure : option bool;
  Sig_Headers : gomap string }.

Record OTelConfig := mkOTelConfig {
  OTel_Enabled : option bool;
  OTel_Endpoint : string;
  OTel_Insecure : bool;
  OTel_Headers : gomap string;
  OTel_ServiceName : string;
  OTel_Traces : OTelSignalConfig;
  OTel_Metrics : OTelSignalConfig;
  OTel_Logs : OTelSignalConfig }.

Record RouterConfig := mkRouterConfig {
  Router_ASN : Z;
  Router_RouterID : string;
  Router_LocalAddress : string;
  Router_LocalAddressIPv6 : string }.

Record APIConfig := mkAPIConfig {
  API_Listen : string;
  API_ReadHeaderTimeout : option Z;
  API_ReadTimeout : option Z;
  API_WriteTimeout : option Z;
  API_IdleTimeout : option Z }.

Record LoggingConfig := mkLoggingConfig {
  Logging_Level : string;
  Logging_Format : string;
  Logging_OTelLevel : string;
  Logging_Timestamps : option bool }.

Record GoBGPAPIConfig := mkGoBGPAPIConfig {
  GoBGPAPI_Enabled : bool;
  GoBGPAPI_Listen : string }.

Record BFDConfig := mkBFDConfig {
  BFD_Enabled : bool;
  BFD_Port : Z;
  BFD_DesiredMinimumTxInterval : Z;
  BFD_RequiredMinimumReceive : Z;
  BFD_DetectionMultiplier : Z }.

Record NeighborConfig := mkNeighborConfig {
  Neighbor_Name : string;
  Neighbor_Address : string;
  Neighbor_PeerASN : Z;
  Neighbor_Required : option bool;
  Neighbor_Port : Z;
  Neighbor_LocalAddress : string;
  Neighbor_Passive : bool;
  Neighbor_EnableMultihop : bool;
  Neighbor_MultihopTTL : Z;
  Neighbor_BFD : option BFDConfig;
  Neighbor_AuthPassword : string }.

Record BGPConfig := mkBGPConfig {
  BGP_GracefulRestart : option bool;
  BGP_HoldTime : option Z;
  BGP_KeepaliveTime : option Z;
  BGP_ListenAddress : string;
  BGP_ListenPort : Z;
  BGP_GoBGPAPI : GoBGPAPIConfig;
  BGP_Neighbors : slice NeighborConfig }.

(** ** Checks *)
Record HTTPCheckConfig := mkHTTPCheckConfig {
  HTTP_URL : string;
  HTTP_Proto : string;
  HTTP_Host : string;
  HTTP_Port : Z;
  HTTP_Method : string;
  HTTP_ResponseCodes : slice Z;
  HTTP_ResponseText : string;
  HTTP_ResponseRegex : string;
  HTTP_ResponseJQ : string;
  HTTP_TLSInsecure : bool;
  HTTP_TLSCACert : string;
  HTTP_TLSServerName : string;
  HTTP_Proxy : string;
  HTTP_Headers : gomap string;
  HTTP_KeepAlive : bool }.

Record TCPCheckConfig := mkTCPCheckConfig { TCP_Host : string; TCP_Port : Z }.

Record UDPCheckConfig := mkUDPCheckConfig {
  UDP_Host : string;
  UDP_Port : Z;
  UDP_Payload : string }.

Record ListenCheckConfig := mkListenCheckConfig {
  Listen_Proto : string;
  Listen_Port : Z;
  Listen_Host : string;
  Listen_NetnsPID : Z;
  Listen_Procfs : string }.

Record SQLQueryConfig := mkSQLQueryConfig {
  Query_Name : string;
  Query_SQL : string;
  Query_ResultJQ : string }.

Record SQLCheckConfig := mkSQLCheckConfig {
  SQL_Driver : string;
  SQL_Host : string;
  SQL_Port : Z;
  SQL_User : string;
  SQL_Password : string;
  SQL_Database : string;
  SQL_TLS : bool;
  SQL_TLSInsecure : bool;
  SQL_TLSCACert : string;
  SQL_TLSServerName : string;
  SQL_KeepAlive : bool;
  SQL_Queries : slice SQLQueryConfig;
  SQL_MaxRows : Z }.

Record KafkaSASLConfig := mkKafkaSASLConfig {
  SASL_Mechanism : string;
  SASL_User : string;
  SASL_Password : string }.

Record KafkaCheckConfig := mkKafkaCheckConfig {
  Kafka_Host : string;
  Kafka_Port : Z;
  Kafka_ClientID : string;
  Kafka_TLS : bool;
  Kafka_TLSInsecure : bool;
  Kafka_TLSCACert : string;
  Kafka_TLSServerName : string;
  Kafka_SASL : option KafkaSASLConfig;
  Kafka_Topic : string;
  Kafka_MinBrokers : Z }.

Record DNSCheckConfig := mkDNSCheckConfig {
  DNS_Names : slice string;
  DNS_Resolver : string;
  DNS_Port : Z;
  DNS_QueryType : string }.

Record GRPCCheckConfig := mkGRPCCheckConfig {
  GRPC_Host : string;
  GRPC_Port : Z;
  GRPC_TLS : bool;
  GRPC_TLSInsecure : bool;
  GRPC_TLSCACert : string;
  GRPC_TLSServerName : string;
  GRPC_Method : string;
  GRPC_Service : string;
  GRPC_OKCodes : slice string;
  GRPC_Metadata : gomap string }.

Record PingCheckConfig := mkPingCheckConfig {
  Ping_DstIP : string;
  Ping_SrcIP : string;
  Ping_Privileged : bool;
  Ping_Count : Z;
  Ping_Timeout : option Z;
  Ping_Interval : option Z;
  Ping_MaxLossRatio : float64 }.

Record CheckConfig := mkCheckConfig {
  Check_Name : string;
  Check_Type : string;
  Check_DetailedMetrics : bool;
  Check_Interval : option Z;
  Check_Timeout : option Z;
  Check_Rise : option Z;
  Check_Fall : option Z;
  Check_HTTP : option HTTPCheckConfig;
  Check_DNS : option DNSCheckConfig;
  Check_Ping : option PingCheckConfig;
  Check_UDP : option UDPCheckConfig;
  Check_TCP : option TCPCheckConfig;
  Check_Listen : option ListenCheckConfig;
  Check_SQL : option SQLCheckConfig;
  Check_Kafka : option KafkaCheckConfig;
  Check_GRPC : option GRPCCheckConfig }.

(** ** Policy and VIPs *)
Record AnnounceConfig := mkAnnounceConfig {
  Announce_ASPathPrepend : option Z;
  Announce_Communities : slice string }.

Record LowerPriorityConfig := mkLowerPriorityConfig {
  LowerPriority_ASPathPrepend : option Z;
  LowerPriority_Communities : slice string }.

Record PolicyConfig := mkPolicyConfig {
  Policy_FailAction : string;
  Policy_LowerPriorityFile : string;
  Policy_Announce : option AnnounceConfig;
  Policy_LowerPriority : option LowerPriorityConfig }.

Record VIPConfig := mkVIPConfig {
  VIP_Name : string;
  VIP_Prefix : string;
  VIP_Check : CheckConfig;
  VIP_Checks : slice CheckConfig;
  VIP_ChecksPolicy : string;
  VIP_Policy : PolicyConfig;
  VIP_RequireLocalAddress : bool;
  VIP_LocalInterface : string }.

Record Config := mkConfig {
  Cfg_Schema : string;
  Cfg_Router : RouterConfig;
  Cfg_API : APIConfig;
  Cfg_Logging : LoggingConfig;
  Cfg_OTel : OTelConfig;
  Cfg_Paths : PathsConfig;
  Cfg_BGP : BGPConfig;
  Cfg_VIPs : slice VIPConfig }.

(** ** Methods *)

Definition ChecksPolicyAll : string := "all".
Definition ChecksPolicyAny : string := "any".

(** [VIPConfig.CheckList]. *)
Definition CheckList (v : VIPConfig) : list CheckConfig :=
  match elems (VIP_Checks v) with
  | [] => [VIP_Check v]
  | l => l
  end.

(** [VIPConfig.EffectiveChecksPolicy]. *)
Definition EffectiveChecksPolicy (v : VIPConfig) : string :=
  if decide (VIP_ChecksPolicy v = EmptyString) then ChecksPolicyAll else VIP_ChecksPolicy v.

(** [CheckConfig.EffectiveName]. *)
Definition EffectiveName (c : CheckConfig) : string :=
  if decide (Check_Name c = EmptyString) then Check_Type c else Check_Name c.

(** [SQLQueryConfig.EffectiveName]. *)
Definition Query_EffectiveName (q : SQLQueryConfig) (index : Z) : string :=
  if decide (Query_Name q = EmptyString) then "q" +:+ Itoa (index + 1) else Query_Name q.

(** The names of a VIP's checks, in config order. *)
Definition checkNames (v : VIPConfig) : list string := EffectiveName <$> CheckList v.

(** *** OpenTelemetry signals *)
Definition EffectiveEndpoint (s : OTelSignalConfig) (global : string) : string :=
  if decide (Sig_Endpoint s = EmptyString) then global else Sig_Endpoint s.

Definition IsEnabled (s : OTelSignalConfig) : bool :=
  match Sig_Enabled s with None => true | Some b => b end.

Definition OTel_IsEnabled (o : OTelConfig) : bool :=
  match OTel_Enabled o with None => true | Some b => b end.

Definition EffectiveInsecure (s : OTelSignalConfig) (global : bool) : bool :=
  match Sig_Insecure s with Some b => b | None => global end.

(** [maps.Copy(dst, src)]: writing any entry to a nil map panics. *)
Definition mapsCopy {V} (dst src : gomap V) : outcome (gomap V) :=
  match dst with
  | Some d => Ret (Some (entries src ∪ d))
  | None => if decide (entries src = ∅) then Ret None else Panic
  end.

(** [EffectiveHeaders]: [maps.Clone] keeps nil nil. *)
Definition EffectiveHeaders (s : OTelSignalConfig) (global : gomap string)
    : outcome (gomap string) :=
  if decide (size (entries (Sig_Headers s)) = 0%nat) then Ret global
  else mapsCopy global (Sig_Headers s).

Inductive OTelProtocol := OTelProtocolGRPC | OTelProtocolHTTP.

(** [ParseOTelEndpoint]; [None] is the error for an unrecognised scheme. *)
Definition ParseOTelEndpoint (rawURL : string) : option (OTelProtocol * string) :=
  match CutPrefix rawURL "grpcs://" with
  | Some rest => Some (OTelProtocolGRPC, "https://" +:+ rest)
  | None =>
      match CutPrefix rawURL "grpc://" with
      | Some rest => Some (OTelProtocolGRPC, "http://" +:+ rest)
      | None =>
          if HasPrefix rawURL "https://" || HasPrefix rawURL "http://"
          then Some (OTelProtocolHTTP, rawURL)
          else None
      end
  end.

(** ** [reflect.DeepEqual] *)

Class DeepEqual (A : Type) := deepEqual : A → A → bool.
#[export] Hint Mode DeepEqual ! : typeclass_instances.

#[export] Instance deepEqual_string : DeepEqual string := λ a b, bool_decide (a = b).
#[export] Instance deepEqual_Z : DeepEqual Z := λ a b, bool_decide (a = b).
#[export] Instance deepEqual_bool : DeepEqual bool := λ a b, bool_decide (a = b).
(** Floats compare with [==]: 0 equals -0, NaN differs from itself. *)
#[export] Instance deepEqual_float : DeepEqual float64 := SFeqb.
(** Pointers: both nil, or pointing to deeply equal values. *)
#[export] Instance deepEqual_option `{DeepEqual A} : DeepEqual (option A) := λ a b,
  match a, b with
  | None, None => true
  | Some x, Some y => deepEqual x y
  | _, _ => false
  end.
#[export] Instance deepEqual_list `{DeepEqual A} : DeepEqual (list A) :=
  fix go l k :=
    match l, k with
    | [], [] => true
    | x :: l', y :: k' => deepEqual x y && go l' k'
    | _, _ => false
    end.
(** Slices are deeply equal when both are nil or both are not. *)
#[export] Instance deepEqual_slice `{DeepEqual A} : DeepEqual (slice A) := deepEqual_option.
#[export] Instance deepEqual_gmap `{EqDecision V} : DeepEqual (gmap string V) :=
  λ a b, bool_decide (a = b).
#[export] Instance deepEqual_gomap `{EqDecision V} : DeepEqual (gomap V) := deepEqual_option.

(** Structs: field by field. [a ==. f .== b] compares one field. *)
Definition deepEqual_on {R A} `{DeepEqual A} (f : R → A) (a b : R) : bool :=
  deepEqual (f a) (f b).

#[export] Instance deepEqual_Paths : DeepEqual PathsConfig := λ a b,
  deepEqual_on Paths_Procfs a b.
#[export] Instance deepEqual_Sig : DeepEqual OTelSignalConfig := λ a b,
  deepEqual_on Sig_Endpoint a b && deepEqual_on Sig_Enabled a b &&
  deepEqual_on Sig_Insecure a b && deepEqual_on Sig_Headers a b.
#[export] Instance deepEqual_OTel : DeepEqual OTelConfig := λ a b,
  deepEqual_on OTel_Enabled a b && deepEqual_on OTel_Endpoint a b &&
  deepEqual_on OTel_Insecure a b && deepEqual_on OTel_Headers a b &&
  deepEqual_on OTel_ServiceName a b && deepEqual_on OTel_Traces a b &&
  deepEqual_on OTel_Metrics a b && deepEqual_on OTel_Logs a b.
#[export] Instance deepEqual_Router : DeepEqual RouterConfig := λ a b,
  deepEqual_on Router_ASN a b && deepEqual_on Router_RouterID a b &&
  deepEqual_on Router_LocalAddress a b && deepEqual_on Router_LocalAddressIPv6 a b.
#[export] Instance deepEqual_API : DeepEqual APIConfig := λ a b,
  deepEqual_on API_Listen a b && deepEqual_on API_ReadHeaderTimeout a b &&
  deepEqual_on API_ReadTimeout a b && deepEqual_on API_WriteTimeout a b &&
  deepEqual_on API_IdleTimeout a b.
#[export] Instance deepEqual_Logging : DeepEqual LoggingConfig := λ a b,
  deepEqual_on Logging_Level a b && deepEqual_on Logging_Format a b &&
  deepEqual_on Logging_OTelLevel a b && deepEqual_on Logging_Timestamps a b.
#[export] Instance deepEqual_GoBGPAPI : DeepEqual GoBGPAPIConfig := λ a b,
  deepEqual_on GoBGPAPI_Enabled a b && deepEqual_on GoBGPAPI_Listen a b.
#[export] Instance deepEqual_BFD : DeepEqual BFDConfig := λ a b,
  deepEqual_on BFD_Enabled a b && deepEqual_on BFD_Port a b &&
  deepEqual_on BFD_DesiredMinimumTxInterval a b &&
  deepEqual_on BFD_RequiredMinimumReceive a b && deepEqual_on BFD_DetectionMultiplier a b.
#[export] Instance deepEqual_Neighbor : DeepEqual NeighborConfig := λ a b,
  deepEqual_on Neighbor_Name a b && deepEqual_on Neighbor_Address a b &&
  deepEqual_on Neighbor_PeerASN a b && deepEqual_on Neighbor_Required a b &&
  deepEqual_on Neighbor_Port a b && deepEqual_on Neighbor_LocalAddress a b &&
  deepEqual_on Neighbor_Passive a b && deepEqual_on Neighbor_EnableMultihop a b &&
  deepEqual_on Neighbor_MultihopTTL a b && deepEqual_on Neighbor_BFD a b &&
  deepEqual_on Neighbor_AuthPassword a b.
#[export] Instance deepEqual_BGP : DeepEqual BGPConfig := λ a b,
  deepEqual_on BGP_GracefulRestart a b && deepEqual_on BGP_HoldTime a b &&
  deepEqual_on BGP_KeepaliveTime a b && deepEqual_on BGP_ListenAddress a b &&
  deepEqual_on BGP_ListenPort a b && deepEqual_on BGP_GoBGPAPI a b &&
  deepEqual_on BGP_Neighbors a b.
#[export] Instance deepEqual_HTTP : DeepEqual HTTPCheckConfig := λ a b,
  deepEqual_on HTTP_URL a b && deepEqual_on HTTP_Proto a b && deepEqual_on HTTP_Host a b &&
  deepEqual_on HTTP_Port a b && deepEqual_on HTTP_Method a b &&
  deepEqual_on HTTP_ResponseCodes a b && deepEqual_on HTTP_ResponseText a b &&
  deepEqual_on HTTP_ResponseRegex a b && deepEqual_on HTTP_ResponseJQ a b &&
  deepEqual_on HTTP_TLSInsecure a b && deepEqual_on HTTP_TLSCACert a b &&
  deepEqual_on HTTP_TLSServerName a b && deepEqual_on HTTP_Proxy a b &&
  deepEqual_on HTTP_Headers a b && deepEqual_on HTTP_KeepAlive a b.
#[export] Instance deepEqual_TCP : DeepEqual TCPCheckConfig := λ a b,
  deepEqual_on TCP_Host a b && deepEqual_on TCP_Port a b.
#[export] Instance deepEqual_UDP : DeepEqual UDPCheckConfig := λ a b,
  deepEqual_on UDP_Host a b && deepEqual_on UDP_Port a b && deepEqual_on UDP_Payload a b.
#[export] Instance deepEqual_Listen : DeepEqual ListenCheckConfig := λ a b,
  deepEqual_on Listen_Proto a b && deepEqual_on Listen_Port a b &&
  deepEqual_on Listen_Host a b && deepEqual_on Listen_NetnsPID a b &&
  deepEqual_on Listen_Procfs a b.
#[export] Instance deepEqual_Query : DeepEqual SQLQueryConfig := λ a b,
  deepEqual_on Query_Name a b && deepEqual_on Query_SQL a b && deepEqual_on Query_ResultJQ a b.
#[export] Instance deepEqual_SQL : DeepEqual SQLCheckConfig := λ a b,
  deepEqual_on SQL_Driver a b && deepEqual_on SQL_Host a b && deepEqual_on SQL_Port a b &&
  deepEqual_on SQL_User a b && deepEqual_on SQL_Password a b && deepEqual_on SQL_Database a b &&
  deepEqual_on SQL_TLS a b && deepEqual_on SQL_TLSInsecure a b &&
  deepEqual_on SQL_TLSCACert a b && deepEqual_on SQL_TLSServerName a b &&
  deepEqual_on SQL_KeepAlive a b && deepEqual_on SQL_Queries a b && deepEqual_on SQL_MaxRows a b.
#[export] Instance deepEqual_SASL : DeepEqual KafkaSASLConfig := λ a b,
  deepEqual_on SASL_Mechanism a b && deepEqual_on SASL_User a b && deepEqual_on SASL_Password a b.
#[export] Instance deepEqual_Kafka : DeepEqual KafkaCheckConfig := λ a b,
  deepEqual_on Kafka_Host a b && deepEqual_on Kafka_Port a b && deepEqual_on Kafka_ClientID a b &&
  deepEqual_on Kafka_TLS a b && deepEqual_on Kafka_TLSInsecure a b &&
  deepEqual_on Kafka_TLSCACert a b && deepEqual_on Kafka_TLSServerName a b &&
  deepEqual_on Kafka_SASL a b && deepEqual_on Kafka_Topic a b && deepEqual_on Kafka_MinBrokers a b.
#[export] Instance deepEqual_DNS : DeepEqual DNSCheckConfig := λ a b,
  deepEqual_on DNS_Names a b && deepEqual_on DNS_Resolver a b &&
  deepEqual_on DNS_Port a b && deepEqual_on DNS_QueryType a b.
#[export] Instance deepEqual_GRPC : DeepEqual GRPCCheckConfig := λ a b,
  deepEqual_on GRPC_Host a b && deepEqual_on GRPC_Port a b && deepEqual_on GRPC_TLS a b &&
  deepEqual_on GRPC_TLSInsecure a b && deepEqual_on GRPC_TLSCACert a b &&
  deepEqual_on GRPC_TLSServerName a b && deepEqual_on GRPC_Method a b &&
  deepEqual_on GRPC_Service a b && deepEqual_on GRPC_OKCodes a b && deepEqual_on GRPC_Metadata a b.
#[export] Instance deepEqual_Ping : DeepEqual PingCheckConfig := λ a b,
  deepEqual_on Ping_DstIP a b && deepEqual_on Ping_SrcIP a b &&
  deepEqual_on Ping_Privileged a b && deepEqual_on Ping_Count a b &&
  deepEqual_on Ping_Timeout a b && deepEqual_on Ping_Interval a b &&
  deepEqual_on Ping_MaxLossRatio a b.
#[export] Instance deepEqual_Check : DeepEqual CheckConfig := λ a b,
  deepEqual_on Check_Name a b && deepEqual_on Check_Type a b &&
  deepEqual_on Check_DetailedMetrics a b && deepEqual_on Check_Interval a b &&
  deepEqual_on Check_Timeout a b && deepEqual_on Check_Rise a b && deepEqual_on Check_Fall a b &&
  deepEqual_on Check_HTTP a b && deepEqual_on Check_DNS a b && deepEqual_on Check_Ping a b &&
  deepEqual_on Check_UDP a b && deepEqual_on Check_TCP a b && deepEqual_on Check_Listen a b &&
  deepEqual_on Check_SQL a b && deepEqual_on Check_Kafka a b && deepEqual_on Check_GRPC a b.
#[export] Instance deepEqual_Announce : DeepEqual AnnounceConfig := λ a b,
  deepEqual_on Announce_ASPathPrepend a b && deepEqual_on Announce_Communities a b.
#[export] Instance deepEqual_LowerPriority : DeepEqual LowerPriorityConfig := λ a b,
  deepEqual_on LowerPriority_ASPathPrepend a b && deepEqual_on LowerPriority_Communities a b.
#[export] Instance deepEqual_Policy : DeepEqual PolicyConfig := λ a b,
  deepEqual_on Policy_FailAction a b && deepEqual_on Policy_LowerPriorityFile a b &&
  deepEqual_on Policy_Announce a b && deepEqual_on Policy_LowerPriority a b.
#[export] Instance deepEqual_VIP : DeepEqual VIPConfig := λ a b,
  deepEqual_on VIP_Name a b && deepEqual_on VIP_Prefix a b && deepEqual_on VIP_Check a b &&
  deepEqual_on VIP_Checks a b && deepEqual_on VIP_ChecksPolicy a b &&
  deepEqual_on VIP_Policy a b && deepEqual_on VIP_RequireLocalAddress a b &&
  deepEqual_on VIP_LocalInterface a b.

(** Where no float occurs, [reflect.DeepEqual] decides equality. *)
Class LawfulDeepEqual (A : Type) `{DeepEqual A} :=
  deepEqual_spec : ∀ a b : A, deepEqual a b = true ↔ a = b.

#[export] Instance lawful_string : LawfulDeepEqual string.
Proof. intros a b. apply bool_decide_eq_true. Qed.
#[export] Instance lawful_Z : LawfulDeepEqual Z.
Proof. intros a b. apply bool_decide_eq_true. Qed.
#[export] Instance lawful_bool : LawfulDeepEqual bool.
Proof. intros a b. apply bool_decide_eq_true. Qed.
#[export] Instance lawful_gmap `{EqDecision V} : LawfulDeepEqual (gmap string V).
Proof. intros a b. apply bool_decide_eq_true. Qed.
#[export] Instance lawful_option `{LawfulDeepEqual A} : LawfulDeepEqual (option A).
Proof.
  intros [a|] [b|]; cbn; try done.
  rewrite deepEqual_spec. naive_solver.
Qed.
#[export] Instance lawful_list `{LawfulDeepEqual A} : LawfulDeepEqual (list A).
Proof.
  intros a. induction a as [|x a IH]; intros [|y b]; cbn; try done.
  rewrite andb_true_iff, deepEqual_spec, IH.
  split; [by intros [-> ->]|by intros [=]].
Qed.
#[export] Instance lawful_slice `{LawfulDeepEqual A} : LawfulDeepEqual (slice A).
Proof. apply lawful_option. Qed.
#[export] Instance lawful_gomap `{EqDecision V} : LawfulDeepEqual (gomap V).
Proof. apply lawful_option. Qed.

Lemma deepEqual_on_spec {R A} `{LawfulDeepEqual A} (f : R → A) a b :
  deepEqual_on f a b = true ↔ f a = f b.
Proof. apply deepEqual_spec. Qed.

(** Proves [LawfulDeepEqual] for a float-free struct. *)
Ltac lawful_record :=
  let a := fresh in let b := fresh in
  intros a b; cbv beta delta [deepEqual];
  match goal with |- ?f a b = true ↔ _ => unfold f end;
  rewrite ?andb_true_iff, ?deepEqual_on_spec;
  destruct a, b; cbn; split; [intros; destruct_and?; congruence | intros [=]; subst; repeat split; reflexivity].

#[export] Instance lawful_Paths : LawfulDeepEqual PathsConfig.
Proof. lawful_record. Qed.
#[export] Instance lawful_Sig : LawfulDeepEqual OTelSignalConfig.
Proof. lawful_record. Qed.
#[export] Instance lawful_OTel : LawfulDeepEqual OTelConfig.
Proof. lawful_record. Qed.
#[export] Instance lawful_Router : LawfulDeepEqual RouterConfig.
Proof. lawful_record. Qed.
#[export] Instance lawful_API : LawfulDeepEqual APIConfig.
Proof. lawful_record. Qed.
#[export] Instance lawful_Logging : LawfulDeepEqual LoggingConfig.
Proof. lawful_record. Qed.
#[export] Instance lawful_GoBGPAPI : LawfulDeepEqual GoBGPAPIConfig.
Proof. lawful_record. Qed.
#[export] Instance lawful_BFD : LawfulDeepEqual BFDConfig.
Proof. lawful_record. Qed.
#[export] Instance lawful_Neighbor : LawfulDeepEqual NeighborConfig.
Proof. lawful_record. Qed.
#[export] Instance lawful_BGP : LawfulDeepEqual BGPConfig.
Proof. lawful_record. Qed.
#[export] Instance lawful_Announce : LawfulDeepEqual AnnounceConfig.
Proof. lawful_record. Qed.
#[export] Instance lawful_LowerPriority : LawfulDeepEqual LowerPriorityConfig.
Proof. lawful_record. Qed.
#[export] Instance lawful_Policy : LawfulDeepEqual PolicyConfig.
Proof. lawful_record. Qed.

(** ** Zero values *)

Definition zeroSignal : OTelSignalConfig := mkOTelSignalConfig EmptyString None None None.
Definition zeroOTel : OTelConfig :=
  mkOTelConfig None EmptyString false None EmptyString zeroSignal zeroSignal zeroSignal.
Definition zeroNeighbor : NeighborConfig :=
  mkNeighborConfig EmptyString EmptyString 0 None 0 EmptyString false false 0 None EmptyString.
Definition zeroBGP : BGPConfig :=
  mkBGPConfig None None None EmptyString 0 (mkGoBGPAPIConfig false EmptyString) None.
Definition zeroCheck : CheckConfig :=
  mkCheckConfig EmptyString EmptyString false None None None None
    None None None None None None None None None.
Definition zeroPolicy : PolicyConfig := mkPolicyConfig EmptyString EmptyString None None.
Definition zeroVIP : VIPConfig :=
  mkVIPConfig EmptyString EmptyString zeroCheck None EmptyString zeroPolicy false EmptyString.
Definition zeroConfig : Config :=
  mkConfig EmptyString (mkRouterConfig 0 EmptyString EmptyString EmptyString)
    (mkAPIConfig EmptyString None None None None)
    (mkLoggingConfig EmptyString EmptyString EmptyString None) zeroOTel
    (mkPathsConfig EmptyString) zeroBGP None.

(** ** Properties *)

(** [EffectiveHeaders] gives a signal its own headers over the global
    ones, and panics exactly when a signal sets headers while no global
    header map exists ([maps.Copy] into the nil clone). *)
Theorem EffectiveHeaders_spec s global :
  EffectiveHeaders s global =
    match Sig_Headers s, global with
    | Some own, None => if decide (own = ∅) then Ret None else Panic
    | Some own, Some g => Ret (Some (own ∪ g))
    | None, _ => Ret global
    end.
Proof.
  unfold EffectiveHeaders, mapsCopy. destruct (Sig_Headers s) as [own|]; cbn;
    [|by rewrite map_size_empty].
  rewrite (decide_ext _ (own = ∅)) by apply map_size_empty_iff.
  destruct (decide (own = ∅)) as [->|]; destruct global as [g|]; cbn; try done.
  - by rewrite (left_id_L ∅ (∪)).
  - by rewrite decide_False.
Qed.

(** [ParseOTelEndpoint] maps the four accepted schemes to the protocol
    and an http(s) URL with the same remainder, and rejects everything else. *)
Theorem ParseOTelEndpoint_spec rawURL p url :
  ParseOTelEndpoint rawURL = Some (p, url) ↔
  ∃ rest,
    (rawURL = "grpcs://" +:+ rest ∧ p = OTelProtocolGRPC ∧ url = "https://" +:+ rest) ∨
    (rawURL = "grpc://" +:+ rest ∧ p = OTelProtocolGRPC ∧ url = "http://" +:+ rest) ∨
    (rawURL = "https://" +:+ rest ∧ p = OTelProtocolHTTP ∧ url = rawURL) ∨
    (rawURL = "http://" +:+ rest ∧ p = OTelProtocolHTTP ∧ url = rawURL).
Proof.
  unfold ParseOTelEndpoint, HasPrefix. split.
  - destruct (CutPrefix rawURL "grpcs://") as [r|] eqn:E1.
    { apply CutPrefix_Some in E1. intros [= <- <-]. exists r. by left. }
    destruct (CutPrefix rawURL "grpc://") as [r|] eqn:E2.
    { apply CutPrefix_Some in E2. intros [= <- <-]. exists r. right. by left. }
    destruct (CutPrefix rawURL "https://") as [r|] eqn:E3; cbn.
    { apply CutPrefix_Some in E3. intros [= <- <-]. exists r. naive_solver. }
    destruct (CutPrefix rawURL "http://") as [r|] eqn:E4; cbn; [|done].
    apply CutPrefix_Some in E4. intros [= <- <-]. exists r. naive_solver.
  - intros (rest & [(-> & -> & ->)|[(-> & -> & ->)|[(-> & -> & ->)|(-> & -> & ->)]]]);
      by destruct rest.
Qed.

End Config.
Export Config.
