(* ===== verification/Model.v ===== *)
(** * The shared data model: internal/model and the check result

    The states, statuses and check details of internal/model/model.go, the
    renderings of internal/model/summary.go and [checks.Result].  A time is a
    count of nanoseconds, the zero time is 0.  An [error] is kept unrendered:
    the format string of the [fmt.Errorf] that made it, its arguments and, for
    [Wrapf], the error it wraps ([%w]); [External] is an error of a library. *)

From S2P Require Import Prelude GoStrings Config.

Module Model.

Inductive error : Type :=
| Errorf (format : string) (args : list string)
| Wrapf (format : string) (args : list string) (cause : error)
| External (text : string).

(** A Go [error] result: [None] is nil. *)
Abbreviation goerror := (option error).

(** ** States *)
Inductive VIPState := StateWithdrawn | StateAnnounced | StatePessimized.
Inductive HealthStatus := HealthUnknown | HealthHealthy | HealthUnhealthy.

#[export] Instance VIPState_eq : EqDecision VIPState.
Proof. solve_decision. Defined.
#[export] Instance HealthStatus_eq : EqDecision HealthStatus.
Proof. solve_decision. Defined.

(** The integer constants, exported by the state gauge. *)
Definition VIPState_int (s : VIPState) : Z :=
  match s with StateWithdrawn => 0 | StateAnnounced => 1 | StatePessimized => 2 end.

(** [VIPState.String]. *)
Definition VIPState_String (s : VIPState) : string :=
  match s with
  | StateWithdrawn => "withdrawn"
  | StateAnnounced => "announced"
  | StatePessimized => "pessimized"
  end.

(** [HealthStatus.String]. *)
Definition HealthStatus_String (h : HealthStatus) : string :=
  match h with
  | HealthUnknown => "unknown"
  | HealthHealthy => "healthy"
  | HealthUnhealthy => "unhealthy"
  end.

(** [RouteAttrs].  Every function that builds one returns a nil community
    list exactly when there are none, so a plain list loses nothing. *)
Record RouteAttrs := mkRouteAttrs {
  ASPathPrepend : Z;
  Communities : list string }.

#[export] Instance RouteAttrs_eq : EqDecision RouteAttrs.
Proof. solve_decision. Defined.

Definition zeroAttrs : RouteAttrs := mkRouteAttrs 0 [].

(** ** Check details and results *)
Record PingDetails := mkPingDetails {
  PD_RTTs : list Z;
  PD_PacketLoss : float64;
  PD_PacketsSent : Z;
  PD_PacketsRecv : Z }.

Record HTTPDetails := mkHTTPDetails {
  HD_StatusCode : Z;
  HD_TLSCertNotAfter : Z }.

Record DNSNameDetails := mkDNSNameDetails {
  DND_Name : string;
  DND_Rcode : Z;
  DND_Answers : Z }.

Record DNSDetails := mkDNSDetails { DD_Names : list DNSNameDetails }.

Record GRPCDetails := mkGRPCDetails {
  GD_StatusCode : Z;
  GD_ServingStatus : string }.

Record ListenDetails := mkListenDetails { LD_Sockets : list string }.

Record SQLQueryDetails := mkSQLQueryDetails {
  QD_Name : string;
  QD_Rows : Z;
  QD_Duration : Z;
  QD_Passed : bool }.

Record SQLDetails := mkSQLDetails { SD_Queries : list SQLQueryDetails }.

Record KafkaDetails := mkKafkaDetails {
  KD_ClusterID : string;
  KD_Controller : Z;
  KD_Brokers : Z;
  KD_Topic : string;
  KD_Partitions : Z;
  KD_PartitionsWithoutLeader : Z }.

(** The interface [CheckDetails] and the types that implement it. *)
Inductive CheckDetails :=
| DetailsKafka (d : KafkaDetails)
| DetailsSQL (d : SQLDetails)
| DetailsListen (d : ListenDetails)
| DetailsPing (d : PingDetails)
| DetailsHTTP (d : HTTPDetails)
| DetailsDNS (d : DNSDetails)
| DetailsGRPC (d : GRPCDetails).

(** [checks.Result]; durations in nanoseconds. *)
Record Result := mkResult {
  Success : bool;
  Detail : string;
  Duration : Z;
  Result_Err : goerror;
  TimedOut : bool;
  Details : option CheckDetails }.

Definition zeroResult : Result := mkResult false EmptyString 0 None false None.

(** ** Statuses *)
Record CheckStatus := mkCheckStatus {
  CS_Name : string;
  CS_Type : string;
  CS_Health : HealthStatus;
  CS_HealthName : string;
  CS_ConsecutiveOK : Z;
  CS_ConsecutiveFail : Z;
  CS_LastSuccess : bool;
  CS_LastDetail : string;
  CS_LastTime : Z }.

Record VIPStatus := mkVIPStatus {
  VS_Name : string;
  VS_Prefix : string;
  VS_State : VIPState;
  VS_StateName : string;
  VS_Health : HealthStatus;
  VS_HealthName : string;
  VS_ConsecutiveOK : Z;
  VS_ConsecutiveFail : Z;
  VS_LastCheckSuccess : bool;
  VS_LastCheckDetail : string;
  VS_LastCheckTime : Z;
  VS_LastTransitionTime : Z;
  VS_LastTransitionReason : string;
  VS_CheckType : string;
  VS_ChecksPolicy : string;
  VS_Checks : list CheckStatus;
  VS_BGPPending : bool;
  VS_ASPathPrependBase : Z;
  VS_ASPathPrepend : Z;
  VS_Communities : list string }.

Record PeerStatus := mkPeerStatus {
  PS_Name : string;
  PS_Address : string;
  PS_PeerASN : Z;
  PS_SessionState : string;
  PS_Required : bool;
  PS_Uptime : string }.

(** Reload outcomes: the four constants of the source. *)
Inductive ReloadOutcome := ReloadApplied | ReloadUnchanged | ReloadRejected | ReloadFailed.

#[export] Instance ReloadOutcome_eq : EqDecision ReloadOutcome.
Proof. solve_decision. Defined.

Definition ReloadOutcome_string (o : ReloadOutcome) : string :=
  match o with
  | ReloadApplied => "applied"
  | ReloadUnchanged => "unchanged"
  | ReloadRejected => "rejected"
  | ReloadFailed => "failed"
  end.

(** [ReloadStatus].  [Error] is the reason of a rejected reload; the source
    keeps its text, empty when there is none. *)
Record ReloadStatus := mkReloadStatus {
  RS_At : Z;
  RS_Outcome : ReloadOutcome;
  RS_Error : goerror;
  RS_Errors : list error;
  RS_Added : list string;
  RS_Removed : list string;
  RS_Changed : list string;
  RS_Pending : list string }.

Record ConfigStatus := mkConfigStatus {
  CfS_Path : string;
  CfS_LoadedAt : Z;
  CfS_Generation : Z;
  CfS_FileChanged : bool;
  CfS_PendingVIPs : list string;
  CfS_LastReload : option ReloadStatus }.

Record DaemonStatus := mkDaemonStatus {
  DS_RouterID : string;
  DS_ASN : Z;
  DS_Version : string;
  DS_Commit : string;
  DS_StartTime : Z;
  DS_Peers : list PeerStatus;
  DS_VIPs : list VIPStatus;
  DS_Config : option ConfigStatus }.

(** [ReloadStatus.OK], on a possibly nil receiver. *)
Definition OK (r : option ReloadStatus) : bool :=
  match r with
  | None => false
  | Some r =>
      bool_decide (RS_Outcome r = ReloadApplied) || bool_decide (RS_Outcome r = ReloadUnchanged)
  end.

(** ** Summaries *)
Definition SessionEstablished : string := "established".

(** [UnreadyPeers]. *)
Definition UnreadyPeers (peers : list PeerStatus) : list PeerStatus :=
  filter (λ p, PS_Required p = true ∧ PS_SessionState p ≠ SessionEstablished) peers.

(** The counting loop of [Summarize]: announced, pessimized, withdrawn. *)
Fixpoint countStates (vips : list VIPStatus) : Z * Z * Z :=
  match vips with
  | [] => (0, 0, 0)
  | v :: vips' =>
      let '(a, p, w) := countStates vips' in
      match VS_State v with
      | StateAnnounced => (a + 1, p, w)
      | StatePessimized => (a, p + 1, w)
      | StateWithdrawn => (a, p, w + 1)
      end
  end.

(** The loop of [SummarizePeers]: sessions up, and the names of the rest. *)
Fixpoint splitPeers (peers : list PeerStatus) : Z * list string :=
  match peers with
  | [] => (0, [])
  | p :: peers' =>
      let '(n, down) := splitPeers peers' in
      if decide (PS_SessionState p = SessionEstablished) then (n + 1, down)
      else (n, PS_Name p :: down)
  end.

(** [SummarizePeers]. *)
Definition SummarizePeers (peers : list PeerStatus) : string :=
  let '(established, down) := splitPeers peers in
  let s := "peers: " +:+ Itoa established +:+ "/" +:+ Itoa (len peers) +:+ " established" in
  match down with
  | [] => s
  | _ => s +:+ " (down: " +:+ Join (sortStrings down) ", " +:+ ")"
  end.

(** [Summarize]. *)
Definition Summarize (vips : list VIPStatus) (peers : list PeerStatus) : string :=
  let '(announced, pessimized, withdrawn) := countStates vips in
  "VIPs: " +:+ Itoa announced +:+ " announced, " +:+ Itoa pessimized +:+ " pessimized, "
    +:+ Itoa withdrawn +:+ " withdrawn; " +:+ SummarizePeers peers.

Section ConfigNotice.
(** [error.Error] and [time.Time.Format] with the layout 15:04:05. *)
Context (Error : error → string) (formatTime : Z → string).

(** [ConfigNotice]. *)
Definition ConfigNotice (c : option ConfigStatus) : string :=
  match c with
  | None => EmptyString
  | Some c =>
      let reload :=
        match CfS_LastReload c with
        | Some lr =>
            if OK (Some lr) then []
            else
              let text := match RS_Error lr with Some e => Error e | None => EmptyString end in
              let msg :=
                if decide (text = EmptyString) then Join (Error <$> RS_Errors lr) "; " else text in
              ["config reload " +:+ ReloadOutcome_string (RS_Outcome lr) +:+ " at "
                 +:+ formatTime (RS_At lr) +:+ ": " +:+ msg]
        | None => []
        end in
      let changed :=
        if CfS_FileChanged c then ["config file changed on disk, not reloaded"] else [] in
      let pending :=
        match CfS_PendingVIPs c with
        | [] => []
        | l => ["reload pending verdict for " +:+ Join l ", "]
        end in
      Join (reload ++ changed ++ pending) "; "
  end.
End ConfigNotice.

(** ** Lemmas *)

Lemma countStates_total vips :
  let '(a, p, w) := countStates vips in
  a + p + w = len vips ∧ 0 ≤ a ∧ 0 ≤ p ∧ 0 ≤ w.
Proof.
  induction vips as [|v vips IH]; cbn [countStates]; [done|].
  destruct (countStates vips) as [[a p] w]. unfold len in *. cbn [length]. destruct (VS_State v); lia.
Qed.

Lemma splitPeers_spec peers :
  let '(n, down) := splitPeers peers in
  n + len down = len peers ∧
  down = PS_Name <$> filter (λ p, PS_SessionState p ≠ SessionEstablished) peers.
Proof.
  induction peers as [|p peers IH]; cbn [splitPeers]; [done|].
  destruct (splitPeers peers) as [n down]. rewrite filter_cons.
  destruct IH as [IHn ->].
  unfold len in *. repeat case_decide; try done; cbn [length fmap list_fmap] in *; split; try done; lia.
Qed.

(** [/readyz] and [pathosd healthcheck] agree with the peer summary: when no
    session is down, no required peer is unready. *)
Lemma UnreadyPeers_empty_iff peers :
  UnreadyPeers peers = [] ↔
  ∀ p, p ∈ peers → PS_Required p = true → PS_SessionState p = SessionEstablished.
Proof.
  unfold UnreadyPeers. induction peers as [|p peers IH].
  { split; [|done]. intros _ p Hp. by apply not_elem_of_nil in Hp. }
  rewrite filter_cons. case_decide as Hp.
  - split; [done|]. intros H. destruct Hp as [Hr Hs]. destruct Hs. apply H; [left|done].
  - rewrite IH. split.
    + intros H q [->|Hq]%elem_of_cons Hr; [|by apply H].
      apply dec_stable. intros ?. by apply Hp.
    + intros H q Hq. apply H. by right.
Qed.

(** ** Properties *)

(** The service is ready ([UnreadyPeers] is empty) exactly when every
    required peer has its session established. *)
Theorem UnreadyPeers_spec peers :
  UnreadyPeers peers = [] ↔
  ∀ p, p ∈ peers → PS_Required p = true → PS_SessionState p = SessionEstablished.
Proof. apply UnreadyPeers_empty_iff. Qed.

(** The numbers of the summary line are right: every VIP is counted under
    its state, and the peers named as down are exactly those not
    established. *)
Theorem Summarize_counts vips peers :
  countStates vips =
    (len (filter (λ v, VS_State v = StateAnnounced) vips),
     len (filter (λ v, VS_State v = StatePessimized) vips),
     len (filter (λ v, VS_State v = StateWithdrawn) vips)) ∧
  splitPeers peers =
    (len peers - len (filter (λ p, PS_SessionState p ≠ SessionEstablished) peers),
     PS_Name <$> filter (λ p, PS_SessionState p ≠ SessionEstablished) peers).
Proof.
  split.
  - induction vips as [|v vips IH]; [done|]. cbn [countStates]. rewrite IH, !filter_cons.
    unfold len. destruct (VS_State v); repeat case_decide; try done; cbn [length];
      repeat f_equal; lia.
  - pose proof (splitPeers_spec peers) as Hs. destruct (splitPeers peers) as [n down].
    destruct Hs as [Hn ->]. unfold len in *. rewrite length_fmap in Hn. f_equal. lia.
Qed.

End Model.
Export Model.
