(* ===== verification/Durations.v ===== *)
(** * Durations in the config: internal/config/duration.go

    [Duration] is the number of nanoseconds, an int64.  It prints and parses
    through time.Duration.String and time.ParseDuration, which are written out
    here with the widths of their integers (uint64 sums wrap) and the float64
    arithmetic of fractions.  A JSON document is what encoding/json sees after
    lexing: a string, null, or a value of another kind. *)

From Stdlib Require Import Ascii SpecFloat.
From S2P Require Import Prelude GoStrings Floats Config Model.

Module Durations.
Import Floats.

Definition Microsecond : Z := 1000.
Definition Second : Z := 1000 * 1000 * 1000.
Definition Millisecond : Z := 1000 * 1000.
Definition Minute : Z := 60 * Second.
Definition Hour : Z := 60 * Minute.

(** ** time.Duration.String *)

Definition digitChar (d : Z) : ascii := ascii_of_N (Z.to_N (48 + d)).

(** [fmtFrac]: the digits of the fraction in front of [buf], without trailing
    zeros, and the rest of the number; [print] as in the loop. *)
Fixpoint fmtFracLoop (prec : nat) (v : Z) (print : bool) (buf : string) : string * Z * bool :=
  match prec with
  | O => (buf, v, print)
  | S prec' =>
      let digit := v mod 10 in
      let print := print || negb (digit =? 0) in
      fmtFracLoop prec' (v / 10) print (if print then String (digitChar digit) buf else buf)
  end.
Definition fmtFrac (buf : string) (v : Z) (prec : nat) : string * Z :=
  let '(buf, v, print) := fmtFracLoop prec v false buf in
  (if print then String "." buf else buf, v).

(** [fmtInt]. *)
Definition fmtInt (buf : string) (v : Z) : string := Itoa v +:+ buf.

(** [Duration.String]; [u] is the magnitude, which for the smallest int64 is
    2^63. *)
Definition formatAbs (u : Z) : string :=
  if u <? Second then
    if u =? 0 then "0s"
    else if u <? Microsecond then let '(buf, u) := fmtFrac "ns" u 0 in fmtInt buf u
    else if u <? Millisecond then let '(buf, u) := fmtFrac "µs" u 3 in fmtInt buf u
    else let '(buf, u) := fmtFrac "ms" u 6 in fmtInt buf u
  else
    let '(buf, u) := fmtFrac "s" u 9 in
    let buf := fmtInt buf (u mod 60) in
    let u := u / 60 in
    if 0 <? u then
      let buf := fmtInt (String "m" buf) (u mod 60) in
      let u := u / 60 in
      if 0 <? u then fmtInt (String "h" buf) u else buf
    else buf.
Definition Duration_String (d : Z) : string :=
  let s := formatAbs (Z.abs d) in if d <? 0 then String "-" s else s.

(** ** time.ParseDuration *)

Definition wrapU64 (z : Z) : Z := z mod 2 ^ 64.

(** [leadingInt]: the digits at the front, or [None] on overflow. *)
Fixpoint leadingInt (s : string) (x : Z) : option (Z * string) :=
  match s with
  | EmptyString => Some (x, s)
  | String c s' =>
      match digit c with
      | None => Some (x, s)
      | Some d =>
          if 2 ^ 63 / 10 <? x then None
          else let x := x * 10 + d in if 2 ^ 63 <? x then None else leadingInt s' x
      end
  end.

(** [leadingFraction]: it stops accumulating when the number is too long. *)
Fixpoint leadingFraction (s : string) (x : Z) (scale : float) (overflow : bool) : Z * float * string :=
  match s with
  | EmptyString => (x, scale, s)
  | String c s' =>
      match digit c with
      | None => (x, scale, s)
      | Some d =>
          if overflow then leadingFraction s' x scale true
          else if (2 ^ 63 - 1) / 10 <? x then leadingFraction s' x scale true
          else
            let y := x * 10 + d in
            if 2 ^ 63 <? y then leadingFraction s' x scale true
            else leadingFraction s' y (fmul scale (float_of_Z 10)) false
      end
  end.

(** The unit: up to the next digit or period. *)
Fixpoint takeUnit (s : string) : string * string :=
  match s with
  | EmptyString => (EmptyString, EmptyString)
  | String c s' =>
      if bool_decide (c = "."%char) || bool_decide (is_Some (digit c)) then (EmptyString, s)
      else let '(u, r) := takeUnit s' in (String c u, r)
  end.

(** [unitMap], with both spellings of the micro sign. *)
Definition unitMap (u : string) : option Z :=
  if decide (u = "ns") then Some 1
  else if decide (u = "us") then Some Microsecond
  else if decide (u = "µs") then Some Microsecond
  else if decide (u = "μs") then Some Microsecond
  else if decide (u = "ms") then Some Millisecond
  else if decide (u = "s") then Some Second
  else if decide (u = "m") then Some Minute
  else if decide (u = "h") then Some Hour
  else None.

Definition invalidDuration (orig : string) : error := Errorf "time: invalid duration %q" [orig].

(** One turn of the loop: a number with its unit, in nanoseconds, and the
    rest of the string. *)
Definition parseOne (orig s : string) : result error (Z * string) :=
  let invalid := Err (invalidDuration orig) in
  match s with
  | EmptyString => invalid
  | String c _ =>
      if negb (bool_decide (c = "."%char)) && negb (bool_decide (is_Some (digit c))) then invalid
      else
        match leadingInt s 0 with
        | None => invalid
        | Some (v, s1) =>
            let pre := negb (bool_decide (s = s1)) in
            let '(f, scale, s2, post) :=
              match CutPrefix s1 "." with
              | Some s' =>
                  let '(f, scale, s2) := leadingFraction s' 0 (float_of_Z 1) false in
                  (f, scale, s2, negb (bool_decide (s' = s2)))
              | None => (0, float_of_Z 1, s1, false)
              end in
            if negb pre && negb post then invalid
            else
              let '(u, s3) := takeUnit s2 in
              if decide (u = EmptyString) then Err (Errorf "time: missing unit in duration %q" [orig])
              else
                match unitMap u with
                | None => Err (Errorf "time: unknown unit %q in duration %q" [u; orig])
                | Some unit =>
                    if 2 ^ 63 / unit <? v then invalid
                    else
                      let v := v * unit in
                      if 0 <? f then
                        let v := wrapU64 (v + float_to_Z (fmul (float_of_Z f) (fdiv (float_of_Z unit) scale))) in
                        if 2 ^ 63 <? v then invalid else Ok (v, s3)
                      else Ok (v, s3)
                end
        end
  end.

(** The loop; every turn takes at least two characters, so the length of the
    string is enough fuel. *)
Fixpoint parseLoop (fuel : nat) (orig s : string) (d : Z) : result error Z :=
  match s with
  | EmptyString => Ok d
  | _ =>
      match fuel with
      | O => Err (invalidDuration orig)
      | S fuel =>
          match parseOne orig s with
          | Err e => Err e
          | Ok (v, s) =>
              let d := wrapU64 (d + v) in
              if 2 ^ 63 <? d then Err (invalidDuration orig) else parseLoop fuel orig s d
          end
      end
  end.

Definition ParseDuration (s : string) : result error Z :=
  let orig := s in
  let '(neg, s) :=
    match CutPrefix s "-", CutPrefix s "+" with
    | Some s', _ => (true, s')
    | None, Some s' => (false, s')
    | None, None => (false, s)
    end in
  if decide (s = "0") then Ok 0
  else if decide (s = EmptyString) then Err (invalidDuration orig)
  else
    match parseLoop (String.length s) orig s 0 with
    | Err e => Err e
    | Ok d =>
        if neg then Ok (wrap64 (- d))
        else if 2 ^ 63 - 1 <? d then Err (invalidDuration orig)
        else Ok d
    end.

(** ** duration.go *)

(** A JSON value that a [Duration] is decoded from. *)
Inductive jsonValue := JNull | JString (s : string) | JOther (kind : string).

(** [json.Unmarshal] into a string variable that is empty. *)
Definition jsonToString (v : jsonValue) : result error string :=
  match v with
  | JNull => Ok EmptyString
  | JString s => Ok s
  | JOther kind => Err (Errorf "json: cannot unmarshal %s into Go value of type string" [kind])
  end.

(** [Duration.MarshalText] and [Duration.MarshalJSON]. *)
Definition MarshalText (d : Z) : string := Duration_String d.
Definition MarshalJSON (d : Z) : jsonValue := JString (Duration_String d).

(** [Duration.UnmarshalText] and [Duration.UnmarshalJSON]. *)
Definition UnmarshalText (text : string) : result error Z :=
  match ParseDuration text with
  | Err e => Err (Wrapf "invalid duration %q: %w" [text] e)
  | Ok dur => Ok dur
  end.
Definition UnmarshalJSON (b : jsonValue) : result error Z :=
  match jsonToString b with
  | Err e => Err e
  | Ok s =>
      match ParseDuration s with
      | Err e => Err (Wrapf "invalid duration %q: %w" [s] e)
      | Ok dur => Ok dur
      end
  end.

End Durations.
