(* ===== verification/DurationsProofs.v ===== *)
(** * Durations: printing and parsing are inverse

    What String prints, ParseDuration reads back, for every int64, through
    the floating point of its fractions. *)

From Stdlib Require Import Ascii SpecFloat.
From S2P Require Import Prelude GoStrings Floats Config Model Durations.

Module DurationsProofs.
Import Floats Durations.

(** A string that does not start with a digit. *)
Definition noDigit (s : string) : Prop := match s with EmptyString => True | String c _ => digit c = None end.

Lemma parse_digits_ge s acc v : 0 ≤ acc → parse_digits s acc = Some v → acc ≤ v.
Proof.
  revert acc. induction s as [|c s IH]; intros acc Hacc; cbn; [by intros [= <-]|].
  destruct (digit c) as [d|] eqn:E; [|done]. apply digit_range in E. intros H%IH; lia.
Qed.

Lemma leadingInt_digits ds rest acc v :
  0 ≤ acc → parse_digits ds acc = Some v → v ≤ 2 ^ 63 → noDigit rest → leadingInt (ds +:+ rest) acc = Some (v, rest).
Proof.
  intros Hacc Hp Hv Hr. revert acc Hacc Hp. induction ds as [|c ds IH]; intros acc Hacc; cbn [parse_digits].
  { intros [= <-]. rewrite app_empty. destruct rest as [|c r]; [done|]. cbn in *. by rewrite Hr. }
  rewrite app_cons. cbn [leadingInt]. destruct (digit c) as [d|] eqn:E; [|done]. intros Hp.
  apply digit_range in E. pose proof (parse_digits_ge ds (acc * 10 + d) v ltac:(lia) Hp).
  rewrite (proj2 (Z.ltb_ge (2 ^ 63 / 10) acc)) by (apply Z.div_le_lower_bound; lia). rewrite (proj2 (Z.ltb_ge (2 ^ 63) (acc * 10 + d))) by lia.
  apply IH; [lia|done].
Qed.

Lemma leadingFraction_digits ds rest acc v k :
  0 ≤ acc → parse_digits ds acc = Some v → v < 10 ^ 15 → noDigit rest →
  (k + String.length ds ≤ 15)%nat →
  leadingFraction (ds +:+ rest) acc (float_of_Z (10 ^ Z.of_nat k)) false =
    (v, float_of_Z (10 ^ Z.of_nat (k + String.length ds)), rest).
Proof.
  intros Hacc Hp Hv Hr. revert acc k Hacc Hp. induction ds as [|c ds IH]; intros acc k Hacc; cbn [parse_digits String.length].
  { intros [= <-] _. rewrite app_empty, Nat.add_0_r. destruct rest as [|c r]; [done|]. cbn in *. by rewrite Hr. }
  rewrite app_cons. cbn [leadingFraction]. destruct (digit c) as [d|] eqn:E; [|done]. intros Hp Hk.
  apply digit_range in E. pose proof (parse_digits_ge ds (acc * 10 + d) v ltac:(lia) Hp).
  rewrite (proj2 (Z.ltb_ge ((2 ^ 63 - 1) / 10) acc)) by (apply Z.div_le_lower_bound; lia). rewrite (proj2 (Z.ltb_ge (2 ^ 63) (acc * 10 + d))) by lia.
  assert (10 ^ Z.of_nat k * 10 = 10 ^ Z.of_nat (S k)) as Hpow by (rewrite Nat2Z.inj_succ, Z.pow_succ_r; lia).
  rewrite fmul_exact, Hpow; [|apply Z.pow_pos_nonneg; lia|lia|].
  2: { rewrite Hpow. apply (Z.le_lt_trans _ (10 ^ 15)); [apply Z.pow_le_mono_r; lia|lia]. }
  rewrite (IH _ (S k)); [|lia|done|lia]. by rewrite Nat.add_succ_comm.
Qed.

Lemma Itoa_digits z :
  0 ≤ z < 2 ^ 64 → ∃ c s, Itoa z = String c s ∧ is_Some (digit c) ∧ parse_digits (Itoa z) 0 = Some z.
Proof.
  intros Hz. pose proof (ParseUint_Itoa z 64 Hz) as Hp. unfold ParseUint in Hp.
  destruct (Itoa z) as [|c s] eqn:E; [done|]. exists c, s. split; [done|].
  destruct (parse_digits (String c s) 0) as [v|] eqn:Ev; [|done]. case_decide; [|done]. injection Hp as <-.
  split; [|done]. cbn in Ev. destruct (digit c); [eauto|done].
Qed.

(** ** Fractions *)

(** A digit string [ds] of value [f]. *)
Definition reads (ds : string) (k : nat) (f : Z) : Prop :=
  String.length ds = k ∧ ∀ acc s, parse_digits (ds +:+ s) acc = parse_digits s (acc * 10 ^ Z.of_nat k + f).

Lemma digit_digitChar d : 0 ≤ d < 10 → digit (digitChar d) = Some d.
Proof.
  intros Hd. assert (d = 0 ∨ d = 1 ∨ d = 2 ∨ d = 3 ∨ d = 4 ∨ d = 5 ∨ d = 6 ∨ d = 7 ∨ d = 8 ∨ d = 9) as H by lia.
  by repeat destruct H as [->|H]; [..|subst].
Qed.

Lemma string_app_assoc (a b c : string) : (a +:+ b) +:+ c = a +:+ b +:+ c.
Proof. induction a as [|x a IH]; [done|]. by rewrite !app_cons, IH. Qed.

Lemma string_length_app (a b : string) : String.length (a +:+ b) = (String.length a + String.length b)%nat.
Proof. induction a as [|x a IH]; [done|]. rewrite app_cons. cbn. by rewrite IH. Qed.

Lemma string_app_nil (a : string) : a +:+ EmptyString = a.
Proof. induction a as [|x a IH]; [done|]. by rewrite app_cons, IH. Qed.

Lemma mod_pow_succ v n : 0 ≤ v → v mod 10 ^ Z.of_nat (S n) = v mod 10 + 10 * ((v / 10) mod 10 ^ Z.of_nat n).
Proof. intros Hv. rewrite Nat2Z.inj_succ, Z.pow_succ_r by lia. apply Z.rem_mul_r; [lia|]. apply Z.pow_pos_nonneg; lia. Qed.

Lemma div_pow_succ v n : v / 10 ^ Z.of_nat (S n) = v / 10 / 10 ^ Z.of_nat n.
Proof. rewrite Nat2Z.inj_succ, Z.pow_succ_r by lia. symmetry. apply Z.div_div; [lia|]. apply Z.pow_pos_nonneg; lia. Qed.

Lemma reads_snoc ds k f d : 0 ≤ d < 10 → reads ds k f → reads (ds +:+ String (digitChar d) EmptyString) (S k) (d + 10 * f).
Proof.
  intros Hd [Hl Hp]. split; [rewrite string_length_app; cbn; lia|]. intros acc s.
  rewrite string_app_assoc, Hp. cbn [parse_digits]. rewrite app_cons, app_empty. cbn [parse_digits].
  rewrite digit_digitChar by done. f_equal. rewrite Nat2Z.inj_succ, Z.pow_succ_r by lia. lia.
Qed.

Lemma fmtFracLoop_printing n v buf :
  0 ≤ v → ∃ ds, fmtFracLoop n v true buf = (ds +:+ buf, v / 10 ^ Z.of_nat n, true) ∧ reads ds n (v mod 10 ^ Z.of_nat n).
Proof.
  revert v buf. induction n as [|n IH]; intros v buf Hv; cbn [fmtFracLoop orb].
  { exists EmptyString. cbn. rewrite Z.div_1_r, Z.mod_1_r. split; [done|]. split; [done|]. intros acc s.
    rewrite app_empty. f_equal. lia. }
  destruct (IH (v / 10) (String (digitChar (v mod 10)) buf)) as (ds & -> & Hr); [apply Z.div_pos; lia|].
  exists (ds +:+ String (digitChar (v mod 10)) EmptyString). split.
  - rewrite string_app_assoc, app_cons, app_empty, div_pow_succ. done.
  - rewrite mod_pow_succ by done. apply reads_snoc; [apply Z.mod_pos_bound; lia|done].
Qed.

Lemma fmtFracLoop_spec n v buf :
  0 ≤ v →
  (v mod 10 ^ Z.of_nat n = 0 ∧ fmtFracLoop n v false buf = (buf, v / 10 ^ Z.of_nat n, false)) ∨
  ∃ ds k f, (1 ≤ k ≤ n)%nat ∧ reads ds k f ∧ 0 < f < 10 ^ Z.of_nat k ∧
    f * 10 ^ Z.of_nat (n - k) = v mod 10 ^ Z.of_nat n ∧
    fmtFracLoop n v false buf = (ds +:+ buf, v / 10 ^ Z.of_nat n, true).
Proof.
  revert v buf. induction n as [|n IH]; intros v buf Hv; cbn [fmtFracLoop orb].
  { left. by rewrite Z.mod_1_r, Z.div_1_r. }
  assert (0 ≤ v / 10) as Hv' by (apply Z.div_pos; lia). rewrite div_pow_succ, mod_pow_succ by done.
  destruct (Z.eqb_spec (v mod 10) 0) as [E|E]; cbn [negb].
  - destruct (IH (v / 10) buf Hv') as [[H1 H2]|(ds & k & f & Hk & Hr & Hf & Hm & Hl)].
    + left. split; [lia|done].
    + right. exists ds, k, f. split; [lia|]. split; [done|]. split; [done|]. split; [|done].
      rewrite <-Hm, E, Nat.sub_succ_l, Nat2Z.inj_succ, Z.pow_succ_r by lia. lia.
  - right. destruct (fmtFracLoop_printing n (v / 10) (String (digitChar (v mod 10)) buf) Hv') as (ds & -> & Hr).
    pose proof (Z.mod_pos_bound v 10). exists (ds +:+ String (digitChar (v mod 10)) EmptyString), (S n),
      (v mod 10 + 10 * ((v / 10) mod 10 ^ Z.of_nat n)).
    pose proof (Z.mod_pos_bound (v / 10) (10 ^ Z.of_nat n) ltac:(apply Z.pow_pos_nonneg; lia)).
    split; [lia|]. split; [apply reads_snoc; [lia|done]|]. split; [rewrite Nat2Z.inj_succ, Z.pow_succ_r; lia|].
    split; [rewrite Nat.sub_diag; cbn; lia|]. by rewrite string_app_assoc, app_cons, app_empty.
Qed.

(** ** One number with its unit *)

Definition unitChar (c : ascii) : bool := negb (bool_decide (c = "."%char)) && negb (bool_decide (is_Some (digit c))).
Definition startsNumber (s : string) : Prop := match s with EmptyString => True | String c _ => unitChar c = false end.

Record isUnit (u : string) (unit : Z) : Prop := {
  un_map : unitMap u = Some unit;
  un_pos : 0 < unit;
  un_char : ∃ c u', u = String c u';
  un_all : all_chars unitChar u = true }.

Lemma takeUnit_app u rest : all_chars unitChar u = true → startsNumber rest → takeUnit (u +:+ rest) = (u, rest).
Proof.
  intros Hu Hr. induction u as [|c u IH].
  - rewrite app_empty. destruct rest as [|c r]; [done|]. cbn in *. unfold unitChar in Hr.
    by destruct (bool_decide (c = _)), (bool_decide (is_Some _)).
  - cbn in Hu. apply andb_true_iff in Hu as [Hc Hu]. rewrite app_cons. cbn [takeUnit]. unfold unitChar in Hc.
    destruct (bool_decide (c = _)), (bool_decide (is_Some _)); try done. cbn [orb]. by rewrite IH.
Qed.

Lemma unit_noDigit u unit rest : isUnit u unit → noDigit (u +:+ rest) ∧ CutPrefix (u +:+ rest) "." = None.
Proof.
  intros [_ _ (c & u' & ->) Hall]. rewrite app_cons. cbn in Hall |- *. apply andb_true_iff in Hall as [Hc _].
  unfold unitChar in Hc. apply andb_true_iff in Hc as [H1%negb_true_iff H2%negb_true_iff].
  apply bool_decide_eq_false in H1. apply bool_decide_eq_false in H2. split.
  - destruct (digit c); [|done]. destruct H2. by eexists.
  - by rewrite decide_False.
Qed.

(** The head of a number. *)
Lemma number_head v s :
  0 ≤ v ≤ 2 ^ 63 → noDigit s →
  ∃ c r, Itoa v +:+ s = String c r ∧ is_Some (digit c) ∧
    leadingInt (Itoa v +:+ s) 0 = Some (v, s) ∧ Itoa v +:+ s ≠ s.
Proof.
  intros Hv Hs. destruct (Itoa_digits v) as (c & r & E & Hc & Hp); [lia|]. exists c, (r +:+ s).
  split; [by rewrite E, app_cons|]. split; [done|]. split; [apply leadingInt_digits; [done|done|lia|done]|].
  rewrite E, app_cons. intros Heq%(f_equal String.length). cbn in Heq. rewrite string_length_app in Heq. lia.
Qed.

Lemma parseOne_int orig v u unit rest :
  isUnit u unit → startsNumber rest → 0 ≤ v → v * unit ≤ 2 ^ 63 →
  parseOne orig (Itoa v +:+ u +:+ rest) = Ok (v * unit, rest).
Proof.
  intros Hu Hr Hv Hb. destruct (unit_noDigit u unit rest Hu) as [Hnd Hdot]. destruct Hu as [Hmap Hpos (c0 & u0 & Hne) Hall].
  destruct (number_head v (u +:+ rest)) as (c & r & E & Hc & Hl & Hneq); [nia|done|].
  unfold parseOne. rewrite E. rewrite <-E, (bool_decide_eq_true_2 _ Hc), andb_false_r, Hl, Hdot.
  rewrite (bool_decide_eq_false_2 _ Hneq). cbn [negb andb]. rewrite takeUnit_app by done.
  rewrite decide_False by (by rewrite Hne). rewrite Hmap.
  rewrite (proj2 (Z.ltb_ge _ _)); [done|]. apply Z.div_le_lower_bound; lia.
Qed.

Lemma fdiv_pow10 n k :
  (k ≤ n ≤ 9)%nat →
  fdiv (float_of_Z (10 ^ Z.of_nat n)) (float_of_Z (10 ^ Z.of_nat k)) = float_of_Z (10 ^ Z.of_nat (n - k)).
Proof.
  intros Hk.
  assert (Forall (λ n, Forall (λ k, fdiv (float_of_Z (10 ^ Z.of_nat n)) (float_of_Z (10 ^ Z.of_nat k))
    = float_of_Z (10 ^ Z.of_nat (n - k))) (seq 0 (S n))) (seq 0 10)) as Hall
    by (repeat (constructor; [repeat (constructor; [by vm_compute|]); constructor|]); constructor).
  rewrite Forall_forall in Hall. specialize (Hall n ltac:(apply elem_of_seq; lia)).
  rewrite Forall_forall in Hall. apply Hall, elem_of_seq. lia.
Qed.

Lemma parseOne_frac orig v ds k f n u rest :
  isUnit u (10 ^ Z.of_nat n) → startsNumber rest → (1 ≤ k ≤ n ≤ 9)%nat → reads ds k f → 0 < f < 10 ^ Z.of_nat k →
  0 ≤ v → v * 10 ^ Z.of_nat n + f * 10 ^ Z.of_nat (n - k) ≤ 2 ^ 63 →
  parseOne orig (Itoa v +:+ String "." (ds +:+ u +:+ rest)) =
    Ok (v * 10 ^ Z.of_nat n + f * 10 ^ Z.of_nat (n - k), rest).
Proof.
  intros Hu Hr Hk [Hlen Hreads] Hf Hv Hb. destruct (unit_noDigit u _ rest Hu) as [Hnd _].
  destruct Hu as [Hmap Hpos (c0 & u0 & Hne) Hall].
  assert (0 < 10 ^ Z.of_nat (n - k)) as Hpk by (apply Z.pow_pos_nonneg; lia).
  assert (10 ^ Z.of_nat k ≤ 10 ^ 9) as Hk9 by (apply Z.pow_le_mono_r; lia).
  assert (f * 10 ^ Z.of_nat (n - k) < 10 ^ 9) as Hsmall.
  { apply (Z.lt_le_trans _ (10 ^ Z.of_nat k * 10 ^ Z.of_nat (n - k))); [nia|].
    rewrite <-Z.pow_add_r by lia. apply Z.pow_le_mono_r; lia. }
  destruct (number_head v (String "." (ds +:+ u +:+ rest))) as (c & r & E & Hc & Hl & Hneq); [nia|done|].
  assert (parse_digits ds 0 = Some f) as Hds.
  { rewrite <-(string_app_nil ds), Hreads. done. }
  pose proof (leadingFraction_digits ds (u +:+ rest) 0 f 0 ltac:(lia) Hds ltac:(lia) Hnd ltac:(lia)) as Hfrac.
  change (float_of_Z (10 ^ Z.of_nat 0)) with (float_of_Z 1) in Hfrac. rewrite Hlen in Hfrac.
  unfold parseOne. rewrite E. rewrite <-E, (bool_decide_eq_true_2 _ Hc), andb_false_r, Hl.
  assert (CutPrefix (String "." (ds +:+ u +:+ rest)) "." = Some (ds +:+ u +:+ rest)) as -> by exact (CutPrefix_app "." _).
  rewrite Hfrac, (bool_decide_eq_false_2 _ Hneq). cbn [negb andb].
  rewrite takeUnit_app by done. rewrite decide_False by (by rewrite Hne). rewrite Hmap.
  rewrite (proj2 (Z.ltb_ge _ v)) by (apply Z.div_le_lower_bound; lia). rewrite (proj2 (Z.ltb_lt 0 f)) by lia.
  rewrite Nat.add_0_l, fdiv_pow10, fmul_exact, float_to_of_Z by lia.
  unfold wrapU64. rewrite Z.mod_small by lia. by rewrite (proj2 (Z.ltb_ge _ _)) by lia.
Qed.

(** ** The loop *)

Lemma parseLoop_step orig item rest fuel d v :
  parseOne orig (item +:+ rest) = Ok (v, rest) → item ≠ EmptyString →
  0 ≤ d → 0 ≤ v → d + v ≤ 2 ^ 63 → (String.length (item +:+ rest) ≤ fuel)%nat →
  ∃ fuel', (String.length rest ≤ fuel')%nat ∧
    parseLoop fuel orig (item +:+ rest) d = parseLoop fuel' orig rest (d + v).
Proof.
  intros Hp Hne Hd Hv Hb Hf. destruct item as [|c item]; [done|]. rewrite string_length_app in Hf. cbn in Hf.
  destruct fuel as [|fuel]; [lia|]. exists fuel. split; [lia|].
  assert (String c item +:+ rest = String c (item +:+ rest)) as Hs by apply app_cons.
  cbn [parseLoop]. rewrite Hs at 1. rewrite Hp. unfold wrapU64. rewrite Z.mod_small by lia.
  by rewrite (proj2 (Z.ltb_ge _ _)) by lia.
Qed.

(** ** What String prints *)

Lemma unit_ns : isUnit "ns" (10 ^ Z.of_nat 0). Proof. by split; [| |eexists _, _|]. Qed.
Lemma unit_us : isUnit "µs" (10 ^ Z.of_nat 3). Proof. by split; [| |eexists _, _|]. Qed.
Lemma unit_ms : isUnit "ms" (10 ^ Z.of_nat 6). Proof. by split; [| |eexists _, _|]. Qed.
Lemma unit_s : isUnit "s" (10 ^ Z.of_nat 9). Proof. by split; [| |eexists _, _|]. Qed.
Lemma unit_m : isUnit "m" Minute. Proof. by split; [| |eexists _, _|]. Qed.
Lemma unit_h : isUnit "h" Hour. Proof. by split; [| |eexists _, _|]. Qed.

(** A number with the fraction [fmtFrac] printed. *)
Lemma fmtFrac_reads orig u x n :
  isUnit u (10 ^ Z.of_nat n) → (n ≤ 9)%nat → 0 ≤ x →
  ∃ buf, fmtFrac u x n = (buf, x / 10 ^ Z.of_nat n) ∧ buf ≠ EmptyString ∧
    ∀ v, 0 ≤ v → v * 10 ^ Z.of_nat n + x mod 10 ^ Z.of_nat n ≤ 2 ^ 63 →
      parseOne orig (Itoa v +:+ buf) = Ok (v * 10 ^ Z.of_nat n + x mod 10 ^ Z.of_nat n, EmptyString).
Proof.
  intros Hu Hn Hx. unfold fmtFrac.
  destruct (fmtFracLoop_spec n x u Hx) as [[Hm ->]|(ds & k & f & Hk & Hr & Hf & Hm & ->)]; eexists; (split; [done|]);
    (split; [first [done|by destruct Hu as [_ _ (? & ? & ->) _]]|]); intros v Hv Hb.
  - rewrite Hm, Z.add_0_r in Hb |- *. rewrite <-(string_app_nil u). by apply parseOne_int.
  - rewrite <-Hm in Hb |- *. rewrite <-(string_app_nil u). apply parseOne_frac; first [done|lia].
Qed.

Lemma Itoa_app_ne v s : 0 ≤ v < 2 ^ 64 → Itoa v +:+ s ≠ EmptyString.
Proof. intros Hv. destruct (Itoa_digits v Hv) as (c & r & -> & _). by rewrite app_cons. Qed.

Lemma Itoa_startsNumber v s : 0 ≤ v < 2 ^ 64 → startsNumber (Itoa v +:+ s).
Proof.
  intros Hv. destruct (Itoa_digits v Hv) as (c & r & -> & Hc & _). rewrite app_cons. cbn. unfold unitChar.
  by rewrite (bool_decide_eq_true_2 _ Hc), andb_false_r.
Qed.

(** The last number of the string. *)
Lemma parseLoop_last orig s fuel d v :
  parseOne orig s = Ok (v, EmptyString) → s ≠ EmptyString → 0 ≤ d → 0 ≤ v → d + v ≤ 2 ^ 63 →
  (String.length s ≤ fuel)%nat → parseLoop fuel orig s d = Ok (d + v).
Proof.
  intros Hp Hne Hd Hv Hb Hf. rewrite <-(string_app_nil s) in Hp, Hf |- *.
  destruct (parseLoop_step orig s EmptyString fuel d v) as (fuel' & _ & ->); [done..|]. by destruct fuel'.
Qed.

(** A whole number of minutes or hours before the rest. *)
Lemma parseLoop_int orig v u unit rest fuel d :
  isUnit u unit → startsNumber rest → 0 ≤ d → 0 ≤ v < 2 ^ 64 → d + v * unit ≤ 2 ^ 63 →
  (String.length (Itoa v +:+ u +:+ rest) ≤ fuel)%nat →
  ∃ fuel', (String.length rest ≤ fuel')%nat ∧
    parseLoop fuel orig (Itoa v +:+ u +:+ rest) d = parseLoop fuel' orig rest (d + v * unit).
Proof.
  intros Hu Hr Hd Hv Hb. pose proof (un_pos _ _ Hu). rewrite <-string_app_assoc. intros Hf.
  apply parseLoop_step; [|by apply Itoa_app_ne|done|nia|done|done].
  rewrite string_app_assoc. apply parseOne_int; [done..|lia|lia].
Qed.

(** A number below a second, in the unit of its size. *)
Lemma parseLoop_small orig u x n fuel :
  isUnit u (10 ^ Z.of_nat n) → (n ≤ 9)%nat → 0 ≤ x ≤ 2 ^ 63 →
  (let '(buf, q) := fmtFrac u x n in String.length (fmtInt buf q) ≤ fuel)%nat →
  parseLoop fuel orig (let '(buf, q) := fmtFrac u x n in fmtInt buf q) 0 = Ok x.
Proof.
  intros Hu Hn Hx. destruct (fmtFrac_reads orig u x n Hu Hn) as (buf & -> & _ & Hp); [lia|]. intros Hf.
  pose proof (un_pos _ _ Hu) as Hpos. pose proof (Z.div_mod x (10 ^ Z.of_nat n)) as Hdm.
  pose proof (Z.div_pos x (10 ^ Z.of_nat n)). pose proof (Z.div_le_upper_bound x (10 ^ Z.of_nat n) (2 ^ 63)).
  assert (x / 10 ^ Z.of_nat n * 10 ^ Z.of_nat n + x mod 10 ^ Z.of_nat n = x) as Heq by lia.
  specialize (Hp (x / 10 ^ Z.of_nat n)). rewrite Heq in Hp. unfold fmtInt in *.
  apply (parseLoop_last orig _ fuel 0 x); [apply Hp; lia|apply Itoa_app_ne; nia|lia|lia|lia|done].
Qed.

Lemma parseLoop_formatAbs orig u fuel :
  0 < u ≤ 2 ^ 63 → (String.length (formatAbs u) ≤ fuel)%nat → parseLoop fuel orig (formatAbs u) 0 = Ok u.
Proof.
  intros Hu. unfold formatAbs. destruct (Z.ltb_spec u Second) as [Hs|Hs].
  { destruct (Z.eqb_spec u 0); [lia|].
    destruct (u <? Microsecond); [|destruct (u <? Millisecond)]; intros Hf.
    - apply (parseLoop_small orig "ns" u 0 fuel unit_ns); [lia|lia|]. by destruct (fmtFrac _ _ _).
    - apply (parseLoop_small orig "µs" u 3 fuel unit_us); [lia|lia|]. by destruct (fmtFrac _ _ _).
    - apply (parseLoop_small orig "ms" u 6 fuel unit_ms); [lia|lia|]. by destruct (fmtFrac _ _ _). }
  destruct (fmtFrac_reads orig "s" u 9 unit_s) as (buf & -> & _ & Hp); [lia|lia|].
  change (10 ^ Z.of_nat 9) with 1000000000 in *. set (q := u / 1000000000) in *. set (r := u mod 1000000000) in *.
  assert (u = q * 1000000000 + r ∧ 0 ≤ r < 1000000000 ∧ 0 ≤ q) as (Hqr & Hr & Hq).
  { subst q r. pose proof (Z.div_mod u 1000000000). pose proof (Z.mod_pos_bound u 1000000000).
    pose proof (Z.div_pos u 1000000000). lia. }
  assert (q = 60 * (q / 60) + q mod 60 ∧ 0 ≤ q mod 60 < 60 ∧ 0 ≤ q / 60) as (Hqm & Hs60 & Hm0).
  { pose proof (Z.div_mod q 60). pose proof (Z.mod_pos_bound q 60). pose proof (Z.div_pos q 60). lia. }
  assert (q / 60 = 60 * (q / 60 / 60) + (q / 60) mod 60 ∧ 0 ≤ (q / 60) mod 60 < 60 ∧ 0 ≤ q / 60 / 60) as (Hqh & Hm60 & Hh0).
  { pose proof (Z.div_mod (q / 60) 60). pose proof (Z.mod_pos_bound (q / 60) 60). pose proof (Z.div_pos (q / 60) 60). lia. }
  specialize (Hp (q mod 60)). unfold fmtInt.
  set (sec := q mod 60) in *. set (mins := q / 60) in *. set (hrs := mins / 60) in *. set (m := mins mod 60) in *.
  assert (parseOne orig (Itoa sec +:+ buf) = Ok (sec * 1000000000 + r, EmptyString)) as Hsec by (apply Hp; lia).
  assert (Itoa sec +:+ buf ≠ EmptyString) as Hne by (apply Itoa_app_ne; lia).
  assert (startsNumber (Itoa sec +:+ buf)) as Hst by (apply Itoa_startsNumber; lia).
  unfold Second in Hs.
  destruct (Z.ltb_spec 0 mins) as [Hmin|Hmin]; [destruct (Z.ltb_spec 0 hrs) as [Hhr|Hhr]|]; intros Hf.
  - change (parseLoop fuel orig (Itoa hrs +:+ "h" +:+ Itoa m +:+ "m" +:+ Itoa sec +:+ buf) 0 = Ok u).
    destruct (parseLoop_int orig hrs "h" Hour (Itoa m +:+ "m" +:+ Itoa sec +:+ buf) fuel 0 unit_h) as (f1 & Hf1 & ->);
      [apply Itoa_startsNumber; lia|lia|lia|unfold Hour, Minute, Second; lia|done|].
    destruct (parseLoop_int orig m "m" Minute (Itoa sec +:+ buf) f1 (0 + hrs * Hour) unit_m) as (f2 & Hf2 & ->);
      [done|unfold Hour, Minute, Second; lia|lia|unfold Hour, Minute, Second; lia|done|].
    rewrite (parseLoop_last orig _ f2 _ (sec * 1000000000 + r)); unfold Hour, Minute, Second; try done; try lia.
    f_equal. lia.
  - change (parseLoop fuel orig (Itoa m +:+ "m" +:+ Itoa sec +:+ buf) 0 = Ok u).
    destruct (parseLoop_int orig m "m" Minute (Itoa sec +:+ buf) fuel 0 unit_m) as (f2 & Hf2 & ->);
      [done|lia|lia|unfold Minute, Second; lia|done|].
    rewrite (parseLoop_last orig _ f2 _ (sec * 1000000000 + r)); unfold Minute, Second; try done; try lia.
    f_equal. lia.
  - rewrite (parseLoop_last orig _ fuel _ (sec * 1000000000 + r)); try done; try lia. f_equal. lia.
Qed.

(** ** The fuel is enough *)

Lemma leadingInt_shorter s x v r : leadingInt s x = Some (v, r) → (String.length r ≤ String.length s)%nat.
Proof.
  revert x. induction s as [|c s IH]; intros x; cbn [leadingInt]; [by intros [= _ <-]|].
  destruct (digit c); [|by intros [= _ <-]]. do 2 (case_match; [done|]). intros Hr%IH. cbn. lia.
Qed.

Lemma leadingFraction_shorter s x sc o v sc' r :
  leadingFraction s x sc o = (v, sc', r) → (String.length r ≤ String.length s)%nat.
Proof.
  revert x sc o. induction s as [|c s IH]; intros x sc o; cbn [leadingFraction]; [by intros [= _ _ <-]|].
  destruct (digit c); [|by intros [= _ _ <-]]. repeat case_match; intros Hr%IH; cbn; lia.
Qed.

Lemma takeUnit_shorter s u r : takeUnit s = (u, r) → (String.length u + String.length r = String.length s)%nat.
Proof.
  revert u. induction s as [|c s IH]; intros u; cbn [takeUnit]; [by intros [= <- <-]|].
  case_match; [by intros [= <- <-]|]. destruct (takeUnit s) as [u' r'] eqn:E. intros [= <- <-].
  cbn. rewrite (IH u'); [done|done].
Qed.

Lemma CutPrefix_shorter s p r : CutPrefix s p = Some r → (String.length r ≤ String.length s)%nat.
Proof. intros ->%CutPrefix_Some. rewrite string_length_app. lia. Qed.

Lemma parseOne_shorter orig s v r : parseOne orig s = Ok (v, r) → (String.length r < String.length s)%nat.
Proof.
  unfold parseOne. destruct s as [|c s]; [done|]. destruct (_ && _); [done|].
  destruct (leadingInt (String c s) 0) as [[v1 s1]|] eqn:E1; [|done]. apply leadingInt_shorter in E1.
  set (frac := match CutPrefix s1 "." with Some _ => _ | None => _ end).
  assert (String.length frac.1.2 ≤ String.length s1)%nat as Hf.
  { unfold frac. destruct (CutPrefix s1 ".") as [s'|] eqn:Ec; [|done]. apply CutPrefix_shorter in Ec.
    destruct (leadingFraction s' 0 (float_of_Z 1) false) as [[f sc] s2] eqn:Ef.
    apply leadingFraction_shorter in Ef. cbn. lia. }
  destruct frac as [[[f sc] s2] post]. cbn [fst snd] in Hf. destruct (negb _ && negb post); [done|].
  destruct (takeUnit s2) as [u s3] eqn:Eu. apply takeUnit_shorter in Eu. case_decide as Hu; [done|].
  assert (0 < String.length u)%nat by (destruct u; [done|cbn; lia]).
  intros Hres. assert (s3 = r) as <-; [|lia].
  repeat case_match; simplify_eq; done.
Qed.

Lemma parseLoop_fuel orig s fuel d :
  (String.length s ≤ fuel)%nat → parseLoop fuel orig s d = parseLoop (String.length s) orig s d.
Proof.
  remember (String.length s) as n eqn:En. revert s fuel d En.
  induction (lt_wf n) as [n _ IH]; intros s fuel d -> Hf. destruct s as [|c s]; [by destruct fuel|].
  destruct fuel as [|fuel]; [cbn in Hf; lia|]. cbn [String.length parseLoop].
  destruct (parseOne orig (String c s)) as [[v r]|e] eqn:E; [|done]. apply parseOne_shorter in E.
  case_match; [done|]. cbn in E, Hf.
  rewrite (IH (String.length r)) by (first [cbn; lia|done]). symmetry. apply (IH (String.length r)); [cbn; lia|done|lia].
Qed.

(** ** Properties *)

Lemma formatAbs_head u :
  0 ≤ u ≤ 2 ^ 63 → ∃ v buf, formatAbs u = Itoa v +:+ buf ∧ buf ≠ EmptyString ∧ 0 ≤ v < 2 ^ 64.
Proof.
  intros Hu. unfold formatAbs.
  assert (∀ unit n, isUnit unit (10 ^ Z.of_nat n) → (n ≤ 9)%nat →
    ∃ buf, fmtFrac unit u n = (buf, u / 10 ^ Z.of_nat n) ∧ buf ≠ EmptyString ∧ 0 ≤ u / 10 ^ Z.of_nat n < 2 ^ 64) as Hfrac.
  { intros unit n Hun Hn. destruct (fmtFrac_reads EmptyString unit u n Hun Hn) as (buf & -> & Hne & _); [lia|].
    exists buf. pose proof (un_pos _ _ Hun). split; [done|]. split; [done|]. split; [apply Z.div_pos; lia|].
    apply Z.div_lt_upper_bound; nia. }
  destruct (u <? Second).
  { destruct (u =? 0); [by exists 0, "s"|]. destruct (u <? Microsecond); [|destruct (u <? Millisecond)].
    - destruct (Hfrac "ns" 0%nat unit_ns) as (buf & -> & ? & ?); [lia|]. by eexists _, buf.
    - destruct (Hfrac "µs" 3%nat unit_us) as (buf & -> & ? & ?); [lia|]. by eexists _, buf.
    - destruct (Hfrac "ms" 6%nat unit_ms) as (buf & -> & ? & ?); [lia|]. by eexists _, buf. }
  destruct (Hfrac "s" 9%nat unit_s) as (buf & -> & Hb & Hq); [lia|]. set (q := u / 10 ^ Z.of_nat 9) in *.
  pose proof (Z.mod_pos_bound q 60). pose proof (Z.mod_pos_bound (q / 60) 60).
  pose proof (Z.div_pos (q / 60) 60). pose proof (Z.div_pos q 60).
  pose proof (Z.div_le_upper_bound q 60 q). pose proof (Z.div_le_upper_bound (q / 60) 60 (q / 60)).
  destruct (0 <? q / 60); [destruct (0 <? q / 60 / 60)|]; unfold fmtInt; eexists _, _; (split; [done|]); split; first [done|lia].
Qed.

Lemma digit_sign c : is_Some (digit c) → c ≠ "-"%char ∧ c ≠ "+"%char.
Proof. intros [d Hd]. split; intros ->; done. Qed.

Lemma ParseDuration_String d : - 2 ^ 63 ≤ d < 2 ^ 63 → ParseDuration (Duration_String d) = Ok d.
Proof.
  intros Hd. destruct (decide (d = 0)) as [->|Hne]; [by vm_compute|].
  destruct (formatAbs_head (Z.abs d)) as (v & buf & Hs & Hbuf & Hv); [lia|].
  destruct (Itoa_digits v Hv) as (c & r & Hi & Hc & _). rewrite Hi, app_cons in Hs.
  assert (r +:+ buf ≠ EmptyString) as Hr by (destruct r; [done|by rewrite app_cons]).
  pose proof (λ orig, parseLoop_formatAbs orig (Z.abs d) (String.length (formatAbs (Z.abs d))) ltac:(lia) ltac:(lia)) as Hp.
  unfold Duration_String, ParseDuration. rewrite Hs in Hp |- *. destruct (Z.ltb_spec d 0) as [Hn|Hn].
  - assert (CutPrefix (String "-" (String c (r +:+ buf))) "-" = Some (String c (r +:+ buf))) as ->
      by exact (CutPrefix_app "-" _).
    rewrite !decide_False by congruence. rewrite Hp. f_equal. rewrite wrap64_id; lia.
  - destruct (digit_sign c Hc) as [H1 H2]. cbn [CutPrefix]. rewrite !decide_False by congruence.
    rewrite Hp. rewrite (proj2 (Z.ltb_ge _ _)) by lia. f_equal. lia.
Qed.

(** C35: Durations survive being written out and read back: for every
    int64, the text and the JSON form decode to the number they were made
    from. *)
Theorem duration_roundtrip d :
  - 2 ^ 63 ≤ d < 2 ^ 63 → UnmarshalText (MarshalText d) = Ok d ∧ UnmarshalJSON (MarshalJSON d) = Ok d.
Proof.
  intros Hd. unfold UnmarshalText, UnmarshalJSON, MarshalText, MarshalJSON, jsonToString.
  by rewrite (ParseDuration_String d Hd).
Qed.

Lemma duration_roundtrip_witness : UnmarshalText "-2562047h47m16.854775808s" = Ok (- 2 ^ 63).
Proof. exact (proj1 (duration_roundtrip (- 2 ^ 63) ltac:(lia))). Defined.

End DurationsProofs.
