(* ===== verification/Schema.v ===== *)
(** * The JSON schema of the config: internal/config/schema_gen.go

    A build-time program that writes the schema editors check a config file
    against.  The reflection over the structs is that of a third-party library
    (class [JSONSchema]); the program's own part is how it sets the library
    up, in particular the mapping of [config.Duration] to a string with a
    pattern, and what it writes.  The pattern is a regular expression [re]
    whose text is that of the source, matched by derivatives.  Strings are
    UTF-8, so that the micro sign is a sequence of two bytes. *)

From Stdlib Require Import Ascii.
From S2P Require Import Prelude GoStrings Floats Config Model Durations DurationsProofs.

Module Schema.
Import Durations DurationsProofs.

(** ** Regular expressions

    The constructs the pattern uses, and [Void] and [Eps] for derivatives. *)
Inductive re :=
  | Void | Eps
  | Chr (c : ascii) | Range (lo hi : ascii)
  | Cat (r1 r2 : re) | Alt (r1 r2 : re)
  | Star (r : re) | Plus (r : re) | Opt (r : re) | Group (r : re).

Definition inRange (lo hi c : ascii) : bool :=
  bool_decide (nat_of_ascii lo ≤ nat_of_ascii c ≤ nat_of_ascii hi)%nat.

(** The text of an expression; a period is escaped. *)
Fixpoint re_text (r : re) : string :=
  match r with
  | Void | Eps => EmptyString
  | Chr c => if decide (c = "."%char) then "\." else String c EmptyString
  | Range lo hi => "[" +:+ String lo ("-" +:+ String hi "]")
  | Cat r1 r2 => re_text r1 +:+ re_text r2
  | Alt r1 r2 => re_text r1 +:+ "|" +:+ re_text r2
  | Star r => re_text r +:+ "*"
  | Plus r => re_text r +:+ "+"
  | Opt r => re_text r +:+ "?"
  | Group r => "(" +:+ re_text r +:+ ")"
  end.

(** What an expression means. *)
Inductive lang : re → string → Prop :=
  | lang_Eps : lang Eps EmptyString
  | lang_Chr c : lang (Chr c) (String c EmptyString)
  | lang_Range lo hi c : inRange lo hi c = true → lang (Range lo hi) (String c EmptyString)
  | lang_Cat r1 r2 s t : lang r1 s → lang r2 t → lang (Cat r1 r2) (s +:+ t)
  | lang_AltL r1 r2 s : lang r1 s → lang (Alt r1 r2) s
  | lang_AltR r1 r2 s : lang r2 s → lang (Alt r1 r2) s
  | lang_Star0 r : lang (Star r) EmptyString
  | lang_StarS r s t : lang r s → lang (Star r) t → lang (Star r) (s +:+ t)
  | lang_Plus r s t : lang r s → lang (Star r) t → lang (Plus r) (s +:+ t)
  | lang_Opt0 r : lang (Opt r) EmptyString
  | lang_Opt1 r s : lang r s → lang (Opt r) s
  | lang_Group r s : lang r s → lang (Group r) s.

Fixpoint nullable (r : re) : bool :=
  match r with
  | Void | Chr _ | Range _ _ => false
  | Eps | Star _ | Opt _ => true
  | Cat r1 r2 => nullable r1 && nullable r2
  | Alt r1 r2 => nullable r1 || nullable r2
  | Plus r | Group r => nullable r
  end.

Fixpoint deriv (c : ascii) (r : re) : re :=
  match r with
  | Void | Eps => Void
  | Chr c' => if decide (c = c') then Eps else Void
  | Range lo hi => if inRange lo hi c then Eps else Void
  | Cat r1 r2 =>
      if nullable r1 then Alt (Cat (deriv c r1) r2) (deriv c r2) else Cat (deriv c r1) r2
  | Alt r1 r2 => Alt (deriv c r1) (deriv c r2)
  | Star r | Plus r => Cat (deriv c r) (Star r)
  | Opt r | Group r => deriv c r
  end.

Fixpoint accepts (r : re) (s : string) : bool :=
  match s with
  | EmptyString => nullable r
  | String c s => accepts (deriv c r) s
  end.

(** ** schema_gen.go *)

(** A literal text. *)
Fixpoint Lit (s : string) : re :=
  match s with
  | EmptyString => Eps
  | String c EmptyString => Chr c
  | String c s => Cat (Chr c) (Lit s)
  end.
Fixpoint AltAll (u : string) (us : list string) : re :=
  match us with
  | [] => Lit u
  | u' :: us => Alt (Lit u) (AltAll u' us)
  end.

Definition units : list string := ["ns"; "us"; "µs"; "ms"; "s"; "m"; "h"].
Definition digits : re := Range "0" "9".
Definition unitRe : re := Group (AltAll "ns" ["us"; "µs"; "ms"; "s"; "m"; "h"]).
Definition fraction : re := Opt (Group (Cat (Chr ".") (Star digits))).
Definition durationPattern : re := Plus (Group (Cat (Plus digits) (Cat fraction unitRe))).

(** The text of the source, between its anchors. *)
Definition durationText : string := "^([0-9]+(\.[0-9]*)?(ns|us|µs|ms|s|m|h))+$".
Example durationText_print : durationText = "^" +:+ re_text durationPattern +:+ "$".
Proof. by vm_compute. Qed.

(** jsonschema.Schema, the part the program sets. *)
Record FieldSchema := mkFieldSchema { FS_Type : string; FS_Pattern : string; FS_Description : string }.

(** reflect.Type: [config.Duration], or another type. *)
Inductive GoType := DurationType | OtherType (name : string).
#[global] Instance GoType_eq_dec : EqDecision GoType.
Proof. solve_decision. Defined.

(** [r.Mapper]. *)
Definition Mapper (t : GoType) : option FieldSchema :=
  if decide (t = DurationType) then
    Some (mkFieldSchema "string" durationText ("Duration string such as " +:+ inQuotes "1s" +:+ ", " +:+ inQuotes "500ms" +:+ " or " +:+ inQuotes "1m30s" +:+ "."))
  else None.

(** The library: what AddGoComments reads from the sources of a package, and
    the schema it reflects from the fields of [config.Config]. *)
Class JSONSchema := {
  CommentMap : Type;
  Body : Type;
  AddGoComments : string → string → result error CommentMap;
  reflectConfig : bool → bool → (GoType → option FieldSchema) → CommentMap → Body }.

Section Generator.
Context `{JSONSchema}.

(** jsonschema.Reflector, as the program fills it in. *)
Record Reflector := mkReflector {
  ExpandedStruct : bool; RequiredFromJSONSchemaTags : bool;
  RMapper : GoType → option FieldSchema; RComments : CommentMap }.
Definition Reflect (r : Reflector) : Body :=
  reflectConfig (ExpandedStruct r) (RequiredFromJSONSchemaTags r) (RMapper r) (RComments r).

Record Document := mkDocument { D_Title : string; D_Description : string; D_ID : string; D_Body : Body }.

(** json.MarshalIndent, os.MkdirAll and os.WriteFile. *)
Context (MarshalIndent : Document → string → string → result error string).
Context (MkdirAll : string → option error) (WriteFile : string → string → option error).
Context (errText : error → string).

(** What the process leaves: its exit code, what it printed on standard error
    and output, and the file it wrote. *)
Record Exit := mkExit { E_code : Z; E_err : option string; E_out : option string; E_file : option (string * string) }.
Definition failure (what : string) (e : error) : Exit :=
  mkExit 1 (Some ("Error " +:+ what +:+ ": " +:+ errText e)) None None.

Definition outDir : string := "../../schema".
Definition document (c : CommentMap) : Document :=
  mkDocument "pathosd configuration"
    "Configuration schema for pathosd — health-aware BGP VIP announcer"
    "https://github.com/vooon/pathosd/schema/pathosd-config-v1.schema.json"
    (Reflect (mkReflector true true Mapper c)).

Definition schema_main : Exit :=
  match AddGoComments "github.com/vooon/pathosd/internal/config" "./" with
  | Err e => failure "loading Go comments" e
  | Ok c =>
      match MarshalIndent (document c) EmptyString "  " with
      | Err e => failure "marshaling schema" e
      | Ok data =>
          let data := data +:+ String "010" EmptyString in
          match MkdirAll outDir with
          | Some e => failure "creating schema dir" e
          | None =>
              let path := outDir +:+ "/pathosd-config-v1.schema.json" in
              match WriteFile path data with
              | Some e => failure "writing schema" e
              | None => mkExit 0 None (Some "Generated schema/pathosd-config-v1.schema.json") (Some (path, data))
              end
          end
      end
  end.
End Generator.

(** ** Matching *)

Lemma lang_Cat_inv r1 r2 s : lang (Cat r1 r2) s → ∃ a b, s = a +:+ b ∧ lang r1 a ∧ lang r2 b.
Proof. inversion 1; subst. eauto. Qed.

Lemma nullable_lang r : nullable r = true ↔ lang r EmptyString.
Proof.
  induction r; cbn; (split; [intros Hn|intros Hl]); try done; try by constructor.
  all: try (inversion Hl; fail).
  - apply andb_true_iff in Hn as [H1%IHr1 H2%IHr2]. apply (lang_Cat _ _ _ _ H1 H2).
  - apply lang_Cat_inv in Hl as ([|] & [|] & Hs & H1 & H2); [|done..]. by rewrite (proj2 IHr1 H1), (proj2 IHr2 H2).
  - apply orb_true_iff in Hn as [H1%IHr1|H2%IHr2]; [by constructor|by apply lang_AltR].
  - inversion Hl; subst; [rewrite (proj2 IHr1) by done|rewrite (proj2 IHr2), orb_true_r by done]; done.
  - apply IHr in Hn. apply (lang_Plus _ _ _ Hn), lang_Star0.
  - inversion Hl as [| | | | | | | |? s t Hs Ht Heq| | |]; subst. apply IHr. destruct s; [done|]. by rewrite app_cons in *.
  - constructor. by apply IHr.
  - apply IHr. by inversion Hl.
Qed.

(** A repetition that consumes a character starts with a turn that does. *)
Lemma star_first r c s :
  lang (Star r) (String c s) → ∃ a b, s = a +:+ b ∧ lang r (String c a) ∧ lang (Star r) b.
Proof.
  remember (Star r) as r' eqn:Er. remember (String c s) as s' eqn:Es. intros Hl. revert c s Es.
  induction Hl as [| | | | | | |r0 a b Ha _ Hb IH| | | |]; intros x rest Es; try done. injection Er as ->.
  destruct a as [|c' a]; [by apply IH|]. rewrite app_cons in Es. injection Es as -> <-. eauto.
Qed.

Lemma deriv_lang c r s : lang (deriv c r) s ↔ lang r (String c s).
Proof.
  revert s. induction r; intros s; cbn [deriv].
  - split; inversion 1.
  - split; inversion 1.
  - case_decide; subst; split; inversion 1; subst; first [done|constructor].
  - destruct (inRange lo hi c) eqn:E; split; inversion 1; subst; first [by constructor|congruence].
  - assert (∀ t, lang (Cat (deriv c r1) r2) t ↔ ∃ a b, t = a +:+ b ∧ lang r1 (String c a) ∧ lang r2 b) as Hcat.
    { intros t. split.
      - intros (a & b & -> & Ha%IHr1 & Hb)%lang_Cat_inv. eauto.
      - intros (a & b & -> & Ha%IHr1 & Hb). by apply lang_Cat. }
    assert (lang (Cat r1 r2) (String c s) ↔ lang (Cat (deriv c r1) r2) s ∨ (nullable r1 = true ∧ lang r2 (String c s))) as ->.
    { rewrite Hcat, nullable_lang. split.
      - intros ([|c' a] & b & Hs & Ha & Hb)%lang_Cat_inv; [right; by rewrite Hs|]. left.
        rewrite app_cons in Hs. injection Hs as <- ->. eauto.
      - intros [(a & b & -> & Ha & Hb)|[Ha Hb]]; [rewrite <-app_cons; by apply lang_Cat|].
        rewrite <-(app_empty (String c s)). by apply lang_Cat. }
    destruct (nullable r1); [|split; [by left|by intros [?|[? _]]]]. split.
    + inversion 1; subst; [by left|right; split; [done|by apply IHr2]].
    + intros [Hl|[_ Hl]]; [by apply lang_AltL|by apply lang_AltR, IHr2].
  - split; inversion 1; subst; first [apply lang_AltL, IHr1; done|apply lang_AltR, IHr2; done].
  - split.
    + intros (a & b & -> & Ha%IHr & Hb)%lang_Cat_inv. rewrite <-app_cons. by apply lang_StarS.
    + intros (a & b & -> & Ha%IHr & Hb)%star_first. by apply lang_Cat.
  - split.
    + intros (a & b & -> & Ha%IHr & Hb)%lang_Cat_inv. rewrite <-app_cons. by apply lang_Plus.
    + inversion 1 as [| | | | | | | |? a b Ha Hb Hab| | |]; subst. destruct a as [|c' a].
      * rewrite app_empty in *. subst. apply star_first in Hb as (a & b' & -> & Ha'%IHr & Hb). by apply lang_Cat.
      * rewrite app_cons in *. simplify_eq. apply lang_Cat; [by apply IHr|done].
  - rewrite IHr. split; [by constructor|by inversion 1].
  - rewrite IHr. split; [by constructor|by inversion 1].
Qed.

(** The matcher decides the language. *)
Lemma matches_lang r s : accepts r s = true ↔ lang r s.
Proof.
  revert r. induction s as [|c s IH]; intros r; cbn [accepts]; [apply nullable_lang|]. by rewrite IH, deriv_lang.
Qed.

(** ** The texts the pattern describes *)

Definition isDigit (c : ascii) : bool := bool_decide (is_Some (digit c)).

Lemma inRange_digit c : inRange "0" "9" c = isDigit c.
Proof. by destruct c as [[] [] [] [] [] [] [] []]. Qed.

(** A number with its unit: digits, perhaps a period and more digits. *)
Record num := mkNum { n_int : string; n_frac : option string; n_unit : string }.
Definition spellFrac (f : option string) : string := match f with Some fs => String "." fs | None => EmptyString end.
Definition spell (n : num) : string := n_int n +:+ spellFrac (n_frac n) +:+ n_unit n.
Definition spells (ns : list num) : string := foldr (λ n s, spell n +:+ s) EmptyString ns.
Record spelled (n : num) : Prop := {
  sp_ne : n_int n ≠ EmptyString;
  sp_int : all_chars isDigit (n_int n) = true;
  sp_frac : all_chars isDigit (default EmptyString (n_frac n)) = true;
  sp_unit : n_unit n ∈ units }.

Lemma all_chars_app f a b : all_chars f (a +:+ b) = all_chars f a && all_chars f b.
Proof. induction a as [|c a IH]; [done|]. rewrite app_cons. cbn. by rewrite IH, andb_assoc. Qed.

Lemma lang_star_digits s : lang (Star digits) s ↔ all_chars isDigit s = true.
Proof.
  split.
  - remember (Star digits) as r eqn:Er. intros Hl. induction Hl as [| | | | | | |r a b Ha _ _ IH| | | |]; try done.
    injection Er as ->. rewrite all_chars_app, IH, andb_true_r by done. inversion Ha as [| |? ? ? Hc| | | | | | | | |]; subst.
    cbn. by rewrite <-inRange_digit, Hc.
  - induction s as [|c s IH]; [intros; apply lang_Star0|]. cbn. intros [Hc Hs]%andb_true_iff.
    change (String c s) with (String c EmptyString +:+ s). apply lang_StarS; [|by apply IH]. constructor. by rewrite inRange_digit.
Qed.

Lemma lang_plus_digits s : lang (Plus digits) s ↔ s ≠ EmptyString ∧ all_chars isDigit s = true.
Proof.
  split.
  - inversion 1 as [| | | | | | | |? a b Ha Hb Hab| | |]; subst. apply lang_star_digits in Hb. rewrite all_chars_app, Hb, andb_true_r.
    inversion Ha as [| |? ? ? Hc| | | | | | | | |]; subst. cbn. by rewrite <-inRange_digit, Hc.
  - intros [Hne Hs]. destruct s as [|c s]; [done|]. cbn in Hs. apply andb_true_iff in Hs as [Hc Hs].
    change (String c s) with (String c EmptyString +:+ s). apply lang_Plus; [|by apply lang_star_digits].
    constructor. by rewrite inRange_digit.
Qed.

Lemma lang_Lit u s : lang (Lit u) s ↔ s = u.
Proof.
  revert s. induction u as [|c [|c' u] IH]; intros s; [split; [by inversion 1|intros ->; constructor]..|].
  change (Lit (String c (String c' u))) with (Cat (Chr c) (Lit (String c' u))). split.
  - intros (a & b & -> & Ha & ->%IH)%lang_Cat_inv. by inversion Ha.
  - intros ->. change (String c (String c' u)) with (String c EmptyString +:+ String c' u).
    apply lang_Cat; [constructor|by apply IH].
Qed.

Lemma lang_AltAll u us s : lang (AltAll u us) s ↔ s ∈ u :: us.
Proof.
  revert u. induction us as [|u' us IH]; intros u; cbn [AltAll]; rewrite elem_of_cons.
  - rewrite lang_Lit, elem_of_nil. naive_solver.
  - rewrite <-IH, <-lang_Lit. split; [inversion 1; auto|intros [?|?]; eauto using lang].
Qed.

Lemma lang_unit s : lang unitRe s ↔ s ∈ units.
Proof.
  unfold unitRe, units. rewrite <-lang_AltAll. generalize (AltAll "ns" ["us"; "µs"; "ms"; "s"; "m"; "h"]). intros r.
  split; [by inversion 1|by constructor].
Qed.

Lemma lang_fraction s : lang fraction s ↔ ∃ f, s = spellFrac f ∧ all_chars isDigit (default EmptyString f) = true.
Proof.
  split.
  - inversion 1 as [| | | | | | | | | |? ? Hl|]; subst; [by exists None|]. inversion Hl as [| | | | | | | | | | |? ? Hc]; subst.
    apply lang_Cat_inv in Hc as (a & b & -> & Ha & Hb%lang_star_digits). inversion Ha; subst. by exists (Some b).
  - intros ([fs|] & -> & Hf); [|constructor]. apply lang_Opt1, lang_Group.
    change (spellFrac (Some fs)) with (String "." EmptyString +:+ fs). apply lang_Cat; [constructor|by apply lang_star_digits].
Qed.

Definition numRe : re := Group (Cat (Plus digits) (Cat fraction unitRe)).

Lemma lang_num s : lang numRe s ↔ ∃ n, s = spell n ∧ spelled n.
Proof.
  split.
  - inversion 1 as [| | | | | | | | | | |? ? Hl]; subst.
    apply lang_Cat_inv in Hl as (a & r & -> & [Hne Ha]%lang_plus_digits & Hr).
    apply lang_Cat_inv in Hr as (b & c & -> & (f & -> & Hf)%lang_fraction & Hc%lang_unit). by exists (mkNum a f c).
  - intros (n & -> & [Hne Hi Hf Hu]). apply lang_Group, lang_Cat; [by apply lang_plus_digits|].
    apply lang_Cat; [apply lang_fraction; eauto|by apply lang_unit].
Qed.

Lemma lang_nums s : lang (Star numRe) s ↔ ∃ ns, s = spells ns ∧ Forall spelled ns.
Proof.
  split.
  - remember (Star numRe) as r eqn:Er. intros Hl. induction Hl as [| | | | | | |r a b Ha _ _ IH| | | |]; try done.
    { by exists []. }
    injection Er as ->. destruct IH as (ns & -> & Hns); [done|]. apply lang_num in Ha as (n & -> & Hn).
    exists (n :: ns). by split; [|constructor].
  - intros (ns & -> & Hns). induction Hns as [|n ns Hn Hns IH]; [apply lang_Star0|].
    apply lang_StarS; [apply lang_num; eauto|done].
Qed.

(** The pattern describes the non-empty sequences of numbers with units. *)
Lemma pattern_spells s : accepts durationPattern s = true ↔ ∃ ns, ns ≠ [] ∧ s = spells ns ∧ Forall spelled ns.
Proof.
  rewrite matches_lang. split.
  - inversion 1 as [| | | | | | | |? a b Ha Hb Hab| | |]; subst. apply lang_num in Ha as (n & -> & Hn).
    apply lang_nums in Hb as (ns & -> & Hns). exists (n :: ns). by repeat split; [|constructor].
  - intros ([|n ns] & Hne & -> & Hns); [done|]. inversion Hns; subst. apply lang_Plus; [apply lang_num; eauto|].
    apply lang_nums. eauto.
Qed.
End Schema.
