(* ===== verification/SchemaProofs.v ===== *)
(** * The schema and the parser agree on durations

    What the daemon prints for a duration is accepted by the pattern of the
    schema, and what the pattern accepts is read by [ParseDuration]: as the
    sum of its numbers if none has a fraction, and always without an error
    about a unit or a missing number. *)

From Stdlib Require Import Ascii.
From S2P Require Import Prelude GoStrings Floats Config Model Durations DurationsProofs Schema.

Module SchemaProofs.
Import Floats Durations DurationsProofs Schema.

(** ** Digits *)

Lemma digits_value ds acc :
  all_chars isDigit ds = true → 0 ≤ acc → ∃ v, parse_digits ds acc = Some v ∧ acc ≤ v.
Proof.
  revert acc. induction ds as [|c ds IH]; intros acc; cbn; [by exists acc|].
  intros [Hc Hd]%andb_true_iff Hacc. apply bool_decide_eq_true in Hc as [d Hc]. rewrite Hc. apply digit_range in Hc.
  destruct (IH (acc * 10 + d) Hd) as (v & Hv & Hle); [lia|]. exists v. split; [done|lia].
Qed.

(** Too large a number is an error, however it is reached. *)
Lemma leadingInt_overflow ds rest acc v :
  0 ≤ acc ≤ 2 ^ 63 → parse_digits ds acc = Some v → 2 ^ 63 < v → leadingInt (ds +:+ rest) acc = None.
Proof.
  revert acc. induction ds as [|c ds IH]; intros acc Hacc; cbn [parse_digits]; [intros [= <-]; lia|].
  rewrite app_cons. cbn [leadingInt]. destruct (digit c) as [d|] eqn:E; [|done]. apply digit_range in E. intros Hp Hv.
  destruct (2 ^ 63 / 10 <? acc); [done|]. destruct (Z.ltb_spec (2 ^ 63) (acc * 10 + d)); [done|]. apply IH; [lia|done|done].
Qed.

Lemma leadingFraction_any ds rest x scale o :
  all_chars isDigit ds = true → noDigit rest → ∃ f scale', leadingFraction (ds +:+ rest) x scale o = (f, scale', rest).
Proof.
  intros Hd Hr. revert x scale o Hd. induction ds as [|c ds IH]; intros x scale o; cbn [all_chars].
  - intros _. rewrite app_empty. destruct rest as [|c r]; [by eexists _, _|]. cbn in *. rewrite Hr. by eexists _, _.
  - intros [Hc Hd]%andb_true_iff. apply bool_decide_eq_true in Hc as [d Hc]. rewrite app_cons. cbn [leadingFraction]. rewrite Hc.
    destruct o; [by apply IH|]. repeat case_match; by apply IH.
Qed.

(** ** One number *)

Definition unitValue (u : string) : Z := default 0 (unitMap u).

Lemma units_unit u : u ∈ units → isUnit u (unitValue u).
Proof.
  unfold units. rewrite !elem_of_cons, elem_of_nil. intros Hu.
  destruct_or! Hu; subst; first [done|by split; [| |eexists _, _|]].
Qed.

(** What a number without a fraction stands for. *)
Definition intValue (n : num) : Z := default 0 (parse_digits (n_int n) 0) * unitValue (n_unit n).
Definition totalOf (ns : list num) : Z := foldr (λ n t, intValue n + t) 0 ns.

Lemma intValue_nonneg n : spelled n → 0 ≤ intValue n.
Proof.
  intros [_ Hi _ Hu]. destruct (digits_value _ 0 Hi) as (v & Hv & Hle); [done|]. unfold intValue. rewrite Hv.
  pose proof (un_pos _ _ (units_unit _ Hu)). cbn. nia.
Qed.

Lemma spell_head n rest : spelled n → ∃ c r, spell n +:+ rest = String c r ∧ is_Some (digit c) ∧ r ≠ EmptyString.
Proof.
  intros [Hne Hi _ Hu]. destruct (un_char _ _ (units_unit _ Hu)) as (cu & u' & Hc). unfold spell. rewrite Hc.
  destruct (n_int n) as [|c r]; [done|]. cbn in Hi. apply andb_true_iff in Hi as [Hd _].
  eexists c, _. split; [by rewrite !app_cons|]. split; [by apply bool_decide_eq_true in Hd|].
  intros Heq%(f_equal String.length). rewrite !string_length_app in Heq. cbn in Heq. lia.
Qed.

(** Reading a number: with a fraction some value or an error of the number as
    a whole, without one its value if that is an int64. *)
Lemma parseOne_num orig n rest :
  spelled n → startsNumber rest →
  if decide (n_frac n = None) then
    parseOne orig (spell n +:+ rest) = if intValue n <=? 2 ^ 63 then Ok (intValue n, rest) else Err (invalidDuration orig)
  else
    parseOne orig (spell n +:+ rest) = Err (invalidDuration orig) ∨
    ∃ v, 0 ≤ v ≤ 2 ^ 63 ∧ parseOne orig (spell n +:+ rest) = Ok (v, rest).
Proof.
  intros Hn Hr. destruct (spell_head n rest Hn) as (c & r & E & Hc & _). destruct Hn as [Hne Hi Hf Hu].
  pose proof (units_unit _ Hu) as Hun. pose proof (unit_noDigit _ _ rest Hun) as [Hnd Hdot].
  pose proof Hun as [Hmap Hpos (cu & u' & Hcu) Hall]. set (unit := unitValue (n_unit n)) in *.
  destruct (digits_value _ 0 Hi) as (v & Hv & Hle); [done|].
  assert (∀ t, noDigit t → leadingInt (n_int n +:+ t) 0 = if v <=? 2 ^ 63 then Some (v, t) else None) as Hlead.
  { intros t Ht. destruct (Z.leb_spec v (2 ^ 63)); [by apply leadingInt_digits|]. by eapply leadingInt_overflow. }
  assert (∀ t, n_int n +:+ t ≠ t) as Hpre.
  { intros t Heq%(f_equal String.length). rewrite string_length_app in Heq. destruct (n_int n); [done|]. cbn in Heq. lia. }
  unfold intValue. fold unit. rewrite Hv. change (default 0 (Some v)) with v. unfold spell in *. destruct (n_frac n) as [fs|]; cbn [spellFrac] in *.
  - rewrite decide_False by done. rewrite !string_app_assoc in E |- *. rewrite app_cons in E |- *.
    unfold parseOne. rewrite E. rewrite <-E, (bool_decide_eq_true_2 _ Hc), andb_false_r.
    rewrite Hlead by done. destruct (v <=? 2 ^ 63); [|by left].
    assert (CutPrefix (String "." (fs +:+ n_unit n +:+ rest)) "." = Some (fs +:+ n_unit n +:+ rest)) as -> by exact (CutPrefix_app "." _).
    destruct (leadingFraction_any fs (n_unit n +:+ rest) 0 (float_of_Z 1) false Hf Hnd) as (f & scale & ->).
    rewrite (bool_decide_eq_false_2 _ (Hpre _)). cbn [negb andb]. rewrite takeUnit_app by done.
    rewrite decide_False by (by rewrite Hcu). rewrite Hmap. destruct (Z.ltb_spec (2 ^ 63 / unit) v) as [|Hq]; [by left|].
    assert (v * unit ≤ 2 ^ 63) by (pose proof (Z.mul_div_le (2 ^ 63) unit Hpos); nia).
    destruct (0 <? f); [|right; exists (v * unit); split; [nia|done]].
    destruct (Z.ltb_spec (2 ^ 63) (wrapU64 (v * unit + float_to_Z (fmul (float_of_Z f) (fdiv (float_of_Z unit) scale)))));
      [by left|]. right. eexists. split; [|done]. unfold wrapU64 in *. split; [apply Z.mod_pos_bound; lia|done].
  - rewrite decide_True by done. rewrite !string_app_assoc, app_empty in *.
    unfold parseOne. rewrite E. rewrite <-E, (bool_decide_eq_true_2 _ Hc), andb_false_r, Hlead by done.
    destruct (Z.leb_spec v (2 ^ 63)) as [Hb|Hb]; [|].
    2: { rewrite (proj2 (Z.leb_gt _ _)); [done|]. pose proof (Z.mul_le_mono_nonneg_l 1 unit v). lia. }
    rewrite Hdot, (bool_decide_eq_false_2 _ (Hpre _)). cbn [negb andb]. rewrite takeUnit_app by done.
    rewrite decide_False by (by rewrite Hcu). rewrite Hmap. destruct (Z.ltb_spec (2 ^ 63 / unit) v) as [Hq|Hq].
    + rewrite (proj2 (Z.leb_gt _ _)); [done|].
      pose proof (Z.mul_succ_div_gt (2 ^ 63) unit Hpos). nia.
    + rewrite (proj2 (Z.leb_le _ _)); [done|]. pose proof (Z.mul_div_le (2 ^ 63) unit Hpos). nia.
Qed.

(** ** The whole text *)

Lemma spells_starts ns : Forall spelled ns → startsNumber (spells ns).
Proof.
  intros [|n l Hn _]; [done|]. cbn [spells foldr]. destruct (spell_head n (spells l) Hn) as (c & r & E & Hc & _).
  unfold spells in E. rewrite E. cbn. unfold unitChar. by rewrite (bool_decide_eq_true_2 _ Hc), andb_false_r.
Qed.

(** One turn of the loop, from what [parseOne] answers. *)
Lemma parseLoop_turn orig n rest d :
  spelled n → ∃ fuel, (String.length rest ≤ fuel)%nat ∧
  parseLoop (String.length (spell n +:+ rest)) orig (spell n +:+ rest) d =
    match parseOne orig (spell n +:+ rest) with
    | Err e => Err e
    | Ok (v, s) => if 2 ^ 63 <? wrapU64 (d + v) then Err (invalidDuration orig) else parseLoop fuel orig s (wrapU64 (d + v))
    end.
Proof.
  intros Hn. destruct (spell_head n rest Hn) as (c & r & E & _ & _). exists (String.length r). split.
  - apply (f_equal String.length) in E. rewrite string_length_app in E. cbn in E.
    destruct (spell_head n EmptyString Hn) as (c' & r' & E' & _ & _). rewrite string_app_nil in E'. rewrite E' in E. cbn in E. lia.
  - rewrite E. cbn [String.length parseLoop]. by destruct (parseOne orig (String c r)) as [[v s]|e].
Qed.

Lemma parseLoop_nums orig ns d :
  Forall spelled ns → 0 ≤ d ≤ 2 ^ 63 →
  (parseLoop (String.length (spells ns)) orig (spells ns) d = Err (invalidDuration orig) ∨
   ∃ v, 0 ≤ v ≤ 2 ^ 63 ∧ parseLoop (String.length (spells ns)) orig (spells ns) d = Ok v) ∧
  (Forall (λ n, n_frac n = None) ns → d + totalOf ns ≤ 2 ^ 63 →
   parseLoop (String.length (spells ns)) orig (spells ns) d = Ok (d + totalOf ns)).
Proof.
  intros Hns. revert d. induction Hns as [|n ns Hn Hns IH]; intros d Hd; cbn [spells totalOf foldr].
  { cbn. split; [right; by exists d|]. intros _ _. by rewrite Z.add_0_r. }
  fold (spells ns) (totalOf ns).
  assert (0 ≤ totalOf ns) as Ht.
  { clear -Hns. induction Hns as [|m l Hm _ IHl]; [done|]. pose proof (intValue_nonneg m Hm). change (totalOf (m :: l)) with (intValue m + totalOf l). lia. }
  pose proof (intValue_nonneg n Hn) as Hi. pose proof (parseOne_num orig n (spells ns) Hn (spells_starts ns Hns)) as Hone.
  destruct (parseLoop_turn orig n (spells ns) d Hn) as (fuel & Hfuel & ->).
  split.
  - assert (parseOne orig (spell n +:+ spells ns) = Err (invalidDuration orig) ∨
      ∃ v, 0 ≤ v ≤ 2 ^ 63 ∧ parseOne orig (spell n +:+ spells ns) = Ok (v, spells ns)) as [->|(v & Hv & ->)].
    { case_decide; [|done]. rewrite Hone. destruct (Z.leb_spec (intValue n) (2 ^ 63)); [right; by exists (intValue n)|by left]. }
    { by left. }
    pose proof (Z.mod_pos_bound (d + v) (2 ^ 64) ltac:(lia)) as Hw. fold (wrapU64 (d + v)) in Hw.
    destruct (Z.ltb_spec (2 ^ 63) (wrapU64 (d + v))); [by left|]. rewrite parseLoop_fuel by done. apply IH. lia.
  - intros Hfr Hb. inversion Hfr as [|? ? Hf Hfs]; subst. rewrite decide_True, (proj2 (Z.leb_le _ _)) in Hone by (first [done|lia]).
    rewrite Hone. unfold wrapU64. rewrite Z.mod_small, (proj2 (Z.ltb_ge _ _)) by lia. rewrite parseLoop_fuel by done.
    rewrite (proj2 (IH (d + intValue n) ltac:(lia))) by (first [done|lia]). by rewrite Z.add_assoc.
Qed.

(** [ParseDuration] enters the loop with the whole text. *)
Lemma ParseDuration_nums ns :
  ns ≠ [] → Forall spelled ns →
  ParseDuration (spells ns) =
    match parseLoop (String.length (spells ns)) (spells ns) (spells ns) 0 with
    | Err e => Err e
    | Ok d => if 2 ^ 63 - 1 <? d then Err (invalidDuration (spells ns)) else Ok d
    end.
Proof.
  intros Hne Hns. destruct Hns as [|n ns Hn Hns]; [done|]. destruct (spell_head n (spells ns) Hn) as (c & r & E & Hc & Hr).
  change (spells (n :: ns)) with (spell n +:+ spells ns). rewrite E. destruct (digit_sign c Hc) as [H1 H2].
  unfold ParseDuration. cbn [CutPrefix]. by rewrite !decide_False by congruence.
Qed.

(** ** What String prints *)

Lemma parse_digits_all ds acc v : parse_digits ds acc = Some v → all_chars isDigit ds = true.
Proof.
  revert acc. induction ds as [|c ds IH]; intros acc; cbn [parse_digits all_chars]; [done|].
  destruct (digit c) as [d|] eqn:E; [|done]. intros H%IH. rewrite H, andb_true_r. unfold isDigit. by rewrite E.
Qed.

Lemma Itoa_spelled v f u :
  0 ≤ v < 2 ^ 64 → all_chars isDigit (default EmptyString f) = true → u ∈ units → spelled (mkNum (Itoa v) f u).
Proof.
  intros Hv Hf Hu. destruct (Itoa_digits v Hv) as (c & r & E & _ & Hp). split; [by cbn; rewrite E| |done|done].
  by eapply parse_digits_all.
Qed.

Lemma fmtFrac_spelled u x n v :
  u ∈ units → 0 ≤ x → 0 ≤ v < 2 ^ 64 → ∃ m, spelled m ∧ Itoa v +:+ (fmtFrac u x n).1 = spell m.
Proof.
  intros Hu Hx Hv. unfold fmtFrac.
  destruct (fmtFracLoop_spec n x u Hx) as [[_ ->]|(ds & k & f & _ & [_ Hr] & _ & _ & ->)]; cbn [fst].
  - exists (mkNum (Itoa v) None u). by split; [apply Itoa_spelled|].
  - exists (mkNum (Itoa v) (Some ds) u). split; [|done]. apply Itoa_spelled; [done| |done].
    apply (parse_digits_all ds 0 f). specialize (Hr 0 EmptyString). rewrite string_app_nil in Hr. by rewrite Hr.
Qed.

(** The last number of a text, in the unit of its size. *)
Lemma fmtFrac_quot unit u n : 0 ≤ u → (fmtFrac unit u n).2 = u / 10 ^ Z.of_nat n.
Proof. intros Hu. unfold fmtFrac. by destruct (fmtFracLoop_spec n u unit Hu) as [[_ ->]|(? & ? & ? & _ & _ & _ & _ & ->)]. Qed.

Lemma quot_range u n : 0 ≤ u ≤ 2 ^ 63 → 0 ≤ u / 10 ^ Z.of_nat n < 2 ^ 64.
Proof.
  intros Hu. assert (0 < 10 ^ Z.of_nat n) by (apply Z.pow_pos_nonneg; lia).
  split; [apply Z.div_pos; lia|apply Z.div_lt_upper_bound; nia].
Qed.

Lemma fmtFrac_spells unit u n :
  unit ∈ units → 0 ≤ u ≤ 2 ^ 63 →
  ∃ ns, ns ≠ [] ∧ (let '(buf, v) := fmtFrac unit u n in fmtInt buf v) = spells ns ∧ Forall spelled ns.
Proof.
  intros Hun Hu. destruct (fmtFrac_spelled unit u n _ Hun ltac:(lia) (quot_range u n Hu)) as (m & Hm & E).
  exists [m]. split; [done|]. split; [|by constructor]. cbn [spells foldr]. rewrite string_app_nil, <-E.
  rewrite <-(fmtFrac_quot unit u n) by lia. by destruct (fmtFrac unit u n).
Qed.

Lemma spell_unit x c s : spell (mkNum x None (String c EmptyString)) +:+ s = x +:+ String c s.
Proof. unfold spell. cbn [n_int n_frac n_unit spellFrac]. by rewrite app_empty, string_app_assoc, app_cons, app_empty. Qed.

Lemma formatAbs_spells u : 0 ≤ u ≤ 2 ^ 63 → ∃ ns, ns ≠ [] ∧ formatAbs u = spells ns ∧ Forall spelled ns.
Proof.
  intros Hu. unfold formatAbs.
  assert (∀ unit, unit ∈ ["ns"; "µs"; "ms"; "s"; "m"; "h"] → unit ∈ units) as Hin by (unfold units; set_solver).
  destruct (u <? Second).
  { destruct (u =? 0).
    2: { destruct (u <? Microsecond); [|destruct (u <? Millisecond)]; (apply fmtFrac_spells; [apply Hin; set_solver|done]). }
    exists [mkNum (Itoa 0) None "s"]. split; [done|]. split; [done|]. constructor; [|done].
    apply Itoa_spelled; [lia|done|]. apply Hin. set_solver. }
  pose proof (fmtFrac_quot "s" u 9 ltac:(lia)) as Hsnd. pose proof (quot_range u 9 Hu) as Hb. set (q := u / 10 ^ Z.of_nat 9) in *.
  pose proof (Z.mod_pos_bound q 60 ltac:(lia)). pose proof (Z.mod_pos_bound (q / 60) 60 ltac:(lia)).
  assert (0 ≤ q / 60 / 60 < 2 ^ 64) as Hh by (rewrite Z.div_div by lia; split; [apply Z.div_pos|apply Z.div_lt_upper_bound]; lia).
  destruct (fmtFrac_spelled "s" u 9 (q mod 60)) as (m & Hm & E); [apply Hin; set_solver|lia|lia|].
  destruct (fmtFrac "s" u 9) as [buf v]. cbn [fst snd] in *. subst v. unfold fmtInt. rewrite E.
  set (mins := mkNum (Itoa ((q / 60) mod 60)) None "m"). set (hrs := mkNum (Itoa (q / 60 / 60)) None "h").
  assert (spelled mins) as Hmin by (apply Itoa_spelled; [lia|done|apply Hin; set_solver]).
  assert (spelled hrs) as Hhr by (apply Itoa_spelled; [lia|done|apply Hin; set_solver]).
  destruct (0 <? q / 60); [destruct (0 <? q / 60 / 60); [exists [hrs; mins; m]|exists [mins; m]]|exists [m]];
    (split; [done|]); (split; [|repeat (apply Forall_cons_2; [done|]); apply Forall_nil_2]); cbn [spells foldr]; unfold mins, hrs; by rewrite ?spell_unit, string_app_nil.
Qed.

(** ** The generator *)

Section Generator.
Context `{JSONSchema}.
Context (MarshalIndent : Document → string → string → result error string).
Context (MkdirAll : string → option error) (WriteFile : string → string → option error) (errText : error → string).

(** The generator exits with 0 exactly when it wrote the schema, and what it
    writes is the schema of the config with durations mapped, and a final
    line break. *)
Lemma schema_main_writes :
  let x := schema_main MarshalIndent MkdirAll WriteFile errText in
  (E_code x = 0 ↔ is_Some (E_file x)) ∧
  ∀ path data, E_file x = Some (path, data) →
    ∃ c body, AddGoComments "github.com/vooon/pathosd/internal/config" "./" = Ok c ∧
      D_Body (document c) = reflectConfig true true Mapper c ∧
      MarshalIndent (document c) EmptyString "  " = Ok body ∧ data = body +:+ String "010" EmptyString ∧
      WriteFile path data = None.
Proof.
  cbv zeta. unfold schema_main, failure.
  destruct (AddGoComments _ _) as [c|e]; [|by split; [split; [done|intros [? [=]]]|]].
  destruct (MarshalIndent _ _ _) as [body|e] eqn:Em; [|by split; [split; [done|intros [? [=]]]|]].
  destruct (MkdirAll _) as [e|]; [by split; [split; [done|intros [? [=]]]|]|].
  destruct (WriteFile _ _) as [e|] eqn:Ew; [by split; [split; [done|intros [? [=]]]|]|].
  split; [split; [by eexists|done]|]. intros path data [= <- <-]. by exists c, body.
Qed.
End Generator.

(** ** Properties *)

(** C36: The schema and the loader agree on durations: the schema gives them
    the type string and the pattern, which accepts what
    is printed for every duration that is not negative and rejects a negative
    one; what it accepts is a sequence of numbers with units, which the loader
    reads as their sum if none has a fraction and the sum is an int64, and
    otherwise as some duration or not at all, but never with an error about a
    unit. *)
Theorem schema_durations s :
  (∃ f, Mapper DurationType = Some f ∧ FS_Type f = "string" ∧ FS_Pattern f = "^" +:+ re_text durationPattern +:+ "$") ∧
  (∀ d, - 2 ^ 63 ≤ d < 2 ^ 63 → accepts durationPattern (MarshalText d) = (0 <=? d)) ∧
  (accepts durationPattern s = true →
   ∃ ns, s = spells ns ∧ Forall spelled ns ∧
     ((∃ d, 0 ≤ d < 2 ^ 63 ∧ UnmarshalText s = Ok d) ∨ UnmarshalText s = Err (Wrapf "invalid duration %q: %w" [s] (invalidDuration s))) ∧
     (Forall (λ n, n_frac n = None) ns → totalOf ns < 2 ^ 63 → UnmarshalText s = Ok (totalOf ns))).
Proof.
  split; [by eexists|]. split.
  - intros d Hd. destruct (formatAbs_spells (Z.abs d)) as (ns & Hne & E & Hns); [lia|].
    unfold MarshalText, Duration_String. rewrite E. destruct (Z.ltb_spec d 0) as [Hn|Hn].
    + rewrite (proj2 (Z.leb_gt _ _)) by lia. apply not_true_iff_false. intros ([|n ms] & Hne' & E' & Hms)%pattern_spells; [done|].
      inversion Hms as [|? ? Hn' _]; subst. destruct (spell_head n (spells ms) Hn') as (c & r & Ec & [x Hc] & _).
      change (spells (n :: ms)) with (spell n +:+ spells ms) in E'. rewrite Ec in E'. by injection E' as <- _.
    + rewrite (proj2 (Z.leb_le _ _)) by lia. apply pattern_spells. eauto.
  - intros (ns & Hne & -> & Hns)%pattern_spells. exists ns. split; [done|]. split; [done|].
    destruct (parseLoop_nums (spells ns) ns 0 Hns) as [Hany Hwhole]; [lia|]. unfold UnmarshalText. rewrite (ParseDuration_nums ns Hne Hns). split.
    + destruct Hany as [->|(v & Hv & ->)]; [by right|].
      destruct (Z.ltb_spec (2 ^ 63 - 1) v); [by right|]. left. exists v. split; [lia|done].
    + intros Hf Hb. rewrite Hwhole by (first [done|lia]). by rewrite (proj2 (Z.ltb_ge _ _)) by lia.
Qed.

Lemma schema_durations_witness :
  accepts durationPattern "1h30m" = true ∧ UnmarshalText "1h30m" = Ok 5400000000000 ∧ accepts durationPattern "-1s" = false.
Proof.
  split; [by vm_compute|]. split; [|exact (proj1 (proj2 (schema_durations EmptyString)) (- Second) ltac:(unfold Second; lia))].
  destruct (proj2 (proj2 (schema_durations "1h30m")) ltac:(by vm_compute)) as (ns & _ & _ & [(d & _ & Hd)|He] & _);
    [rewrite Hd; by vm_compute in Hd|by vm_compute in He].
Defined.
End SchemaProofs.
