(* ===== verification/Logging.v ===== *)
(** * Log handlers: internal/logging/logging.go and internal/bgp/gobgp_logger.go

    A handler is the tree the code builds.  Its leaves are the JSON handler of
    slog, which consults the global level variable, and the sinks of other
    packages (the console logger, the OpenTelemetry bridge), known through the
    class [Sinks].  The level variable is shared by every handler, so it is an
    argument of [Enabled] and [Handle] and not a part of the tree.  [Handle]
    gives the records that reach the leaves, and the error. *)

From S2P Require Import Prelude GoStrings Config Model.
From Stdlib Require Import Ascii.

Module Logging.

(** ** Levels *)
Definition LevelDebug : Z := -4.
Definition LevelInfo : Z := 0.
Definition LevelWarn : Z := 4.
Definition LevelError : Z := 8.

(** [slog.Level.UnmarshalText]: a name and a signed offset. *)
Fixpoint cutSign (s : string) : string * option (ascii * string) :=
  match s with
  | EmptyString => (EmptyString, None)
  | String a s' =>
      if decide (a = "+"%char ∨ a = "-"%char) then (EmptyString, Some (a, s'))
      else let '(n, o) := cutSign s' in (String a n, o)
  end.

(** The offset is an int64. *)
Definition offsetOf (offset : option (ascii * string)) : option Z :=
  match offset with
  | None => Some 0
  | Some (sign, d) =>
      match ParseUint d 64 with
      | Some n =>
          if decide (sign = "-"%char) then if decide (n ≤ 2 ^ 63) then Some (- n) else None
          else if decide (n < 2 ^ 63) then Some n else None
      | None => None
      end
  end.

Definition levelNamed (name : string) : option Z :=
  if decide (name = "DEBUG") then Some LevelDebug
  else if decide (name = "INFO") then Some LevelInfo
  else if decide (name = "WARN") then Some LevelWarn
  else if decide (name = "ERROR") then Some LevelError
  else None.

Definition UnmarshalText (text : string) : result error Z :=
  let '(name, offset) := cutSign text in
  match offsetOf offset with
  | None => Err (Wrapf "slog: level string %q: %w" [text] (External "strconv.Atoi"))
  | Some o =>
      match levelNamed (ToUpper name) with
      | Some l => Ok (wrap64 (l + o))
      | None => Err (Errorf "slog: level string %q: unknown name" [text])
      end
  end.

(** [SetLevel], on the level variable. *)
Definition SetLevel (level : string) (levelVar : Z) : Z * goerror :=
  match UnmarshalText level with
  | Err e => (levelVar, Some e)
  | Ok lvl => (lvl, None)
  end.

(** The level [Setup] leaves: a text it cannot read counts as info. *)
Definition setupLevel (level : string) : Z :=
  match UnmarshalText level with Ok lvl => lvl | Err _ => LevelInfo end.

(** [goBGPLevelFromString] and [newGoBGPLevelVar]. *)
Definition goBGPLevelFromString (level : string) : Z :=
  if decide (level = "debug") then LevelDebug
  else if decide (level = "warn") then LevelWarn
  else if decide (level = "error") then LevelError
  else LevelInfo.
Definition newGoBGPLevelVar (level : string) : Z := goBGPLevelFromString level.

(** [SetLogLevel] of the BGP manager, on its level variable. *)
Definition SetLogLevel (level : string) (_ : Z) : Z := goBGPLevelFromString level.

(** ** Records *)

(** An attribute and what its value prints as. *)
Record Attr := mkAttr { Attr_Key : string; Attr_Value : string }.

(** [slog.Record]. *)
Record LogRecord := mkRecord {
  Rec_Time : Z;
  Rec_Level : Z;
  Rec_Message : string;
  Rec_PC : Z;
  Rec_Attrs : list Attr }.

(** What [With] and [WithGroup] put in front of the attributes of a record. *)
Inductive ScopeItem := SAttrs (attrs : list Attr) | SGroup (name : string).

(** The handlers of other packages. *)
Class Sinks (T : Type) := {
  charm_New : bool → T;
  sink_Enabled : T → Z → bool;
  sink_Handle : T → LogRecord → goerror;
  sink_WithAttrs : list Attr → T → T;
  sink_WithGroup : string → T → T;
  json_Handle : list ScopeItem → LogRecord → goerror }.

Section Handlers.
Context {T : Type} `{Sinks T}.

Inductive Handler :=
| JSONHandler (scope : list ScopeItem) (replaceAttr : option (list string → string → bool))
| Sink (t : T)
| liveLevelHandler (inner : Handler)
| multiHandler (handlers : list Handler)
| levelFilterHandler (minLevel : Z) (inner : Handler)
| goBGPHandler (inner : Handler).

(** A record that reached a leaf. *)
Inductive Leaf := LJSON (scope : list ScopeItem) | LSink (t : T).
Definition Event : Type := Leaf * LogRecord.

(** [Enabled] of the level filter and of GoBGP's handler; [inner] is the
    answer of the handler inside. *)
Definition levelFilter_Enabled (minLevel : Z) (inner : Z → bool) (level : Z) : bool :=
  bool_decide (minLevel ≤ level) && inner level.
Definition goBGP_Enabled (inner : Z → bool) (level : Z) : bool :=
  bool_decide (level ≤ LevelDebug) || inner level.

(** The [Enabled] methods; [level] of the live handler is the level variable. *)
Fixpoint Enabled (levelVar : Z) (h : Handler) (level : Z) : bool :=
  match h with
  | JSONHandler _ _ => bool_decide (levelVar ≤ level)
  | Sink t => sink_Enabled t level
  | liveLevelHandler _ => bool_decide (levelVar ≤ level)
  | multiHandler hs => existsb (λ h, Enabled levelVar h level) hs
  | levelFilterHandler minLevel inner => levelFilter_Enabled minLevel (Enabled levelVar inner) level
  | goBGPHandler inner => goBGP_Enabled (Enabled levelVar inner) level
  end.

(** ** The embedded speaker's records *)

Definition goBGPConnectFailedMsg : string := "failed to connect".
Definition goBGPErrorKey : string := "Error".
Definition ttlHint : string :=
  "eBGP sessions dial with TTL 1 unless enable_multihop is set; a peer more than one hop away cannot answer".

(** The dial error: the last attribute of its key. *)
Definition dialErr (attrs : list Attr) : string :=
  foldl (λ d a, if decide (Attr_Key a = goBGPErrorKey) then Attr_Value a else d) EmptyString attrs.

(** The record a connect failure is re-emitted as. *)
Definition promoted (r : LogRecord) : LogRecord :=
  mkRecord (Rec_Time r) LevelInfo (Rec_Message r) (Rec_PC r)
    (Rec_Attrs r ++
     if Contains (dialErr (Rec_Attrs r)) "no route to host" then [mkAttr "hint" ttlHint] else []).

(** The loop of [multiHandler.Handle]: the last error wins. *)
Definition fanOut (enabled : Handler → bool) (handle : Handler → list Event * goerror)
    : list Handler → goerror → list Event * goerror :=
  fix fanOut (hs : list Handler) (last : goerror) :=
    match hs with
    | [] => ([], last)
    | h :: hs' =>
        if enabled h then
          let '(ev, err) := handle h in
          let '(ev', last') := fanOut hs' (match err with Some e => Some e | None => last end) in
          (ev ++ ev', last')
        else fanOut hs' last
    end.

(** The [Handle] methods. *)
Fixpoint Handle (levelVar : Z) (h : Handler) (r : LogRecord) : list Event * goerror :=
  match h with
  | JSONHandler scope _ => ([(LJSON scope, r)], json_Handle scope r)
  | Sink t => ([(LSink t, r)], sink_Handle t r)
  | liveLevelHandler inner => Handle levelVar inner r
  | multiHandler hs =>
      fanOut (λ h, Enabled levelVar h (Rec_Level r)) (λ h, Handle levelVar h r) hs None
  | levelFilterHandler _ inner => Handle levelVar inner r
  | goBGPHandler inner =>
      if bool_decide (LevelDebug < Rec_Level r) || Enabled levelVar inner LevelDebug then
        Handle levelVar inner r
      else if negb (bool_decide (Rec_Message r = goBGPConnectFailedMsg))
              || negb (Enabled levelVar inner LevelInfo) then ([], None)
      else Handle levelVar inner (promoted r)
  end.

(** The [WithAttrs] and [WithGroup] methods. *)
Fixpoint WithAttrs (attrs : list Attr) (h : Handler) : Handler :=
  match h with
  | JSONHandler scope f => JSONHandler (scope ++ [SAttrs attrs]) f
  | Sink t => Sink (sink_WithAttrs attrs t)
  | liveLevelHandler inner => liveLevelHandler (WithAttrs attrs inner)
  | multiHandler hs => multiHandler (map (WithAttrs attrs) hs)
  | levelFilterHandler m inner => levelFilterHandler m (WithAttrs attrs inner)
  | goBGPHandler inner => goBGPHandler (WithAttrs attrs inner)
  end.

Fixpoint WithGroup (name : string) (h : Handler) : Handler :=
  match h with
  | JSONHandler scope f => JSONHandler (scope ++ [SGroup name]) f
  | Sink t => Sink (sink_WithGroup name t)
  | liveLevelHandler inner => liveLevelHandler (WithGroup name inner)
  | multiHandler hs => multiHandler (map (WithGroup name) hs)
  | levelFilterHandler m inner => levelFilterHandler m (WithGroup name inner)
  | goBGPHandler inner => goBGPHandler (WithGroup name inner)
  end.

(** [NewLevelFilter] and [newGoBGPHandler]. *)
Definition NewLevelFilter (minLevel : Z) (inner : Handler) : Handler := levelFilterHandler minLevel inner.
Definition newGoBGPHandler (inner : Handler) : Handler := goBGPHandler inner.

(** The [ReplaceAttr] option: whether an attribute stays. *)
Definition dropTime (groups : list string) (key : string) : bool :=
  negb (bool_decide (groups = [] ∧ key = "time")).

(** [newPrimaryHandler]. *)
Definition newPrimaryHandler (format : string) (timestamps : bool) : Handler :=
  if decide (format = "json") then JSONHandler [] (if timestamps then None else Some dropTime)
  else liveLevelHandler (Sink (charm_New timestamps)).

(** [Setup]: the level variable and the handler of the default logger. *)
Definition Setup (level format : string) (timestamps : bool) (extra : list Handler) : Z * Handler :=
  let primary := newPrimaryHandler format timestamps in
  (setupLevel level,
   match extra with [] => primary | _ => multiHandler (primary :: extra) end).

(** [slog.Logger.log]: the handler sees the record only if it is enabled. *)
Definition Log (levelVar : Z) (h : Handler) (r : LogRecord) : list Event :=
  if Enabled levelVar h (Rec_Level r) then (Handle levelVar h r).1 else [].

(** [With] and [WithGroup] of a logger, in a row. *)
Definition derive1 (h : Handler) (s : ScopeItem) : Handler :=
  match s with SAttrs attrs => WithAttrs attrs h | SGroup name => WithGroup name h end.
Definition derive (scope : list ScopeItem) (h : Handler) : Handler := foldl derive1 h scope.

End Handlers.
Arguments Handler : clear implicits.
Arguments Leaf : clear implicits.
Arguments Event : clear implicits.

End Logging.
