(* ===== verification/LoggingProofs.v ===== *)
(** * What reaches the log: theorems on the handlers

    Every destination gets a record exactly when its own level admits it,
    however the logger was derived and whenever the level was changed; the
    connect failures of the embedded speaker. *)

From S2P Require Import Prelude GoStrings Config Model Logging.

Module LoggingProofs.
Import Logging.

Section LoggingProofs.
Context {T : Type} `{Sinks T}.
Implicit Types (h : Handler T) (ds : list ScopeItem) (r : LogRecord).

(** ** Derived handlers *)

Definition deriveSink1 (t : T) (s : ScopeItem) : T :=
  match s with SAttrs attrs => sink_WithAttrs attrs t | SGroup name => sink_WithGroup name t end.
Definition deriveSink ds (t : T) : T := foldl deriveSink1 t ds.

(** What is derived keeps the shape of the handler. *)
Local Ltac derive_shape ds :=
  induction ds as [|[?|?] ds IH] using rev_ind; [done|..];
  unfold derive, deriveSink in *; rewrite ?foldl_snoc, IH; done.

Lemma derive_sink ds t : derive ds (Sink t) = Sink (deriveSink ds t).
Proof. derive_shape ds. Qed.
Lemma derive_json ds f : derive ds (JSONHandler [] f) = JSONHandler ds f.
Proof. derive_shape ds. Qed.
Lemma derive_live ds h : derive ds (liveLevelHandler h) = liveLevelHandler (derive ds h).
Proof. derive_shape ds. Qed.
Lemma derive_filter ds m h : derive ds (levelFilterHandler m h) = levelFilterHandler m (derive ds h).
Proof. derive_shape ds. Qed.
Lemma derive_gobgp ds h : derive ds (goBGPHandler h) = goBGPHandler (derive ds h).
Proof. derive_shape ds. Qed.
Lemma derive_multi ds (hs : list (Handler T)) : derive ds (multiHandler hs) = multiHandler (map (derive ds) hs).
Proof.
  induction ds as [|s ds IH] using rev_ind; [by rewrite map_id|].
  unfold derive in *. rewrite foldl_snoc, IH.
  destruct s; cbn; rewrite map_map; f_equal; apply map_ext; intros h; by rewrite foldl_snoc.
Qed.

(** ** Destinations *)

(** The console, as a leaf. *)
Definition consoleLeaf (format : string) (timestamps : bool) ds : Leaf T :=
  if decide (format = "json") then LJSON ds else LSink (deriveSink ds (charm_New timestamps)).

(** A handler appended to the console's: a sink, behind a level or not. *)
Definition bridge (e : option Z * T) : Handler T :=
  match e.1 with Some m => NewLevelFilter m (Sink e.2) | None => Sink e.2 end.
Definition accepts ds (level : Z) (e : option Z * T) : bool :=
  match e.1 with Some m => bool_decide (m ≤ level) | None => true end
  && sink_Enabled (deriveSink ds e.2) level.

(** Who gets a record of the default logger, or of one derived from it. *)
Definition destinations (levelVar : Z) (format : string) (timestamps : bool)
    (extra : list (option Z * T)) ds (level : Z) : list (Leaf T) :=
  (if bool_decide (levelVar ≤ level) then [consoleLeaf format timestamps ds] else []) ++
  ((λ e, LSink (deriveSink ds e.2)) <$> filter (λ e, accepts ds level e = true) extra).

Lemma primary_enabled lv format ts ds level :
  Enabled lv (derive ds (newPrimaryHandler format ts)) level = bool_decide (lv ≤ level).
Proof.
  unfold newPrimaryHandler. case_decide; [by rewrite derive_json|by rewrite derive_live].
Qed.

Lemma primary_handle lv format ts ds r :
  (Handle lv (derive ds (newPrimaryHandler format ts)) r).1 = [(consoleLeaf format ts ds, r)].
Proof.
  unfold newPrimaryHandler, consoleLeaf. case_decide; [by rewrite derive_json|].
  by rewrite derive_live, derive_sink.
Qed.

Lemma bridge_enabled lv ds e level : Enabled lv (derive ds (bridge e)) level = accepts ds level e.
Proof.
  destruct e as [[m|] t]; unfold bridge, accepts, NewLevelFilter; cbn [fst snd];
    rewrite ?derive_filter, derive_sink; done.
Qed.

Lemma bridge_handle lv ds e r : (Handle lv (derive ds (bridge e)) r).1 = [(LSink (deriveSink ds e.2), r)].
Proof.
  destruct e as [[m|] t]; unfold bridge, NewLevelFilter; cbn [fst snd];
    rewrite ?derive_filter, derive_sink; done.
Qed.

(** The records of the fan-out do not depend on the errors. *)
Lemma fanOut_events enabled handle (hs : list (Handler T)) last :
  (fanOut enabled handle hs last).1 = mjoin (map (λ h, if enabled h then (handle h).1 else []) hs).
Proof.
  revert last. induction hs as [|h hs IH]; intros last; [done|]. cbn. destruct (enabled h); [|apply IH].
  destruct (handle h) as [ev err]. specialize (IH (match err with Some e => Some e | None => last end)).
  fold (fanOut enabled handle). destruct (fanOut enabled handle hs _) as [ev' last']. cbn in *.
  by rewrite IH.
Qed.

Lemma Log_multi lv (hs : list (Handler T)) r : Log lv (multiHandler hs) r = mjoin (map (λ h, Log lv h r) hs).
Proof.
  assert ((Handle lv (multiHandler hs) r).1 = mjoin (map (λ h, Log lv h r) hs)) as Hh.
  { cbn [Handle]. by rewrite fanOut_events. }
  unfold Log at 1. destruct (Enabled lv (multiHandler hs) _) eqn:E; [done|].
  cbn in E. clear Hh. induction hs as [|h hs IH]; [done|]. cbn in *. apply orb_false_iff in E as [E1 E2].
  unfold Log at 1. rewrite E1. by apply IH.
Qed.

Lemma Log_extra lv ds (extra : list (option Z * T)) r :
  mjoin (map (λ h, Log lv h r) (map (derive ds) (bridge <$> extra))) =
    (λ e, (LSink (deriveSink ds e.2), r)) <$> filter (λ e, accepts ds (Rec_Level r) e = true) extra.
Proof.
  induction extra as [|e extra IH]; [done|].
  etrans; [exact (f_equal (app (Log lv (derive ds (bridge e)) r)) IH)|].
  rewrite filter_cons. unfold Log. rewrite bridge_enabled, bridge_handle.
  by destruct (accepts ds _ e).
Qed.

Lemma Log_Setup level format ts (extra : list (option Z * T)) ds lv r :
  Log lv (derive ds (Setup level format ts (bridge <$> extra)).2) r =
    (., r) <$> destinations lv format ts extra ds (Rec_Level r).
Proof.
  assert (Log lv (derive ds (newPrimaryHandler format ts)) r =
    (., r) <$> (if bool_decide (lv ≤ Rec_Level r) then [consoleLeaf format ts ds] else [])) as Hp.
  { unfold Log. rewrite primary_enabled, primary_handle. by case_bool_decide. }
  unfold destinations. rewrite fmap_app, <-Hp, <-list_fmap_compose. unfold compose.
  rewrite <-(Log_extra lv ds extra r). destruct extra as [|e extra].
  - cbn -[derive newPrimaryHandler]. by rewrite app_nil_r.
  - cbn [Setup snd fmap list_fmap]. rewrite derive_multi, Log_multi. done.
Qed.

(** The level does not depend on how a logger was derived. *)
Lemma Setup_enabled level format ts (extra : list (option Z * T)) ds lv l :
  Enabled lv (derive ds (Setup level format ts (bridge <$> extra)).2) l =
    bool_decide (lv ≤ l) || existsb (accepts ds l) extra.
Proof.
  destruct extra as [|e extra].
  - cbn [Setup snd fmap list_fmap]. by rewrite primary_enabled, orb_false_r.
  - cbn [Setup snd fmap list_fmap]. rewrite derive_multi. cbn -[derive newPrimaryHandler bridge accepts].
    rewrite primary_enabled, bridge_enabled. f_equal. f_equal.
    induction extra as [|e' extra IH]; [done|]. cbn -[derive bridge accepts]. by rewrite bridge_enabled, IH.
Qed.

(** ** The speaker's logger *)

Lemma gobgp_log lv ds h r :
  Rec_Level r = LevelDebug →
  Log lv (derive ds (newGoBGPHandler h)) r =
    if Enabled lv (derive ds h) LevelDebug then Log lv (derive ds h) r
    else if decide (Rec_Message r = goBGPConnectFailedMsg) then Log lv (derive ds h) (promoted r)
    else [].
Proof.
  intros Hr. unfold newGoBGPHandler. rewrite derive_gobgp. unfold Log. cbn [Enabled Handle]. unfold goBGP_Enabled.
  rewrite Hr. cbn [orb]. rewrite (bool_decide_eq_true_2 (LevelDebug ≤ LevelDebug)) by lia.
  rewrite (bool_decide_eq_false_2 (LevelDebug < LevelDebug)) by lia. cbn [orb].
  destruct (Enabled lv (derive ds h) LevelDebug) eqn:E; [done|].
  case_decide as Hm.
  - rewrite (bool_decide_eq_true_2 _ Hm). cbn [negb orb]. change (Rec_Level (promoted r)) with LevelInfo.
    by destruct (Enabled lv (derive ds h) LevelInfo).
  - by rewrite (bool_decide_eq_false_2 _ Hm).
Qed.

Lemma destinations_console lv format ts (extra : list (option Z * T)) ds l :
  (∀ e, e ∈ extra → LSink (deriveSink ds e.2) ≠ consoleLeaf format ts ds) →
  consoleLeaf format ts ds ∈ destinations lv format ts extra ds l ↔ lv ≤ l.
Proof.
  intros Hne. unfold destinations. rewrite elem_of_app, list_elem_of_fmap. split.
  - intros [Hin|(e & Heq & [_ Hin]%list_elem_of_filter)].
    + case_bool_decide; [done|]. by apply not_elem_of_nil in Hin.
    + by destruct (Hne e Hin).
  - intros Hl. left. rewrite bool_decide_eq_true_2 by done. by left.
Qed.

(** ** Properties *)

(** C21: Every destination of the daemon's log gets a record exactly when
    its own level admits it: the console when the record is at or above the
    level that is set now, however long ago the logger was derived with With
    or WithGroup, and every appended handler when its own filter and the
    handler itself accept it; nobody gets a record twice, and no level of one
    destination hides a record from another. *)
Theorem log_delivery level format ts (extra : list (option Z * T)) ds lv r :
  Log lv (derive ds (Setup level format ts (bridge <$> extra)).2) r =
    (., r) <$> destinations lv format ts extra ds (Rec_Level r).
Proof. apply Log_Setup. Qed.

(** A failed connection attempt of the embedded speaker, which it
    logs at debug, is on the console of a daemon at level info or below if
    and only if the console shows debug records, or no other handler does: a
    handler that accepts debug records (the OpenTelemetry bridge without
    otel_level) keeps it from being raised to info, and from the console. *)
Theorem connect_failure_shown level format ts (extra : list (option Z * T)) ds lv r :
  Rec_Level r = LevelDebug → Rec_Message r = goBGPConnectFailedMsg → lv ≤ LevelInfo →
  (∀ e, e ∈ extra → LSink (deriveSink ds e.2) ≠ consoleLeaf format ts ds) →
  (∃ r', (consoleLeaf format ts ds, r') ∈
     Log lv (derive ds (newGoBGPHandler (Setup level format ts (bridge <$> extra)).2)) r) ↔
  lv ≤ LevelDebug ∨ ∀ e, e ∈ extra → accepts ds LevelDebug e = false.
Proof.
  intros Hr Hm Hlv Hne. rewrite gobgp_log, Setup_enabled, !Log_Setup, decide_True by done. rewrite Hr.
  change (Rec_Level (promoted r)) with LevelInfo.
  assert (∀ l r1, (∃ r', (consoleLeaf format ts ds, r') ∈
    (., r1) <$> destinations lv format ts extra ds l) ↔ lv ≤ l) as Hc.
  { intros l r1. rewrite <-(destinations_console lv format ts extra ds l Hne). split.
    - intros (r' & (x & [= <- _] & Hx)%list_elem_of_fmap). done.
    - intros Hx. exists r1. apply list_elem_of_fmap. eauto. }
  case_bool_decide as Hd; cbn [orb]; [rewrite Hc; naive_solver|].
  destruct (existsb (accepts ds LevelDebug) extra) eqn:E; rewrite Hc.
  - apply existsb_exists in E as (e & He & Ha). split; [lia|]. intros [|Hall]; [lia|].
    rewrite Hall in Ha; [done|]. by apply list_elem_of_In.
  - split; [|done]. intros _. right. intros e He. destruct (accepts ds LevelDebug e) eqn:Ea; [|done].
    rewrite <-E. symmetry. apply existsb_exists. exists e. split; [by apply list_elem_of_In|done].
Qed.

End LoggingProofs.

(** ** Witnesses *)

(** Sinks by name: the console is 0; the bridge, 1, takes every record. *)
#[export] Instance ref_sinks : Sinks nat := {|
  charm_New _ := 0%nat;
  sink_Enabled _ _ := true;
  sink_Handle _ _ := None;
  sink_WithAttrs _ t := t;
  sink_WithGroup _ t := t;
  json_Handle _ _ := None |}.

Definition lw_failure : LogRecord :=
  mkRecord 5 LevelDebug "failed to connect" 0 [mkAttr "Error" "dial tcp: no route to host"].

(** Without the bridge the failure is shown, with the hint; with it, not. *)
Lemma connect_failure_shown_witness :
  (∃ r', (LSink 0%nat, r') ∈
     Log LevelInfo (derive [] (newGoBGPHandler (Setup "info" "text" true []).2)) lw_failure) ∧
  ¬ (∃ r', (LSink 0%nat, r') ∈
     Log LevelInfo (derive [] (newGoBGPHandler (Setup "info" "text" true [Sink 1%nat]).2)) lw_failure).
Proof.
  split.
  - refine (proj2 (connect_failure_shown (T := nat) "info" "text" true [] [] LevelInfo lw_failure
      eq_refl eq_refl _ _) _).
    + unfold LevelInfo. lia.
    + by intros e ?%not_elem_of_nil.
    + right. by intros e ?%not_elem_of_nil.
  - intros Hin.
    destruct (proj1 (connect_failure_shown (T := nat) "info" "text" true [(None, 1%nat)] [] LevelInfo
      lw_failure eq_refl eq_refl ltac:(unfold LevelInfo; lia)
      ltac:(by intros e ->%list_elem_of_singleton)) Hin) as [Hl|Hall].
    + unfold LevelInfo, LevelDebug in Hl. lia.
    + by specialize (Hall (None, 1%nat) ltac:(by left)).
Defined.

Example promoted_ex :
  Log LevelInfo (newGoBGPHandler (Setup "info" "text" true []).2) lw_failure =
    [(LSink 0%nat, mkRecord 5 LevelInfo "failed to connect" 0
                     [mkAttr "Error" "dial tcp: no route to host"; mkAttr "hint" ttlHint])].
Proof. by vm_compute. Qed.

Example level_ex :
  (UnmarshalText "debug", UnmarshalText "Warn+2", setupLevel "verbose", SetLevel "INFO-x" 4).1.1 =
    (Ok LevelDebug, Ok 6).
Proof. by vm_compute. Qed.

End LoggingProofs.
