(* ===== verification/Metrics.v ===== *)
(** * The metric series: internal/metrics

    The Prometheus registry as a store from a vector and its label values to
    a value.  A gauge or counter holds an integer ([Unix] seconds, states,
    counts, durations in nanoseconds), the packet loss a float, a histogram
    its observations.  [Set], [Inc], [Observe] and [DeletePartialMatch] are the
    vector operations the daemon uses. *)

From S2P Require Import Prelude GoStrings Config Model.

Module Metrics.

(** The vectors and gauges of [type Metrics], by field name. *)
Inductive vec :=
| M_VIPState | M_VIPTransitions | M_VIPLastTransition | M_VIPPriority | M_VIPLocalAddress
| M_RouteState
| M_CheckTotal | M_CheckDuration | M_CheckLastResult | M_CheckTimeoutExceeded
| M_PingRTT | M_PingPacketLoss | M_HTTPResponseStatus | M_HTTPTLSCertExpiry
| M_DNSRcode | M_DNSAnswers | M_GRPCStatusCode | M_ListenSockets
| M_SQLQueryRows | M_SQLQueryDuration | M_SQLQueryPassed | M_KafkaBrokers | M_KafkaLeaderless
| M_ConfigReloadTotal | M_ConfigLastReloadSuccess | M_ConfigLastReloadTimestamp
| M_ConfigLoadedTimestamp | M_ConfigFileChanged | M_ConfigReloadPendingVIPs.

Definition allVecs : list vec :=
  [M_VIPState; M_VIPTransitions; M_VIPLastTransition; M_VIPPriority; M_VIPLocalAddress;
   M_RouteState;
   M_CheckTotal; M_CheckDuration; M_CheckLastResult; M_CheckTimeoutExceeded;
   M_PingRTT; M_PingPacketLoss; M_HTTPResponseStatus; M_HTTPTLSCertExpiry;
   M_DNSRcode; M_DNSAnswers; M_GRPCStatusCode; M_ListenSockets;
   M_SQLQueryRows; M_SQLQueryDuration; M_SQLQueryPassed; M_KafkaBrokers; M_KafkaLeaderless;
   M_ConfigReloadTotal; M_ConfigLastReloadSuccess; M_ConfigLastReloadTimestamp;
   M_ConfigLoadedTimestamp; M_ConfigFileChanged; M_ConfigReloadPendingVIPs].

#[export] Instance vec_eq : EqDecision vec.
Proof. solve_decision. Defined.

Definition vec_index (v : vec) : nat :=
  match list_find (eq v) allVecs with Some (i, _) => i | None => 0%nat end.
#[export] Instance vec_countable : Countable vec.
Proof.
  apply (inj_countable vec_index (λ i, allVecs !! i)). abstract (by intros []).
Defined.

(** The label names each vector is declared with in [New]. *)
Definition labelNames (v : vec) : list string :=
  match v with
  | M_VIPState | M_VIPLastTransition | M_VIPPriority | M_VIPLocalAddress => ["vip"; "nlri"]
  | M_VIPTransitions => ["vip"; "nlri"; "to"]
  | M_RouteState =>
      ["nlri"; "peer_ip"; "peer_asn"; "as_path"; "communities"; "local_preference"; "med"; "family"]
  | M_CheckTotal => ["vip"; "nlri"; "check"; "type"; "result"]
  | M_CheckDuration => ["vip"; "nlri"; "check"; "type"]
  | M_CheckLastResult | M_CheckTimeoutExceeded
  | M_PingRTT | M_PingPacketLoss | M_HTTPResponseStatus | M_HTTPTLSCertExpiry
  | M_GRPCStatusCode | M_ListenSockets | M_KafkaBrokers | M_KafkaLeaderless =>
      ["vip"; "nlri"; "check"]
  | M_DNSRcode | M_DNSAnswers => ["vip"; "nlri"; "check"; "name"]
  | M_SQLQueryRows | M_SQLQueryDuration | M_SQLQueryPassed => ["vip"; "nlri"; "check"; "query"]
  | M_ConfigReloadTotal => ["result"]
  | M_ConfigLastReloadSuccess | M_ConfigLastReloadTimestamp | M_ConfigLoadedTimestamp
  | M_ConfigFileChanged | M_ConfigReloadPendingVIPs => []
  end.

Inductive value :=
| VInt (z : Z)
| VFloat (f : float64)
| VHist (observations : list Z).

Abbreviation Metrics := (gmap (vec * list string) value).

(** [vec.WithLabelValues(labels...).Set(z)]. *)
Definition Set_ (v : vec) (labels : list string) (z : Z) (m : Metrics) : Metrics :=
  <[(v, labels) := VInt z]> m.
Definition SetF (v : vec) (labels : list string) (f : float64) (m : Metrics) : Metrics :=
  <[(v, labels) := VFloat f]> m.
(** [.Inc()] *)
Definition Inc (v : vec) (labels : list string) (m : Metrics) : Metrics :=
  <[(v, labels) := VInt (match m !! (v, labels) with Some (VInt z) => z + 1 | _ => 1 end)]> m.
(** [.Observe(d)] *)
Definition Observe (v : vec) (labels : list string) (d : Z) (m : Metrics) : Metrics :=
  <[(v, labels) := VHist (match m !! (v, labels) with Some (VHist l) => l ++ [d] | _ => [d] end)]> m.

(** [New]: the registry before any series exists; the last-reload gauge
    starts at 1, the other unlabelled gauges at 0. *)
Definition New : Metrics :=
  {[ (M_ConfigLastReloadSuccess, []) := VInt 1;
     (M_ConfigLastReloadTimestamp, []) := VInt 0;
     (M_ConfigLoadedTimestamp, []) := VInt 0;
     (M_ConfigFileChanged, []) := VInt 0;
     (M_ConfigReloadPendingVIPs, []) := VInt 0 ]}.

(** The collectors [New] registers, besides that of the build's version. *)
Definition registered : list vec :=
  [M_VIPState; M_VIPTransitions; M_VIPLastTransition; M_VIPPriority; M_VIPLocalAddress;
   M_RouteState;
   M_CheckTotal; M_CheckDuration; M_CheckLastResult; M_CheckTimeoutExceeded;
   M_PingRTT; M_PingPacketLoss; M_HTTPResponseStatus; M_HTTPTLSCertExpiry;
   M_DNSRcode; M_DNSAnswers; M_GRPCStatusCode; M_ListenSockets;
   M_SQLQueryRows; M_SQLQueryDuration; M_SQLQueryPassed; M_KafkaBrokers; M_KafkaLeaderless;
   M_ConfigReloadTotal; M_ConfigLastReloadSuccess; M_ConfigLastReloadTimestamp;
   M_ConfigLoadedTimestamp; M_ConfigFileChanged; M_ConfigReloadPendingVIPs].

(** The value of a label of a series, if its vector has the label. *)
Fixpoint labelValue (names values : list string) (l : string) : option string :=
  match names, values with
  | n :: names', v :: values' => if decide (n = l) then Some v else labelValue names' values' l
  | _, _ => None
  end.

(** A series carries every given label with the given value. *)
Definition matchesLabels (key : vec * list string) (labels : list (string * string)) : bool :=
  forallb (λ '(l, x), bool_decide (labelValue (labelNames key.1) key.2 l = Some x)) labels.

(** [vec.DeletePartialMatch(labels)] over a list of vectors. *)
Definition DeletePartialMatch (vecs : list vec) (labels : list (string * string)) (m : Metrics)
    : Metrics :=
  filter (λ '(key, _), ¬ (key.1 ∈ vecs ∧ matchesLabels key labels = true)) m.

(** [vipVecs]: every vector labelled by vip. *)
Definition vipVecs : list vec :=
  [M_VIPState; M_VIPTransitions; M_VIPLastTransition; M_VIPPriority; M_VIPLocalAddress;
   M_CheckTotal; M_CheckDuration; M_CheckLastResult; M_CheckTimeoutExceeded;
   M_PingRTT; M_PingPacketLoss; M_HTTPResponseStatus; M_HTTPTLSCertExpiry;
   M_DNSRcode; M_DNSAnswers; M_GRPCStatusCode; M_ListenSockets;
   M_SQLQueryRows; M_SQLQueryDuration; M_SQLQueryPassed; M_KafkaBrokers; M_KafkaLeaderless].

(** [DeleteVIPSeries] and [DeleteCheckSeries]. *)
Definition DeleteVIPSeries (vip : string) (m : Metrics) : Metrics :=
  DeletePartialMatch vipVecs [("vip", vip)] m.
Definition DeleteCheckSeries (vip check : string) (m : Metrics) : Metrics :=
  DeletePartialMatch vipVecs [("vip", vip); ("check", check)] m.

(** [Unix] of a time: seconds. *)
Definition Unix (t : Z) : Z := t / 1000000000.

(** [ObserveCheckDetails]. *)
Definition ObserveCheckDetails (vip nlri check : string) (details : option CheckDetails)
    (m : Metrics) : Metrics :=
  let ls := [vip; nlri; check] in
  match details with
  | None => m
  | Some (DetailsPing d) =>
      SetF M_PingPacketLoss ls (PD_PacketLoss d)
        (foldl (λ m rtt, Observe M_PingRTT ls rtt m) m (PD_RTTs d))
  | Some (DetailsHTTP d) =>
      let m := Set_ M_HTTPResponseStatus ls (HD_StatusCode d) m in
      if decide (HD_TLSCertNotAfter d = 0) then m
      else Set_ M_HTTPTLSCertExpiry ls (Unix (HD_TLSCertNotAfter d)) m
  | Some (DetailsDNS d) =>
      foldl (λ m n,
        Set_ M_DNSAnswers (ls ++ [DND_Name n]) (DND_Answers n)
          (Set_ M_DNSRcode (ls ++ [DND_Name n]) (DND_Rcode n) m)) m (DD_Names d)
  | Some (DetailsGRPC d) => Set_ M_GRPCStatusCode ls (GD_StatusCode d) m
  | Some (DetailsListen d) => Set_ M_ListenSockets ls (len (LD_Sockets d)) m
  | Some (DetailsKafka d) =>
      Set_ M_KafkaLeaderless ls (KD_PartitionsWithoutLeader d)
        (Set_ M_KafkaBrokers ls (KD_Brokers d) m)
  | Some (DetailsSQL d) =>
      foldl (λ m q,
        Set_ M_SQLQueryPassed (ls ++ [QD_Name q]) (if QD_Passed q then 1 else 0)
          (Set_ M_SQLQueryDuration (ls ++ [QD_Name q]) (QD_Duration q)
            (Set_ M_SQLQueryRows (ls ++ [QD_Name q]) (QD_Rows q) m))) m (SD_Queries d)
  end.

(** ** Lemmas *)

(** The series the detail observations write: one of the detail vectors, for
    the VIP, prefix and check given. *)
Definition detailVec (v : vec) : bool :=
  mem v [M_PingRTT; M_PingPacketLoss; M_HTTPResponseStatus; M_HTTPTLSCertExpiry;
         M_DNSRcode; M_DNSAnswers; M_GRPCStatusCode; M_ListenSockets;
         M_SQLQueryRows; M_SQLQueryDuration; M_SQLQueryPassed; M_KafkaBrokers; M_KafkaLeaderless].

Lemma lookup_Set v ls z m key :
  Set_ v ls z m !! key = if decide (key = (v, ls)) then Some (VInt z) else m !! key.
Proof. unfold Set_. rewrite lookup_insert. repeat case_decide; congruence. Qed.

Lemma Set_other v ls z m key : key.1 ≠ v → Set_ v ls z m !! key = m !! key.
Proof. intros H. rewrite lookup_Set. case_decide; [by subst|done]. Qed.
Lemma SetF_other v ls f m key : key.1 ≠ v → SetF v ls f m !! key = m !! key.
Proof. intros H. unfold SetF. rewrite lookup_insert_ne; [done|]. by intros <-. Qed.
Lemma Inc_other v ls m key : key.1 ≠ v → Inc v ls m !! key = m !! key.
Proof. intros H. unfold Inc. rewrite lookup_insert_ne; [done|]. by intros <-. Qed.
Lemma Observe_other v ls d m key : key.1 ≠ v → Observe v ls d m !! key = m !! key.
Proof. intros H. unfold Observe. rewrite lookup_insert_ne; [done|]. by intros <-. Qed.

Lemma foldl_lookup_other {A} (f : Metrics → A → Metrics) (l : list A) m key :
  (∀ m a, f m a !! key = m !! key) → foldl f m l !! key = m !! key.
Proof. intros Hf. revert m. induction l as [|a l IH]; intros m; cbn; [done|]. by rewrite IH, Hf. Qed.

Lemma ObserveCheckDetails_other vip nlri check d m key :
  detailVec key.1 = false → ObserveCheckDetails vip nlri check d m !! key = m !! key.
Proof.
  intros Hk. apply mem_false in Hk.
  assert (∀ v, v ∈ [M_PingRTT; M_PingPacketLoss; M_HTTPResponseStatus; M_HTTPTLSCertExpiry;
         M_DNSRcode; M_DNSAnswers; M_GRPCStatusCode; M_ListenSockets;
         M_SQLQueryRows; M_SQLQueryDuration; M_SQLQueryPassed; M_KafkaBrokers; M_KafkaLeaderless]
     → key.1 ≠ v) as Hne by (by intros v Hv <-).
  clear Hk. unfold ObserveCheckDetails.
  destruct d as [[]|]; [..|done];
    repeat first
      [ case_decide
      | rewrite foldl_lookup_other; [|intros]
      | rewrite Set_other by (apply Hne; set_solver)
      | rewrite SetF_other by (apply Hne; set_solver)
      | rewrite Observe_other by (apply Hne; set_solver) ]; done.
Qed.

Lemma lookup_DeletePartialMatch vecs labels m key :
  DeletePartialMatch vecs labels m !! key =
    if decide (key.1 ∈ vecs ∧ matchesLabels key labels = true) then None else m !! key.
Proof.
  unfold DeletePartialMatch. rewrite map_lookup_filter.
  destruct (m !! key) as [x|]; cbn; [|by case_decide].
  by repeat case_guard || case_decide; [..].
Qed.

(** ** Properties *)

(** Removing a VIP removes exactly its series: after [DeleteVIPSeries] no
    series of a VIP vector carries the name, and every other series is
    untouched. *)
Theorem DeleteVIPSeries_exact vip m v labels :
  DeleteVIPSeries vip m !! (v, labels) =
    if decide (v ∈ vipVecs ∧ labelValue (labelNames v) labels "vip" = Some vip)
    then None else m !! (v, labels).
Proof.
  unfold DeleteVIPSeries. rewrite lookup_DeletePartialMatch. apply decide_ext. cbn.
  unfold matchesLabels. cbn [forallb fst snd]. by rewrite andb_true_r, bool_decide_eq_true.
Qed.

(** The list of VIP vectors is complete: every vector with a vip label is
    in it. *)
Theorem vipVecs_complete v : v ∈ vipVecs ↔ "vip" ∈ labelNames v.
Proof.
  rewrite <-!mem_true. by destruct v; vm_compute.
Qed.

(** Every field of [Metrics] is registered, and none twice, which would make
    [MustRegister] panic. *)
Theorem registered_once : NoDup registered ∧ ∀ v, v ∈ registered.
Proof. split; [by_compute|]. intros v. apply mem_true. by destruct v; vm_compute. Qed.

End Metrics.
Export Metrics.
