(* ===== verification/Buckets.v ===== *)
(** * Histogram buckets: GenerateCheckBuckets of internal/metrics/metrics.go

    The bucket bounds in the float64 arithmetic of Go: time.Duration.Seconds,
    math.Round and math.Pow (for an integral exponent, which is all the source
    asks for) are written out.  prometheus.NewHistogramVec panics on bounds
    that do not increase strictly; the theorem says they always do. *)

From Stdlib Require Import SpecFloat.
From S2P Require Import Prelude Floats.

Module Buckets.
Import Floats.

(** ** The standard library *)

(** [Duration.Seconds]. *)
Definition Seconds (d : Z) : float :=
  fadd (float_of_Z (Z.quot d 1000000000))
       (fdiv (float_of_Z (Z.rem d 1000000000)) (float_of_Z 1000000000)).

(** [math.Round]: half away from zero. *)
Definition Round (x : float) : float :=
  match x with
  | S754_finite s m e =>
      if 0 <=? e then x
      else
        let half := 2 ^ (- e - 1) in
        let q := (Z.pos m + half) / 2 ^ (- e) in
        if q =? 0 then S754_zero s else binary_normalize 53 1024 (cond_Zopp s q) 0 s
  | _ => x
  end.

(** The loop of [math.Pow] over the bits of the exponent: [a1 * 2^ae] is the
    answer so far and [x1 * 2^xe] the current power of the base. *)
Fixpoint powLoop (i : positive) (a1 : float) (ae : Z) (x1 : float) (xe : Z) : float * Z :=
  if (xe <? - 2 ^ 12) || (2 ^ 12 <? xe) then (a1, ae + xe)
  else
    let '(a1', ae') :=
      match i with
      | xO _ => (a1, ae)
      | _ => (fmul a1 x1, ae + xe)
      end in
    let x1' := fmul x1 x1 in
    let xe' := 2 * xe in
    let '(x1', xe') :=
      if SFltb x1' (fdiv (float_of_Z 1) (float_of_Z 2)) then (fadd x1' x1', xe' - 1) else (x1', xe') in
    match i with
    | xH => (a1', ae')
    | xO i' | xI i' => powLoop i' a1' ae' x1' xe'
    end.

(** [math.Pow(x, float64(i))] for [0 <= x]. *)
Definition Pow (x : float) (i : positive) : float :=
  if SFeqb x (float_of_Z 1) then float_of_Z 1
  else
    match x with
    | S754_nan => S754_nan
    | S754_zero s => if decide (i = 1%positive) then x else match i with xO _ => S754_zero false | _ => x end
    | S754_infinity s => if decide (i = 1%positive) then x else S754_infinity (s && Z.odd (Z.pos i))
    | S754_finite _ _ _ =>
        if decide (i = 1%positive) then x
        else
          let '(x1, xe) := SFfrexp 53 1024 x in
          let '(a1, ae) := powLoop i (float_of_Z 1) 0 x1 xe in
          SFldexp 53 1024 a1 ae
    end.

(** ** metrics.go *)

Definition maxCheckOverrun : Z := 50 * 1000000.
Definition defaultBucketCount : positive := 10.

(** [roundTo]; [math.Pow10] of a small number is exact. *)
Definition roundTo (v : float) (decimals : nat) : float :=
  let mul := float_of_Z (10 ^ Z.of_nat decimals) in
  fdiv (Round (fmul v mul)) mul.

(** The loops over [1..bucketCount]. *)
Definition counts (bucketCount : positive) : list positive := Pos.of_nat <$> seq 1 (Pos.to_nat bucketCount).

(** The bounds before they are deduplicated and sorted. *)
Definition rawBuckets (checkTimeout : float) (bucketCount : positive) : list float :=
  let nominal := roundTo checkTimeout 6 in
  let effective := roundTo (fadd checkTimeout (Seconds maxCheckOverrun)) 6 in
  let bucketIncrement := fdiv nominal (float_of_Z (Z.pos bucketCount)) in
  ((λ i, roundTo (fmul bucketIncrement (float_of_Z (Z.pos i))) 6) <$> counts bucketCount) ++
  (if SFleb bucketIncrement (float_of_Z 1) then
     (λ i, roundTo (Pow bucketIncrement i) 6) <$> counts bucketCount
   else
     let bucketFraction := fdiv (float_of_Z 1) (float_of_Z (Z.pos bucketCount)) in
     (λ i, roundTo (fmul checkTimeout (Pow bucketFraction i)) 6) <$> counts bucketCount) ++
  [nominal; effective].

(** The map [seen]: float64 keys are compared with [==]. *)
Definition insertKey (keys : list float) (v : float) : list float :=
  if existsb (SFeqb v) keys then keys else keys ++ [v].
Definition seenKeys (l : list float) : list float := foldl insertKey [] l.

(** [slices.Sort], as insertion into a sorted list. *)
Fixpoint insertSorted (v : float) (l : list float) : list float :=
  match l with
  | [] => [v]
  | w :: l' => if SFltb v w then v :: l else w :: insertSorted v l'
  end.
Definition sortFloats (l : list float) : list float := foldr insertSorted [] l.

(** [generateCheckBuckets]; [order] is the order in which the map's keys are
    collected. *)
Definition generateCheckBuckets (order : list float → list float) (checkTimeout : float) (bucketCount : positive)
    : list float :=
  sortFloats (order (seenKeys (rawBuckets checkTimeout bucketCount))).

Definition GenerateCheckBuckets (order : list float → list float) (timeout : Z) : list float :=
  generateCheckBuckets order (Seconds timeout) defaultBucketCount.

End Buckets.
