(* ===== verification/BucketsProofs.v ===== *)
(** * Histogram buckets: theorems

    Rounding never yields NaN, a product of small numbers is small, and so
    every bound is a number; distinct numbers, sorted, increase strictly. *)

From Stdlib Require Import SpecFloat.
From S2P Require Import Prelude Floats Buckets.

Module BucketsProofs.
Import Floats Buckets.

(** ** Rounding *)

Lemma shr_1_m r : 0 ≤ shr_m r → shr_m (shr_1 r) = shr_m r / 2.
Proof. destruct r as [[|[p|p|]|p] r s]; intros Hm; cbn in *; try lia; rewrite <-Z.div2_div; done. Qed.

Lemma iter_shr_m n r : 0 ≤ shr_m r → shr_m (Nat.iter n shr_1 r) = shr_m r / 2 ^ Z.of_nat n ∧ 0 ≤ shr_m (Nat.iter n shr_1 r).
Proof.
  intros Hm. induction n as [|n [IH Hpos]]; [cbn; rewrite Z.div_1_r; lia|].
  cbn [Nat.iter nat_rect]. change (nat_rect _ r (λ _, shr_1) n) with (Nat.iter n shr_1 r).
  rewrite shr_1_m by done. split; [|apply Z.div_pos; lia]. rewrite IH, Nat2Z.inj_succ, Z.pow_succ_r by lia.
  rewrite Z.div_div, Z.mul_comm by (first [lia|apply Z.pow_pos_nonneg; lia]). done.
Qed.

Lemma shr_fexp_m m e l :
  0 ≤ m → let k := Z.max (fexp 53 1024 (Zdigits2 m + e) - e) 0 in
  shr_m (shr_fexp 53 1024 m e l).1 = m / 2 ^ k ∧ (shr_fexp 53 1024 m e l).2 = e + k.
Proof.
  intros Hm k. unfold shr_fexp. assert (shr_m (shr_record_of_loc m l) = m) as Hl by (by destruct l as [|[]]).
  fold k. subst k. destruct (fexp 53 1024 (Zdigits2 m + e) - e) as [|p|p] eqn:E; cbn [shr fst snd].
  - cbn. rewrite Z.div_1_r, Hl. split; [done|lia].
  - rewrite iter_pos_nat. destruct (iter_shr_m (Pos.to_nat p) (shr_record_of_loc m l)) as [-> _]; [lia|].
    rewrite positive_nat_Z, Hl. cbn. split; [done|lia].
  - cbn. rewrite Z.div_1_r, Hl. split; [done|lia].
Qed.

Lemma round_nearest_even_bounds m l : m ≤ round_nearest_even m l ≤ m + 1.
Proof. destruct l as [|[]]; cbn; [lia| |lia|lia]. destruct (Z.even m); lia. Qed.

Lemma Zdigits2_spec m : 0 ≤ m → 0 ≤ Zdigits2 m ∧ m < 2 ^ Zdigits2 m ∧ (0 < m → 2 ^ (Zdigits2 m - 1) ≤ m).
Proof.
  intros Hm. destruct m as [|p|p]; cbn [Zdigits2]; [cbn; lia| |lia]. rewrite digits2_log2.
  pose proof (Z.log2_spec (Z.pos p)) as Hs. pose proof (Z.log2_nonneg (Z.pos p)).
  replace (Z.log2 (Z.pos p) + 1 - 1) with (Z.log2 (Z.pos p)) by lia. unfold Z.succ in Hs. lia.
Qed.

Lemma Zdigits2_le m k : 0 < m → m < 2 ^ k → Zdigits2 m ≤ k.
Proof.
  intros Hm Hk. destruct (Zdigits2_spec m) as (Hd & _ & Hlow); [lia|]. specialize (Hlow Hm).
  destruct (decide (0 ≤ k)) as [Hk0|Hk0]; [|rewrite Z.pow_neg_r in Hk; lia].
  assert (2 ^ (Zdigits2 m - 1) < 2 ^ k) as Hlt by lia. apply Z.pow_lt_mono_r_iff in Hlt; lia.
Qed.

(** Zero, or finite and below [2^b]. *)
Definition small (b : Z) (x : float) : Prop :=
  match x with
  | S754_zero _ => True
  | S754_finite _ m e => Z.pos (digits2_pos m) + e ≤ b
  | _ => False
  end.
Definition short (x : float) : Prop :=
  match x with S754_finite _ m _ => Z.pos (digits2_pos m) ≤ 53 | S754_nan => False | _ => True end.

Lemma small_mono b b' x : b ≤ b' → small b x → small b' x.
Proof. destruct x; cbn; lia. Qed.

Lemma fexp_ge d : d - 53 ≤ fexp 53 1024 d.
Proof. unfold fexp. lia. Qed.

(** The mantissa and exponent that [binary_round_aux] ends with. *)
Lemma round_aux_inv s mx e l :
  0 ≤ mx → ∃ m1 m' m2 k1 k2,
    k1 = Z.max (fexp 53 1024 (Zdigits2 mx + e) - e) 0 ∧ m1 = mx / 2 ^ k1 ∧ m1 ≤ m' ≤ m1 + 1 ∧ 0 ≤ m1 ∧
    k2 = Z.max (fexp 53 1024 (Zdigits2 m' + (e + k1)) - (e + k1)) 0 ∧ m2 = m' / 2 ^ k2 ∧ 0 ≤ m2 ∧
    binary_round_aux 53 1024 s mx e l =
      match m2 with
      | Z0 => S754_zero s
      | Zpos m => if e + k1 + k2 <=? 971 then S754_finite s m (e + k1 + k2) else S754_infinity s
      | Zneg _ => S754_nan
      end.
Proof.
  intros Hm. unfold binary_round_aux. destruct (shr_fexp_m mx e l Hm) as [H1 H2].
  destruct (shr_fexp 53 1024 mx e l) as [r1 e1]. cbn [fst snd] in H1, H2. subst e1.
  set (k1 := Z.max (fexp 53 1024 (Zdigits2 mx + e) - e) 0) in *.
  pose proof (round_nearest_even_bounds (shr_m r1) (loc_of_shr_record r1)) as Hb.
  set (m' := round_nearest_even (shr_m r1) (loc_of_shr_record r1)) in *.
  assert (0 ≤ mx / 2 ^ k1) as Hp1 by (apply Z.div_pos; [lia|apply Z.pow_pos_nonneg; lia]).
  destruct (shr_fexp_m m' (e + k1) loc_Exact) as [H3 H4]; [lia|].
  destruct (shr_fexp 53 1024 m' (e + k1) loc_Exact) as [r2 e2]. cbn [fst snd] in H3, H4. subst e2.
  set (k2 := Z.max (fexp 53 1024 (Zdigits2 m' + (e + k1)) - (e + k1)) 0) in *.
  exists (mx / 2 ^ k1), m', (m' / 2 ^ k2), k1, k2. rewrite H1 in Hb. rewrite H3.
  repeat (split; [done|]). split; [|done]. apply Z.div_pos; [lia|apply Z.pow_pos_nonneg; lia].
Qed.

Lemma div_pow_mul m k : 0 ≤ m → 0 ≤ k → m / 2 ^ k * 2 ^ k ≤ m.
Proof. intros Hm Hk. pose proof (Z.mul_div_le m (2 ^ k)). pose proof (Z.pow_pos_nonneg 2 k). lia. Qed.

Lemma round_aux_short s mx e l : 0 ≤ mx → short (binary_round_aux 53 1024 s mx e l).
Proof.
  intros Hm. destruct (round_aux_inv s mx e l Hm) as (m1 & m' & m2 & k1 & k2 & Hk1 & H1 & Hb & Hp1 & Hk2 & H2 & Hp2 & ->).
  destruct m2 as [|p|p]; [done| |lia]. destruct (_ <=? _); [|done]. cbn [short].
  apply (Zdigits2_le (Z.pos p) 53); [lia|]. rewrite H2.
  destruct (Zdigits2_spec m') as (Hd & Hlt & _); [lia|].
  pose proof (fexp_ge (Zdigits2 m' + (e + k1))). apply Z.div_lt_upper_bound; [apply Z.pow_pos_nonneg; lia|].
  rewrite <-Z.pow_add_r by lia. apply (Z.lt_le_trans _ (2 ^ Zdigits2 m')); [done|]. apply Z.pow_le_mono_r; lia.
Qed.

Lemma round_aux_small s mx e l b :
  0 ≤ mx → Zdigits2 mx + e ≤ b → -1000 ≤ b ≤ 900 → small (b + 1) (binary_round_aux 53 1024 s mx e l).
Proof.
  intros Hm Hb Hr. destruct (round_aux_inv s mx e l Hm) as (m1 & m' & m2 & k1 & k2 & Hk1 & H1 & Hb1 & Hp1 & Hk2 & H2 & Hp2 & ->).
  destruct m2 as [|p|p]; [done| |lia].
  destruct (Zdigits2_spec mx) as (Hd & Hlt & _); [done|].
  pose proof (div_pow_mul m' k2 ltac:(lia) ltac:(lia)) as Hm2. rewrite <-H2 in Hm2.
  assert (Z.pos (digits2_pos p) + (e + k1 + k2) ≤ b + 1) as Hend.
  { destruct (decide (e + k1 ≤ Zdigits2 mx + e)) as [Hle|Hgt].
    - assert (m1 < 2 ^ (Zdigits2 mx - k1)) as Hm1.
      { rewrite H1. apply Z.div_lt_upper_bound; [apply Z.pow_pos_nonneg; lia|]. rewrite <-Z.pow_add_r by lia.
        apply (Z.lt_le_trans _ (2 ^ Zdigits2 mx)); [done|]. apply Z.pow_le_mono_r; lia. }
      assert (2 ^ k2 ≤ 2 ^ (Zdigits2 mx - k1)) as Hk by (pose proof (Z.pow_pos_nonneg 2 k2); nia).
      apply Z.pow_le_mono_r_iff in Hk; [|lia|lia].
      enough (Z.pos (digits2_pos p) ≤ Zdigits2 mx - k1 + 1 - k2) by lia.
      apply (Zdigits2_le (Z.pos p)); [lia|]. rewrite H2. apply Z.div_lt_upper_bound; [apply Z.pow_pos_nonneg; lia|].
      rewrite <-Z.pow_add_r by lia. replace (k2 + (Zdigits2 mx - k1 + 1 - k2)) with (Z.succ (Zdigits2 mx - k1)) by lia.
      rewrite Z.pow_succ_r by lia. lia.
    - assert (e + k1 = -1074) as He by (unfold fexp, emin in Hk1; lia).
      assert (m1 = 0) as ->.
      { rewrite H1. apply Z.div_small. split; [lia|]. apply (Z.lt_le_trans _ (2 ^ Zdigits2 mx)); [done|].
        apply Z.pow_le_mono_r; lia. }
      assert (m' = 1) as -> by (pose proof (Z.pow_pos_nonneg 2 k2); nia).
      rewrite He in Hk2. assert (k2 = 0) as -> by (subst k2; by vm_compute). cbn in H2. injection H2 as ->. cbn. lia. }
  rewrite (proj2 (Z.leb_le _ _)); [exact Hend|lia].
Qed.

(** ** The operations *)

Lemma shl_align_spec mx ex ex' :
  ∃ k, 0 ≤ k ∧ Z.pos (shl_align mx ex ex').1 = Z.pos mx * 2 ^ k ∧ (shl_align mx ex ex').2 = ex - k.
Proof.
  unfold shl_align. destruct (ex' - ex) as [|p|p] eqn:E; cbn [fst snd]; [exists 0; lia..|].
  exists (Z.pos p). rewrite iter_xO. lia.
Qed.

Lemma Zdigits2_shift p k : 0 ≤ k → Zdigits2 (Z.pos p * 2 ^ k) = Z.pos (digits2_pos p) + k.
Proof.
  intros Hk. rewrite <-digits2_shift by done. pose proof (Z.pow_pos_nonneg 2 k).
  destruct (Z.pos p * 2 ^ k) eqn:E; [lia|done|lia].
Qed.

Lemma binary_round_spec s m e :
  short (binary_round 53 1024 s m e) ∧
  ∀ b, Z.pos (digits2_pos m) + e ≤ b → -1000 ≤ b ≤ 900 → small (b + 1) (binary_round 53 1024 s m e).
Proof.
  unfold binary_round. destruct (shl_align_spec m e (fexp 53 1024 (Z.pos (digits2_pos m) + e))) as (k & Hk & H1 & H2).
  destruct (shl_align _ _ _) as [mz ez]. cbn [fst snd] in *. split; [by apply round_aux_short|].
  intros b Hb Hr. apply round_aux_small; [done| |done]. rewrite H1, Zdigits2_shift by done. lia.
Qed.

Lemma binary_normalize_short m e z : short (binary_normalize 53 1024 m e z).
Proof. destruct m; cbn; [done|apply binary_round_spec..]. Qed.

Definition num (x : float) : Prop := match x with S754_zero _ | S754_finite _ _ _ => True | _ => False end.
Definition fin (x : float) : Prop := match x with S754_finite _ _ _ => True | _ => False end.

Lemma fmul_short x c : short x → fin c → short (fmul x c).
Proof. destruct x, c; cbn; try done. intros _ _. by apply round_aux_short. Qed.

Lemma Zdigits2_mul p q : Zdigits2 (Z.pos (p * q)) ≤ Z.pos (digits2_pos p) + Z.pos (digits2_pos q).
Proof.
  cbn [Zdigits2]. rewrite !digits2_log2, Pos2Z.inj_mul. pose proof (Z.log2_mul_above (Z.pos p) (Z.pos q)). lia.
Qed.

Lemma fmul_small a b x y : small a x → small b y → -1000 ≤ a + b ≤ 900 → small (a + b + 1) (fmul x y).
Proof.
  intros Hx Hy Hr. destruct x as [| | |s1 m1 e1], y as [| | |s2 m2 e2]; try done. cbn [fmul SFmul].
  apply round_aux_small; [done| |done]. cbn in Hx, Hy. pose proof (Zdigits2_mul m1 m2). lia.
Qed.

Lemma fdiv_short x c : short x → fin c → short (fdiv x c).
Proof.
  destruct x as [| | |s1 m1 e1], c as [| | |s2 m2 e2]; cbn [short fin]; try done. intros _ _. cbn [fdiv SFdiv].
  unfold fdiv, SFdiv, SFdiv_core_binary. set (m := match _ with Z0 => _ | Zpos _ => _ | Zneg _ => _ end).
  assert (0 ≤ m) as Hm.
  { subst m. case_match; [done| |done]. by apply Z.shiftl_nonneg. }
  pose proof (Z_div_mod m (Z.pos m2) eq_refl) as Hd. destruct (Z.div_eucl m (Z.pos m2)) as [q r].
  apply round_aux_short. nia.
Qed.

Lemma fadd_short x y : short x → short y → num x ∨ num y → short (fadd x y).
Proof.
  destruct x as [[]|[]| |s1 m1 e1], y as [[]|[]| |s2 m2 e2]; cbn [short num]; try done; intros; cbn [fadd SFadd];
    try done; first [apply binary_normalize_short|naive_solver].
Qed.

Lemma fadd_double a x : small a x → -1000 ≤ a + 1 ≤ 900 → small (a + 2) (fadd x x).
Proof.
  destruct x as [[]|[]| |s m e]; cbn [small]; try done. intros Hx Hr. unfold fadd, SFadd. rewrite Z.min_id.
  unfold shl_align. rewrite Z.sub_diag. cbn [fst].
  assert (∀ s', small (a + 2) (binary_round 53 1024 s' m~0 e)) as Hb.
  { intros s'. replace (a + 2) with (a + 1 + 1) by lia. apply binary_round_spec; [|done]. cbn. lia. }
  assert (Z.pos m + Z.pos m = Z.pos m~0 ∧ - Z.pos m + - Z.pos m = Z.neg m~0) as [H1 H2] by lia.
  destruct s; cbn [cond_Zopp]; rewrite ?H1, ?H2; apply Hb.
Qed.

Lemma Round_short x : short x → short (Round x).
Proof.
  destruct x as [| | |s m e]; cbn [short Round]; try done. destruct (0 <=? e); [done|]. intros _.
  destruct (_ =? 0); [done|apply binary_normalize_short].
Qed.

Lemma roundTo_short v : short v → short (roundTo v 6).
Proof. intros Hv. unfold roundTo. apply fdiv_short; [|done]. apply Round_short, fmul_short; done. Qed.

Lemma SFldexp_short x e : num x → short (SFldexp 53 1024 x e).
Proof. destruct x; cbn; try done. intros _. apply binary_round_spec. Qed.

Lemma SFfrexp_small x : short x → fin x → small 0 (SFfrexp 53 1024 x).1.
Proof.
  destruct x as [| | |s m e]; cbn [short fin]; try done. intros Hs _. unfold SFfrexp.
  destruct (Z.leb_spec 53 (Z.pos (digits2_pos m))) as [H|H]; cbn [fst small]; [lia|].
  assert (Z.pos (digits2_pos (Pos.iter xO m (Z.to_pos (53 - Z.pos (digits2_pos m))))) =
    Zdigits2 (Z.pos m * 2 ^ (53 - Z.pos (digits2_pos m)))) as ->.
  { rewrite <-(Z2Pos.id (53 - Z.pos (digits2_pos m))) at 2 by lia. by rewrite <-iter_xO. }
  rewrite Zdigits2_shift; lia.
Qed.

(** ** Powers *)

(** The bound of the loop's values after the bits of [i]. *)
Fixpoint grow (i : positive) (c : Z) : Z :=
  match i with xH => 2 * c + 4 | xO i' | xI i' => grow i' (2 * c + 4) end.

Lemma grow_ge i c : 0 ≤ c → 2 * c + 4 ≤ grow i c.
Proof. revert c. induction i as [i IH|i IH|]; intros c Hc; cbn; [specialize (IH (2 * c + 4))..|]; lia. Qed.

Lemma powLoop_small i a1 ae x1 xe c :
  0 ≤ c → grow i c ≤ 900 → small c a1 → small c x1 → small (grow i c) (powLoop i a1 ae x1 xe).1.
Proof.
  revert a1 ae x1 xe c.
  assert (∀ c x1 xe, 0 ≤ c → 2 * c + 4 ≤ 900 → small c x1 →
    small (2 * c + 4) (if SFltb (fmul x1 x1) (fdiv (float_of_Z 1) (float_of_Z 2)) then
      (fadd (fmul x1 x1) (fmul x1 x1), 2 * xe - 1) else (fmul x1 x1, 2 * xe)).1) as Hsq.
  { intros c x1 xe Hc Hb Hx. pose proof (fmul_small c c x1 x1 Hx Hx ltac:(lia)) as Hm. destruct (SFltb _ _); cbn [fst].
    - apply (small_mono (c + c + 1 + 2)); [lia|]. apply fadd_double; [done|lia].
    - by apply (small_mono (c + c + 1)); [lia|]. }
  assert (∀ c a1 x1, 0 ≤ c → 2 * c + 4 ≤ 900 → small c a1 → small c x1 → small (2 * c + 4) (fmul a1 x1)) as Hmul.
  { intros c a1 x1 Hc Hb Ha Hx. apply (small_mono (c + c + 1)); [lia|]. apply fmul_small; [done..|lia]. }
  induction i as [i IH|i IH|]; intros a1 ae x1 xe c Hc Hg Ha Hx; cbn [grow] in *;
    try pose proof (grow_ge i (2 * c + 4) ltac:(lia)); cbn [powLoop];
    (destruct ((xe <? - 2 ^ 12) || (2 ^ 12 <? xe)); [cbn [fst]; eapply small_mono; [|exact Ha]; lia|]);
    pose proof (Hsq c x1 xe Hc ltac:(lia) Hx) as Hs;
    destruct (if SFltb (fmul x1 x1) (fdiv (float_of_Z 1) (float_of_Z 2)) then _ else _) as [x1' xe'];
    cbn [fst] in Hs.
  - apply IH; [lia|done|apply Hmul; auto with lia|done].
  - apply IH; [lia|done|eapply small_mono; [|exact Ha]; lia|done].
  - apply Hmul; auto with lia.
Qed.

Lemma Pow_short x i : short x → grow i 1 ≤ 900 → short (Pow x i).
Proof.
  intros Hx Hi. unfold Pow. destruct (SFeqb _ _); [done|]. destruct x as [s|s| |s m e]; cbn [short] in Hx; try done.
  - case_decide; [done|]. by destruct i.
  - by case_decide.
  - case_decide; [done|].
    pose proof (SFfrexp_small (S754_finite s m e) Hx I) as Hf.
    destruct (SFfrexp 53 1024 (S754_finite s m e)) as [x1 xe]. cbn [fst] in Hf.
    pose proof (powLoop_small i (float_of_Z 1) 0 x1 xe 1 ltac:(lia) Hi ltac:(done)
      (small_mono 0 1 _ ltac:(lia) Hf)) as Hl.
    destruct (powLoop i _ 0 x1 xe) as [a1 ae]. cbn [fst] in Hl. apply SFldexp_short. by destruct a1.
Qed.

(** ** Every bound is a number *)

Lemma counts_bound i : i ∈ counts defaultBucketCount → grow i 1 ≤ 900 ∧ fin (float_of_Z (Z.pos i)).
Proof.
  assert (Forall (λ i, grow i 1 ≤ 900 ∧ fin (float_of_Z (Z.pos i))) (counts defaultBucketCount)) as Hall
    by (repeat (constructor; [split; [by vm_compute|by vm_compute]|]); constructor).
  rewrite Forall_forall in Hall. apply Hall.
Qed.

Lemma fraction_fin i :
  i ∈ counts defaultBucketCount → fin (Pow (fdiv (float_of_Z 1) (float_of_Z (Z.pos defaultBucketCount))) i).
Proof.
  assert (Forall (λ i, fin (Pow (fdiv (float_of_Z 1) (float_of_Z (Z.pos defaultBucketCount))) i))
    (counts defaultBucketCount)) as Hall by (repeat (constructor; [by vm_compute|]); constructor).
  rewrite Forall_forall in Hall. apply Hall.
Qed.

Lemma float_of_Z_num z : - 2 ^ 100 < z < 2 ^ 100 → num (float_of_Z z).
Proof.
  intros Hz. assert (small 101 (float_of_Z z)) as Hs; [|by destruct (float_of_Z z)].
  unfold float_of_Z. destruct z as [|p|p]; [done|apply (proj2 (binary_round_spec _ p 0) 100); [|lia]..];
    pose proof (digits2_le p 100 ltac:(lia) ltac:(lia)); lia.
Qed.

Lemma Seconds_short d : - 2 ^ 63 ≤ d < 2 ^ 63 → short (Seconds d).
Proof.
  intros Hd. unfold Seconds. apply fadd_short; [apply binary_normalize_short| |left].
  - apply fdiv_short; [apply binary_normalize_short|done].
  - apply float_of_Z_num.
    assert (Z.abs (Z.quot d 1000000000) ≤ 2 ^ 63); [|lia]. rewrite <-Z.quot_abs by lia.
    apply Z.quot_le_upper_bound; lia.
Qed.

Lemma rawBuckets_short d :
  - 2 ^ 63 ≤ d < 2 ^ 63 → Forall short (rawBuckets (Seconds d) defaultBucketCount).
Proof.
  intros Hd. unfold rawBuckets. set (t := Seconds d). assert (short t) as Ht by (by apply Seconds_short).
  assert (short (roundTo t 6)) as Hnom by (by apply roundTo_short).
  assert (short (fdiv (roundTo t 6) (float_of_Z (Z.pos defaultBucketCount)))) as Hinc by (by apply fdiv_short).
  set (inc := fdiv _ _) in *.
  apply Forall_app. split; [|apply Forall_app; split].
  - apply Forall_fmap, Forall_forall. intros i Hi. apply roundTo_short, fmul_short; [done|]. by apply counts_bound.
  - destruct (SFleb inc _); apply Forall_fmap, Forall_forall; intros i Hi; apply roundTo_short.
    + apply Pow_short; [done|]. by apply counts_bound.
    + apply fmul_short; [done|]. by apply fraction_fin.
  - constructor; [done|]. constructor; [|done]. apply roundTo_short, fadd_short; [done|by vm_compute|by right].
Qed.

(** ** The order of numbers *)

(** [<] and [==] on numbers, as the lexicographic order of triples. *)
Definition key (x : float) : Z * Z * Z :=
  match x with
  | S754_infinity s => (if s then -2 else 2, 0, 0)
  | S754_finite s m e => if s then (-1, - e, - Z.pos m) else (1, e, Z.pos m)
  | _ => (0, 0, 0)
  end.
Definition klt (a b : Z * Z * Z) : Prop :=
  let '(a1, a2, a3) := a in let '(b1, b2, b3) := b in
  a1 < b1 ∨ a1 = b1 ∧ (a2 < b2 ∨ a2 = b2 ∧ a3 < b3).

Lemma SFcompare_key x y :
  short x → short y →
  SFcompare x y = Some Lt ∧ klt (key x) (key y) ∨ SFcompare x y = Some Eq ∧ key x = key y ∨
  SFcompare x y = Some Gt ∧ klt (key y) (key x).
Proof.
  destruct x as [s1|s1| |s1 m1 e1], y as [s2|s2| |s2 m2 e2]; cbn [short]; try done; intros _ _;
    [destruct s1, s2; cbn; naive_solver lia..|].
  cbn [SFcompare]. change (Pos.compare_cont Eq m1 m2) with (Pos.compare m1 m2).
  destruct s1, s2; cbn [key klt]; [|naive_solver lia..|];
    destruct (Z.compare_spec e1 e2) as [->| |]; destruct (Pos.compare_spec m1 m2) as [->| |]; cbn; naive_solver lia.
Qed.

Lemma SFltb_klt x y : short x → short y → SFltb x y = true ↔ klt (key x) (key y).
Proof.
  intros Hx Hy. unfold SFltb. destruct (SFcompare_key x y Hx Hy) as [[-> Hk]|[[-> Hk]|[-> Hk]]]; [done|..];
    (split; [done|]); destruct (key x) as [[]], (key y) as [[]]; cbn in *; simplify_eq; lia.
Qed.

Lemma SFeqb_key x y : short x → short y → SFeqb x y = true ↔ key x = key y.
Proof.
  intros Hx Hy. unfold SFeqb. destruct (SFcompare_key x y Hx Hy) as [[-> Hk]|[[-> Hk]|[-> Hk]]]; [|done|];
    (split; [done|]); destruct (key x) as [[]], (key y) as [[]]; cbn in *; intros ?; simplify_eq; lia.
Qed.

Lemma klt_trans a b c : klt a b → klt b c → klt a c.
Proof. destruct a as [[]], b as [[]], c as [[]]. cbn. lia. Qed.

Lemma klt_total a b : a ≠ b → klt a b ∨ klt b a.
Proof.
  destruct a as [[a1 a2] a3], b as [[b1 b2] b3]. intros Hne. cbn.
  destruct (decide (a1 = b1)), (decide (a2 = b2)), (decide (a3 = b3)); subst; try lia. done.
Qed.

(** ** Deduplication and sorting *)

Local Abbreviation flt := (λ a b, SFltb a b = true).

Lemma seenKeys_spec l :
  Forall short l →
  Forall short (seenKeys l) ∧ NoDup (key <$> seenKeys l) ∧
  (∀ v, v ∈ seenKeys l → v ∈ l) ∧ ∀ v, v ∈ l → ∃ w, w ∈ seenKeys l ∧ key v = key w.
Proof.
  unfold seenKeys. induction l as [|x l IH] using rev_ind; intros Hl.
  { split_and!; [done|constructor|auto|by intros v ?%not_elem_of_nil]. }
  apply Forall_app in Hl as [Hl [Hx _]%Forall_cons]. destruct (IH Hl) as (Hs & Hnd & Hsub & Hall).
  rewrite foldl_snoc. set (keys := foldl insertKey [] l) in *. unfold insertKey.
  destruct (existsb (SFeqb x) keys) eqn:E.
  - apply existsb_exists in E as (w & Hw%list_elem_of_In & Heq). rewrite Forall_forall in Hs.
    apply (SFeqb_key x w Hx (Hs w Hw)) in Heq. split_and!; [by apply Forall_forall|done|set_solver|].
    intros v [Hv|Hv%list_elem_of_singleton]%elem_of_app; [by apply Hall|]. subst v. by exists w.
  - assert (∀ w, w ∈ keys → key x ≠ key w) as Hfresh.
    { intros w Hw Heq. apply not_true_iff_false in E. apply E, existsb_exists. exists w. split; [by apply list_elem_of_In|].
      rewrite Forall_forall in Hs. apply SFeqb_key; [done|by apply Hs|done]. }
    split_and!.
    + apply Forall_app. split; [done|]. by constructor.
    + rewrite fmap_app. apply NoDup_app. split; [done|]. split; [|apply NoDup_singleton].
      intros k (w & -> & Hw)%list_elem_of_fmap Hk%list_elem_of_singleton. by apply (Hfresh w Hw).
    + intros v [Hv|Hv]%elem_of_app; apply elem_of_app; [left; by apply Hsub|by right].
    + intros v [Hv|Hv%list_elem_of_singleton]%elem_of_app.
      * destruct (Hall v Hv) as (w & Hw & Heq). exists w. split; [apply elem_of_app; by left|done].
      * subst v. exists x. split; [|done]. apply elem_of_app. right. by left.
Qed.

Lemma insertSorted_perm v l : insertSorted v l ≡ₚ v :: l.
Proof. induction l as [|w l IH]; cbn; [done|]. destruct (SFltb v w); [done|]. rewrite IH. apply Permutation_swap. Qed.

Lemma sortFloats_perm l : sortFloats l ≡ₚ l.
Proof. induction l as [|v l IH]; cbn; [done|]. by rewrite insertSorted_perm, IH. Qed.

Lemma insertSorted_sorted v l :
  short v → Forall short l → key v ∉ key <$> l → StronglySorted flt l → StronglySorted flt (insertSorted v l).
Proof.
  intros Hv Hl Hn Hs. induction Hs as [|w l Hs IH Hw]; cbn [insertSorted]; [by repeat constructor|].
  apply Forall_cons in Hl as [Hwv Hl]. rewrite fmap_cons, not_elem_of_cons in Hn. destruct Hn as [Hne Hn].
  destruct (SFltb v w) eqn:E.
  - constructor; [by constructor|]. constructor; [done|]. rewrite Forall_forall in Hw, Hl |- *. intros x Hx.
    apply SFltb_klt; [done|by apply Hl|]. apply (klt_trans _ (key w)).
    + by apply SFltb_klt.
    + apply SFltb_klt; [done|by apply Hl|by apply Hw].
  - constructor; [by apply IH|]. rewrite insertSorted_perm. constructor; [|done].
    apply SFltb_klt; [done..|]. destruct (klt_total (key v) (key w) Hne) as [Hk|Hk]; [|done].
    apply (SFltb_klt v w Hv Hwv) in Hk. by rewrite E in Hk.
Qed.

Lemma sortFloats_sorted l : Forall short l → NoDup (key <$> l) → StronglySorted flt (sortFloats l).
Proof.
  induction l as [|v l IH]; intros Hl Hn; cbn; [constructor|].
  apply Forall_cons in Hl as [Hv Hl]. rewrite fmap_cons, NoDup_cons in Hn. destruct Hn as [Hv' Hn].
  apply insertSorted_sorted; [done|by rewrite sortFloats_perm|by rewrite sortFloats_perm|by apply IH].
Qed.

(** ** Property *)

(** C37: The bounds of the check histogram suit Prometheus whatever the
    timeouts are: for every int64 timeout they increase strictly (so that the
    histogram is created without a panic), they contain every computed bound,
    the nominal timeout and the timeout with its overrun among them, and they
    do not depend on the order in which the map of bounds is walked. *)
Theorem buckets_increasing order timeout :
  (∀ l, order l ≡ₚ l) → - 2 ^ 63 ≤ timeout < 2 ^ 63 →
  let buckets := GenerateCheckBuckets order timeout in
  let raw := rawBuckets (Seconds timeout) defaultBucketCount in
  StronglySorted (λ a b, SFltb a b = true) buckets ∧
  (∀ v, v ∈ raw → ∃ w, w ∈ buckets ∧ SFeqb v w = true) ∧ (∀ w, w ∈ buckets → w ∈ raw) ∧
  buckets = GenerateCheckBuckets id timeout.
Proof.
  intros Ho Ht buckets raw. pose proof (rawBuckets_short timeout Ht) as Hraw. fold raw in Hraw.
  destruct (seenKeys_spec raw Hraw) as (Hs & Hnd & Hsub & Hall).
  assert (∀ f : list float → list float, (∀ l, f l ≡ₚ l) →
    StronglySorted flt (GenerateCheckBuckets f timeout) ∧ GenerateCheckBuckets f timeout ≡ₚ seenKeys raw) as Hf.
  { intros f Hp. unfold GenerateCheckBuckets, generateCheckBuckets. fold raw. split; [|by rewrite sortFloats_perm, Hp].
    apply sortFloats_sorted; by rewrite Hp. }
  destruct (Hf order Ho) as [Hsort Hperm]. destruct (Hf id) as [Hsort' Hperm']; [done|].
  rewrite Forall_forall in Hraw, Hs.
  split; [done|]. split; [|split].
  - intros v Hv. destruct (Hall v Hv) as (w & Hw & Hk). exists w. subst buckets. rewrite Hperm. split; [done|].
    apply SFeqb_key; auto.
  - intros w Hw. subst buckets. rewrite Hperm in Hw. by apply Hsub.
  - subst buckets. apply (StronglySorted_unique_strong flt); [|done|done|by rewrite Hperm, Hperm'].
    intros a b Ha Hb Hab Hba. exfalso. rewrite Hperm in Ha. rewrite Hperm' in Hb.
    apply (SFltb_klt a b (Hs a Ha) (Hs b Hb)) in Hab. apply (SFltb_klt b a (Hs b Hb) (Hs a Ha)) in Hba.
    pose proof (klt_trans _ _ _ Hab Hba) as Hc. destruct (key a) as [[]]. cbn in Hc. lia.
Qed.

Lemma buckets_increasing_witness :
  GenerateCheckBuckets reverse 0 = [float_of_Z 0; fdiv (float_of_Z 1) (float_of_Z 20)].
Proof.
  destruct (buckets_increasing reverse 0 (λ l, reverse_Permutation l) ltac:(lia)) as (_ & _ & _ & ->).
  by vm_compute.
Defined.

End BucketsProofs.
