(* ===== verification/ChecksPolicy.v ===== *)
(** * Combining the checks of a VIP: internal/config/checkspolicy.go

    expr-lang is not part of the repository: [ExprLang] is what the code uses
    of it, a compiler and an evaluator over an environment of booleans. *)

From S2P Require Import Prelude GoStrings Config Model.
From Stdlib Require Import Ascii.

Module ChecksPolicy.

(** [expr.Compile(policy, expr.Env(env), expr.AsBool())] and
    [expr.Run(program, env)], whose result may be any value: [None] stands
    for one that is not a boolean. *)
Class ExprLang := {
  Program : Type;
  exprCompile : string → gmap string bool → result error Program;
  exprRun : Program → gmap string bool → result error (option bool) }.

(** [checkNameRe]: [^[A-Za-z_][A-Za-z0-9_]*$]. *)
Definition name_start (a : ascii) : bool := is_upper a || is_lower a || is_underscore a.
Definition name_char (a : ascii) : bool := name_start a || is_digit a.
Definition checkNameRe (s : string) : bool :=
  match s with
  | EmptyString => false
  | String a s' => name_start a && all_chars name_char s'
  end.

(** [ValidateCheckName]; [None] is a nil error. *)
Definition ValidateCheckName (name : string) : goerror :=
  if checkNameRe name then
    if decide (name = ChecksPolicyAll ∨ name = ChecksPolicyAny)
    then Some (Errorf "%q is reserved" [name])
    else None
  else Some (Errorf "must match %s" []).

Section Evaluator.
Context `{ExprLang}.

Record ChecksEvaluator := mkChecksEvaluator {
  ev_policy : string;
  ev_names : list string;
  ev_program : option Program }.

(** The environment of the compiler: every name bound to true. *)
Definition compileEnv (names : list string) : gmap string bool :=
  foldl (λ env n, <[n := true]> env) ∅ names.

(** [CompileChecksPolicy]. *)
Definition CompileChecksPolicy (policy : string) (names : list string)
    : result error ChecksEvaluator :=
  let policy := if decide (policy = EmptyString) then ChecksPolicyAll else policy in
  if decide (policy = ChecksPolicyAll ∨ policy = ChecksPolicyAny)
  then Ok (mkChecksEvaluator policy names None)
  else
    match exprCompile policy (compileEnv names) with
    | Err err => Err (Wrapf "%w (known checks: %s)" [Join (sortStrings names) ", "] err)
    | Ok prog => Ok (mkChecksEvaluator policy names (Some prog))
    end.

(** [healthy[n]]: a missing key reads as false. *)
Definition healthyAt (healthy : gmap string bool) (n : string) : bool :=
  default false (healthy !! n).

(** The environment [Eval] passes to the program. *)
Definition evalEnv (names : list string) (healthy : gmap string bool) : gmap string bool :=
  foldl (λ env n, <[n := healthyAt healthy n]> env) ∅ names.

(** The loop of [Eval] over the names, for "all" and "any". *)
Fixpoint evalLoop (names : list string) (healthy : gmap string bool) (all anyOK : bool)
    : bool * bool :=
  match names with
  | [] => (all, anyOK)
  | n :: names' =>
      if healthyAt healthy n then evalLoop names' healthy all true
      else evalLoop names' healthy false anyOK
  end.

(** [Eval]. *)
Definition Eval (e : ChecksEvaluator) (healthy : gmap string bool) : bool :=
  match ev_program e with
  | None =>
      let '(all, anyOK) := evalLoop (ev_names e) healthy true false in
      if decide (ev_policy e = ChecksPolicyAny) then anyOK
      else all && bool_decide (ev_names e ≠ [])
  | Some prog =>
      match exprRun prog (evalEnv (ev_names e) healthy) with
      | Err _ => false
      | Ok out => default false out
      end
  end.

(** ** Properties *)

Lemma evalLoop_spec names healthy all anyOK :
  evalLoop names healthy all anyOK =
    (all && forallb (healthyAt healthy) names, anyOK || existsb (healthyAt healthy) names).
Proof.
  revert all anyOK. induction names as [|n names IH]; intros all anyOK; cbn.
  { by rewrite andb_true_r, orb_false_r. }
  destruct (healthyAt healthy n); rewrite IH; cbn.
  - by rewrite orb_true_r.
  - by rewrite andb_false_r.
Qed.

Lemma Compile_shortcut policy names :
  policy = EmptyString ∨ policy = ChecksPolicyAll ∨ policy = ChecksPolicyAny →
  ∃ e, CompileChecksPolicy policy names = Ok e ∧ ev_names e = names ∧ ev_program e = None ∧
       (ev_policy e = ChecksPolicyAny ↔ policy = ChecksPolicyAny).
Proof.
  intros [->|[->| ->]]; (eexists; split; [reflexivity|]); cbn; done.
Qed.

Lemma Compile_names policy names e :
  CompileChecksPolicy policy names = Ok e → ev_names e = names.
Proof. unfold CompileChecksPolicy. by repeat case_match; intros; simplify_eq/=. Qed.

(** The map a loop over names builds. *)
Lemma foldl_insert_lookup {V} (f : string → V) names (env : gmap string V) n :
  foldl (λ env n, <[n := f n]> env) env names !! n =
    if decide (n ∈ names) then Some (f n) else env !! n.
Proof.
  revert env. induction names as [|m names IH]; intros env; cbn.
  { rewrite decide_False by apply not_elem_of_nil. done. }
  rewrite IH. destruct (decide (n ∈ names)) as [Hn|Hn].
  { by rewrite decide_True by (by right). }
  destruct (decide (n = m)) as [->|Hne].
  { rewrite decide_True by left. by rewrite lookup_insert_eq. }
  rewrite lookup_insert_ne by done. rewrite decide_False; [done|].
  intros [?|?]%elem_of_cons; done.
Qed.

(** The environment of the program holds exactly the names of the VIP's
    checks, each with its health. *)
Lemma evalEnv_lookup names healthy n :
  evalEnv names healthy !! n = if decide (n ∈ names) then Some (healthyAt healthy n) else None.
Proof. unfold evalEnv. by rewrite (foldl_insert_lookup (healthyAt healthy)), lookup_empty. Qed.

(** The compiler sees the set of names, not their order. *)
Lemma compileEnv_perm names names' :
  (∀ n, n ∈ names ↔ n ∈ names') → compileEnv names = compileEnv names'.
Proof.
  intros Hn. apply map_eq. intros n. unfold compileEnv. rewrite !(foldl_insert_lookup (λ _, true)).
  by rewrite (decide_ext (n ∈ names) (n ∈ names')) by done.
Qed.

(** [Eval] reads nothing but the health of the VIP's own checks. *)
Lemma Eval_ext e h1 h2 :
  (∀ n, n ∈ ev_names e → healthyAt h1 n = healthyAt h2 n) → Eval e h1 = Eval e h2.
Proof.
  intros Heq. unfold Eval. destruct (ev_program e) as [prog|].
  - assert (evalEnv (ev_names e) h1 = evalEnv (ev_names e) h2) as ->; [|done].
    apply map_eq. intros n. rewrite !evalEnv_lookup. case_decide; [|done]. by rewrite Heq.
  - rewrite !evalLoop_spec. cbn.
    assert (forallb (healthyAt h1) (ev_names e) = forallb (healthyAt h2) (ev_names e) ∧
            existsb (healthyAt h1) (ev_names e) = existsb (healthyAt h2) (ev_names e))
      as [-> ->]; [|done].
    revert Heq. induction (ev_names e) as [|n l IH]; intros Heq; cbn; [done|].
    destruct IH as [-> ->]; [by intros; apply Heq; right|].
    by rewrite (Heq n) by left.
Qed.

End Evaluator.

(** A VIP with "all" is healthy exactly when it has checks and every one is
    healthy; a check without a verdict counts as unhealthy. *)
Lemma Eval_all_spec `{ExprLang} names healthy e :
  CompileChecksPolicy ChecksPolicyAll names = Ok e →
  Eval e healthy = true ↔ names ≠ [] ∧ ∀ n, n ∈ names → healthy !! n = Some true.
Proof.
  intros [= <-]. unfold Eval. cbn [ev_program ev_names ev_policy].
  rewrite evalLoop_spec, decide_False by done.
  rewrite andb_true_iff, andb_true_l, bool_decide_eq_true, forallb_forall.
  split.
  - intros [Hall Hne]. split; [done|]. intros n Hn.
    specialize (Hall n). rewrite <-list_elem_of_In in Hall. specialize (Hall Hn).
    unfold healthyAt in Hall. destruct (healthy !! n) as [[]|]; done.
  - intros [Hne Hall]. split; [|done]. intros n Hn. apply list_elem_of_In in Hn.
    unfold healthyAt. by rewrite Hall.
Qed.

(** A VIP with "any" is healthy exactly when some check of it is. *)
Lemma Eval_any_spec `{ExprLang} names healthy e :
  CompileChecksPolicy ChecksPolicyAny names = Ok e →
  Eval e healthy = true ↔ ∃ n, n ∈ names ∧ healthy !! n = Some true.
Proof.
  intros [= <-]. unfold Eval. cbn [ev_program ev_names ev_policy].
  rewrite evalLoop_spec, decide_True, orb_false_l, existsb_exists by done.
  setoid_rewrite <-list_elem_of_In.
  split; intros (n & Hn & Hv); exists n; (split; [done|]); unfold healthyAt in *.
  - destruct (healthy !! n) as [[]|]; done.
  - by rewrite Hv.
Qed.

(** ** Properties *)

(** The built-in policies: "all" (and no policy at all) holds exactly when
    the VIP has checks and every one is healthy, "any" exactly when some check
    is; a check without a verdict counts as unhealthy. *)
Theorem Eval_builtin `{ExprLang} policy names healthy e :
  CompileChecksPolicy policy names = Ok e →
  (policy = EmptyString ∨ policy = ChecksPolicyAll →
     Eval e healthy = true ↔ names ≠ [] ∧ ∀ n, n ∈ names → healthy !! n = Some true) ∧
  (policy = ChecksPolicyAny →
     Eval e healthy = true ↔ ∃ n, n ∈ names ∧ healthy !! n = Some true).
Proof.
  intros Hc. split.
  - intros Hp. apply Eval_all_spec. rewrite <-Hc. by destruct Hp as [-> | ->].
  - intros ->. by apply Eval_any_spec.
Qed.

(** An expression policy sees one boolean per check of the VIP and
    nothing else, and fails closed: when the program errors or returns
    something other than a boolean the VIP is not healthy. *)
Theorem Eval_expression `{ExprLang} e prog healthy :
  ev_program e = Some prog →
  (∀ n, evalEnv (ev_names e) healthy !! n =
     if decide (n ∈ ev_names e) then Some (default false (healthy !! n)) else None) ∧
  (Eval e healthy = true ↔ exprRun prog (evalEnv (ev_names e) healthy) = Ok (Some true)).
Proof.
  intros Hp. split; [apply evalEnv_lookup|]. unfold Eval. rewrite Hp.
  destruct (exprRun _ _) as [[[]|]|]; naive_solver.
Qed.

End ChecksPolicy.
Export ChecksPolicy.
