(* ===== verification/Engine.v ===== *)
(** * The decision table and the route attributes: internal/policy/engine.go *)

From S2P Require Import Prelude GoStrings Config Model.

Module Engine.

(** [Evaluate]. *)
Definition Evaluate (healthy lowerPriorityFilePresent : bool) (p : PolicyConfig) : VIPState :=
  if healthy then
    if lowerPriorityFilePresent then StatePessimized else StateAnnounced
  else if decide (Policy_FailAction p = "withdraw") then StateWithdrawn
  else if decide (Policy_FailAction p = "lower_priority") then StatePessimized
  else StateWithdrawn.

Definition defaultLowerPriorityPrepend : Z := 6.

(** [BaseRouteAttrs]. *)
Definition BaseRouteAttrs (p : PolicyConfig) : RouteAttrs :=
  match Policy_Announce p with
  | None => zeroAttrs
  | Some a =>
      mkRouteAttrs
        (match Announce_ASPathPrepend a with Some n => n | None => 0 end)
        (elems (Announce_Communities a))
  end.

(** The inner loop of [mergeCommunities] over one list: the communities seen
    so far and the output. *)
Fixpoint mergeLoop (l : list string) (st : gset string * list string) : gset string * list string :=
  match l with
  | [] => st
  | c :: l' =>
      if decide (c ∈ st.1) then mergeLoop l' st
      else mergeLoop l' ({[c]} ∪ st.1, st.2 ++ [c])
  end.

(** [mergeCommunities]: base first, then extra, without duplicates. *)
Definition mergeCommunities (base extra : list string) : list string :=
  (mergeLoop extra (mergeLoop base (∅, []))).2.

(** [RouteAttrsFor]. *)
Definition RouteAttrsFor (p : PolicyConfig) (state : VIPState) : RouteAttrs :=
  match state with
  | StateAnnounced => BaseRouteAttrs p
  | StatePessimized =>
      let attrs := BaseRouteAttrs p in
      let lowerPrepend :=
        match Policy_LowerPriority p with
        | Some lp => default defaultLowerPriorityPrepend (LowerPriority_ASPathPrepend lp)
        | None => defaultLowerPriorityPrepend
        end in
      let lowerCommunities :=
        match Policy_LowerPriority p with
        | Some lp => elems (LowerPriority_Communities lp)
        | None => []
        end in
      mkRouteAttrs (ASPathPrepend attrs + lowerPrepend)
                   (mergeCommunities (Communities attrs) lowerCommunities)
  | StateWithdrawn => zeroAttrs
  end.

(** ** Merging communities *)

(** The reference: keep the first occurrence of each. *)
Fixpoint firstSeen (seen : list string) (l : list string) : list string :=
  match l with
  | [] => []
  | c :: l' => if decide (c ∈ seen) then firstSeen seen l' else c :: firstSeen (c :: seen) l'
  end.

Lemma firstSeen_ext s1 s2 l : (∀ c, c ∈ s1 ↔ c ∈ s2) → firstSeen s1 l = firstSeen s2 l.
Proof.
  revert s1 s2. induction l as [|c l IH]; intros s1 s2 Hs; cbn; [done|].
  destruct (decide (c ∈ s1)) as [H1|H1]; destruct (decide (c ∈ s2)) as [H2|H2];
    try (by rewrite Hs in H1).
  - by apply IH.
  - f_equal. apply IH. intros d. rewrite !elem_of_cons, Hs. done.
Qed.

Lemma mergeLoop_spec l (st : gset string * list string) :
  (∀ c, c ∈ st.1 ↔ c ∈ st.2) →
  (mergeLoop l st).2 = st.2 ++ firstSeen st.2 l ∧
  (∀ c, c ∈ (mergeLoop l st).1 ↔ c ∈ (mergeLoop l st).2).
Proof.
  revert st. induction l as [|c l IH]; intros [seen out] Hinv; cbn in *.
  { by rewrite app_nil_r. }
  destruct (decide (c ∈ seen)) as [Hc|Hc]; destruct (decide (c ∈ out)) as [Ho|Ho];
    try (by rewrite Hinv in Hc).
  - by apply (IH (seen, out)).
  - destruct (IH ({[c]} ∪ seen, out ++ [c])) as [H1 H2]; cbn in *.
    { intros d. rewrite elem_of_union, elem_of_singleton, elem_of_app, list_elem_of_singleton, Hinv.
      tauto. }
    split; [|done]. rewrite H1, <-app_assoc. cbn. do 2 f_equal.
    apply firstSeen_ext. intros d. set_solver.
Qed.

Lemma firstSeen_app seen l1 l2 :
  firstSeen seen (l1 ++ l2) =
    firstSeen seen l1 ++ firstSeen (firstSeen seen l1 ++ seen) l2.
Proof.
  revert seen. induction l1 as [|c l1 IH]; intros seen; cbn; [done|].
  case_decide; [apply IH|]. cbn. f_equal. rewrite IH. f_equal.
  apply firstSeen_ext. set_solver.
Qed.

Lemma firstSeen_elem seen l c : c ∈ firstSeen seen l ↔ c ∈ l ∧ c ∉ seen.
Proof.
  revert seen. induction l as [|d l IH]; intros seen; cbn.
  { rewrite elem_of_nil. tauto. }
  case_decide; rewrite ?elem_of_cons, IH, ?elem_of_cons; [|destruct (decide (c = d))];
    set_solver.
Qed.

Lemma firstSeen_NoDup seen l : NoDup (firstSeen seen l).
Proof.
  revert seen. induction l as [|d l IH]; intros seen; cbn; [constructor|].
  case_decide; [done|]. constructor; [|done]. rewrite firstSeen_elem. set_solver.
Qed.

Lemma mergeCommunities_eq base extra :
  mergeCommunities base extra = firstSeen [] (base ++ extra).
Proof.
  unfold mergeCommunities.
  destruct (mergeLoop_spec base (∅, [])) as [H1 H2]; [set_solver|]. cbn in H1.
  destruct (mergeLoop_spec extra (mergeLoop base (∅, []))) as [H3 _]; [done|].
  rewrite H3, H1, firstSeen_app. by rewrite app_nil_r.
Qed.

(** ** Bounds on the prepends *)

(** What [validatePolicy] accepts: a known action, announce prepend 0..16,
    lower-priority prepend 1..16. *)
Definition prependsValid (p : PolicyConfig) : Prop :=
  (∀ a n, Policy_Announce p = Some a → Announce_ASPathPrepend a = Some n → 0 ≤ n ≤ 16) ∧
  (∀ lp n, Policy_LowerPriority p = Some lp → LowerPriority_ASPathPrepend lp = Some n → 1 ≤ n ≤ 16).

Lemma base_prepend_bounds p :
  prependsValid p → 0 ≤ ASPathPrepend (BaseRouteAttrs p) ≤ 16.
Proof.
  intros [Ha _]. unfold BaseRouteAttrs. destruct (Policy_Announce p) as [a|]; cbn; [|lia].
  destruct (Announce_ASPathPrepend a) eqn:E; [|lia]. by eapply Ha.
Qed.

Lemma pessimized_prepend p :
  prependsValid p →
  1 ≤ ASPathPrepend (RouteAttrsFor p StatePessimized)
      - ASPathPrepend (RouteAttrsFor p StateAnnounced) ≤ 16.
Proof.
  intros [_ Hl]. cbn. destruct (Policy_LowerPriority p) as [lp|]; cbn.
  - destruct (LowerPriority_ASPathPrepend lp) as [n|] eqn:E; cbn.
    + specialize (Hl lp n eq_refl E). lia.
    + unfold defaultLowerPriorityPrepend. lia.
  - unfold defaultLowerPriorityPrepend. lia.
Qed.

(** ** Properties *)

(** The decision table: full priority exactly when healthy without the
    marker file, no route exactly when unhealthy under any action but
    lower_priority, lowered priority in the remaining cases. *)
Theorem Evaluate_table healthy file p :
  (Evaluate healthy file p = StateAnnounced ↔ healthy = true ∧ file = false) ∧
  (Evaluate healthy file p = StateWithdrawn ↔
     healthy = false ∧ Policy_FailAction p ≠ "lower_priority") ∧
  (Evaluate healthy file p = StatePessimized ↔
     (healthy = true ∧ file = true) ∨ (healthy = false ∧ Policy_FailAction p = "lower_priority")).
Proof.
  unfold Evaluate. destruct healthy, file; repeat case_decide; naive_solver congruence.
Qed.

(** A pessimized route ranks below the same node's full-priority route,
    by 1 to 16 hops and never more than 32 prepends, and carries the base
    communities followed by the new ones of lower_priority, none twice. *)
Theorem pessimized_attrs p :
  prependsValid p →
  let full := RouteAttrsFor p StateAnnounced in
  let low := RouteAttrsFor p StatePessimized in
  ASPathPrepend full < ASPathPrepend low ≤ ASPathPrepend full + 16 ∧
  0 ≤ ASPathPrepend full ≤ 16 ∧
  NoDup (Communities low) ∧
  Communities low =
    firstSeen [] (Communities full ++
      match Policy_LowerPriority p with Some lp => elems (LowerPriority_Communities lp) | None => [] end) ∧
  (∀ c, c ∈ Communities full → c ∈ Communities low).
Proof.
  intros Hv full low. pose proof (pessimized_prepend p Hv). pose proof (base_prepend_bounds p Hv).
  split; [unfold full, low; lia|]. split; [done|].
  assert (Communities low = firstSeen [] (Communities full ++
      match Policy_LowerPriority p with Some lp => elems (LowerPriority_Communities lp) | None => [] end))
    as Hc by (unfold low, full; cbn; by rewrite mergeCommunities_eq).
  split; [rewrite Hc; apply firstSeen_NoDup|]. split; [done|].
  intros c Hin. rewrite Hc, firstSeen_elem, elem_of_app, elem_of_nil. auto.
Qed.

(** The sum of base and lower_priority prepends does not order different
    nodes: for valid policies a degraded node can outrank a healthy node with
    a larger base prepend. *)
Theorem pessimized_may_outrank :
  ∃ degraded healthy : PolicyConfig,
    prependsValid degraded ∧ prependsValid healthy ∧
    ASPathPrepend (BaseRouteAttrs degraded) < ASPathPrepend (BaseRouteAttrs healthy) ∧
    ASPathPrepend (RouteAttrsFor degraded StatePessimized) <
      ASPathPrepend (RouteAttrsFor healthy StateAnnounced).
Proof.
  exists (mkPolicyConfig "lower_priority" EmptyString None None),
    (mkPolicyConfig "lower_priority" EmptyString (Some (mkAnnounceConfig (Some 8) None)) None).
  split; [by split|]. split; [|by vm_compute].
  split; [|done]. intros a n [= <-] [= <-]. lia.
Qed.

(** ** Witness *)
Lemma pessimized_attrs_witness :
  let p := mkPolicyConfig "lower_priority" EmptyString
             (Some (mkAnnounceConfig (Some 2) (Some ["65000:1"])))
             (Some (mkLowerPriorityConfig (Some 3) (Some ["65000:1"; "65000:2"]))) in
  RouteAttrsFor p StatePessimized = mkRouteAttrs 5 ["65000:1"; "65000:2"] ∧
  NoDup (Communities (RouteAttrsFor p StatePessimized)).
Proof.
  intros p. split; [by vm_compute|]. apply (pessimized_attrs p).
  split; intros ? ? [= <-] [= <-]; lia.
Defined.

End Engine.
Export Engine.
