(* ===== verification/Scheduler.v ===== *)
(** * Rise and fall hysteresis: internal/checks/scheduler.go

    A scheduler runs one check and turns its results into health transitions.
    [runCheck] is the critical section of the Go method (serialised by [runMu])
    on the result the checker returned; the callbacks it fires come back as an
    ordered list, because they run after the scheduler's lock is released.
    What a callback is belongs to the owner of the scheduler, so the two
    callback types are parameters. *)

From S2P Require Import Prelude GoStrings Config Model.

Module Scheduler.

(** [HealthTransition]; the trace context is left out. *)
Record HealthTransition := mkHealthTransition {
  HT_VIPName : string;
  HT_CheckName : string;
  HT_Healthy : bool;
  HT_Reason : string;
  HT_CheckResult : Result }.

Section Scheduler.
Context {TCb RCb : Type}.

Record Scheduler := mkScheduler {
  sc_vipName : string;
  sc_checkName : string;
  sc_interval : Z;
  sc_timeout : Z;
  sc_rise : Z;
  sc_fall : Z;
  sc_onTransition : option TCb;
  sc_onCheckResult : option RCb;
  sc_healthy : bool;
  sc_consecutiveOK : Z;
  sc_consecutiveFail : Z;
  sc_lastResult : Result }.

Record SchedulerConfig := mkSchedulerConfig {
  scfg_VIPName : string;
  scfg_CheckName : string;
  scfg_CheckerType : option string;
  scfg_Interval : Z;
  scfg_Timeout : Z;
  scfg_Rise : Z;
  scfg_Fall : Z;
  scfg_OnTransition : option TCb;
  scfg_OnCheckResult : option RCb }.

(** [NewScheduler].  Of the checker only its type name is read here; [None]
    is a nil checker. *)
Definition NewScheduler (cfg : SchedulerConfig) : Scheduler :=
  let name :=
    if decide (scfg_CheckName cfg = EmptyString)
    then default (scfg_CheckName cfg) (scfg_CheckerType cfg)
    else scfg_CheckName cfg in
  {| sc_vipName := scfg_VIPName cfg;
     sc_checkName := name;
     sc_interval := scfg_Interval cfg;
     sc_timeout := scfg_Timeout cfg;
     sc_rise := scfg_Rise cfg;
     sc_fall := scfg_Fall cfg;
     sc_onTransition := scfg_OnTransition cfg;
     sc_onCheckResult := scfg_OnCheckResult cfg;
     sc_healthy := false;
     sc_consecutiveOK := 0;
     sc_consecutiveFail := 0;
     sc_lastResult := zeroResult |}.

(** [SetCallbacks]. *)
Definition SetCallbacks (onTransition : option TCb) (onCheckResult : option RCb) (s : Scheduler)
    : Scheduler :=
  {| sc_vipName := sc_vipName s; sc_checkName := sc_checkName s;
     sc_interval := sc_interval s; sc_timeout := sc_timeout s;
     sc_rise := sc_rise s; sc_fall := sc_fall s;
     sc_onTransition := onTransition; sc_onCheckResult := onCheckResult;
     sc_healthy := sc_healthy s; sc_consecutiveOK := sc_consecutiveOK s;
     sc_consecutiveFail := sc_consecutiveFail s; sc_lastResult := sc_lastResult s |}.

(** The accessors. *)
Definition VIPName (s : Scheduler) : string := sc_vipName s.
Definition CheckName (s : Scheduler) : string := sc_checkName s.
Definition IsHealthy (s : Scheduler) : bool := sc_healthy s.
Definition LastResult (s : Scheduler) : Result := sc_lastResult s.
Definition ConsecutiveOK (s : Scheduler) : Z := sc_consecutiveOK s.
Definition ConsecutiveFail (s : Scheduler) : Z := sc_consecutiveFail s.
Definition Interval (s : Scheduler) : Z := sc_interval s.
Definition Rise (s : Scheduler) : Z := sc_rise s.
Definition Fall (s : Scheduler) : Z := sc_fall s.

(** A callback fired by [runCheck]. *)
Inductive Call :=
| CallCheckResult (cb : RCb) (vip check : string) (result : Result)
| CallTransition (cb : TCb) (t : HealthTransition).

(** The counters and the health after a result. *)
Definition setCounters (s : Scheduler) (healthy : bool) (ok fail : Z) (result : Result) : Scheduler :=
  {| sc_vipName := sc_vipName s; sc_checkName := sc_checkName s;
     sc_interval := sc_interval s; sc_timeout := sc_timeout s;
     sc_rise := sc_rise s; sc_fall := sc_fall s;
     sc_onTransition := sc_onTransition s; sc_onCheckResult := sc_onCheckResult s;
     sc_healthy := healthy; sc_consecutiveOK := ok; sc_consecutiveFail := fail;
     sc_lastResult := result |}.

(** The locked part of [runCheck]: the new state and the transition, if one
    threshold was crossed. *)
Definition applyResult (s : Scheduler) (result : Result) : Scheduler * option HealthTransition :=
  if Success result then
    let ok := if decide (sc_consecutiveOK s < sc_rise s)
              then sc_consecutiveOK s + 1 else sc_consecutiveOK s in
    if negb (sc_healthy s) && bool_decide (sc_rise s ≤ ok) then
      (setCounters s true ok 0 result,
       Some (mkHealthTransition (sc_vipName s) (sc_checkName s) true
               "rise threshold reached" result))
    else (setCounters s (sc_healthy s) ok 0 result, None)
  else
    let fail := if decide (sc_consecutiveFail s < sc_fall s)
                then sc_consecutiveFail s + 1 else sc_consecutiveFail s in
    if sc_healthy s && bool_decide (sc_fall s ≤ fail) then
      (setCounters s false 0 fail result,
       Some (mkHealthTransition (sc_vipName s) (sc_checkName s) false
               "fall threshold reached" result))
    else (setCounters s (sc_healthy s) 0 fail result, None).

(** [runCheck]: the result callback first, then the transition. *)
Definition runCheck (s : Scheduler) (result : Result) : Scheduler * list Call :=
  let '(s', transition) := applyResult s result in
  (s',
   match sc_onCheckResult s with
   | Some cb => [CallCheckResult cb (sc_vipName s) (sc_checkName s) result]
   | None => []
   end ++
   match transition, sc_onTransition s with
   | Some t, Some cb => [CallTransition cb t]
   | _, _ => []
   end).

(** [TriggerCheck]: a cancelled caller gets its error and nothing runs. *)
Definition TriggerCheck (s : Scheduler) (ctxErr : goerror) (result : Result)
    : Scheduler * list Call * (Result * goerror) :=
  match ctxErr with
  | Some err => (s, [], (zeroResult, Some err))
  | None => let '(s', calls) := runCheck s result in (s', calls, (result, None))
  end.

(** [Run]: one check at start and one per tick, over the results the checker
    returns until the context ends. *)
Fixpoint Run (s : Scheduler) (results : list Result) : Scheduler * list Call :=
  match results with
  | [] => (s, [])
  | r :: results' =>
      let '(s', calls) := runCheck s r in
      let '(s'', calls') := Run s' results' in
      (s'', calls ++ calls')
  end.

(** ** The specification *)

(** Outcomes newest first. A check is healthy when at some point its last
    [rise] results were all successes and since then its last [fall] results
    were never all failures. *)
Definition window (n : Z) (b : bool) (hist : list bool) : Prop :=
  take (Z.to_nat n) hist = replicate (Z.to_nat n) b.

Definition specHealthy (rise fall : Z) (hist : list bool) : Prop :=
  ∃ k, window rise true (drop k hist) ∧ ∀ j, (j < k)%nat → ¬ window fall false (drop j hist).

(** The length of the trailing run of [b]. *)
Fixpoint runLen (b : bool) (hist : list bool) : Z :=
  match hist with
  | [] => 0
  | x :: hist' => if decide (x = b) then runLen b hist' + 1 else 0
  end.

(** A scheduler that has seen [hist] since it was made. *)
Definition tracks (s : Scheduler) (hist : list bool) : Prop :=
  sc_consecutiveOK s = sc_rise s `min` runLen true hist ∧
  sc_consecutiveFail s = sc_fall s `min` runLen false hist ∧
  (sc_healthy s = true ↔ specHealthy (sc_rise s) (sc_fall s) hist).

(** Well-formedness: the thresholds validation accepts and what the counters
    may be. *)
Definition wf (s : Scheduler) : Prop :=
  1 ≤ sc_rise s ∧ 1 ≤ sc_fall s ∧
  0 ≤ sc_consecutiveOK s ≤ sc_rise s ∧ 0 ≤ sc_consecutiveFail s ≤ sc_fall s ∧
  (sc_consecutiveOK s = 0 ∨ sc_consecutiveFail s = 0) ∧
  (sc_healthy s = false → sc_consecutiveOK s < sc_rise s) ∧
  (sc_healthy s = true → sc_consecutiveFail s < sc_fall s).

(** ** Lemmas *)

Lemma runLen_nonneg b hist : 0 ≤ runLen b hist.
Proof. induction hist as [|x hist IH]; cbn; [lia|]. case_decide; lia. Qed.

Lemma runLen_same b hist : runLen b (b :: hist) = runLen b hist + 1.
Proof. cbn. by rewrite decide_True. Qed.
Lemma runLen_other b x hist : x ≠ b → runLen b (x :: hist) = 0.
Proof. intros. cbn. by rewrite decide_False. Qed.

Lemma window_runLen n b hist : 0 ≤ n → window n b hist ↔ n ≤ runLen b hist.
Proof.
  intros Hn. unfold window.
  rewrite <-(Z2Nat.id n Hn) at 3. clear Hn.
  revert hist. generalize (Z.to_nat n) as k. clear n.
  intros k. induction k as [|k IH]; intros [|x hist]; cbn [take replicate runLen].
  - split; [lia|done].
  - pose proof (runLen_nonneg b (x :: hist)). cbn [runLen] in *. split; [lia|done].
  - split; [done|lia].
  - case_decide as Hx.
    + subst. rewrite (inj_iff (cons b)), IH. lia.
    + split; [congruence|lia].
Qed.

Lemma specHealthy_nil rise fall : 1 ≤ rise → ¬ specHealthy rise fall [].
Proof.
  intros Hr (k & Hk & _). rewrite drop_nil in Hk.
  apply window_runLen in Hk; cbn in Hk; lia.
Qed.

Lemma specHealthy_success rise fall hist :
  1 ≤ rise → 1 ≤ fall →
  specHealthy rise fall (true :: hist) ↔
  rise ≤ runLen true (true :: hist) ∨ specHealthy rise fall hist.
Proof.
  intros Hr Hf. split.
  - intros ([|k] & Hk & Hj).
    + left. apply window_runLen in Hk; [done|lia].
    + right. exists k. split; [done|]. intros j Hlt. apply (Hj (S j)). lia.
  - intros [Hk|(k & Hk & Hj)].
    + exists 0%nat. split; [apply window_runLen; [lia|done]|lia].
    + exists (S k). split; [done|]. intros [|j] Hlt; cbn [drop].
      * rewrite window_runLen, runLen_other by first [lia|done]. lia.
      * apply Hj. lia.
Qed.

Lemma specHealthy_failure rise fall hist :
  1 ≤ rise → 1 ≤ fall →
  specHealthy rise fall (false :: hist) ↔
  ¬ fall ≤ runLen false (false :: hist) ∧ specHealthy rise fall hist.
Proof.
  intros Hr Hf. split.
  - intros ([|k] & Hk & Hj).
    + apply window_runLen in Hk; [|lia]. rewrite drop_0, runLen_other in Hk by done. lia.
    + split.
      * rewrite <-window_runLen by lia. apply (Hj 0%nat). lia.
      * exists k. split; [done|]. intros j Hlt. apply (Hj (S j)). lia.
  - intros [Hn (k & Hk & Hj)]. exists (S k). split; [done|]. intros [|j] Hlt; cbn [drop].
    + by rewrite window_runLen by lia.
    + apply Hj. lia.
Qed.

Lemma applyResult_thresholds s r :
  sc_rise (applyResult s r).1 = sc_rise s ∧ sc_fall (applyResult s r).1 = sc_fall s ∧
  sc_vipName (applyResult s r).1 = sc_vipName s ∧
  sc_checkName (applyResult s r).1 = sc_checkName s ∧
  sc_interval (applyResult s r).1 = sc_interval s ∧
  sc_onTransition (applyResult s r).1 = sc_onTransition s ∧
  sc_onCheckResult (applyResult s r).1 = sc_onCheckResult s ∧
  sc_lastResult (applyResult s r).1 = r.
Proof. unfold applyResult. by repeat case_match. Qed.

Lemma runCheck_fst s r : (runCheck s r).1 = (applyResult s r).1.
Proof. unfold runCheck. by destruct (applyResult s r). Qed.

Lemma applyResult_wf s r : wf s → wf (applyResult s r).1.
Proof.
  intros (?&?&?&?&?&?&?). unfold applyResult, wf.
  destruct (Success r), (sc_healthy s); repeat case_decide; cbn;
    repeat case_bool_decide; cbn; naive_solver lia.
Qed.

Lemma applyResult_tracks s r hist :
  1 ≤ sc_rise s → 1 ≤ sc_fall s → tracks s hist →
  tracks (applyResult s r).1 (Success r :: hist).
Proof.
  intros Hr Hf (Hok & Hfail & Hh).
  pose proof (runLen_nonneg true hist). pose proof (runLen_nonneg false hist).
  unfold tracks. destruct (applyResult_thresholds s r) as (-> & -> & _).
  unfold applyResult. destruct (Success r).
  - rewrite specHealthy_success, <-Hh by done. rewrite runLen_same, runLen_other by done.
    destruct (sc_healthy s); case_decide; cbn; repeat case_bool_decide; cbn;
      repeat split; try lia; naive_solver lia.
  - rewrite specHealthy_failure, <-Hh by done. rewrite runLen_same, runLen_other by done.
    destruct (sc_healthy s); case_decide; cbn; repeat case_bool_decide; cbn;
      repeat split; try lia; naive_solver lia.
Qed.

(** A transition is reported exactly when the health flips, and carries the
    new health. *)
Lemma applyResult_transition s r :
  match (applyResult s r).2 with
  | Some t => HT_Healthy t = sc_healthy (applyResult s r).1 ∧
              sc_healthy (applyResult s r).1 = negb (sc_healthy s) ∧
              HT_VIPName t = sc_vipName s ∧ HT_CheckName t = sc_checkName s ∧
              HT_CheckResult t = r
  | None => sc_healthy (applyResult s r).1 = sc_healthy s
  end.
Proof.
  unfold applyResult.
  destruct (Success r), (sc_healthy s); cbn; repeat case_bool_decide; done.
Qed.

Lemma NewScheduler_wf cfg : 1 ≤ scfg_Rise cfg → 1 ≤ scfg_Fall cfg → wf (NewScheduler cfg).
Proof. intros. unfold wf. cbn. repeat split; try lia; try done; try (left; lia). Qed.

Lemma NewScheduler_tracks cfg :
  1 ≤ scfg_Rise cfg → 1 ≤ scfg_Fall cfg → tracks (NewScheduler cfg) [].
Proof.
  intros. unfold tracks. cbn [NewScheduler sc_rise sc_fall sc_healthy sc_consecutiveOK
    sc_consecutiveFail runLen].
  split; [lia|]. split; [lia|]. split; [done|]. intros Hs.
  by apply specHealthy_nil in Hs.
Qed.

(** The outcomes of a run, newest first. *)
Definition history (results : list Result) : list bool := reverse (Success <$> results).

Lemma Run_app s l1 l2 :
  Run s (l1 ++ l2) =
    let '(s1, c1) := Run s l1 in let '(s2, c2) := Run s1 l2 in (s2, c1 ++ c2).
Proof.
  revert s. induction l1 as [|r l1 IH]; intros s; cbn [Run app].
  - by destruct (Run s l2).
  - destruct (runCheck s r) as [s' c]. rewrite IH.
    destruct (Run s' l1) as [s1 c1]. destruct (Run s1 l2) as [s2 c2].
    by rewrite app_assoc.
Qed.

Lemma Run_wf s l : wf s → wf (Run s l).1.
Proof.
  revert s. induction l as [|r l IH]; intros s Hs; cbn [Run]; [done|].
  pose proof (runCheck_fst s r) as E. destruct (runCheck s r) as [s' c]. cbn in E. subst.
  specialize (IH _ (applyResult_wf s r Hs)). by destruct (Run _ l).
Qed.

Lemma Run_tracks s l hist :
  wf s → tracks s hist → tracks (Run s l).1 (history l ++ hist).
Proof.
  unfold history. revert s hist. induction l as [|r l IH]; intros s hist Hs Ht; cbn [Run]; [done|].
  pose proof (runCheck_fst s r) as E. destruct (runCheck s r) as [s' c]. cbn in E. subst.
  pose proof Hs as (? & ? & _).
  specialize (IH _ (Success r :: hist) (applyResult_wf s r Hs)).
  specialize (IH (applyResult_tracks s r hist ltac:(done) ltac:(done) Ht)).
  destruct (Run _ l). cbn [fst] in *. rewrite fmap_cons, reverse_cons, <-app_assoc. done.
Qed.

(** The health values of the transitions among the calls of a run. *)
Definition transitions (calls : list Call) : list bool :=
  omap (λ c, match c with CallTransition _ t => Some (HT_Healthy t) | _ => None end) calls.

(** Alternating booleans starting with [b], and the value after them. *)
Fixpoint alternates (b : bool) (l : list bool) : Prop :=
  match l with
  | [] => True
  | x :: l' => x = b ∧ alternates (negb b) l'
  end.

Lemma runCheck_transitions s r cb :
  sc_onTransition s = Some cb →
  transitions (runCheck s r).2 =
    match (applyResult s r).2 with Some t => [HT_Healthy t] | None => [] end.
Proof.
  intros Hcb. unfold runCheck, transitions. destruct (applyResult s r) as [s' [t|]].
  - rewrite Hcb. by destruct (sc_onCheckResult s).
  - by destruct (sc_onCheckResult s).
Qed.

Lemma Run_alternates s l cb :
  sc_onTransition s = Some cb →
  alternates (negb (sc_healthy s)) (transitions (Run s l).2) ∧
  sc_healthy (Run s l).1 = default (sc_healthy s) (last (transitions (Run s l).2)).
Proof.
  revert s. induction l as [|r l IH]; intros s Hcb; cbn [Run]; [done|].
  pose proof (runCheck_fst s r) as E. pose proof (runCheck_transitions s r cb Hcb) as Et.
  pose proof (applyResult_transition s r) as Ha.
  pose proof (applyResult_thresholds s r) as (_&_&_&_&_&Hcb'&_).
  destruct (runCheck s r) as [s' c]. cbn in E, Et. subst.
  specialize (IH _ (eq_trans Hcb' Hcb)).
  destruct (Run _ l) as [s'' c'] eqn:ER. cbn in IH. cbn [fst snd].
  unfold transitions in *. rewrite omap_app, Et.
  destruct ((applyResult s r).2) as [t|].
  - destruct Ha as (Ht & Hflip & _). destruct IH as [IH1 IH2].
    rewrite Hflip in IH1. cbn [app]. split.
    + cbn. by rewrite Ht, Hflip.
    + rewrite IH2, last_cons, Hflip, Ht, Hflip. by destruct (last _).
  - by rewrite Ha in IH.
Qed.

(** Where the counters stand at a verdict, the health agrees. *)
Lemma wf_verdict_ok s : wf s → sc_rise s ≤ sc_consecutiveOK s → sc_healthy s = true.
Proof. intros (?&?&?&?&?&Hn&_) Hge. destruct (sc_healthy s); [done|]. specialize (Hn eq_refl). lia. Qed.
Lemma wf_verdict_fail s : wf s → sc_fall s ≤ sc_consecutiveFail s → sc_healthy s = false.
Proof. intros (?&?&?&?&?&_&Hn) Hge. destruct (sc_healthy s); [|done]. specialize (Hn eq_refl). lia. Qed.

(** A result repeated as often as its threshold brings its counter there. *)
Lemma runLen_replicate b n hist :
  Z.of_nat n ≤ runLen b (replicate n b ++ hist).
Proof.
  induction n as [|n IH]; [apply runLen_nonneg|]. cbn. rewrite decide_True by done. lia.
Qed.

Lemma history_same b results :
  Forall (λ r, Success r = b) results → history results = replicate (length results) b.
Proof.
  intros Hall. unfold history. rewrite <-(length_fmap Success results).
  assert (replicate (length (Success <$> results)) b = Success <$> results) as Hr.
  { apply replicate_as_Forall_2; [done|]. apply Forall_fmap.
    eapply Forall_impl; [exact Hall|]. by intros r <-. }
  rewrite <-Hr, reverse_replicate. by rewrite length_replicate.
Qed.

Lemma Run_thresholds s l : sc_rise (Run s l).1 = sc_rise s ∧ sc_fall (Run s l).1 = sc_fall s.
Proof.
  revert s. induction l as [|r l IH]; intros s; cbn [Run]; [done|].
  pose proof (runCheck_fst s r) as E. destruct (runCheck s r) as [s' c]. cbn in E. subst.
  destruct (applyResult_thresholds s r) as (Hr & Hf & _). specialize (IH (applyResult s r).1).
  destruct (Run _ l). cbn in *. by rewrite Hr, Hf in IH.
Qed.

End Scheduler.

Arguments Scheduler : clear implicits.
Arguments Call : clear implicits.
#[export] Hint Resolve applyResult_wf Run_wf NewScheduler_wf : pathosd.

(** ** Properties *)

(** C4: the hysteresis: after any results a new scheduler is healthy exactly
    when at some point its last [rise] results all succeeded and since then
    its last [fall] results never all failed; its counters are the lengths of
    the current runs, saturated at the thresholds. *)
Theorem Run_hysteresis {TCb RCb} (cfg : SchedulerConfig (TCb := TCb) (RCb := RCb)) results :
  1 ≤ scfg_Rise cfg → 1 ≤ scfg_Fall cfg →
  let s := (Run (NewScheduler cfg) results).1 in
  (sc_healthy s = true ↔ specHealthy (sc_rise s) (sc_fall s) (history results)) ∧
  sc_consecutiveOK s = sc_rise s `min` runLen true (history results) ∧
  sc_consecutiveFail s = sc_fall s `min` runLen false (history results).
Proof.
  intros Hr Hf s.
  pose proof (Run_tracks (NewScheduler cfg) results [] (NewScheduler_wf cfg Hr Hf)
    (NewScheduler_tracks cfg Hr Hf)) as (H1 & H2 & H3).
  rewrite app_nil_r in H1, H2, H3. done.
Qed.

(** Every scheduler keeps its invariant: the counters stay within the
    thresholds, one of them is zero, and the health agrees with them. *)
Theorem Run_invariant {TCb RCb} (cfg : SchedulerConfig (TCb := TCb) (RCb := RCb)) results :
  1 ≤ scfg_Rise cfg → 1 ≤ scfg_Fall cfg → wf (Run (NewScheduler cfg) results).1.
Proof. auto with pathosd. Qed.

(** The transitions a scheduler reports alternate, the first one to
    healthy, and the last one is its health: none is lost or repeated. *)
Theorem Run_transitions_alternate {TCb RCb} (cfg : SchedulerConfig (TCb := TCb) (RCb := RCb)) results cb :
  scfg_OnTransition cfg = Some cb →
  let '(s, calls) := Run (NewScheduler cfg) results in
  alternates true (transitions calls) ∧ sc_healthy s = default false (last (transitions calls)).
Proof.
  intros Hcb. destruct (Run_alternates (NewScheduler cfg) results cb Hcb) as [H1 H2].
  by destruct (Run (NewScheduler cfg) results).
Qed.

(** A verdict is never late: whatever happened before, [rise] successes
    in a row make the scheduler healthy and [fall] failures in a row make it
    unhealthy. *)
Theorem Run_reaches_verdict {TCb RCb} (s : Scheduler TCb RCb) hist results b :
  wf s → tracks s hist →
  Forall (λ r, Success r = b) results →
  (if b then sc_rise s else sc_fall s) ≤ len results →
  sc_healthy (Run s results).1 = b.
Proof.
  intros Hwf Ht Hall Hlen.
  pose proof (Run_tracks s results hist Hwf Ht) as (Hok & Hfail & _).
  pose proof (Run_wf s results Hwf) as Hwf'. destruct (Run_thresholds s results) as [Hr Hf].
  rewrite (history_same b _ Hall) in Hok, Hfail.
  pose proof (runLen_replicate b (length results) hist) as Hlong. unfold len in Hlen.
  destruct b; [apply wf_verdict_ok|apply wf_verdict_fail]; try done; lia.
Qed.

(** ** Witnesses *)
Definition ws_cfg : SchedulerConfig (TCb := unit) (RCb := unit) :=
  mkSchedulerConfig "web" "tcp" None 0 0 2 3 (Some tt) (Some tt).
Definition ws_result (ok : bool) : Result := mkResult ok EmptyString 0 None false None.
Definition ws_run : list Result := ws_result <$> [true; true; false; true; false; false].

Lemma Run_hysteresis_witness :
  sc_healthy (Run (NewScheduler ws_cfg) ws_run).1 = true ∧
  (sc_healthy (Run (NewScheduler ws_cfg) ws_run).1 = true ↔ specHealthy 2 3 (history ws_run)).
Proof. split; [by vm_compute|]. apply (Run_hysteresis ws_cfg ws_run); cbn; lia. Defined.

Lemma Run_invariant_witness : wf (Run (NewScheduler ws_cfg) ws_run).1.
Proof. apply (Run_invariant ws_cfg ws_run); cbn; lia. Defined.

Lemma Run_transitions_alternate_witness :
  transitions (Run (NewScheduler ws_cfg) (ws_run ++ [ws_result false])).2 = [true; false] ∧
  alternates true (transitions (Run (NewScheduler ws_cfg) (ws_run ++ [ws_result false])).2).
Proof.
  split; [by vm_compute|].
  pose proof (Run_transitions_alternate ws_cfg (ws_run ++ [ws_result false]) tt eq_refl) as H.
  destruct (Run (NewScheduler ws_cfg) (ws_run ++ [ws_result false])). apply H.
Defined.

Lemma Run_reaches_verdict_witness :
  sc_healthy (Run (NewScheduler ws_cfg) [ws_result true; ws_result true]).1 = true.
Proof.
  apply (Run_reaches_verdict (NewScheduler ws_cfg) [] [ws_result true; ws_result true] true).
  - apply NewScheduler_wf; cbn; lia.
  - apply NewScheduler_tracks; cbn; lia.
  - by repeat constructor.
  - by vm_compute.
Defined.

End Scheduler.
Export Scheduler.
