(* ===== verification/NetIP.v ===== *)
(** * The part of Go's net/netip the daemon uses

    [ParseAddr] and [ParsePrefix] with the grammar of the standard library:
    four decimal octets without leading zeros; eight groups of one to four hex
    digits with at most one "::", an optional trailing dotted quad and an
    optional zone.  A rejected string is [None].  An address is its value at
    its width; [Is4] and [Is6] tell the two kinds apart, and an IPv4-mapped
    IPv6 address is of the second kind, as in Go. *)

From S2P Require Import Prelude GoStrings.
From Stdlib Require Import Ascii.

Module NetIP.

Inductive Addr :=
| Addr4 (v : Z)
| Addr6 (v : Z) (zone : string).

#[export] Instance Addr_eq : EqDecision Addr.
Proof. solve_decision. Defined.

Definition Is4 (a : Addr) : bool := match a with Addr4 _ => true | Addr6 _ _ => false end.
Definition Is6 (a : Addr) : bool := match a with Addr4 _ => false | Addr6 _ _ => true end.
Definition BitLen (a : Addr) : Z := if Is4 a then 32 else 128.
Definition value (a : Addr) : Z := match a with Addr4 v => v | Addr6 v _ => v end.

(** [parseIPv4Fields]: the octets read so far, the value and the number of
    digits of the current one, and whether it has just begun. *)
Fixpoint parseIPv4Fields (s : string) (fields : list Z) (val : Z) (digLen : nat) : option (list Z) :=
  match s with
  | EmptyString => if decide (length fields = 3)%nat then Some (fields ++ [val]) else None
  | String c s' =>
      match digit c with
      | Some d =>
          if decide (digLen = 1%nat ∧ val = 0) then None
          else if decide (255 < val * 10 + d) then None
          else parseIPv4Fields s' fields (val * 10 + d) (S digLen)
      | None =>
          if decide (c = "."%char) then
            if decide (digLen = 0%nat ∨ s' = EmptyString) then None
            else if decide (length fields = 3)%nat then None
            else parseIPv4Fields s' (fields ++ [val]) 0 0
          else None
      end
  end.

(** Big-endian digits in base [2 ^ w]. *)
Definition fromDigits (w : Z) (l : list Z) : Z := foldl (λ acc d, acc * 2 ^ w + d) 0 l.

Definition parseIPv4 (s : string) : option Addr :=
  match parseIPv4Fields s [] 0 0 with
  | Some fields => Some (Addr4 (fromDigits 8 fields))
  | None => None
  end.

Definition hexDigit (c : ascii) : option Z :=
  let n := Z.of_nat (nat_of_ascii c) in
  if decide (48 ≤ n ≤ 57) then Some (n - 48)
  else if decide (97 ≤ n ≤ 102) then Some (n - 97 + 10)
  else if decide (65 ≤ n ≤ 70) then Some (n - 65 + 10)
  else None.

(** The hex number at the head of a string: its digits, its value, the rest;
    [None] when it has more than four digits. *)
Fixpoint parseHex (s : string) (off : nat) (acc : Z) : option (nat * Z * string) :=
  match s with
  | EmptyString => Some (off, acc, s)
  | String c s' =>
      match hexDigit c with
      | Some d => if decide (3 < off)%nat then None else parseHex s' (S off) (acc * 16 + d)
      | None => Some (off, acc, s)
      end
  end.

(** The loop of [parseIPv6]: the 16-bit groups read so far, the position of
    the ellipsis among them, and what is left of the string. *)
Fixpoint ipv6Loop (fuel : nat) (s : string) (groups : list Z) (ellipsis : option nat)
    : option (list Z * option nat * string) :=
  match fuel with
  | O => Some (groups, ellipsis, s)
  | S fuel' =>
      if decide (8 ≤ length groups)%nat then Some (groups, ellipsis, s) else
      match parseHex s 0 0 with
      | None => None
      | Some (off, acc, rest) =>
          if decide (off = 0%nat) then None else
          match rest with
          | EmptyString => Some (groups ++ [acc], ellipsis, EmptyString)
          | String c rest' =>
              if decide (c = "."%char) then
                if decide (ellipsis = None ∧ length groups ≠ 6%nat) then None
                else if decide (6 < length groups)%nat then None
                else
                  match parseIPv4Fields s [] 0 0 with
                  | Some [a; b; c; d] =>
                      Some (groups ++ [a * 2 ^ 8 + b; c * 2 ^ 8 + d], ellipsis, EmptyString)
                  | _ => None
                  end
              else if decide (c = ":"%char) then
                let groups := groups ++ [acc] in
                match rest' with
                | EmptyString => None
                | String c' rest'' =>
                    if decide (c' = ":"%char) then
                      match ellipsis with
                      | Some _ => None
                      | None =>
                          match rest'' with
                          | EmptyString => Some (groups, Some (length groups), EmptyString)
                          | _ => ipv6Loop fuel' rest'' groups (Some (length groups))
                          end
                      end
                    else ipv6Loop fuel' rest' groups ellipsis
                end
              else None
          end
      end
  end.

(** The ellipsis stands for the zeros that are missing. *)
Definition expand (groups : list Z) (ellipsis : option nat) : option (list Z) :=
  if decide (length groups < 8)%nat then
    match ellipsis with
    | None => None
    | Some e => Some (take e groups ++ replicate (8 - length groups) 0 ++ drop e groups)
    end
  else match ellipsis with Some _ => None | None => Some groups end.

Definition parseIPv6 (s : string) : option Addr :=
  let '(s, zone) := match Cut s "%"%char with Some (s, zone) => (s, Some zone) | None => (s, None) end in
  if decide (zone = Some EmptyString) then None else
  let zone := default EmptyString zone in
  match CutPrefix s "::" with
  | Some EmptyString => Some (Addr6 0 zone)
  | r =>
      let '(s, ellipsis) := match r with Some s => (s, Some 0%nat) | None => (s, None) end in
      match ipv6Loop 8 s [] ellipsis with
      | Some (groups, ellipsis, EmptyString) =>
          match expand groups ellipsis with
          | Some l => Some (Addr6 (fromDigits 16 l) zone)
          | None => None
          end
      | _ => None
      end
  end.

(** [ParseAddr]: the first of the three bytes decides. *)
Fixpoint addrKind (s : string) : option ascii :=
  match s with
  | EmptyString => None
  | String c s' =>
      if decide (c = "."%char ∨ c = ":"%char ∨ c = "%"%char) then Some c else addrKind s'
  end.

Definition ParseAddr (s : string) : option Addr :=
  match addrKind s with
  | Some c =>
      if decide (c = "."%char) then parseIPv4 s
      else if decide (c = ":"%char) then parseIPv6 s
      else None
  | None => None
  end.

Record Prefix := mkPrefix { Prefix_Addr : Addr; Prefix_Bits : Z }.

#[export] Instance Prefix_eq : EqDecision Prefix.
Proof. solve_decision. Defined.

#[export] Instance Prefix_countable : Countable Prefix.
Proof.
  apply (inj_countable'
    (λ p, (match Prefix_Addr p with Addr4 v => inl v | Addr6 v z => inr (v, z) end, Prefix_Bits p))
    (λ '(a, b), mkPrefix (match a with inl v => Addr4 v | inr (v, z) => Addr6 v z end) b)).
  abstract (by intros [[|] ?]).
Defined.

(** Cut at the last occurrence of a byte. *)
Fixpoint CutLast (s : string) (c : ascii) : option (string * string) :=
  match s with
  | EmptyString => None
  | String a s' =>
      match CutLast s' c with
      | Some (b, r) => Some (String a b, r)
      | None => if decide (a = c) then Some (EmptyString, s') else None
      end
  end.

(** The bits after the slash: no sign, no leading zero. *)
Definition parseBits (s : string) : option Z :=
  match s with
  | String a (String _ _) => if decide (digit a = Some 0) then None else ParseUint s 62
  | _ => ParseUint s 62
  end.

Definition ParsePrefix (s : string) : option Prefix :=
  match CutLast s "/"%char with
  | None => None
  | Some (a, bitsStr) =>
      match ParseAddr a with
      | None => None
      | Some ip =>
          match ip with
          | Addr6 _ (String _ _) => None
          | _ =>
              match parseBits bitsStr with
              | Some bits => if decide (bits ≤ BitLen ip) then Some (mkPrefix ip bits) else None
              | None => None
              end
          end
      end
  end.

(** [Masked]: the host bits cleared. *)
Definition maskValue (width bits v : Z) : Z := Z.shiftl (Z.shiftr v (width - bits)) (width - bits).

Definition Masked (p : Prefix) : Prefix :=
  mkPrefix
    (match Prefix_Addr p with
     | Addr4 v => Addr4 (maskValue 32 (Prefix_Bits p) v)
     | Addr6 v zone => Addr6 (maskValue 128 (Prefix_Bits p) v) zone
     end) (Prefix_Bits p).

(** ** Lemmas *)

Example ParseAddr_ex1 : ParseAddr "192.0.2.1" = Some (Addr4 3221225985).
Proof. by vm_compute. Qed.
Example ParseAddr_ex2 : ParseAddr "2001:db8::1" = Some (Addr6 (0x20010db8 * 2 ^ 96 + 1) EmptyString).
Proof. by vm_compute. Qed.
Example ParseAddr_ex3 : ParseAddr "::ffff:1.2.3.4" = Some (Addr6 0xffff01020304 EmptyString).
Proof. by vm_compute. Qed.
Example ParseAddr_ex4 :
  (ParseAddr "1.2.3", ParseAddr "01.2.3.4", ParseAddr "1::2::3", ParseAddr "fe80::1%",
   ParseAddr "1:2:3:4:5:6:7:8::", ParseAddr "256.1.1.1", ParseAddr ":1::") =
  (None, None, None, None, None, None, None).
Proof. by vm_compute. Qed.
Example ParsePrefix_ex1 : Masked <$> ParsePrefix "10.1.2.3/24" = Some (mkPrefix (Addr4 0x0a010200) 24).
Proof. by vm_compute. Qed.
Example ParsePrefix_ex2 :
  (ParsePrefix "10.0.0.1/33", ParsePrefix "10.0.0.1/+8", ParsePrefix "10.0.0.1/08", ParsePrefix "fe80::1%a/64")
  = (None, None, None, None).
Proof. by vm_compute. Qed.

Lemma maskValue_idemp width bits v :
  bits ≤ width → maskValue width bits (maskValue width bits v) = maskValue width bits v.
Proof.
  intros Hb. unfold maskValue. rewrite Z.shiftr_shiftl_l by lia.
  by rewrite Z.sub_diag, Z.shiftl_0_r.
Qed.

Lemma parseBits_nonneg s bits : parseBits s = Some bits → 0 ≤ bits.
Proof.
  unfold parseBits. intros H. enough (∃ s', ParseUint s' 62 = Some bits) as [s' Hs]
    by (by apply ParseUint_range in Hs as [? _]).
  destruct s as [|a [|]]; [eauto..|]. case_decide; [done|eauto].
Qed.

(** The length of a parsed prefix is in range, and it has no zone. *)
Lemma ParsePrefix_range s p :
  ParsePrefix s = Some p →
  0 ≤ Prefix_Bits p ≤ BitLen (Prefix_Addr p) ∧
  (∀ v zone, Prefix_Addr p = Addr6 v zone → zone = EmptyString).
Proof.
  unfold ParsePrefix. destruct (CutLast s _) as [[a b]|]; [|done].
  destruct (ParseAddr a) as [ip|]; [|done].
  assert ((match parseBits b with
           | Some bits => if decide (bits ≤ BitLen ip) then Some (mkPrefix ip bits) else None
           | None => None end) = Some p → 0 ≤ Prefix_Bits p ≤ BitLen (Prefix_Addr p) ∧ Prefix_Addr p = ip)
    as Hgen.
  { destruct (parseBits b) as [bits|] eqn:Eb; [|done]. apply parseBits_nonneg in Eb.
    case_decide; intros [= <-]. done. }
  destruct ip as [v|v [|c z]]; [| |done]; intros [Hr Hip]%Hgen; (split; [done|]);
    rewrite Hip; naive_solver.
Qed.

Lemma Masked_idemp p :
  Prefix_Bits p ≤ BitLen (Prefix_Addr p) → Masked (Masked p) = Masked p.
Proof.
  destruct p as [[v|v z] bits]; cbn; intros Hb; unfold Masked; cbn; by rewrite maskValue_idemp.
Qed.

End NetIP.
Export NetIP.
