(* ===== verification/Net.v ===== *)
(** * The parts of Go's package net the config code uses

    [ParseIP], [ParseCIDR], the text of an address and of a network, and
    [SplitHostPort].  A [net.IP] is 16 bytes, held as their value: an IPv4
    address is IPv4-mapped, and [To4] tells it apart by its first 12 bytes. *)

From S2P Require Import Prelude GoStrings NetIP.
From Stdlib Require Import Ascii.

Module Net.

(** [netip.Addr.As16] and [net.IP.To4]. *)
Definition As16 (a : Addr) : Z :=
  match a with Addr4 v => 0xffff * 2 ^ 32 + v | Addr6 v _ => v end.

Definition To4 (ip : Z) : option Z :=
  if decide (Z.shiftr ip 32 = 0xffff) then Some (Z.land ip (Z.ones 32)) else None.

(** [netip.Addr.Zone]. *)
Definition Zone (a : Addr) : string := match a with Addr4 _ => EmptyString | Addr6 _ z => z end.

(** [ParseIP]: any address without a zone. *)
Definition ParseIP (s : string) : option Z :=
  match ParseAddr s with
  | Some a => if decide (Zone a = EmptyString) then Some (As16 a) else None
  | None => None
  end.

(** ** Text *)

Definition octet (v : Z) (i : Z) : Z := Z.land (Z.shiftr v (8 * (3 - i))) 255.
Definition dotted (v : Z) : string :=
  Join (Itoa ∘ octet v <$> [0; 1; 2; 3]) ".".

(** The eight 16-bit groups, and a group in lower-case hex. *)
Definition group (v : Z) (i : nat) : Z := Z.land (Z.shiftr v (16 * (7 - Z.of_nat i))) 0xffff.

Definition hexChar (d : Z) : ascii :=
  if decide (d < 10) then ascii_of_nat (Z.to_nat (48 + d)) else ascii_of_nat (Z.to_nat (87 + d)).
Definition hexDigits (g : Z) : list Z :=
  let d i := Z.land (Z.shiftr g (4 * i)) 15 in
  if decide (g < 16) then [d 0] else if decide (g < 256) then [d 1; d 0]
  else if decide (g < 4096) then [d 2; d 1; d 0] else [d 3; d 2; d 1; d 0].
Definition hexString (g : Z) : string :=
  foldr (λ d s, String (hexChar d) s) EmptyString (hexDigits g).

(** The run of zero groups that starts at [i], and the first longest run of
    at least two. *)
Fixpoint zeroRun (gs : list Z) : nat :=
  match gs with g :: gs' => if decide (g = 0) then S (zeroRun gs') else 0%nat | [] => 0%nat end.
Definition longestRun (gs : list Z) : nat * nat :=
  foldl (λ best i,
    let l := zeroRun (drop i gs) in
    if decide (2 ≤ l ∧ best.2 < l)%nat then (i, l) else best) (0, 0)%nat (seq 0 8).

Definition groups6 (v : Z) : list Z := group v <$> seq 0 8.
Definition colonHex (gs : list Z) : string := Join (hexString <$> gs) ":".
Definition text6 (v : Z) : string :=
  let gs := groups6 v in
  let '(start, l) := longestRun gs in
  if decide (l = 0%nat) then colonHex gs
  else colonHex (take start gs) +:+ "::" +:+ colonHex (drop (start + l) gs).

(** [net.IP.String]. *)
Definition IP_String (ip : Z) : string :=
  match To4 ip with Some v => dotted v | None => text6 ip end.

(** ** [ParseCIDR] *)

(** [net.IPNet]: the masked address, 4 or 16 bytes wide, and the mask. *)
Record IPNet := mkIPNet { Net_IP : Addr; Net_Ones : Z }.

(** [dtoi] over the whole string, for numbers no larger than a prefix length. *)
Definition parseMaskLen (s : string) (bitLen : Z) : option Z :=
  match s with
  | EmptyString => None
  | _ => match parse_digits s 0 with
         | Some n => if decide (n ≤ bitLen) then Some n else None
         | None => None
         end
  end.

Definition ParseCIDR (s : string) : option (Z * IPNet) :=
  match Cut s "/"%char with
  | None => None
  | Some (addr, mask) =>
      match ParseAddr addr with
      | None => None
      | Some a =>
          if decide (Zone a = EmptyString) then
            match parseMaskLen mask (BitLen a) with
            | Some n => Some (As16 a, mkIPNet (Prefix_Addr (Masked (mkPrefix a n))) n)
            | None => None
            end
          else None
      end
  end.

(** [ipNet.Mask.Size()]. *)
Definition Mask_Size (n : IPNet) : Z * Z := (Net_Ones n, BitLen (Net_IP n)).

(** [IPNet.String]: an IPv4-mapped network is printed as IPv4. *)
Definition IPNet_String (n : IPNet) : string :=
  match Net_IP n with
  | Addr4 v => dotted v +:+ "/" +:+ Itoa (Net_Ones n)
  | Addr6 v _ =>
      match To4 v with
      | Some v4 => dotted v4 +:+ "/" +:+ Itoa (Net_Ones n - 96)
      | None => text6 v +:+ "/" +:+ Itoa (Net_Ones n)
      end
  end.

(** ** [SplitHostPort], whether it succeeds *)
Definition contains (s : string) (c : ascii) : bool := bool_decide (is_Some (Cut s c)).

Definition SplitHostPort (hostport : string) : option (string * string) :=
  match CutLast hostport ":"%char with
  | None => None
  | Some (before, port) =>
      match hostport with
      | String "[" rest =>
          match Cut rest "]"%char with
          | None => None
          | Some (host, after) =>
              (** The colon after the bracket must be the last one. *)
              if decide (after = String ":" port) then
                if contains rest "["%char || contains after "]"%char then None else Some (host, port)
              else None
          end
      | _ =>
          if contains before ":"%char || contains hostport "["%char || contains hostport "]"%char
          then None else Some (before, port)
      end
  end.

Example IP_String_ex :
  (IP_String 0xffff0a000001, text6 (0x20010db8 * 2 ^ 96 + 1), text6 0, text6 (2 ^ 112 + 2 ^ 32),
   IP_String (0xfe80 * 2 ^ 112 + 0x1234)) =
  ("10.0.0.1", "2001:db8::1", "::", "1::1:0:0", "fe80::1234").
Proof. by vm_compute. Qed.
Example ParseCIDR_ex :
  (IPNet_String ∘ snd <$> ParseCIDR "10.1.2.3/24", IPNet_String ∘ snd <$> ParseCIDR "::ffff:10.0.0.1/128",
   IPNet_String ∘ snd <$> ParseCIDR "2001:db8::1/32", IPNet_String ∘ snd <$> ParseCIDR "10.0.0.1/032") =
  (Some "10.1.2.0/24", Some "10.0.0.1/32", Some "2001:db8::/32", Some "10.0.0.1/32").
Proof. by vm_compute. Qed.
Example ParseCIDR_ex2 :
  (fst <$> ParseCIDR "10.0.0.1", fst <$> ParseCIDR "10.0.0.1/", fst <$> ParseCIDR "10.0.0.1/33",
   fst <$> ParseCIDR "10.0.0.1/+8", fst <$> ParseCIDR "10.0.0.1/8/8") = (None, None, None, None, None).
Proof. by vm_compute. Qed.
Example SplitHostPort_ex :
  (SplitHostPort "127.0.0.1:50051", SplitHostPort "[::1]:80", SplitHostPort ":80", SplitHostPort "a:b:c",
   SplitHostPort "[::1]", SplitHostPort "host", SplitHostPort "[a]b:1") =
  (Some ("127.0.0.1", "50051"), Some ("::1", "80"), Some (EmptyString, "80"), None, None, None, None).
Proof. by vm_compute. Qed.

End Net.
Export Net.
