(* ===== verification/Defaults.v ===== *)
(** * Filling in the config: internal/config/defaults.go

    [ApplyDefaults] updates the config in place; here every function returns
    the updated value.  [net/url.Parse], [net.LookupPort], [regexp.Compile]
    and the jq parser, which is third-party, are not part of the repository and
    are parameters: the class [GoStd] (the last two are used by the
    validation).  Iteration over a header map follows [map_to_list]. *)

From S2P Require Import Prelude GoStrings NetIP Net Config.
From Stdlib Require Import Ascii.

Module Defaults.

(** What the code reads of a parsed URL. *)
Record URL := mkURL {
  URL_Scheme : string;
  URL_Host : string;
  URL_Hostname : string;
  URL_Port : string;
  URL_RequestURI : string }.

Class GoStd := {
  urlParse : string → option URL;
  LookupPort : string → option Z;
  regexpCompiles : string → bool;
  jqParses : string → bool }.

Definition second : Z := 1000000000.
Definition millisecond : Z := 1000000.

Definition DefaultGoBGPAPIListen : string := "127.0.0.1:50051".

(** [if x == "" { x = d }], and the same for 0 and nil. *)
Definition orString (x d : string) : string := if decide (x = EmptyString) then d else x.
Definition orZ (x d : Z) : Z := if decide (x = 0) then d else x.
Definition orNil {A} (x : option A) (d : A) : option A := Some (default d x).

(** [for i := range s { f(&s[i]) }]. *)
Definition slice_map {A} (f : A → A) (s : slice A) : slice A := option_map (map f) s.

(** [http.CanonicalHeaderKey]: a key with a byte that is no token is left
    alone. *)
Definition validHeaderFieldByte (a : ascii) : bool :=
  is_upper a || is_lower a || is_digit a ||
  bool_decide (is_Some (Cut "!#$%&'*+-.^_`|~" a)).

Fixpoint canonicalKey (upper : bool) (s : string) : string :=
  match s with
  | EmptyString => EmptyString
  | String a s' =>
      let c := if upper then upper_ascii a else lower_ascii a in
      String c (canonicalKey (bool_decide (c = "-"%char)) s')
  end.

Definition CanonicalHeaderKey (s : string) : string :=
  if all_chars validHeaderFieldByte s then canonicalKey true s else s.

(** [vipHostIP]. *)
Definition vipHostIP (prefix : string) : string :=
  match ParseCIDR prefix with
  | None => EmptyString
  | Some (ip, ipNet) =>
      let '(ones, bits) := Mask_Size ipNet in
      if decide ((bits = 32 ∧ ones = 32) ∨ (bits = 128 ∧ ones = 128)) then IP_String ip
      else EmptyString
  end.

(** ** Per check type *)

Definition applySQLDefaults (s : SQLCheckConfig) (vipPrefix : string) : SQLCheckConfig :=
  mkSQLCheckConfig (SQL_Driver s)
    (orString (SQL_Host s) (vipHostIP vipPrefix))
    (orZ (SQL_Port s)
       (if decide (SQL_Driver s = SQLDriverMySQL) then 3306
        else if decide (SQL_Driver s = SQLDriverPostgres) then 5432 else 0))
    (SQL_User s) (SQL_Password s) (SQL_Database s) (SQL_TLS s) (SQL_TLSInsecure s) (SQL_TLSCACert s)
    (SQL_TLSServerName s) (SQL_KeepAlive s)
    (match elems (SQL_Queries s) with
     | [] => Some [mkSQLQueryConfig EmptyString "SELECT 1" EmptyString]
     | _ => SQL_Queries s
     end)
    (orZ (SQL_MaxRows s) 100).

Definition applyKafkaDefaults (k : KafkaCheckConfig) (vipPrefix : string) : KafkaCheckConfig :=
  mkKafkaCheckConfig (orString (Kafka_Host k) (vipHostIP vipPrefix)) (orZ (Kafka_Port k) 9092)
    (orString (Kafka_ClientID k) "pathosd") (Kafka_TLS k) (Kafka_TLSInsecure k) (Kafka_TLSCACert k)
    (Kafka_TLSServerName k) (Kafka_SASL k) (Kafka_Topic k) (orZ (Kafka_MinBrokers k) 1).

Definition applyDNSDefaults (d : DNSCheckConfig) (vipPrefix : string) : DNSCheckConfig :=
  mkDNSCheckConfig (DNS_Names d) (orString (DNS_Resolver d) (vipHostIP vipPrefix)) (orZ (DNS_Port d) 53)
    (orString (ToUpper (DNS_QueryType d)) "A").

Definition applyUDPDefaults (u : UDPCheckConfig) (vipPrefix : string) : UDPCheckConfig :=
  mkUDPCheckConfig (orString (UDP_Host u) (vipHostIP vipPrefix)) (UDP_Port u)
    (orString (UDP_Payload u) (String "000" EmptyString)).

Section HTTP.
Context `{GoStd}.

Definition canonicalHeaders (h : gmap string string) : gmap string string :=
  foldl (λ m e, <[CanonicalHeaderKey e.1 := e.2]> m) ∅ (map_to_list h).

(** A header that is not set gets a value. *)
Definition orHeader (k v : string) (h : gmap string string) : gmap string string :=
  match h !! k with Some _ => h | None => <[k := v]> h end.

(** What a full URL says: the proto, the port, the headers, the hostname that
    is no address, and the path that is left of the URL. *)
Definition fromURL (h : HTTPCheckConfig) (url : string) (headers : gmap string string)
    : string * Z * gmap string string * string * string :=
  match urlParse url with
  | Some u =>
      if decide (URL_Scheme u = EmptyString) then (HTTP_Proto h, HTTP_Port h, headers, EmptyString, url)
      else
        (orString (HTTP_Proto h) (URL_Scheme u),
         (if decide (HTTP_Port h = 0 ∧ URL_Port u ≠ EmptyString)
          then default 0 (LookupPort (URL_Port u)) else HTTP_Port h),
         (if decide (URL_Hostname u = EmptyString) then headers else orHeader "Host" (URL_Host u) headers),
         (if decide (URL_Hostname u ≠ EmptyString ∧ ParseIP (URL_Hostname u) = None)
          then URL_Hostname u else EmptyString),
         orString (URL_RequestURI u) "/")
  | None => (HTTP_Proto h, HTTP_Port h, headers, EmptyString, url)
  end.

Definition applyHTTPDefaults (h : HTTPCheckConfig) (vipPrefix : string) : HTTPCheckConfig :=
  let '(proto, port, headers, urlHostname, url) :=
    fromURL h (orString (HTTP_URL h) "/") (canonicalHeaders (entries (HTTP_Headers h))) in
  let proto := orString proto "http" in
  let host :=
    if decide (HTTP_Proxy h ≠ EmptyString ∧ HTTP_Host h = EmptyString ∧ urlHostname ≠ EmptyString)
    then urlHostname else HTTP_Host h in
  let host := orString host (vipHostIP vipPrefix) in
  let tlsServerName :=
    if decide (HTTP_Proxy h = EmptyString ∧ HTTP_TLSServerName h = EmptyString ∧
               urlHostname ≠ EmptyString ∧ proto = "https" ∧ host ≠ urlHostname)
    then urlHostname else HTTP_TLSServerName h in
  let port := orZ port (if decide (proto = "https") then 443 else 80) in
  let headers := orHeader "User-Agent" "pathosd-check/1.0" headers in
  let headers := if decide (HTTP_ResponseJQ h = EmptyString) then headers
                 else orHeader "Accept" "application/json" headers in
  mkHTTPCheckConfig url proto host port (orString (HTTP_Method h) "GET")
    (match elems (HTTP_ResponseCodes h) with [] => Some [200] | _ => HTTP_ResponseCodes h end)
    (HTTP_ResponseText h) (HTTP_ResponseRegex h) (HTTP_ResponseJQ h) (HTTP_TLSInsecure h)
    (HTTP_TLSCACert h) tlsServerName (HTTP_Proxy h) (Some headers) (HTTP_KeepAlive h).

(** ** A check *)

Definition zeroHTTP : HTTPCheckConfig :=
  mkHTTPCheckConfig EmptyString EmptyString EmptyString 0 EmptyString None EmptyString EmptyString
    EmptyString false EmptyString EmptyString EmptyString None false.
Definition zeroDNS : DNSCheckConfig := mkDNSCheckConfig None EmptyString 0 EmptyString.
Definition zeroPing : PingCheckConfig :=
  mkPingCheckConfig EmptyString EmptyString false 0 None None (SpecFloat.S754_zero false).
Definition zeroUDP : UDPCheckConfig := mkUDPCheckConfig EmptyString 0 EmptyString.
Definition zeroTCP : TCPCheckConfig := mkTCPCheckConfig EmptyString 0.
Definition zeroListen : ListenCheckConfig := mkListenCheckConfig EmptyString 0 EmptyString 0 EmptyString.
Definition zeroSQL : SQLCheckConfig :=
  mkSQLCheckConfig EmptyString EmptyString 0 EmptyString EmptyString EmptyString false false EmptyString
    EmptyString false None 0.
Definition zeroKafka : KafkaCheckConfig :=
  mkKafkaCheckConfig EmptyString 0 EmptyString false false EmptyString EmptyString None EmptyString 0.
Definition zeroGRPC : GRPCCheckConfig :=
  mkGRPCCheckConfig EmptyString 0 false false EmptyString EmptyString EmptyString EmptyString None None.

Definition applyPingDefaults (p : PingCheckConfig) (vipPrefix : string) : PingCheckConfig :=
  mkPingCheckConfig (orString (Ping_DstIP p) (vipHostIP vipPrefix)) (Ping_SrcIP p) (Ping_Privileged p)
    (orZ (Ping_Count p) 1) (Ping_Timeout p) (Ping_Interval p) (Ping_MaxLossRatio p).
Definition applyListenDefaults (l : ListenCheckConfig) (vipPrefix : string) : ListenCheckConfig :=
  mkListenCheckConfig (Listen_Proto l) (Listen_Port l) (orString (Listen_Host l) (vipHostIP vipPrefix))
    (Listen_NetnsPID l) (Listen_Procfs l).
Definition applyTCPDefaults (t : TCPCheckConfig) (vipPrefix : string) : TCPCheckConfig :=
  mkTCPCheckConfig (orString (TCP_Host t) (vipHostIP vipPrefix)) (TCP_Port t).
Definition applyGRPCDefaults (g : GRPCCheckConfig) (vipPrefix : string) : GRPCCheckConfig :=
  mkGRPCCheckConfig (orString (GRPC_Host g) (vipHostIP vipPrefix)) (GRPC_Port g) (GRPC_TLS g)
    (GRPC_TLSInsecure g) (GRPC_TLSCACert g) (GRPC_TLSServerName g) (GRPC_Method g) (GRPC_Service g)
    (GRPC_OKCodes g) (GRPC_Metadata g).

(** The block of a check of the given type: made if missing, then filled in. *)
Definition block {A} (typ : string) (c : CheckConfig) (zero : A) (f : A → string → A) (b : option A)
    (vipPrefix : string) : option A :=
  if decide (Check_Type c = typ) then Some (f (default zero b) vipPrefix) else b.

Definition applyCheckDefaults (c : CheckConfig) (vipPrefix : string) : CheckConfig :=
  mkCheckConfig (Check_Name c) (Check_Type c) (Check_DetailedMetrics c)
    (orNil (Check_Interval c) (1 * second)) (orNil (Check_Timeout c) (100 * millisecond))
    (orNil (Check_Rise c) 1) (orNil (Check_Fall c) 3)
    (block CheckTypeHTTP c zeroHTTP applyHTTPDefaults (Check_HTTP c) vipPrefix)
    (block CheckTypeDNS c zeroDNS applyDNSDefaults (Check_DNS c) vipPrefix)
    (block CheckTypePing c zeroPing applyPingDefaults (Check_Ping c) vipPrefix)
    (block CheckTypeUDP c zeroUDP applyUDPDefaults (Check_UDP c) vipPrefix)
    (block CheckTypeTCP c zeroTCP applyTCPDefaults (Check_TCP c) vipPrefix)
    (block CheckTypeListen c zeroListen applyListenDefaults (Check_Listen c) vipPrefix)
    (block CheckTypeSQL c zeroSQL applySQLDefaults (Check_SQL c) vipPrefix)
    (block CheckTypeKafka c zeroKafka applyKafkaDefaults (Check_Kafka c) vipPrefix)
    (block CheckTypeGRPC c zeroGRPC applyGRPCDefaults (Check_GRPC c) vipPrefix).

(** [if c.Listen != nil && c.Listen.Procfs == ""]. *)
Definition listenProcfs (procfs : string) (c : CheckConfig) : CheckConfig :=
  mkCheckConfig (Check_Name c) (Check_Type c) (Check_DetailedMetrics c) (Check_Interval c)
    (Check_Timeout c) (Check_Rise c) (Check_Fall c) (Check_HTTP c) (Check_DNS c) (Check_Ping c)
    (Check_UDP c) (Check_TCP c)
    ((λ l, mkListenCheckConfig (Listen_Proto l) (Listen_Port l) (Listen_Host l) (Listen_NetnsPID l)
             (orString (Listen_Procfs l) procfs)) <$> Check_Listen c)
    (Check_SQL c) (Check_Kafka c) (Check_GRPC c).

(** ** The sections *)

Definition applyPolicyDefaults (p : PolicyConfig) : PolicyConfig :=
  let lower := default (mkLowerPriorityConfig None None) (Policy_LowerPriority p) in
  let announce := default (mkAnnounceConfig None None) (Policy_Announce p) in
  mkPolicyConfig (orString (Policy_FailAction p) "lower_priority") (Policy_LowerPriorityFile p)
    (Some (mkAnnounceConfig (orNil (Announce_ASPathPrepend announce) 0) (Announce_Communities announce)))
    (Some (mkLowerPriorityConfig (orNil (LowerPriority_ASPathPrepend lower) 6)
             (LowerPriority_Communities lower))).

Definition applyPathsDefaults (p : PathsConfig) : PathsConfig :=
  mkPathsConfig (orString (Paths_Procfs p) "/proc").

Definition applySignalDefaults (s : OTelSignalConfig) : OTelSignalConfig :=
  mkOTelSignalConfig (Sig_Endpoint s) (orNil (Sig_Enabled s) true) (Sig_Insecure s) (Sig_Headers s).

Definition applyOTelDefaults (o : OTelConfig) : OTelConfig :=
  mkOTelConfig (orNil (OTel_Enabled o) true) (OTel_Endpoint o) (OTel_Insecure o) (OTel_Headers o)
    (orString (OTel_ServiceName o) "pathosd") (applySignalDefaults (OTel_Traces o))
    (applySignalDefaults (OTel_Metrics o)) (applySignalDefaults (OTel_Logs o)).

Definition applyNeighborDefaults (n : NeighborConfig) : NeighborConfig :=
  mkNeighborConfig (Neighbor_Name n) (Neighbor_Address n) (Neighbor_PeerASN n)
    (orNil (Neighbor_Required n) true) (orZ (Neighbor_Port n) 179) (Neighbor_LocalAddress n)
    (Neighbor_Passive n) (Neighbor_EnableMultihop n) (Neighbor_MultihopTTL n) (Neighbor_BFD n)
    (Neighbor_AuthPassword n).

Definition applyBGPDefaults (b : BGPConfig) : BGPConfig :=
  mkBGPConfig (orNil (BGP_GracefulRestart b) true) (BGP_HoldTime b) (BGP_KeepaliveTime b)
    (BGP_ListenAddress b) (orZ (BGP_ListenPort b) 179)
    (mkGoBGPAPIConfig (GoBGPAPI_Enabled (BGP_GoBGPAPI b))
       (if GoBGPAPI_Enabled (BGP_GoBGPAPI b)
        then orString (GoBGPAPI_Listen (BGP_GoBGPAPI b)) DefaultGoBGPAPIListen
        else GoBGPAPI_Listen (BGP_GoBGPAPI b)))
    (slice_map applyNeighborDefaults (BGP_Neighbors b)).

Definition applyAPIDefaults (a : APIConfig) : APIConfig :=
  mkAPIConfig (orString (API_Listen a) ":59179") (orNil (API_ReadHeaderTimeout a) (10 * second))
    (orNil (API_ReadTimeout a) (30 * second)) (orNil (API_WriteTimeout a) (60 * second))
    (orNil (API_IdleTimeout a) (120 * second)).

Definition applyLoggingDefaults (l : LoggingConfig) : LoggingConfig :=
  mkLoggingConfig (orString (Logging_Level l) "info") (orString (Logging_Format l) "text")
    (Logging_OTelLevel l) (Logging_Timestamps l).

(** The loop over the VIPs; a VIP without any check is left alone. *)
Definition applyVIPDefaults (procfs : string) (v : VIPConfig) : VIPConfig :=
  let fill c := listenProcfs procfs (applyCheckDefaults c (VIP_Prefix v)) in
  let rest check checks :=
    mkVIPConfig (VIP_Name v) (VIP_Prefix v) check checks
      (orString (VIP_ChecksPolicy v) ChecksPolicyAll) (applyPolicyDefaults (VIP_Policy v))
      (VIP_RequireLocalAddress v) (VIP_LocalInterface v) in
  match elems (VIP_Checks v) with
  | [] => if decide (Check_Type (VIP_Check v) = EmptyString) then v
          else rest (fill (VIP_Check v)) (VIP_Checks v)
  | l => rest (VIP_Check v) (Some (fill <$> l))
  end.

(** [ApplyDefaults]. *)
Definition ApplyDefaults (cfg : Config) : Config :=
  let paths := applyPathsDefaults (Cfg_Paths cfg) in
  mkConfig (Cfg_Schema cfg) (Cfg_Router cfg) (applyAPIDefaults (Cfg_API cfg))
    (applyLoggingDefaults (Cfg_Logging cfg)) (applyOTelDefaults (Cfg_OTel cfg)) paths
    (applyBGPDefaults (Cfg_BGP cfg))
    (slice_map (applyVIPDefaults (Paths_Procfs paths)) (Cfg_VIPs cfg)).

End HTTP.
End Defaults.
Export Defaults.
