(* ===== verification/Validate.v ===== *)
(** * Validating the config: internal/config/validate.go

    Every function returns the list of errors in the order the code appends
    them; [add] makes one, its format prefixed by the path of the field.  A
    duration is given in nanoseconds, a float is left out of the arguments.
    The loops that remember what they have seen pass the maps along: [scan].
    [regexp], [net/url] and the jq parser come with the class [GoStd], the
    compiler of expression policies with [ExprLang]. *)

From S2P Require Import Prelude GoStrings NetIP Net Config Model ChecksPolicy Defaults.
From Stdlib Require Import Ascii SpecFloat.

Module Validate.

Definition add (path msg : string) (args : list string) : list error :=
  [Errorf (path +:+ ": " +:+ msg) args].
(** [add(path, err.Error())]. *)
Definition addErr (path : string) (e : error) : list error := [Wrapf "%s: %w" [path] e].
Definition when (b : bool) (e : list error) : list error := if b then e else [].

Definition isEmpty (s : string) : bool := bool_decide (s = EmptyString).
Definition isSet (s : string) : bool := negb (isEmpty s).
Definition isNil {A} (x : option A) : bool := match x with None => true | Some _ => false end.

(** [for i, a := range l { ... }] with state: the maps and the errors. *)
Fixpoint scan {A S} (step : nat → A → S → S * list error) (i : nat) (l : list A) (s : S)
    : S * list error :=
  match l with
  | [] => (s, [])
  | a :: l' =>
      let '(s1, e1) := step i a s in
      let '(s2, e2) := scan step (Datatypes.S i) l' s1 in
      (s2, e1 ++ e2)
  end.

(** [fmt.Sprintf("%s[%d]", path, i)]. *)
Definition at_ (path : string) (i : nat) : string := path +:+ "[" +:+ Itoa (Z.of_nat i) +:+ "]".

Definition maxTCPMD5KeyLen : Z := 80.

Definition validIP (s : string) : bool := bool_decide (is_Some (ParseIP s)).

(** [isSingleHost] and [hasIPv6VIP]. *)
Definition isSingleHost (prefix : string) : bool :=
  match ParseCIDR prefix with
  | None => false
  | Some (_, ipNet) =>
      let '(ones, bits) := Mask_Size ipNet in
      bool_decide ((bits = 32 ∧ ones = 32) ∨ (bits = 128 ∧ ones = 128))
  end.

Definition hasIPv6VIP (cfg : Config) : bool :=
  existsb (λ v, match ParseCIDR (VIP_Prefix v) with
                | Some (ip, _) => isNil (To4 ip)
                | None => false
                end) (elems (Cfg_VIPs cfg)).

(** ** The check types *)

Definition validateKafkaCheck (prefix : string) (k : KafkaCheckConfig) (vipPrefix : string) : list error :=
  when (isEmpty (Kafka_Host k) && negb (isSingleHost vipPrefix))
    (add (prefix +:+ ".host") "required when VIP prefix is not /32 or /128" []) ++
  when (Kafka_MinBrokers k <? 0) (add (prefix +:+ ".min_brokers") "must be >= 1" []) ++
  when (negb (Kafka_TLS k))
    (when (Kafka_TLSInsecure k) (add (prefix +:+ ".tls_insecure") "requires tls: true" []) ++
     when (isSet (Kafka_TLSCACert k)) (add (prefix +:+ ".tls_ca_cert") "requires tls: true" []) ++
     when (isSet (Kafka_TLSServerName k)) (add (prefix +:+ ".tls_server_name") "requires tls: true" [])) ++
  when (Kafka_TLSInsecure k && isSet (Kafka_TLSCACert k))
    (add (prefix +:+ ".tls_insecure") "mutually exclusive with tls_ca_cert" []) ++
  match Kafka_SASL k with
  | None => []
  | Some s =>
      (if mem (SASL_Mechanism s) [KafkaSASLPlain; KafkaSASLScramSHA256; KafkaSASLScramSHA512] then []
       else if isEmpty (SASL_Mechanism s)
       then add (prefix +:+ ".sasl.mechanism") "required (plain, scram-sha-256 or scram-sha-512)" []
       else add (prefix +:+ ".sasl.mechanism") "must be plain, scram-sha-256 or scram-sha-512, got %q"
              [SASL_Mechanism s]) ++
      when (isEmpty (SASL_User s)) (add (prefix +:+ ".sasl.user") "required" []) ++
      when (isEmpty (SASL_Password s)) (add (prefix +:+ ".sasl.password") "required" [])
  end.

Section Std.
Context `{GoStd}.

(** [strings.TrimSpace(s) == ""] on ASCII. *)
Definition blank (s : string) : bool := all_chars is_space s.

(** One round of the loop over the queries, which remembers the index of
    every name. *)
Definition validateQuery (prefix : string) (i : nat) (q : SQLQueryConfig) (names : gmap string nat)
    : gmap string nat * list error :=
  let qp := at_ (prefix +:+ ".queries") i in
  let e1 := when (blank (Query_SQL q)) (add (qp +:+ ".sql") "required" []) in
  let name := Query_EffectiveName q (Z.of_nat i) in
  let '(names, e2) :=
    match names !! name with
    | Some j =>
        (names, add (qp +:+ ".name") "duplicate query name %q (also %s.queries[%d])"
                  [name; prefix; Itoa (Z.of_nat j)])
    | None => (<[name := i]> names, [])
    end in
  let e3 := when (isSet (Query_ResultJQ q) && negb (jqParses (Query_ResultJQ q)))
              (add (qp +:+ ".result_jq") "invalid jq expression: %v" []) in
  (names, e1 ++ e2 ++ e3).

Definition validateSQLCheck (prefix : string) (s : SQLCheckConfig) (vipPrefix : string) : list error :=
  (if mem (SQL_Driver s) [SQLDriverMySQL; SQLDriverPostgres] then []
   else if isEmpty (SQL_Driver s) then add (prefix +:+ ".driver") "required (mysql or postgres)" []
   else add (prefix +:+ ".driver") "must be mysql or postgres, got %q" [SQL_Driver s]) ++
  when (isEmpty (SQL_User s)) (add (prefix +:+ ".user") "required" []) ++
  when (isEmpty (SQL_Host s) && negb (isSingleHost vipPrefix))
    (add (prefix +:+ ".host") "required when VIP prefix is not /32 or /128" []) ++
  when (SQL_MaxRows s <? 0) (add (prefix +:+ ".max_rows") "must be >= 1" []) ++
  when (negb (SQL_TLS s))
    (when (SQL_TLSInsecure s) (add (prefix +:+ ".tls_insecure") "requires tls: true" []) ++
     when (isSet (SQL_TLSCACert s)) (add (prefix +:+ ".tls_ca_cert") "requires tls: true" []) ++
     when (isSet (SQL_TLSServerName s)) (add (prefix +:+ ".tls_server_name") "requires tls: true" [])) ++
  when (SQL_TLSInsecure s && isSet (SQL_TLSCACert s))
    (add (prefix +:+ ".tls_insecure") "mutually exclusive with tls_ca_cert" []) ++
  (scan (validateQuery prefix) 0 (elems (SQL_Queries s)) ∅).2.

Definition noBody : string := "cannot be used with method HEAD (no response body)".

Definition validateHTTPCheck (prefix : string) (h : HTTPCheckConfig) (vipPrefix : string) : list error :=
  when (isSet (HTTP_Proto h) && negb (mem (HTTP_Proto h) ["http"; "https"]))
    (add (prefix +:+ ".proto") "must be http or https, got %q" [HTTP_Proto h]) ++
  (if decide (HTTP_Method h = "GET") then []
   else if decide (HTTP_Method h = "HEAD") then
     when (isSet (HTTP_ResponseText h)) (add (prefix +:+ ".response_text") noBody []) ++
     when (isSet (HTTP_ResponseRegex h)) (add (prefix +:+ ".response_regex") noBody []) ++
     when (isSet (HTTP_ResponseJQ h)) (add (prefix +:+ ".response_jq") noBody [])
   else add (prefix +:+ ".method") "must be GET or HEAD, got %q" [HTTP_Method h]) ++
  when (isEmpty (HTTP_Host h) && negb (isSingleHost vipPrefix))
    (add (prefix +:+ ".host") "required when VIP prefix is not /32 or /128" []) ++
  when (isSet (HTTP_ResponseRegex h) && negb (regexpCompiles (HTTP_ResponseRegex h)))
    (add (prefix +:+ ".response_regex") "invalid regex: %v" []) ++
  when (isSet (HTTP_TLSCACert h) && HTTP_TLSInsecure h)
    (add (prefix +:+ ".tls_ca_cert") "cannot be set together with tls_insecure" []) ++
  when (isSet (HTTP_Proxy h))
    (when (match urlParse (HTTP_Proxy h) with
           | None => true
           | Some u => negb (mem (URL_Scheme u) ["http"; "https"]) || isEmpty (URL_Host u)
           end)
       (add (prefix +:+ ".proxy") "must be a valid http:// or https:// proxy URL, got %q" [HTTP_Proxy h]) ++
     when (isEmpty (HTTP_Host h) || validIP (HTTP_Host h))
       (add (prefix +:+ ".proxy") "requires a full url with a hostname origin (the proxy fetch target)" [])).

(** [validGRPCCodeNames] and [strings.ReplaceAll(name, "_", "")]. *)
Definition validGRPCCodeNames : list string :=
  ["ok"; "canceled"; "unknown"; "invalidargument"; "deadlineexceeded"; "notfound"; "alreadyexists";
   "permissiondenied"; "resourceexhausted"; "failedprecondition"; "aborted"; "outofrange"; "unimplemented";
   "internal"; "unavailable"; "dataloss"; "unauthenticated"].

Fixpoint dropChar (c : ascii) (s : string) : string :=
  match s with
  | EmptyString => EmptyString
  | String a s' => if decide (a = c) then dropChar c s' else String a (dropChar c s')
  end.

Definition validateGRPCCheck (prefix : string) (g : GRPCCheckConfig) (vipPrefix : string) : list error :=
  when (GRPC_Port g =? 0) (add (prefix +:+ ".port") "required" []) ++
  when (isEmpty (GRPC_Host g) && negb (isSingleHost vipPrefix))
    (add (prefix +:+ ".host") "required when vip prefix is not a /32 or /128" []) ++
  (if negb (GRPC_TLS g) then
     when (GRPC_TLSInsecure g) (add (prefix +:+ ".tls_insecure") "requires tls=true" []) ++
     when (isSet (GRPC_TLSCACert g)) (add (prefix +:+ ".tls_ca_cert") "requires tls=true" []) ++
     when (isSet (GRPC_TLSServerName g)) (add (prefix +:+ ".tls_server_name") "requires tls=true" [])
   else
     when (GRPC_TLSInsecure g && isSet (GRPC_TLSCACert g))
       (add (prefix +:+ ".tls_ca_cert") "cannot be set together with tls_insecure" [])) ++
  concat ((λ name,
    when (negb (mem (ToLower (dropChar "_"%char name)) validGRPCCodeNames))
      (add (prefix +:+ ".ok_codes") "unknown gRPC status code %q" [name])) <$> elems (GRPC_OKCodes g)).

Definition validQTypes : list string := ["A"; "AAAA"; "CNAME"; "PTR"; "NS"; "MX"; "SOA"; "TXT"; "SRV"].

(** 1.0 as a [float64]. *)
Definition float_one : float64 := S754_finite false 4503599627370496 (-52).
Definition float_zero : float64 := S754_zero false.

Definition hostRequired : string := "required when vip prefix is not a /32 or /128".

(** The cases of [validateCheck] written in line. *)
Definition validateDNS (prefix : string) (d : DNSCheckConfig) : list error :=
  when (bool_decide (elems (DNS_Names d) = []))
    (add (prefix +:+ ".dns.names") "at least one DNS name is required" []) ++
  when (negb (mem (ToUpper (DNS_QueryType d)) validQTypes))
    (add (prefix +:+ ".dns.query_type") "unsupported query type %q" [DNS_QueryType d]).

Definition validatePing (prefix : string) (p : PingCheckConfig) (vipPrefix : string) : list error :=
  (if isEmpty (Ping_DstIP p) then
     when (negb (isSingleHost vipPrefix)) (add (prefix +:+ ".ping.dst_ip") hostRequired [])
   else when (negb (validIP (Ping_DstIP p)))
          (add (prefix +:+ ".ping.dst_ip") "must be a valid IP address, got %q" [Ping_DstIP p])) ++
  when (isSet (Ping_SrcIP p) && negb (validIP (Ping_SrcIP p)))
    (add (prefix +:+ ".ping.src_ip") "must be a valid IP address, got %q" [Ping_SrcIP p]) ++
  when ((Ping_Count p <? 1) || (60 <? Ping_Count p))
    (add (prefix +:+ ".ping.count") "must be 1..60, got %d" [Itoa (Ping_Count p)]) ++
  when (SFltb (Ping_MaxLossRatio p) float_zero || SFleb float_one (Ping_MaxLossRatio p))
    (add (prefix +:+ ".ping.max_loss_ratio") "must be 0 <= x < 1.0, got %f" []).

Definition validateUDP (prefix : string) (u : UDPCheckConfig) (vipPrefix : string) : list error :=
  when (UDP_Port u =? 0) (add (prefix +:+ ".udp.port") "required" []) ++
  when (isEmpty (UDP_Host u) && negb (isSingleHost vipPrefix)) (add (prefix +:+ ".udp.host") hostRequired []).

Definition validateTCP (prefix : string) (t : TCPCheckConfig) (vipPrefix : string) : list error :=
  when (TCP_Port t =? 0) (add (prefix +:+ ".tcp.port") "required" []) ++
  when (isEmpty (TCP_Host t) && negb (isSingleHost vipPrefix)) (add (prefix +:+ ".tcp.host") hostRequired []).

Definition validateListen (prefix : string) (l : ListenCheckConfig) (vipPrefix : string) : list error :=
  when (negb (mem (Listen_Proto l) ["tcp"; "udp"]))
    (add (prefix +:+ ".listen.proto") "must be tcp or udp, got %q" [Listen_Proto l]) ++
  when (Listen_Port l =? 0) (add (prefix +:+ ".listen.port") "required" []) ++
  when (isEmpty (Listen_Host l) && negb (isSingleHost vipPrefix))
    (add (prefix +:+ ".listen.host") hostRequired []) ++
  when (isSet (Listen_Host l) && isNil (ParseAddr (Listen_Host l)))
    (add (prefix +:+ ".listen.host") "must be an IP address (no DNS names)" []) ++
  when (Listen_NetnsPID l <? 0) (add (prefix +:+ ".listen.netns_pid") "must be >= 0" []).

(** The block of the check's type, which must be there. *)
Definition withBlock {A} (path typ : string) (b : option A) (f : A → list error) : list error :=
  match b with
  | None => add path ("required when type is " +:+ inQuotes typ) []
  | Some x => f x
  end.

(** [validateCheck]. *)
Definition validateCheck (prefix : string) (c : CheckConfig) (vipPrefix : string) : list error :=
  if decide (Check_Type c = CheckTypeHTTP) then
    withBlock (prefix +:+ ".http") "http" (Check_HTTP c)
      (λ h, validateHTTPCheck (prefix +:+ ".http") h vipPrefix)
  else if decide (Check_Type c = CheckTypeDNS) then
    withBlock (prefix +:+ ".dns") "dns" (Check_DNS c) (validateDNS prefix)
  else if decide (Check_Type c = CheckTypePing) then
    withBlock (prefix +:+ ".ping") "ping" (Check_Ping c) (λ p, validatePing prefix p vipPrefix)
  else if decide (Check_Type c = CheckTypeUDP) then
    withBlock (prefix +:+ ".udp") "udp" (Check_UDP c) (λ u, validateUDP prefix u vipPrefix)
  else if decide (Check_Type c = CheckTypeListen) then
    withBlock (prefix +:+ ".listen") "listen" (Check_Listen c) (λ l, validateListen prefix l vipPrefix)
  else if decide (Check_Type c = CheckTypeTCP) then
    withBlock (prefix +:+ ".tcp") "tcp" (Check_TCP c) (λ t, validateTCP prefix t vipPrefix)
  else if decide (Check_Type c = CheckTypeSQL) then
    withBlock (prefix +:+ ".sql") "sql" (Check_SQL c)
      (λ s, validateSQLCheck (prefix +:+ ".sql") s vipPrefix)
  else if decide (Check_Type c = CheckTypeKafka) then
    withBlock (prefix +:+ ".kafka") "kafka" (Check_Kafka c)
      (λ k, validateKafkaCheck (prefix +:+ ".kafka") k vipPrefix)
  else if decide (Check_Type c = CheckTypeGRPC) then
    withBlock (prefix +:+ ".grpc") "grpc" (Check_GRPC c)
      (λ g, validateGRPCCheck (prefix +:+ ".grpc") g vipPrefix)
  else if decide (Check_Type c = EmptyString) then add (prefix +:+ ".type") "required" []
  else add (prefix +:+ ".type") "unsupported check type %q" [Check_Type c].

End Std.

(** ** The route policy *)

(** [validateCommunities]: the inner loop reports an entry once. *)
Definition validateCommunities (path : string) (communities : list string) : list error :=
  concat (imap (λ i c,
    match SplitN2 c ":"%char with
    | [a; b] =>
        when (isNil (ParseUint a 16) || isNil (ParseUint b 16))
          [Errorf (at_ path i +:+ ": must be in ASN:value form with both parts 0..65535, got %q") [c]]
    | _ => [Errorf (at_ path i +:+ ": must be in ASN:value form, got %q") [c]]
    end) communities).

Definition validatePolicy (prefix : string) (p : PolicyConfig) : list error :=
  (if mem (Policy_FailAction p) ["withdraw"; "lower_priority"] then []
   else if isEmpty (Policy_FailAction p) then add (prefix +:+ ".fail_action") "required" []
   else add (prefix +:+ ".fail_action") "must be withdraw or lower_priority, got %q" [Policy_FailAction p]) ++
  match Policy_LowerPriority p with
  | None => []
  | Some lp =>
      match LowerPriority_ASPathPrepend lp with
      | None => []
      | Some v => when ((v <? 1) || (16 <? v))
                    (add (prefix +:+ ".lower_priority.as_path_prepend") "must be 1..16, got %d" [Itoa v])
      end ++
      validateCommunities (prefix +:+ ".lower_priority.communities") (elems (LowerPriority_Communities lp))
  end ++
  match Policy_Announce p with
  | None => []
  | Some a =>
      match Announce_ASPathPrepend a with
      | None => []
      | Some v => when ((v <? 0) || (16 <? v))
                    (add (prefix +:+ ".announce.as_path_prepend") "must be 0..16, got %d" [Itoa v])
      end ++
      validateCommunities (prefix +:+ ".announce.communities") (elems (Announce_Communities a))
  end.

(** ** A VIP *)

Section VIP.
Context `{GoStd} `{ExprLang}.

(** A check block is present in the single [check]. *)
Definition single (v : VIPConfig) : bool :=
  let c := VIP_Check v in
  isSet (Check_Type c) || negb (isNil (Check_HTTP c)) || negb (isNil (Check_DNS c)) ||
  negb (isNil (Check_Ping c)) || negb (isNil (Check_TCP c)) || negb (isNil (Check_UDP c)) ||
  negb (isNil (Check_GRPC c)) || negb (isNil (Check_Listen c)) || negb (isNil (Check_SQL c)) ||
  negb (isNil (Check_Kafka c)).

Definition checkPath (prefix : string) (v : VIPConfig) (i : nat) : string :=
  match elems (VIP_Checks v) with
  | [] => prefix +:+ ".check"
  | _ => at_ (prefix +:+ ".checks") i
  end.

(** One round of the loop over the checks. *)
Definition validateOneCheck (prefix : string) (v : VIPConfig) (i : nat) (c : CheckConfig)
    (checkNames : gmap string nat) : gmap string nat * list error :=
  let path := checkPath prefix v i in
  let name := EffectiveName c in
  let e1 := if isSet (Check_Name c) then
              match ValidateCheckName (Check_Name c) with
              | Some err => addErr (path +:+ ".name") err
              | None => []
              end
            else [] in
  let '(checkNames, e2) :=
    match checkNames !! name with
    | Some j =>
        (checkNames,
         if isEmpty (Check_Name c)
         then add (path +:+ ".name") "required: another %s check (%s) has no name either"
                [Check_Type c; checkPath prefix v j]
         else add (path +:+ ".name") "duplicate check name %q (also %s)" [name; checkPath prefix v j])
    | None => (<[name := i]> checkNames, [])
    end in
  let e3 := match Check_Interval c, Check_Timeout c with
            | Some interval, Some timeout =>
                when (interval <=? timeout)
                  (add (path +:+ ".timeout") "must be less than interval (%s), got %s"
                     [Itoa interval; Itoa timeout])
            | _, _ => []
            end in
  let e4 := match Check_Rise c with
            | Some rise => when (rise <? 1) (add (path +:+ ".rise") "must be >= 1" [])
            | None => []
            end in
  let e5 := match Check_Fall c with
            | Some fall => when (fall <? 1) (add (path +:+ ".fall") "must be >= 1" [])
            | None => []
            end in
  (checkNames, e1 ++ e2 ++ e3 ++ e4 ++ e5 ++ validateCheck path c (VIP_Prefix v)).

(** [validateVIP], which updates the sets of names and of canonical prefixes. *)
Definition validateVIP (prefix : string) (v : VIPConfig) (st : gset string * gset string)
    : (gset string * gset string) * list error :=
  let '(names, prefixes) := st in
  let '(names, e1) :=
    if isEmpty (VIP_Name v) then (names, add (prefix +:+ ".name") "required" [])
    else if decide (VIP_Name v ∈ names)
    then (names, add (prefix +:+ ".name") "duplicate VIP name %q" [VIP_Name v])
    else ({[VIP_Name v]} ∪ names, []) in
  let '(prefixes, e2) :=
    if isEmpty (VIP_Prefix v) then (prefixes, add (prefix +:+ ".prefix") "required" [])
    else
      match ParseCIDR (VIP_Prefix v) with
      | None => (prefixes, add (prefix +:+ ".prefix") "must be a valid CIDR, got %q" [VIP_Prefix v])
      | Some (_, ipNet) =>
          let canonical := IPNet_String ipNet in
          if decide (canonical ∈ prefixes)
          then (prefixes, add (prefix +:+ ".prefix") "duplicate VIP prefix %q" [VIP_Prefix v])
          else ({[canonical]} ∪ prefixes, [])
      end in
  let e3 := when (isSet (VIP_LocalInterface v) && negb (VIP_RequireLocalAddress v))
              (add (prefix +:+ ".local_interface") "requires require_local_address: true" []) in
  let noChecks := bool_decide (elems (VIP_Checks v) = []) in
  let e4 :=
    if single v && negb noChecks
    then add (prefix +:+ ".checks") "cannot be combined with check; move the single check into the list" []
    else if negb (single v) && noChecks
    then add (prefix +:+ ".check") "required (or use checks for several)" []
    else [] in
  let '(checkNames, e5) :=
    if negb (single v) && noChecks then (∅, [])
    else scan (validateOneCheck prefix v) 0 (CheckList v) ∅ in
  let e6 :=
    if mem (VIP_ChecksPolicy v) [EmptyString; ChecksPolicyAll; ChecksPolicyAny] then []
    else if noChecks
    then add (prefix +:+ ".checks_policy")
           "an expression needs checks (several checks); with a single check it must be omitted" []
    else if decide (size checkNames = length (elems (VIP_Checks v))) then
      match CompileChecksPolicy (VIP_ChecksPolicy v) (map_to_list checkNames).*1 with
      | Err err => addErr (prefix +:+ ".checks_policy") err
      | Ok _ => []
      end
    else [] in
  ((names, prefixes), e1 ++ e2 ++ e3 ++ e4 ++ e5 ++ e6 ++ validatePolicy (prefix +:+ ".policy") (VIP_Policy v)).

(** ** The config *)

(** [validateOTel]. *)
Definition badEndpoint (path ep : string) : list error :=
  match ParseOTelEndpoint ep with
  | Some _ => []
  | None => addErr path (Errorf "unrecognised OTLP endpoint scheme in %q; use grpc://, grpcs://, http://, or https://" [ep])
  end.

Definition validateOTel (o : OTelConfig) : list error :=
  if isEmpty (OTel_Endpoint o) then []
  else
    badEndpoint ".otel.endpoint" (OTel_Endpoint o) ++
    concat ((λ sig : string * string, when (isSet sig.2) (badEndpoint sig.1 sig.2)) <$>
      [(".otel.traces.endpoint", Sig_Endpoint (OTel_Traces o));
       (".otel.metrics.endpoint", Sig_Endpoint (OTel_Metrics o));
       (".otel.logs.endpoint", Sig_Endpoint (OTel_Logs o))]) ++
    when (isEmpty (OTel_ServiceName o)) (add ".otel.service_name" "must not be empty" []).

(** [validateGoBGPAPIListen]; [None] is a nil error. *)
Definition validateGoBGPAPIListen (listen : string) : goerror :=
  match CutPrefix listen "unix://" with
  | Some after =>
      if isEmpty after then Some (Errorf "must include socket path for unix:// listener" []) else None
  | None =>
      match SplitHostPort listen with
      | None => Some (Errorf "must be host:port or unix:///path, got %q" [listen])
      | Some _ => None
      end
  end.

(** One round of the loop over the neighbors. *)
Definition validateNeighbor (i : nat) (n : NeighborConfig) (names : gset string)
    : gset string * list error :=
  let prefix := at_ "bgp.neighbors" i in
  let '(names, e1) :=
    if isEmpty (Neighbor_Name n) then (names, add (prefix +:+ ".name") "required" [])
    else if decide (Neighbor_Name n ∈ names)
    then (names, add (prefix +:+ ".name") "duplicate neighbor name %q" [Neighbor_Name n])
    else ({[Neighbor_Name n]} ∪ names, []) in
  let e2 := if isEmpty (Neighbor_Address n) then add (prefix +:+ ".address") "required" []
            else when (negb (validIP (Neighbor_Address n)))
                   (add (prefix +:+ ".address") "must be a valid IP address, got %q" [Neighbor_Address n]) in
  let e3 := when (isSet (Neighbor_LocalAddress n) && negb (validIP (Neighbor_LocalAddress n)))
              (add (prefix +:+ ".local_address") "must be a valid IP address, got %q"
                 [Neighbor_LocalAddress n]) in
  let e4 := when (Neighbor_PeerASN n =? 0) (add (prefix +:+ ".peer_asn") "required and must be > 0" []) in
  let keyLen := Z.of_nat (String.length (Neighbor_AuthPassword n)) in
  let e5 := when (maxTCPMD5KeyLen <? keyLen)
              (add (prefix +:+ ".auth_password") "must be at most %d bytes (TCP MD5 key limit), got %d"
                 [Itoa maxTCPMD5KeyLen; Itoa keyLen]) in
  let ttl := Neighbor_MultihopTTL n in
  let e6 := when (negb (Neighbor_EnableMultihop n) && negb (ttl =? 0))
              (add (prefix +:+ ".multihop_ttl") "has no effect when enable_multihop is false" []) in
  let e7 := when (Neighbor_EnableMultihop n && negb (ttl =? 0) && (ttl <? 2))
              (add (prefix +:+ ".multihop_ttl") "must be 0 (default 255) or >= 2, got %d" [Itoa ttl]) in
  let e8 :=
    match Neighbor_BFD n with
    | Some b =>
        when (BFD_Enabled b)
          (when (Neighbor_EnableMultihop n)
             (add (prefix +:+ ".bfd")
                "BFD is not supported with eBGP multihop (RFC 5883 multihop BFD is not implemented)" []) ++
           when (negb (BFD_Port b =? 0) && ((BFD_Port b <? 1) || (65535 <? BFD_Port b)))
             (add (prefix +:+ ".bfd.port") "must be in range 1..65535, got %d" [Itoa (BFD_Port b)]) ++
           when (BFD_DetectionMultiplier b =? 1)
             (add (prefix +:+ ".bfd.detection_multiplier") "must be >= 2 when set (RFC 5880 §6.8.4)" []))
    | None => []
    end in
  (names, e1 ++ e2 ++ e3 ++ e4 ++ e5 ++ e6 ++ e7 ++ e8).

(** The sections of [Validate], in order. *)
Definition validateRouter (cfg : Config) : list error :=
  let r := Cfg_Router cfg in
  when (Router_ASN r =? 0) (add "router.asn" "required and must be > 0" []) ++
  (if isEmpty (Router_RouterID r) then add "router.router_id" "required" []
   else when (match ParseIP (Router_RouterID r) with Some ip => isNil (To4 ip) | None => true end)
          (add "router.router_id" "must be a valid IPv4 address, got %q" [Router_RouterID r])) ++
  when (isSet (Router_LocalAddress r) && negb (validIP (Router_LocalAddress r)))
    (add "router.local_address" "must be a valid IP address, got %q" [Router_LocalAddress r]) ++
  when (isSet (Router_LocalAddressIPv6 r) &&
        match ParseIP (Router_LocalAddressIPv6 r) with Some ip => negb (isNil (To4 ip)) | None => true end)
    (add "router.local_address_ipv6" "must be a valid IPv6 address, got %q" [Router_LocalAddressIPv6 r]) ++
  when (hasIPv6VIP cfg && isEmpty (Router_LocalAddressIPv6 r))
    (add "router.local_address_ipv6"
       "required as an IPv6 address when any VIP prefix is IPv6 (used as the IPv6 next-hop)" []).

Definition validateAPI (a : APIConfig) : list error :=
  when (isEmpty (API_Listen a)) (add "api.listen" "required" []) ++
  concat ((λ tmo : string * option Z,
    match tmo.2 with
    | Some d => when (d <? 0) (add tmo.1 "must be >= 0 (0 disables), got %s" [Itoa d])
    | None => []
    end) <$> [("api.read_header_timeout", API_ReadHeaderTimeout a); ("api.read_timeout", API_ReadTimeout a);
              ("api.write_timeout", API_WriteTimeout a); ("api.idle_timeout", API_IdleTimeout a)]).

Definition logLevels : list string := ["debug"; "info"; "warn"; "error"].

Definition validateLogging (l : LoggingConfig) : list error :=
  when (negb (mem (Logging_Level l) logLevels))
    (add "logging.level" "must be one of debug, info, warn, error; got %q" [Logging_Level l]) ++
  when (negb (mem (Logging_Format l) ["text"; "json"]))
    (add "logging.format" "must be one of text, json; got %q" [Logging_Format l]) ++
  when (negb (mem (Logging_OTelLevel l) (EmptyString :: logLevels)))
    (add "logging.otel_level" "must be one of debug, info, warn, error; got %q" [Logging_OTelLevel l]).

Definition validateBGP (b : BGPConfig) : list error :=
  when (isSet (BGP_ListenAddress b) && negb (validIP (BGP_ListenAddress b)))
    (add "bgp.listen_address" "must be a valid IP address, got %q" [BGP_ListenAddress b]) ++
  when (negb (BGP_ListenPort b =? 0) && negb (BGP_ListenPort b =? -1) &&
        ((BGP_ListenPort b <? 1) || (65535 <? BGP_ListenPort b)))
    (add "bgp.listen_port" "must be -1 (disabled) or in range 1..65535, got %d" [Itoa (BGP_ListenPort b)]) ++
  (let listen := GoBGPAPI_Listen (BGP_GoBGPAPI b) in
   if GoBGPAPI_Enabled (BGP_GoBGPAPI b) then
     if isEmpty listen
     then add "bgp.gobgp_api.listen" "required when bgp.gobgp_api.enabled is true" []
     else match validateGoBGPAPIListen listen with
          | Some err => addErr "bgp.gobgp_api.listen" err
          | None => []
          end
   else when (isSet listen)
          (add "bgp.gobgp_api.listen" "set bgp.gobgp_api.enabled=true to use this field" [])) ++
  when (bool_decide (elems (BGP_Neighbors b) = []))
    (add "bgp.neighbors" "at least one neighbor is required" []) ++
  (scan validateNeighbor 0 (elems (BGP_Neighbors b)) ∅).2.

(** The loop over the VIPs. *)
Definition validateVIPs (vips : list VIPConfig) : list error :=
  when (bool_decide (vips = [])) (add "vips" "at least one VIP is required" []) ++
  (scan (λ i v st, validateVIP (at_ "vips" i) v st) 0 vips (∅, ∅)).2.

(** [Validate]. *)
Definition Validate (cfg : Config) : list error :=
  (if isEmpty (Cfg_Schema cfg) then add "schema" "required" []
   else when (negb (bool_decide (Cfg_Schema cfg = "v1")))
          (add "schema" ("unsupported version %q (expected " +:+ inQuotes "v1" +:+ ")") [Cfg_Schema cfg])) ++
  validateRouter cfg ++ validateAPI (Cfg_API cfg) ++ validateLogging (Cfg_Logging cfg) ++
  validateBGP (Cfg_BGP cfg) ++
  validateVIPs (elems (Cfg_VIPs cfg)) ++
  validateOTel (Cfg_OTel cfg).

End VIP.
End Validate.
Export Validate.
