(* ===== verification/Registry.v ===== *)
(** * The goroutines of the schedulers: internal/checks/registry.go

    A scheduler is known by its pointer; its VIP and check names never change
    after [NewScheduler], so here they are functions of the pointer.  A launch
    starts a goroutine, named by a fresh run number; [reg_live] holds the
    goroutines that have not exited, so a leaked goroutine is one that is live
    and that no entry of [reg_running] can stop. *)

From S2P Require Import Prelude GoStrings Config Model.

Module Registry.

(** A pointer to a scheduler. *)
Abbreviation ptr := nat (only parsing).

(** [runningScheduler]: its goroutine and the shadow flag. *)
Record runningScheduler := mkRunning {
  run_id : nat;
  run_shadow : bool }.

Record Registry := mkRegistry {
  reg_started : bool;
  reg_visible : gmap string (list ptr);
  reg_running : gmap ptr runningScheduler;
  reg_live : gset nat;
  reg_next : nat }.

(** [NewRegistry]. *)
Definition NewRegistry : Registry := mkRegistry false ∅ ∅ ∅ 0.

(** [r.visible[vip]]: a missing key reads as the nil slice. *)
Definition visibleOf (r : Registry) (vip : string) : list ptr :=
  default [] (reg_visible r !! vip).

Definition setVisible (v : gmap string (list ptr)) (r : Registry) : Registry :=
  mkRegistry (reg_started r) v (reg_running r) (reg_live r) (reg_next r).

(** [launchLocked]. *)
Definition launchLocked (s : ptr) (shadow : bool) (r : Registry) : Registry :=
  mkRegistry (reg_started r) (reg_visible r)
    (<[s := mkRunning (reg_next r) shadow]> (reg_running r))
    ({[reg_next r]} ∪ reg_live r) (S (reg_next r)).

(** [stopRunning]: cancel the goroutine and wait until it is done. *)
Definition stopRunning (run : option runningScheduler) (r : Registry) : Registry :=
  match run with
  | None => r
  | Some run =>
      mkRegistry (reg_started r) (reg_visible r) (reg_running r)
        (reg_live r ∖ {[run_id run]}) (reg_next r)
  end.

Definition deleteRunning (s : ptr) (r : Registry) : Registry :=
  mkRegistry (reg_started r) (reg_visible r) (delete s (reg_running r)) (reg_live r) (reg_next r).

(** [slices.Delete(list, idx, idx+1)]. *)
Definition deleteAt {A} (idx : nat) (l : list A) : list A := take idx l ++ drop (S idx) l.

Section Registry.
Context (VIPName CheckName : ptr → string).

(** [Add]. *)
Definition Add (s : ptr) (r : Registry) : Registry :=
  let r := setVisible (<[VIPName s := visibleOf r (VIPName s) ++ [s]]> (reg_visible r)) r in
  if reg_started r then launchLocked s false r else r.

(** [AddShadow]. *)
Definition AddShadow (s : ptr) (r : Registry) : Registry := launchLocked s true r.

(** [Promote]: the registry, and the scheduler that was replaced. *)
Definition Promote (s : ptr) (r : Registry) : Registry * option ptr :=
  let running :=
    match reg_running r !! s with
    | Some run => <[s := mkRunning (run_id run) false]> (reg_running r)
    | None => reg_running r
    end in
  let l := visibleOf r (VIPName s) in
  let '(l', old) :=
    match list_find (λ x, CheckName x = CheckName s) l with
    | Some (idx, old) => (<[idx := s]> l, Some old)
    | None => (l ++ [s], None)
    end in
  let oldRun := match old with Some o => running !! o | None => None end in
  let running := match old with Some o => delete o running | None => running end in
  (stopRunning oldRun
     (mkRegistry (reg_started r) (<[VIPName s := l']> (reg_visible r)) running
        (reg_live r) (reg_next r)), old).

(** [Remove]. *)
Definition Remove (s : ptr) (r : Registry) : Registry :=
  let run := reg_running r !! s in
  let l := visibleOf r (VIPName s) in
  let l' := match list_find (eq s) l with
            | Some (idx, _) => deleteAt idx l
            | None => l
            end in
  let visible := match l' with
                 | [] => delete (VIPName s) (reg_visible r)
                 | _ => <[VIPName s := l']> (reg_visible r)
                 end in
  stopRunning run (deleteRunning s (setVisible visible r)).

(** The array behind a slice that had [n] elements when its header was read:
    [slices.Delete] shifts the tail down in that array and clears what it
    vacated, so the elements still listed come first and nil pointers follow. *)
Definition backing (n : nat) (l : list ptr) : list (option ptr) :=
  (Some <$> l) ++ replicate (n - length l) None.

(** [RemoveVIP]: the loop ranges over the slice header read once, while every
    [Remove] deletes from the same array; a nil element makes
    [s.VIPName()] panic. *)
Fixpoint removeVIPLoop (vip : string) (n i fuel : nat) (r : Registry) : outcome Registry :=
  match fuel with
  | O => Ret r
  | S fuel' =>
      match backing n (visibleOf r vip) !! i with
      | Some (Some s) => removeVIPLoop vip n (S i) fuel' (Remove s r)
      | _ => Panic
      end
  end.

Definition RemoveVIP (vip : string) (r : Registry) : outcome Registry :=
  let n := length (visibleOf r vip) in removeVIPLoop vip n 0 n r.

(** [Schedulers]: a copy of the lists. *)
Definition Schedulers (r : Registry) : gmap string (list ptr) := reg_visible r.

(** [Start]: launch every visible scheduler that does not run yet. *)
Definition startOne (r : Registry) (s : ptr) : Registry :=
  match reg_running r !! s with Some _ => r | None => launchLocked s false r end.
Definition setStarted (b : bool) (r : Registry) : Registry :=
  mkRegistry b (reg_visible r) (reg_running r) (reg_live r) (reg_next r).
Definition Start (r : Registry) : Registry :=
  foldl startOne (setStarted true r) (concat (map_to_list (reg_visible r)).*2).

(** [Stop]: every goroutine is cancelled; [exited] are the run numbers done
    before the caller's context ends. *)
Definition Stop (exited : gset nat) (r : Registry) : Registry * goerror :=
  let runs := map_to_set (λ _ run, run_id run) (reg_running r) : gset nat in
  (mkRegistry false (reg_visible r) ∅ (reg_live r ∖ (runs ∩ exited)) (reg_next r),
   if decide (runs ⊆ exited) then None
   else Some (Errorf "waiting for schedulers to stop: %w" [])).

(** ** The invariant *)

(** The lists: no duplicates, no empty list, every scheduler under its own
    VIP, one scheduler per check name. *)
Definition lists_ok (r : Registry) : Prop :=
  ∀ vip l, reg_visible r !! vip = Some l →
    l ≠ [] ∧ NoDup (CheckName <$> l) ∧ ∀ s, s ∈ l → VIPName s = vip.

(** The goroutines: the live ones are exactly those a running entry holds,
    and two entries never hold the same one. *)
Definition goroutines_ok (r : Registry) : Prop :=
  (∀ g, g ∈ reg_live r ↔ ∃ s run, reg_running r !! s = Some run ∧ run_id run = g) ∧
  (∀ s1 s2 r1 r2, reg_running r !! s1 = Some r1 → reg_running r !! s2 = Some r2 →
     run_id r1 = run_id r2 → s1 = s2) ∧
  (∀ s run, reg_running r !! s = Some run → (run_id run < reg_next r)%nat).

(** Once started, every listed scheduler runs, and not in shadow. *)
Definition running_ok (r : Registry) : Prop :=
  reg_started r = true → ∀ vip s, s ∈ visibleOf r vip →
    ∃ run, reg_running r !! s = Some run ∧ run_shadow run = false.

Definition reg_ok (r : Registry) : Prop := lists_ok r ∧ goroutines_ok r ∧ running_ok r.

(** ** Lemmas *)

Lemma lists_ok_visibleOf r vip :
  lists_ok r → NoDup (CheckName <$> visibleOf r vip) ∧ ∀ s, s ∈ visibleOf r vip → VIPName s = vip.
Proof.
  intros Hok. unfold visibleOf. destruct (reg_visible r !! vip) as [l|] eqn:E; cbn.
  - by destruct (Hok vip l E).
  - split; [constructor|]. by intros s ?%not_elem_of_nil.
Qed.

Lemma lists_ok_NoDup r vip : lists_ok r → NoDup (visibleOf r vip).
Proof. intros Hok. eapply NoDup_fmap_1, lists_ok_visibleOf, Hok. Qed.

Lemma deleteAt_elem {A} (l : list A) i x y :
  NoDup l → l !! i = Some x → y ∈ deleteAt i l ↔ y ∈ l ∧ y ≠ x.
Proof.
  intros Hnd Hi. unfold deleteAt.
  pose proof (take_drop_middle l i x Hi) as Hl. rewrite <-Hl in Hnd.
  rewrite <-Hl at 3.
  apply NoDup_app in Hnd as (_ & Hd1 & [Hx _]%NoDup_cons).
  rewrite !elem_of_app, elem_of_cons. set_solver.
Qed.

Lemma deleteAt_fmap {A B} (f : A → B) (l : list A) i : f <$> deleteAt i l = deleteAt i (f <$> l).
Proof. unfold deleteAt. by rewrite fmap_app, fmap_take, fmap_drop. Qed.

Lemma deleteAt_NoDup {A} (l : list A) i : NoDup l → NoDup (deleteAt i l).
Proof.
  intros Hnd. unfold deleteAt. destruct (l !! i) as [x|] eqn:E.
  - rewrite <-(take_drop_middle l i x E) in Hnd.
    apply NoDup_app in Hnd as (H1 & H2 & [_ H3]%NoDup_cons).
    apply NoDup_app. split; [done|]. split; [|done]. set_solver.
  - rewrite take_ge, drop_ge, app_nil_r; [done|..]; apply lookup_ge_None in E; lia.
Qed.

Lemma visibleOf_Remove s r vip :
  visibleOf (Remove s r) vip =
    if decide (vip = VIPName s) then
      match list_find (eq s) (visibleOf r (VIPName s)) with
      | Some (idx, _) => deleteAt idx (visibleOf r (VIPName s))
      | None => visibleOf r (VIPName s)
      end
    else visibleOf r vip.
Proof.
  unfold Remove. set (l' := match list_find _ _ with Some _ => _ | None => _ end).
  assert (∀ run r, visibleOf (stopRunning run r) vip = visibleOf r vip) as Hs
    by (by intros [] ?).
  rewrite Hs. unfold visibleOf at 1. cbn.
  destruct l' as [|x l'']; cbn; case_decide; subst;
    rewrite ?lookup_delete_eq, ?lookup_insert_eq, ?lookup_delete_ne, ?lookup_insert_ne by done; done.
Qed.

Lemma Remove_running s r x :
  reg_running (Remove s r) !! x = if decide (x = s) then None else reg_running r !! x.
Proof.
  unfold Remove. destruct (reg_running r !! s); cbn;
    (case_decide; subst; [by rewrite lookup_delete_eq|by rewrite lookup_delete_ne]).
Qed.

(** [Remove] takes exactly the given scheduler out of its list. *)
Lemma Remove_visible_elem s r vip x :
  lists_ok r → x ∈ visibleOf (Remove s r) vip ↔ x ∈ visibleOf r vip ∧ x ≠ s.
Proof.
  intros Hok. rewrite visibleOf_Remove. case_decide as Hv.
  - subst. destruct (list_find _ _) as [[i y]|] eqn:E.
    + apply list_find_Some in E as (Hi & <- & _).
      by rewrite deleteAt_elem by eauto using lists_ok_NoDup.
    + apply list_find_None in E. rewrite Forall_forall in E. split; [|by intros []].
      intros Hx. split; [done|]. intros ->. by apply (E s).
  - split; [|by intros []]. intros Hx. split; [done|]. intros ->.
    apply Hv. symmetry. by apply (lists_ok_visibleOf r vip Hok).
Qed.

(** Stopping what an entry held, and dropping the entry, keeps the goroutine
    bookkeeping exact. *)
Lemma goroutines_ok_stop s r v :
  goroutines_ok r →
  goroutines_ok (stopRunning (reg_running r !! s) (deleteRunning s (setVisible v r))).
Proof.
  intros (Hlive & Hinj & Hnext).
  assert (∀ x run, reg_running r !! x = Some run → x ≠ s → delete s (reg_running r) !! x = Some run)
    as Hkeep by (intros; by rewrite lookup_delete_ne by done).
  destruct (reg_running r !! s) as [run|] eqn:E; (split; [|split]); cbn.
  - intros g. rewrite elem_of_difference, elem_of_singleton, Hlive. split.
    + intros [(x & rx & Hx & <-) Hne]. exists x, rx. split; [|done].
      apply Hkeep; [done|]. by intros ->; simplify_eq.
    + intros (x & rx & Hx & <-). apply lookup_delete_Some in Hx as [Hne Hx].
      split; [eauto|]. intros Heq. apply Hne. by eapply Hinj.
  - intros s1 s2 r1 r2 H1 H2 Heq. apply lookup_delete_Some in H1 as [_ H1], H2 as [_ H2].
    by eapply Hinj.
  - intros x rx Hx. apply lookup_delete_Some in Hx as [_ Hx]. by eapply Hnext.
  - intros g. rewrite Hlive. rewrite delete_id by done. done.
  - intros s1 s2 r1 r2 H1 H2 Heq. rewrite delete_id in H1, H2 by done. by eapply Hinj.
  - intros x rx Hx. rewrite delete_id in Hx by done. by eapply Hnext.
Qed.

Lemma goroutines_ok_launch s b r :
  reg_running r !! s = None → goroutines_ok r → goroutines_ok (launchLocked s b r).
Proof.
  intros Hs (Hlive & Hinj & Hnext). split; [|split]; cbn.
  - intros g. rewrite elem_of_union, elem_of_singleton, Hlive. split.
    + intros [->|(x & rx & Hx & <-)].
      * exists s, (mkRunning (reg_next r) b). by rewrite lookup_insert_eq.
      * exists x, rx. rewrite lookup_insert_ne; [done|]. by intros ->; simplify_eq.
    + intros (x & rx & Hx & <-). apply lookup_insert_Some in Hx as [[_ <-]|[_ Hx]]; [by left|].
      right. eauto.
  - intros s1 s2 r1 r2 H1 H2 Heq.
    apply lookup_insert_Some in H1 as [[<- <-]|[Hn1 H1]], H2 as [[<- <-]|[Hn2 H2]]; cbn in *;
      [done|apply Hnext in H2; lia|apply Hnext in H1; lia|by eapply Hinj].
  - intros x rx Hx. apply lookup_insert_Some in Hx as [[_ <-]|[_ Hx]]; cbn; [lia|].
    apply Hnext in Hx. lia.
Qed.

Lemma lists_ok_Remove s r : lists_ok r → lists_ok (Remove s r).
Proof.
  intros Hl vip l Hvip.
  assert (visibleOf (Remove s r) vip = l) as Hv by (unfold visibleOf; by rewrite Hvip).
  destruct (lists_ok_visibleOf r vip Hl) as [Hnd Hin].
  split; [|split].
  - intros ->. revert Hvip. unfold Remove.
    set (l' := match list_find _ _ with Some _ => _ | None => _ end).
    assert (∀ run r, reg_visible (stopRunning run r) = reg_visible r) as -> by (by intros [] ?).
    cbn. destruct l' as [|y l''].
    + intros [_ H]%lookup_delete_Some. by apply Hl in H as [? _].
    + intros [[_ ?]|[_ H]]%lookup_insert_Some; [done|]. by apply Hl in H as [? _].
  - subst. rewrite visibleOf_Remove. case_decide; [|done]. subst.
    destruct (list_find _ _) as [[i y]|]; [|done].
    rewrite deleteAt_fmap. by apply deleteAt_NoDup.
  - intros x Hx. subst. apply Hin. by apply Remove_visible_elem in Hx as [? _].
Qed.

Lemma Remove_preserves s r : reg_ok r → reg_ok (Remove s r).
Proof.
  intros (Hl & Hg & Hr). split; [by apply lists_ok_Remove|split].
  - unfold Remove. by apply goroutines_ok_stop.
  - intros Hst vip x Hx. apply Remove_visible_elem in Hx as [Hx Hne]; [|done].
    rewrite Remove_running, decide_False by done. revert Hst. unfold Remove.
    destruct (reg_running r !! s); cbn; intros Hst; by apply (Hr Hst vip x Hx).
Qed.

Lemma deleteAt_length {A} (l : list A) i x : l !! i = Some x → S (length (deleteAt i l)) = length l.
Proof.
  intros H%lookup_lt_Some. unfold deleteAt. rewrite length_app, length_take, length_drop. lia.
Qed.

Lemma Remove_length s r :
  s ∈ visibleOf r (VIPName s) →
  S (length (visibleOf (Remove s r) (VIPName s))) = length (visibleOf r (VIPName s)).
Proof.
  intros Hin. rewrite visibleOf_Remove, decide_True by done.
  destruct (list_find _ _) as [[i y]|] eqn:E.
  - apply list_find_Some in E as (Hi & _). by eapply deleteAt_length.
  - apply list_find_None in E. rewrite Forall_forall in E. by destruct (E s Hin).
Qed.

(** A VIP with one check is removed; the loop meets no nil. *)
Lemma RemoveVIP_single vip s r :
  visibleOf r vip = [s] → RemoveVIP vip r = Ret (Remove s r).
Proof. intros H. unfold RemoveVIP. rewrite H. cbn. unfold backing. by rewrite H. Qed.

Lemma RemoveVIP_none vip r : visibleOf r vip = [] → RemoveVIP vip r = Ret r.
Proof. intros H. unfold RemoveVIP. by rewrite H. Qed.

(** The invariant of the range loop: after [i] rounds [n - i] elements are
    listed, so round [i] reads a nil at the latest when [n - i <= i]. *)
Lemma removeVIPLoop_panics vip n i fuel r :
  lists_ok r → length (visibleOf r vip) = (n - i)%nat → (i + fuel = n)%nat →
  (1 ≤ fuel)%nat → (1 ≤ i)%nat → removeVIPLoop vip n i fuel r = Panic.
Proof.
  revert i r. induction fuel as [|fuel IH]; intros i r Hok Hlen Hn Hf Hi; [lia|].
  cbn [removeVIPLoop]. destruct (backing n (visibleOf r vip) !! i) as [[s|]|] eqn:E; try done.
  unfold backing in E. apply lookup_app_Some in E as [E|[_ E]].
  2:{ by apply lookup_replicate in E as [? _]. }
  rewrite list_lookup_fmap in E. destruct (visibleOf r vip !! i) as [s'|] eqn:Es; [|done].
  cbn in E. simplify_eq.
  pose proof (lookup_lt_Some _ _ _ Es) as Hlt. apply list_elem_of_lookup_2 in Es.
  assert (VIPName s = vip) as <- by by apply (lists_ok_visibleOf r vip Hok).
  apply IH; [by apply lists_ok_Remove| |lia|lia|lia].
  pose proof (Remove_length s r Es). lia.
Qed.

Lemma RemoveVIP_two vip r :
  lists_ok r → (2 ≤ length (visibleOf r vip))%nat → RemoveVIP vip r = Panic.
Proof.
  intros Hok H2. unfold RemoveVIP. destruct (visibleOf r vip) as [|s l] eqn:E; cbn in H2; [lia|].
  assert (s ∈ visibleOf r vip) as Hs by (rewrite E; left).
  assert (VIPName s = vip) as <- by by apply (lists_ok_visibleOf r vip Hok).
  cbn [length removeVIPLoop]. rewrite E. cbn [backing fmap list_fmap app lookup list_lookup].
  apply removeVIPLoop_panics; [by apply lists_ok_Remove| |lia|lia|lia].
  pose proof (Remove_length s r Hs) as Hl. rewrite E in Hl. cbn in Hl. lia.
Qed.

(** *** The other operations keep the invariant *)

Lemma visibleOf_insert vip l r x :
  visibleOf (setVisible (<[vip := l]> (reg_visible r)) r) x =
    if decide (x = vip) then l else visibleOf r x.
Proof.
  unfold visibleOf. cbn. case_decide; subst;
    [by rewrite lookup_insert_eq|by rewrite lookup_insert_ne].
Qed.

Lemma lists_ok_insert vip l r :
  lists_ok r → l ≠ [] → NoDup (CheckName <$> l) → (∀ s, s ∈ l → VIPName s = vip) →
  lists_ok (setVisible (<[vip := l]> (reg_visible r)) r).
Proof.
  intros Hok Hne Hnd Hin v l' H. cbn in H.
  apply lookup_insert_Some in H as [[<- <-]|[_ H]]; [done|]. by apply Hok.
Qed.

(** A launch lists nothing, and runs one more scheduler. *)
Lemma lists_ok_launch s b r : lists_ok r → lists_ok (launchLocked s b r).
Proof. done. Qed.

Lemma running_ok_launch s b r :
  running_ok r → (∀ vip, s ∈ visibleOf r vip → b = false) → running_ok (launchLocked s b r).
Proof.
  intros Hr Hb Hst vip x Hx. cbn in *. destruct (decide (x = s)) as [->|Hne].
  - rewrite lookup_insert_eq. eexists. split; [done|]. cbn. by eapply Hb.
  - rewrite lookup_insert_ne by done. by eapply Hr.
Qed.

Lemma Add_preserves s r :
  reg_ok r → reg_running r !! s = None →
  CheckName s ∉ CheckName <$> visibleOf r (VIPName s) →
  reg_ok (Add s r).
Proof.
  intros (Hl & Hg & Hr) Hs Hn. unfold Add. destruct (lists_ok_visibleOf r (VIPName s) Hl) as [Hnd Hin].
  set (r' := setVisible _ r).
  assert (lists_ok r') as Hl'.
  { apply lists_ok_insert; [done|by destruct (visibleOf r (VIPName s))| |].
    - rewrite fmap_app. apply NoDup_app. split; [done|]. split; [|apply NoDup_singleton].
      intros x Hx. cbn. rewrite list_elem_of_singleton. congruence.
    - intros x [Hx|Hx%list_elem_of_singleton]%elem_of_app; [by apply Hin|by subst]. }
  destruct (reg_started r') eqn:E.
  - split; [done|]. split; [by apply goroutines_ok_launch|].
    intros _ vip x Hx. cbn. destruct (decide (x = s)) as [->|Hne].
    + rewrite lookup_insert_eq. by eexists.
    + rewrite lookup_insert_ne by done. apply (Hr E vip).
      assert (x ∈ visibleOf r' vip) as Hx' by done. unfold r' in Hx'.
      rewrite visibleOf_insert in Hx'. case_decide; [subst|done].
      apply elem_of_app in Hx' as [?|Hx'%list_elem_of_singleton]; done.
  - split; [done|]. split; [done|]. intros Hst. cbn in Hst. unfold r' in E. cbn in E. congruence.
Qed.

Lemma AddShadow_preserves s r :
  reg_ok r → reg_running r !! s = None → s ∉ visibleOf r (VIPName s) → reg_ok (AddShadow s r).
Proof.
  intros (Hl & Hg & Hr) Hs Hn. split; [done|]. split; [by apply goroutines_ok_launch|].
  apply running_ok_launch; [done|]. intros vip Hin. destruct Hn.
  by rewrite (proj2 (lists_ok_visibleOf r vip Hl) s Hin).
Qed.

(** [Promote] first clears the shadow flag; the bookkeeping of the goroutines
    does not look at it. *)
Definition unshadow (s : ptr) (r : Registry) : Registry :=
  mkRegistry (reg_started r) (reg_visible r)
    (match reg_running r !! s with
     | Some run => <[s := mkRunning (run_id run) false]> (reg_running r)
     | None => reg_running r
     end) (reg_live r) (reg_next r).

Lemma unshadow_lookup s r x :
  reg_running (unshadow s r) !! x =
    if decide (x = s) then (λ run, mkRunning (run_id run) false) <$> reg_running r !! s
    else reg_running r !! x.
Proof.
  unfold unshadow. cbn. destruct (reg_running r !! s) eqn:E; case_decide; subst;
    rewrite ?lookup_insert_eq, ?lookup_insert_ne by done; done.
Qed.

Lemma unshadow_id s r x run :
  reg_running (unshadow s r) !! x = Some run →
  ∃ run0, reg_running r !! x = Some run0 ∧ run_id run0 = run_id run.
Proof.
  rewrite unshadow_lookup. case_decide; subst; [|by eauto].
  intros (run0 & -> & H)%fmap_Some. exists run0. by subst.
Qed.

Lemma goroutines_ok_unshadow s r : goroutines_ok r → goroutines_ok (unshadow s r).
Proof.
  intros (Hlive & Hinj & Hnext). split; [|split].
  - intros g. cbn [unshadow reg_live]. rewrite Hlive. split.
    + intros (x & run & Hx & <-). destruct (decide (x = s)) as [->|Hne].
      * exists s. eexists. rewrite unshadow_lookup, decide_True, Hx by done. by split.
      * exists x, run. by rewrite unshadow_lookup, decide_False.
    + intros (x & run & (run0 & ? & <-)%unshadow_id & <-). eauto.
  - intros s1 s2 r1 r2 (q1 & H1 & E1)%unshadow_id (q2 & H2 & E2)%unshadow_id Heq.
    eapply Hinj; [done..|]. congruence.
  - intros x run (q & H & <-)%unshadow_id. by eapply Hnext.
Qed.

(** What [Promote] lists, and what it returns. *)
Definition promoted (s : ptr) (l : list ptr) : list ptr * option ptr :=
  match list_find (λ x, CheckName x = CheckName s) l with
  | Some (idx, old) => (<[idx := s]> l, Some old)
  | None => (l ++ [s], None)
  end.

Lemma Promote_eq s r :
  Promote s r =
    let '(l, old) := promoted s (visibleOf r (VIPName s)) in
    let r1 := setVisible (<[VIPName s := l]> (reg_visible r)) (unshadow s r) in
    (match old with
     | Some o => stopRunning (reg_running (unshadow s r) !! o) (deleteRunning o r1)
     | None => r1
     end, old).
Proof.
  unfold Promote, promoted. by destruct (list_find _ _) as [[idx o]|].
Qed.

Lemma promoted_names s l :
  CheckName <$> (promoted s l).1 =
    if decide (CheckName s ∈ CheckName <$> l) then CheckName <$> l
    else (CheckName <$> l) ++ [CheckName s].
Proof.
  unfold promoted. destruct (list_find _ _) as [[i o]|] eqn:E.
  - apply list_find_Some in E as (Hi & Hn & _). cbn. rewrite decide_True.
    + rewrite list_fmap_insert, list_insert_id; [done|]. rewrite list_lookup_fmap, Hi. cbn. by rewrite Hn.
    + rewrite <-Hn. by apply list_elem_of_fmap_2, list_elem_of_lookup_2 with i.
  - apply list_find_None in E. rewrite Forall_forall in E. rewrite decide_False.
    + cbn. by rewrite fmap_app.
    + intros (x & Hx & Hin)%list_elem_of_fmap. by apply (E x).
Qed.

Lemma promoted_NoDup s l : NoDup (CheckName <$> l) → NoDup (CheckName <$> (promoted s l).1).
Proof.
  intros Hnd. rewrite promoted_names. case_decide as Hin; [done|].
  apply NoDup_app. split; [done|]. split; [|apply NoDup_singleton].
  intros x Hx. rewrite list_elem_of_singleton. congruence.
Qed.

Lemma promoted_elem s l x :
  NoDup (CheckName <$> l) →
  x ∈ (promoted s l).1 ↔ x = s ∨ (x ∈ l ∧ (promoted s l).2 ≠ Some x).
Proof.
  intros Hnd. unfold promoted. destruct (list_find _ _) as [[i o]|] eqn:E; cbn.
  - apply list_find_Some in E as (Hi & Hn & _). pose proof (lookup_lt_Some _ _ _ Hi) as Hlt.
    rewrite !list_elem_of_lookup. split.
    + intros [j Hj]. apply list_lookup_insert_Some in Hj as [(-> & -> & _)|[Hne Hj]]; [by left|].
      right. split; [eauto|]. intros ?; simplify_eq. by pose proof (NoDup_fmap_lookup CheckName l _ _ _ _ Hnd Hi Hj eq_refl).
    + intros [->|[[j Hj] Hne]]; [exists i; by apply list_lookup_insert_eq|].
      exists j. rewrite list_lookup_insert_ne; [done|]. intros ->. congruence.
  - rewrite elem_of_app, list_elem_of_singleton. naive_solver.
Qed.

Lemma stopRunning_visible run r : reg_visible (stopRunning run r) = reg_visible r.
Proof. by destruct run. Qed.
Lemma stopRunning_running run r : reg_running (stopRunning run r) = reg_running r.
Proof. by destruct run. Qed.
Lemma stopRunning_started run r : reg_started (stopRunning run r) = reg_started r.
Proof. by destruct run. Qed.

Lemma visibleOf_Promote s r vip :
  visibleOf (Promote s r).1 vip =
    if decide (vip = VIPName s) then (promoted s (visibleOf r (VIPName s))).1 else visibleOf r vip.
Proof.
  rewrite Promote_eq. destruct (promoted s _) as [l [o|]] eqn:E; cbn [fst];
    unfold visibleOf at 1; rewrite ?stopRunning_visible; apply (visibleOf_insert (VIPName s) l r vip).
Qed.

Lemma Promote_returns s r : (Promote s r).2 = (promoted s (visibleOf r (VIPName s))).2.
Proof. rewrite Promote_eq. by destruct (promoted s _) as [l [o|]]. Qed.

Lemma Promote_running s r x :
  reg_running (Promote s r).1 !! x =
    if decide ((Promote s r).2 = Some x) then None else reg_running (unshadow s r) !! x.
Proof.
  rewrite Promote_eq. destruct (promoted s _) as [l [o|]]; cbn [fst snd];
    rewrite ?stopRunning_running; cbn [reg_running deleteRunning setVisible].
  - case_decide; simplify_eq; [by rewrite lookup_delete_eq|].
    rewrite lookup_delete_ne; [done|congruence].
  - by rewrite decide_False.
Qed.

Lemma Promote_preserves s r :
  reg_ok r → s ∉ visibleOf r (VIPName s) →
  (reg_started r = true → is_Some (reg_running r !! s)) →
  reg_ok (Promote s r).1.
Proof.
  intros (Hl & Hg & Hr) Hn Hrun. destruct (lists_ok_visibleOf r (VIPName s) Hl) as [Hnd Hin].
  pose proof (promoted_elem s _ s Hnd) as Hself. pose proof (λ x, promoted_elem s _ x Hnd) as Helem.
  split; [|split].
  - assert (lists_ok (setVisible (<[VIPName s := (promoted s (visibleOf r (VIPName s))).1]>
      (reg_visible r)) r)) as H.
    { apply lists_ok_insert; [done| |by apply promoted_NoDup|].
      - intros H0. rewrite H0 in Hself. by eapply not_elem_of_nil, Hself; left.
      - intros x [->|[? _]]%Helem; auto. }
    rewrite Promote_eq. destruct (promoted s _) as [l [o|]]; [|done].
    intros v l'. cbn [fst]. rewrite stopRunning_visible. apply H.
  - rewrite Promote_eq. destruct (promoted s _) as [l [o|]]; cbn [fst].
    + by apply goroutines_ok_stop, goroutines_ok_unshadow.
    + by apply goroutines_ok_unshadow.
  - intros Hst vip x Hx.
    assert (reg_started r = true) as Hst'.
    { revert Hst. rewrite Promote_eq. destruct (promoted s _) as [l [o|]]; cbn [fst];
        by rewrite ?stopRunning_started. }
    rewrite Promote_running, Promote_returns, unshadow_lookup.
    rewrite visibleOf_Promote in Hx. destruct (decide (x = s)) as [->|Hxs].
    + rewrite decide_False.
      * destruct (Hrun Hst') as [run ->]. by eexists.
      * intros H. apply Hn. unfold promoted in H. destruct (list_find _ _) as [[i o]|] eqn:E; [|done].
        cbn in H. simplify_eq. apply list_find_Some in E as [E _]. by apply list_elem_of_lookup_2 in E.
    + rewrite decide_False.
      * case_decide; [|by apply (Hr Hst' vip)]. subst. apply Helem in Hx as [?|[Hx _]]; [done|].
        by apply (Hr Hst' (VIPName s)).
      * intros H. case_decide; subst; [by apply Helem in Hx as [?|[_ ?]]|].
        unfold promoted in H. destruct (list_find _ _) as [[i o]|] eqn:E; [|done].
        cbn in H. simplify_eq. apply list_find_Some in E as [E _]. apply list_elem_of_lookup_2 in E.
        apply Hin in E. apply (lists_ok_visibleOf r vip Hl) in Hx. congruence.
Qed.

(** [Start], one scheduler and then all of them. *)
Lemma startOne_step x r :
  goroutines_ok r →
  let r' := startOne r x in
  goroutines_ok r' ∧ reg_visible r' = reg_visible r ∧ reg_started r' = reg_started r ∧
  (∀ s run, reg_running r !! s = Some run → reg_running r' !! s = Some run) ∧
  (∀ s run, reg_running r' !! s = Some run →
     run_shadow run = false ∨ reg_running r !! s = Some run) ∧
  is_Some (reg_running r' !! x).
Proof.
  intros Hg. unfold startOne. destruct (reg_running r !! x) as [run|] eqn:E; [split_and!; eauto|].
  split_and!; [by apply goroutines_ok_launch|done|done|..]; cbn; [| |by rewrite lookup_insert_eq; eauto].
  - intros s run Hs. rewrite lookup_insert_ne; [done|]. by intros ->; simplify_eq.
  - intros s run [[_ <-]|[_ ?]]%lookup_insert_Some; [by left|by right].
Qed.

Lemma startAll l r :
  goroutines_ok r →
  let r' := foldl startOne r l in
  goroutines_ok r' ∧ reg_visible r' = reg_visible r ∧ reg_started r' = reg_started r ∧
  (∀ s run, reg_running r !! s = Some run → reg_running r' !! s = Some run) ∧
  (∀ s, s ∈ l → ∃ run, reg_running r' !! s = Some run ∧
     (run_shadow run = false ∨ reg_running r !! s = Some run)).
Proof.
  revert r. induction l as [|x l IH]; intros r Hg; cbn [foldl].
  { split_and!; [done..|]. by intros s ?%not_elem_of_nil. }
  destruct (startOne_step x r Hg) as (H1 & H2 & H3 & H4 & H5 & [rx H6]).
  destruct (IH _ H1) as (I1 & I2 & I3 & I4 & I5). split_and!; [done|congruence|congruence|by auto|].
  intros s [->|Hs]%elem_of_cons; [exists rx; by auto|].
  destruct (I5 s Hs) as (run & ? & [?|?]); exists run; split; auto.
Qed.

Lemma startOne_ok r l :
  goroutines_ok r →
  (∀ s run, reg_running r !! s = Some run → s ∈ l → run_shadow run = false) →
  let r' := foldl startOne r l in
  goroutines_ok r' ∧ reg_visible r' = reg_visible r ∧ reg_started r' = reg_started r ∧
  (∀ s, s ∈ l → ∃ run, reg_running r' !! s = Some run ∧ run_shadow run = false).
Proof.
  intros Hg Hsh. destruct (startAll l r Hg) as (G1 & G2 & G3 & _ & G5). split_and!; [done..|].
  intros s Hs. destruct (G5 s Hs) as (run & ? & [?|?]); eauto.
Qed.

(** Before the registry is started nothing that is listed runs in shadow. *)
Lemma Start_preserves r :
  reg_ok r →
  (∀ vip s run, s ∈ visibleOf r vip → reg_running r !! s = Some run → run_shadow run = false) →
  reg_ok (Start r).
Proof.
  intros (Hl & Hg & Hr) Hsh. unfold Start.
  set (l := concat _).
  assert (∀ s, s ∈ l ↔ ∃ vip, s ∈ visibleOf r vip) as Hin.
  { intros s. unfold l. rewrite list_elem_of_In, in_concat. split.
    - intros (l' & Hl'%list_elem_of_In & Hs%list_elem_of_In).
      apply list_elem_of_fmap in Hl' as ([vip l''] & -> & Hm). apply elem_of_map_to_list in Hm.
      exists vip. unfold visibleOf. by rewrite Hm.
    - intros (vip & Hs). unfold visibleOf in Hs. destruct (reg_visible r !! vip) as [l'|] eqn:E.
      + exists l'. split; [|by apply list_elem_of_In]. apply list_elem_of_In.
        apply (list_elem_of_fmap_2 snd _ (vip, l')). by apply elem_of_map_to_list.
      + by apply not_elem_of_nil in Hs. }
  destruct (startOne_ok (setStarted true r) l) as (H1 & H2 & H3 & H4); [done|..].
  { intros s run Hs (vip & Hv)%Hin. by eapply Hsh. }
  split; [|split; [done|]].
  - intros vip l' Hv. rewrite H2 in Hv. by apply Hl.
  - intros _ vip s Hs. apply H4, Hin. exists vip. unfold visibleOf in *. by rewrite H2 in Hs.
Qed.

(** [Stop], when every goroutine exits before the deadline: none is left. *)
Lemma Stop_all r exited :
  goroutines_ok r → reg_live r ⊆ exited →
  reg_live (Stop exited r).1 = ∅ ∧ (Stop exited r).2 = None.
Proof.
  intros (Hlive & _) Hex. unfold Stop. cbn [fst snd reg_live].
  set (runs := map_to_set _ _ : gset nat).
  assert (reg_live r ≡ runs) as Hruns.
  { intros g. rewrite Hlive. unfold runs. rewrite elem_of_map_to_set. naive_solver. }
  split; [set_solver|]. rewrite decide_True; [done|]. set_solver.
Qed.

Lemma Stop_preserves r exited :
  reg_ok r → reg_live r ⊆ exited → reg_ok (Stop exited r).1.
Proof.
  intros (Hl & Hg & Hr) Hex. split; [done|]. split; [|done].
  split; [|split].
  - intros g. rewrite (proj1 (Stop_all r exited Hg Hex)). cbn. split; [set_solver|].
    intros (s & run & Hs & _). by rewrite lookup_empty in Hs.
  - intros s1 s2 r1 r2 Hs. cbn in Hs. by rewrite lookup_empty in Hs.
  - intros s run Hs. cbn in Hs. by rewrite lookup_empty in Hs.
Qed.

(** ** Histories of the registry *)

(** A listed scheduler never runs in shadow, started or not. *)
Definition listed_plain (r : Registry) : Prop :=
  ∀ vip s run, s ∈ visibleOf r vip → reg_running r !! s = Some run → run_shadow run = false.

(** One operation of the daemon, under the contract its callers keep: a new
    scheduler is neither running nor listed, a promoted one runs and is not
    listed; [Stop] here is one whose context does not end first. *)
Inductive reg_step : Registry → Registry → Prop :=
| step_Add s r :
    reg_running r !! s = None → CheckName s ∉ CheckName <$> visibleOf r (VIPName s) →
    reg_step r (Add s r)
| step_AddShadow s r :
    reg_running r !! s = None → s ∉ visibleOf r (VIPName s) → reg_step r (AddShadow s r)
| step_Promote s r :
    is_Some (reg_running r !! s) → s ∉ visibleOf r (VIPName s) → reg_step r (Promote s r).1
| step_Remove s r : reg_step r (Remove s r)
| step_RemoveVIP vip r r' : RemoveVIP vip r = Ret r' → reg_step r r'
| step_Start r : reg_step r (Start r)
| step_Stop exited r : reg_live r ⊆ exited → reg_step r (Stop exited r).1.

Lemma Remove_plain s r : lists_ok r → listed_plain r → listed_plain (Remove s r).
Proof.
  intros Hl Hp vip x run [Hx Hne]%Remove_visible_elem; [|done].
  rewrite Remove_running, decide_False by done. by apply (Hp vip).
Qed.

Lemma Add_plain s r :
  reg_running r !! s = None → listed_plain r → listed_plain (Add s r).
Proof.
  intros Hs Hp vip x run Hx Hrun.
  assert (x = s ∨ x ∈ visibleOf r vip) as Hcase.
  { assert (visibleOf (Add s r) vip = visibleOf (setVisible (<[VIPName s :=
      visibleOf r (VIPName s) ++ [s]]> (reg_visible r)) r) vip) as Heq
      by (unfold Add; by case_match).
    rewrite Heq, visibleOf_insert in Hx. case_decide; [subst|by right].
    apply elem_of_app in Hx as [?|?%list_elem_of_singleton]; auto. }
  unfold Add in Hrun. cbn in Hrun. destruct (reg_started r); cbn in Hrun.
  - apply lookup_insert_Some in Hrun as [[_ <-]|[Hne Hrun]]; [done|].
    destruct Hcase as [->|]; [done|by apply (Hp vip x)].
  - destruct Hcase as [->|]; [by simplify_eq|by apply (Hp vip x)].
Qed.

Lemma AddShadow_plain s r :
  lists_ok r → s ∉ visibleOf r (VIPName s) → listed_plain r → listed_plain (AddShadow s r).
Proof.
  intros Hl Hn Hp vip x run Hx Hrun. cbn in Hrun.
  apply lookup_insert_Some in Hrun as [[<- _]|[_ Hrun]]; [|by apply (Hp vip x)].
  destruct Hn. by rewrite (proj2 (lists_ok_visibleOf r vip Hl) s Hx).
Qed.

Lemma Promote_plain s r : lists_ok r → listed_plain r → listed_plain (Promote s r).1.
Proof.
  intros Hl Hp vip x run Hx. rewrite Promote_running, unshadow_lookup. case_decide; [done|].
  case_decide as Hxs; [by intros (? & _ & ->)%fmap_Some|].
  rewrite visibleOf_Promote in Hx. case_decide; [|by apply (Hp vip x)]. subst.
  apply promoted_elem in Hx as [?|[Hx _]]; [done|by apply (Hp (VIPName s) x)|].
  by apply lists_ok_visibleOf.
Qed.

Lemma Start_plain r : goroutines_ok r → listed_plain r → listed_plain (Start r).
Proof.
  intros Hg Hp vip x run Hx. unfold Start in *. set (l := concat _) in *.
  enough (∀ r0, goroutines_ok r0 → reg_running (foldl startOne r0 l) !! x = Some run →
    run_shadow run = false ∨ reg_running r0 !! x = Some run) as H.
  { intros [?|Hr]%H; [done| |done]. apply (Hp vip x); [|done].
    unfold visibleOf in *. destruct (startAll l (setStarted true r) Hg) as (_ & Hv & _).
    by rewrite Hv in Hx. }
  clear. induction l as [|y l IH]; intros r0 Hg; [by right|]. cbn [foldl].
  destruct (startOne_step y r0 Hg) as (H1 & _ & _ & _ & H5 & _).
  intros [?|?]%IH; [by left|by apply H5|done].
Qed.

Lemma removeVIPLoop_keeps vip (P : Registry → Prop) :
  (∀ s r, P r → P (Remove s r)) →
  ∀ fuel n i r r', P r → removeVIPLoop vip n i fuel r = Ret r' → P r'.
Proof.
  intros HP. induction fuel as [|fuel IH]; intros n i r r' Hr; cbn; [by intros [= <-]|].
  destruct (backing _ _ !! i) as [[s|]|]; try done. apply IH. by apply HP.
Qed.

Lemma reg_step_preserves r r' :
  reg_step r r' → reg_ok r ∧ listed_plain r → reg_ok r' ∧ listed_plain r'.
Proof.
  intros Hstep [Hok Hp]. pose proof Hok as (Hl & Hg & _). destruct Hstep as
    [s r ? ?|s r ? ?|s r ? ?|s r|vip r r' Hr|r|exited r Hex].
  - split; [by apply Add_preserves|by apply Add_plain].
  - split; [by apply AddShadow_preserves|by apply AddShadow_plain].
  - split; [by apply Promote_preserves|by apply Promote_plain].
  - split; [by apply Remove_preserves|by apply Remove_plain].
  - revert Hr. apply (removeVIPLoop_keeps vip (λ r, reg_ok r ∧ listed_plain r)); [|done].
    intros s r0 [H0 ?]. split; [by apply Remove_preserves|]. apply Remove_plain; [apply H0|done].
  - split; [by apply Start_preserves|by apply Start_plain].
  - split; [by apply Stop_preserves|]. intros v x run _ Hx. cbn in Hx. by rewrite lookup_empty in Hx.
Qed.

Lemma NewRegistry_ok : reg_ok NewRegistry ∧ listed_plain NewRegistry.
Proof.
  split; [split; [|split]|].
  - intros vip l H. cbn in H; by rewrite lookup_empty in H.
  - split; [|split].
    + intros g. split; [set_solver|]. intros (s & run & H & _). cbn in H; by rewrite lookup_empty in H.
    + intros s1 s2 r1 r2 H. cbn in H; by rewrite lookup_empty in H.
    + intros s run H. cbn in H; by rewrite lookup_empty in H.
  - done.
  - intros vip s run _ H. cbn in H; by rewrite lookup_empty in H.
Qed.

Lemma registry_reachable_ok r :
  rtc reg_step NewRegistry r → reg_ok r ∧ listed_plain r.
Proof.
  intros H. pose proof NewRegistry_ok as H0. revert H0.
  induction H as [|? ? ? Hs _ IH]; [done|]. intros H0. by eapply IH, reg_step_preserves.
Qed.

(** ** Properties *)


(** [Promote] swaps a shadow scheduler in: it takes the place of the
    listed scheduler of the same check name without moving any other (or is
    appended), returns the one it replaced, whose goroutine is gone, and the
    promoted goroutine keeps running under its own number. *)
Theorem Promote_replaces s r run :
  reg_ok r → s ∉ visibleOf r (VIPName s) → reg_running r !! s = Some run →
  let '(r', old) := Promote s r in
  reg_ok r' ∧ reg_running r' !! s = Some (mkRunning (run_id run) false) ∧
  match old with
  | Some o =>
      CheckName o = CheckName s ∧ reg_running r' !! o = None ∧
      ∃ i, visibleOf r (VIPName s) !! i = Some o ∧
           visibleOf r' (VIPName s) = <[i := s]> (visibleOf r (VIPName s))
  | None =>
      CheckName s ∉ CheckName <$> visibleOf r (VIPName s) ∧
      visibleOf r' (VIPName s) = visibleOf r (VIPName s) ++ [s]
  end.
Proof.
  intros Hok Hn Hs. destruct (Promote s r) as [r' old] eqn:E.
  pose proof (Promote_preserves s r Hok Hn ltac:(eauto)) as Hok'.
  pose proof (Promote_running s r) as Hrun. pose proof (visibleOf_Promote s r (VIPName s)) as Hvis.
  pose proof (Promote_returns s r) as Hret. rewrite E in *. cbn [fst snd] in *.
  rewrite decide_True in Hvis by done. unfold promoted in *. split; [done|].
  destruct (list_find _ _) as [[i o]|] eqn:Ef; cbn [fst snd] in *; subst old.
  - apply list_find_Some in Ef as (Hi & Hname & _).
    assert (s ≠ o) by (intros <-; by apply Hn, list_elem_of_lookup_2 with i).
    rewrite Hrun, decide_False, unshadow_lookup, decide_True, Hs by congruence.
    split; [done|]. split; [done|]. split; [by rewrite Hrun, decide_True|]. by exists i.
  - rewrite Hrun, decide_False, unshadow_lookup, decide_True, Hs by done. split; [done|].
    split; [|done]. apply list_find_None in Ef. rewrite Forall_forall in Ef.
    intros (x & Hx & Hin)%list_elem_of_fmap. by apply (Ef x).
Qed.

(** C27: [RemoveVIP] ranges over a slice that [Remove] shrinks in place: it
    stops the scheduler of a VIP with one check, and panics on a nil
    scheduler for every VIP with two or more. *)
Theorem RemoveVIP_panics r vip :
  rtc reg_step NewRegistry r →
  RemoveVIP vip r =
    match visibleOf r vip with
    | [] => Ret r
    | [s] => Ret (Remove s r)
    | _ => Panic
    end.
Proof.
  intros [[Hok _] _]%registry_reachable_ok. destruct (visibleOf r vip) as [|s [|s' l]] eqn:E.
  - by apply RemoveVIP_none.
  - by apply RemoveVIP_single.
  - apply RemoveVIP_two; [done|]. rewrite E. cbn. lia.
Qed.

End Registry.

(** ** Witnesses: one VIP with the checks ping (0), dns (1), and a new ping (2) *)
Definition wr_vip (_ : ptr) : string := "vip".
Definition wr_check (s : ptr) : string := if decide (s = 1%nat) then "dns" else "ping".
Definition wr_two : Registry := Add wr_vip 1%nat (Add wr_vip 0%nat (Start NewRegistry)).

Lemma wr_two_reachable : rtc (reg_step wr_vip wr_check) NewRegistry wr_two.
Proof.
  eapply rtc_l; [apply step_Start|].
  eapply rtc_l; [apply (step_Add _ _ 0%nat); [by vm_compute|by_compute]|].
  eapply rtc_l; [apply (step_Add _ _ 1%nat); [by vm_compute|by_compute]|].
  apply rtc_refl.
Qed.


Lemma Promote_replaces_witness :
  visibleOf (Promote wr_vip wr_check 2%nat (AddShadow 2%nat wr_two)).1 "vip" = [2; 1]%nat ∧
  (Promote wr_vip wr_check 2%nat (AddShadow 2%nat wr_two)).2 = Some 0%nat ∧
  reg_live (Promote wr_vip wr_check 2%nat (AddShadow 2%nat wr_two)).1 = {[1%nat; 2%nat]} ∧
  reg_ok wr_vip wr_check (Promote wr_vip wr_check 2%nat (AddShadow 2%nat wr_two)).1.
Proof.
  split; [by vm_compute|]. split; [by vm_compute|]. split; [by vm_compute|].
  assert (2%nat ∉ [0; 1]%nat) as Hn by (by_compute).
  pose proof (Promote_replaces wr_vip wr_check 2%nat (AddShadow 2%nat wr_two) (mkRunning 2 true)
    (AddShadow_preserves wr_vip wr_check 2%nat wr_two
       (proj1 (registry_reachable_ok _ _ _ wr_two_reachable)) eq_refl Hn) Hn eq_refl) as H.
  destruct (Promote wr_vip wr_check 2%nat (AddShadow 2%nat wr_two)) as [r' old]. apply H.
Defined.

Lemma RemoveVIP_panics_witness : RemoveVIP wr_vip "vip" wr_two = Panic.
Proof. exact (RemoveVIP_panics wr_vip wr_check wr_two "vip" wr_two_reachable). Defined.

End Registry.
Export Registry.
