(* ===== verification/Diff.v ===== *)
(** * What a reload changes: internal/config/diff.go

    [RestartRequired] lists the sections that cannot change at runtime,
    [DiffVIPs] compares two VIP lists by name and [diffVIP] the checks of one
    VIP.  A pointer to a VIP or a check is the value it points to: neither
    list is written after it is loaded. *)

From S2P Require Import Prelude GoStrings Config.

Module Diff.

(** [rl.Level = ""] on a copy. *)
Definition clearLevel (l : LoggingConfig) : LoggingConfig :=
  mkLoggingConfig EmptyString (Logging_Format l) (Logging_OTelLevel l) (Logging_Timestamps l).

(** [rb.Neighbors = nil] on a copy. *)
Definition clearNeighbors (b : BGPConfig) : BGPConfig :=
  mkBGPConfig (BGP_GracefulRestart b) (BGP_HoldTime b) (BGP_KeepaliveTime b) (BGP_ListenAddress b)
    (BGP_ListenPort b) (BGP_GoBGPAPI b) None.

(** [if !cond { changed = append(changed, name) }]. *)
Definition unless (same : bool) (name : string) : list string := if same then [] else [name].

(** [RestartRequired]. *)
Definition RestartRequired (running candidate : Config) : list string :=
  unless (bool_decide (Cfg_Schema running = Cfg_Schema candidate)) "schema" ++
  unless (deepEqual (Cfg_Router running) (Cfg_Router candidate)) "router" ++
  unless (deepEqual (Cfg_API running) (Cfg_API candidate)) "api" ++
  unless (deepEqual (clearLevel (Cfg_Logging running)) (clearLevel (Cfg_Logging candidate)))
    "logging (other than level)" ++
  unless (deepEqual (Cfg_OTel running) (Cfg_OTel candidate)) "otel" ++
  unless (deepEqual (Cfg_Paths running) (Cfg_Paths candidate)) "paths" ++
  unless (deepEqual (clearNeighbors (Cfg_BGP running)) (clearNeighbors (Cfg_BGP candidate))) "bgp" ++
  unless (deepEqual (BGP_Neighbors (Cfg_BGP running)) (BGP_Neighbors (Cfg_BGP candidate)))
    "bgp.neighbors".

(** [VIPChange]. *)
Record VIPChange := mkVIPChange {
  VC_Old : VIPConfig;
  VC_New : VIPConfig;
  ChecksChanged : list CheckConfig;
  ChecksRemoved : list CheckConfig;
  PolicyChanged : bool }.

(** [VIPChanges]. *)
Record VIPChanges := mkVIPChanges {
  Added : list VIPConfig;
  Removed : list VIPConfig;
  Changed : list VIPChange;
  Unchanged : list string }.

(** [IsEmpty]. *)
Definition IsEmpty (c : VIPChanges) : bool :=
  match Added c, Removed c, Changed c with
  | [], [], [] => true
  | _, _, _ => false
  end.

(** A map filled by [m[key(x)] = x] over a list: the last one wins. *)
Definition indexBy {A} (key : A → string) (l : list A) : gmap string A :=
  foldl (λ m x, <[key x := x]> m) ∅ l.

(** [diffVIP]. *)
Definition diffVIP (ov nv : VIPConfig) : VIPChange :=
  let policyChanged :=
    negb (deepEqual (VIP_Policy ov) (VIP_Policy nv))
    || negb (bool_decide (EffectiveChecksPolicy ov = EffectiveChecksPolicy nv)) in
  let guardChanged :=
    negb (eqb (VIP_RequireLocalAddress ov) (VIP_RequireLocalAddress nv))
    || negb (bool_decide (VIP_LocalInterface ov = VIP_LocalInterface nv)) in
  let oldChecks := indexBy EffectiveName (CheckList ov) in
  let newNames := indexBy EffectiveName (CheckList nv) in
  let differs c :=
    match oldChecks !! EffectiveName c with
    | None => true
    | Some oc => guardChanged || negb (deepEqual oc c)
    end in
  mkVIPChange ov nv
    (filter (λ c, differs c = true) (CheckList nv))
    (filter (λ c, newNames !! EffectiveName c = None) (CheckList ov))
    policyChanged.

(** One round of the loop of [DiffVIPs] over the candidate. *)
Definition diffOne (old : gmap string VIPConfig) (out : VIPChanges) (nv : VIPConfig) : VIPChanges :=
  let add out := mkVIPChanges (Added out ++ [nv]) (Removed out) (Changed out) (Unchanged out) in
  match old !! VIP_Name nv with
  | None => add out
  | Some ov =>
      if negb (bool_decide (VIP_Prefix ov = VIP_Prefix nv)) then
        add (mkVIPChanges (Added out) (Removed out ++ [ov]) (Changed out) (Unchanged out))
      else if deepEqual ov nv then
        mkVIPChanges (Added out) (Removed out) (Changed out) (Unchanged out ++ [VIP_Name nv])
      else
        mkVIPChanges (Added out) (Removed out) (Changed out ++ [diffVIP ov nv]) (Unchanged out)
  end.

(** [DiffVIPs]. *)
Definition DiffVIPs (running candidate : list VIPConfig) : VIPChanges :=
  let old := indexBy VIP_Name running in
  let out := foldl (diffOne old) (mkVIPChanges [] [] [] []) candidate in
  let seen := list_to_set (VIP_Name <$> candidate) : gset string in
  mkVIPChanges (Added out)
    (Removed out ++ filter (λ v, VIP_Name v ∉ seen) running)
    (Changed out) (Unchanged out).

(** ** Lemmas *)

Lemma indexBy_snoc {A} (key : A → string) (l : list A) x :
  indexBy key (l ++ [x]) = <[key x := x]> (indexBy key l).
Proof. unfold indexBy. by rewrite foldl_app. Qed.

Lemma indexBy_lookup {A} (key : A → string) (l : list A) k x :
  NoDup (key <$> l) → indexBy key l !! k = Some x ↔ x ∈ l ∧ key x = k.
Proof.
  revert x. induction l as [|y l IH] using rev_ind; intros x.
  { split; [done|]. by intros [?%not_elem_of_nil _]. }
  rewrite indexBy_snoc, fmap_app, NoDup_app, elem_of_app, list_elem_of_singleton.
  intros (Hnd & Hdis & _). rewrite lookup_insert_Some, (IH _ Hnd). split.
  - intros [[<- <-]|(? & ? & ?)]; auto.
  - intros [[Hx| ->] Hk]; [|by left]. right. split; [|done]. intros Hky.
    apply (Hdis (key y)); [|by left]. rewrite Hky, <-Hk. by apply list_elem_of_fmap_2.
Qed.

Lemma indexBy_None {A} (key : A → string) (l : list A) k :
  indexBy key l !! k = None ↔ k ∉ key <$> l.
Proof.
  induction l as [|y l IH] using rev_ind; [split; [by intros _ ?%not_elem_of_nil|done]|].
  rewrite indexBy_snoc, fmap_app, not_elem_of_app, lookup_insert_None, IH. cbn.
  rewrite list_elem_of_singleton. naive_solver.
Qed.

Lemma unless_nil b name : unless b name = [] ↔ b = true.
Proof. by destruct b. Qed.

(** The verdict of [DiffVIPs] on one candidate. *)
Inductive verdict := VAdded | VReplaced (ov : VIPConfig) | VUnchanged | VChanged (ov : VIPConfig).

Definition classify (running : list VIPConfig) (nv : VIPConfig) : verdict :=
  match indexBy VIP_Name running !! VIP_Name nv with
  | None => VAdded
  | Some ov =>
      if negb (bool_decide (VIP_Prefix ov = VIP_Prefix nv)) then VReplaced ov
      else if deepEqual ov nv then VUnchanged else VChanged ov
  end.

Definition addedBy (v : verdict) (nv : VIPConfig) : list VIPConfig :=
  match v with VAdded | VReplaced _ => [nv] | _ => [] end.
Definition removedBy (v : verdict) : list VIPConfig :=
  match v with VReplaced ov => [ov] | _ => [] end.
Definition changedBy (v : verdict) (nv : VIPConfig) : list VIPChange :=
  match v with VChanged ov => [diffVIP ov nv] | _ => [] end.
Definition unchangedBy (v : verdict) (nv : VIPConfig) : list string :=
  match v with VUnchanged => [VIP_Name nv] | _ => [] end.

(** The accumulating loop, as independent passes over the candidates. *)
Lemma DiffVIPs_eq running candidate :
  let c := classify running in
  DiffVIPs running candidate =
    mkVIPChanges (candidate ≫= λ nv, addedBy (c nv) nv)
      ((candidate ≫= λ nv, removedBy (c nv)) ++
       filter (λ v, VIP_Name v ∉ VIP_Name <$> candidate) running)
      (candidate ≫= λ nv, changedBy (c nv) nv)
      (candidate ≫= λ nv, unchangedBy (c nv) nv).
Proof.
  cbv zeta. unfold DiffVIPs.
  assert (foldl (diffOne (indexBy VIP_Name running)) (mkVIPChanges [] [] [] []) candidate =
    mkVIPChanges (candidate ≫= λ nv, addedBy (classify running nv) nv)
      (candidate ≫= λ nv, removedBy (classify running nv))
      (candidate ≫= λ nv, changedBy (classify running nv) nv)
      (candidate ≫= λ nv, unchangedBy (classify running nv) nv)) as ->.
  { induction candidate as [|nv l IH] using rev_ind; [done|].
    rewrite foldl_app, IH, !bind_app. cbn [foldl mbind list_bind]. unfold diffOne, classify.
    destruct (indexBy VIP_Name running !! VIP_Name nv) as [ov|]; cbn; [|by rewrite !app_nil_r].
    destruct (negb _), (deepEqual ov nv); cbn; by rewrite ?app_nil_r. }
  cbn. f_equal. f_equal. apply list_filter_iff. intros v. by rewrite elem_of_list_to_set.
Qed.

Lemma classify_lookup running nv ov :
  NoDup (VIP_Name <$> running) →
  indexBy VIP_Name running !! VIP_Name nv = Some ov →
  ov ∈ running ∧ VIP_Name ov = VIP_Name nv.
Proof. intros Hnd H. by apply indexBy_lookup in H. Qed.

(** Every candidate gets exactly one of the three verdicts. *)
Lemma candidate_partition running candidate :
  (VIP_Name <$> (candidate ≫= λ nv, addedBy (classify running nv) nv)) ++
  ((VIP_Name ∘ VC_New) <$> (candidate ≫= λ nv, changedBy (classify running nv) nv)) ++
  (candidate ≫= λ nv, unchangedBy (classify running nv) nv)
  ≡ₚ VIP_Name <$> candidate.
Proof.
  induction candidate as [|nv l IH]; [done|].
  cbn [mbind list_bind]. rewrite !fmap_app, !fmap_cons, <-IH.
  destruct (classify running nv); cbn; by rewrite ?Permutation_middle, ?(assoc_L (++)), ?Permutation_middle.
Qed.

(** The running VIPs that a candidate of the same name meets. *)
Lemma running_partition running candidate :
  NoDup (VIP_Name <$> running) →
  (VIP_Name <$> (candidate ≫= λ nv, removedBy (classify running nv))) ++
  ((VIP_Name ∘ VC_New) <$> (candidate ≫= λ nv, changedBy (classify running nv) nv)) ++
  (candidate ≫= λ nv, unchangedBy (classify running nv) nv)
  ≡ₚ VIP_Name <$> filter (λ nv, VIP_Name nv ∈ VIP_Name <$> running) candidate.
Proof.
  intros Hnd. induction candidate as [|nv l IH]; [done|].
  cbn [mbind list_bind]. rewrite !fmap_app, filter_cons. unfold classify at 1 3 5.
  destruct (indexBy VIP_Name running !! VIP_Name nv) as [ov|] eqn:E.
  - apply classify_lookup in E as [Hin Hname]; [|done].
    rewrite decide_True by (rewrite <-Hname; by apply list_elem_of_fmap_2).
    rewrite fmap_cons, <-IH.
    destruct (negb _), (deepEqual ov nv); cbn; rewrite ?Hname;
      by rewrite ?Permutation_middle, ?(assoc_L (++)), ?Permutation_middle.
  - apply indexBy_None in E. rewrite decide_False by done. cbn. apply IH.
Qed.

Lemma names_split (running candidate : list VIPConfig) :
  NoDup (VIP_Name <$> running) → NoDup (VIP_Name <$> candidate) →
  (VIP_Name <$> filter (λ nv, VIP_Name nv ∈ VIP_Name <$> running) candidate) ++
  (VIP_Name <$> filter (λ v, VIP_Name v ∉ VIP_Name <$> candidate) running)
  ≡ₚ VIP_Name <$> running.
Proof.
  intros Hr Hc. apply NoDup_Permutation; [|done|].
  - apply NoDup_app. split; [|split].
    + eapply sublist_NoDup; [exact Hc|]. apply fmap_sublist, sublist_filter.
    + intros x (v & -> & [_ Hv]%list_elem_of_filter)%list_elem_of_fmap
        (w & Hw & [Hn _]%list_elem_of_filter)%list_elem_of_fmap.
      apply Hn. rewrite <-Hw. by apply list_elem_of_fmap_2.
    + eapply sublist_NoDup; [exact Hr|]. apply fmap_sublist, sublist_filter.
  - intros x. rewrite elem_of_app, !list_elem_of_fmap. setoid_rewrite list_elem_of_filter. split.
    + intros [(v & -> & (w & -> & Hw)%list_elem_of_fmap & _)|(v & -> & _ & Hv)]; eauto.
    + intros (v & -> & Hv). destruct (decide (VIP_Name v ∈ VIP_Name <$> candidate)) as [H|H].
      * apply list_elem_of_fmap in H as (w & Hw & Hin). left. exists w. split; [done|].
        split; [|done]. rewrite <-Hw. by apply list_elem_of_fmap_2.
      * right. eauto.
Qed.

(** The verdict of one candidate, against the running VIP of its name. *)
Lemma classify_new (running : list VIPConfig) nv :
  (∀ ov, ov ∈ running → VIP_Name ov ≠ VIP_Name nv) → classify running nv = VAdded.
Proof.
  intros H. unfold classify. rewrite (proj2 (indexBy_None _ _ _)); [done|].
  intros (ov & Hn & Hin)%list_elem_of_fmap. by apply (H ov).
Qed.

Lemma classify_old running ov nv :
  NoDup (VIP_Name <$> running) → ov ∈ running → VIP_Name ov = VIP_Name nv →
  classify running nv =
    if negb (bool_decide (VIP_Prefix ov = VIP_Prefix nv)) then VReplaced ov
    else if deepEqual ov nv then VUnchanged else VChanged ov.
Proof.
  intros Hnd Hin Hn. unfold classify.
  by rewrite (proj2 (indexBy_lookup VIP_Name running (VIP_Name nv) ov Hnd) (conj Hin Hn)).
Qed.

(** A candidate either meets a running VIP of its name or is new. *)
Lemma meets (running : list VIPConfig) nv :
  (∃ ov, ov ∈ running ∧ VIP_Name ov = VIP_Name nv) ∨
  (∀ ov, ov ∈ running → VIP_Name ov ≠ VIP_Name nv).
Proof.
  destruct (decide (VIP_Name nv ∈ VIP_Name <$> running)) as [H|H].
  - left. apply list_elem_of_fmap in H as (ov & ? & ?). eauto.
  - right. intros ov Hin Hn. apply H. rewrite <-Hn. by apply list_elem_of_fmap_2.
Qed.

(** Case analysis on what a candidate meets, computing its verdict. *)
Ltac classify_cases running nv Hnd :=
  let ov := fresh "ov" in
  destruct (meets running nv) as [(ov & ? & ?)|?];
  [rewrite (classify_old running ov nv Hnd) by done; case_bool_decide; cbn;
   [destruct (deepEqual ov nv) eqn:?; cbn|]
  |rewrite (classify_new running nv) by done; cbn].

Section Verdicts.
Context (running candidate : list VIPConfig).
Context (Hr : NoDup (VIP_Name <$> running)) (Hc : NoDup (VIP_Name <$> candidate)).

Lemma same_running ov ov' :
  ov ∈ running → ov' ∈ running → VIP_Name ov = VIP_Name ov' → ov = ov'.
Proof. by apply NoDup_fmap_elem_of. Qed.

Lemma same_candidate nv nv' :
  nv ∈ candidate → nv' ∈ candidate → VIP_Name nv = VIP_Name nv' → nv = nv'.
Proof. by apply NoDup_fmap_elem_of. Qed.

Lemma addedBy_spec nv x :
  x ∈ addedBy (classify running nv) nv ↔
  x = nv ∧ ∀ ov, ov ∈ running → VIP_Name ov = VIP_Name nv → VIP_Prefix ov ≠ VIP_Prefix nv.
Proof.
  classify_cases running nv Hr; rewrite ?list_elem_of_singleton, ?elem_of_nil; split; try done.
  - intros [_ H']. by edestruct H'.
  - intros [_ H']. by edestruct H'.
  - intros ->. split; [done|]. intros ov' ? ?.
    by rewrite (same_running ov' ov) by congruence.
  - by intros [-> _].
  - intros ->. split; [done|]. naive_solver.
  - by intros [-> _].
Qed.

Lemma removedBy_spec nv x :
  x ∈ removedBy (classify running nv) ↔
  x ∈ running ∧ VIP_Name x = VIP_Name nv ∧ VIP_Prefix x ≠ VIP_Prefix nv.
Proof.
  classify_cases running nv Hr; rewrite ?list_elem_of_singleton, ?elem_of_nil; split; try done.
  - intros (? & ? & Hp). by rewrite (same_running x ov) in Hp by congruence.
  - intros (? & ? & Hp). by rewrite (same_running x ov) in Hp by congruence.
  - by intros ->.
  - intros (? & ? & _). apply same_running; congruence.
  - intros (? & ? & _). naive_solver.
Qed.

Lemma changedBy_spec nv ch :
  ch ∈ changedBy (classify running nv) nv ↔
  ∃ ov, ch = diffVIP ov nv ∧ ov ∈ running ∧ VIP_Name ov = VIP_Name nv ∧
        VIP_Prefix ov = VIP_Prefix nv ∧ deepEqual ov nv = false.
Proof.
  classify_cases running nv Hr; rewrite ?list_elem_of_singleton, ?elem_of_nil; split; try done.
  - intros (ov' & _ & ? & ? & _ & Hd). rewrite (same_running ov' ov) in Hd by congruence. congruence.
  - intros ->. by exists ov.
  - intros (ov' & -> & ? & ? & _). by rewrite (same_running ov' ov) by congruence.
  - intros (ov' & _ & ? & ? & Hp & _). by rewrite (same_running ov' ov) in Hp by congruence.
  - naive_solver.
Qed.

Lemma unchangedBy_spec nv name :
  name ∈ unchangedBy (classify running nv) nv ↔
  ∃ ov, ov ∈ running ∧ VIP_Name ov = name ∧ VIP_Name nv = name ∧
        VIP_Prefix ov = VIP_Prefix nv ∧ deepEqual ov nv = true.
Proof.
  classify_cases running nv Hr; rewrite ?list_elem_of_singleton, ?elem_of_nil; split; try done.
  - intros ->. by exists ov.
  - naive_solver.
  - intros (ov' & ? & ? & ? & _ & Hd). rewrite (same_running ov' ov) in Hd by congruence. congruence.
  - intros (ov' & ? & ? & ? & Hp & _). by rewrite (same_running ov' ov) in Hp by congruence.
  - naive_solver.
Qed.
End Verdicts.

(** Which checks of a changed VIP must prove themselves again. *)
Definition guardChanged (ov nv : VIPConfig) : Prop :=
  VIP_RequireLocalAddress ov ≠ VIP_RequireLocalAddress nv ∨
  VIP_LocalInterface ov ≠ VIP_LocalInterface nv.

Lemma differs_spec ov nv oc c :
  negb (eqb (VIP_RequireLocalAddress ov) (VIP_RequireLocalAddress nv))
    || negb (bool_decide (VIP_LocalInterface ov = VIP_LocalInterface nv))
    || negb (deepEqual (A := CheckConfig) oc c) = true ↔
  guardChanged ov nv ∨ deepEqual oc c = false.
Proof.
  unfold guardChanged.
  rewrite !orb_true_iff, !negb_true_iff, bool_decide_eq_false, eqb_false_iff. done.
Qed.

(** ** Properties *)

Lemma DiffVIPs_accounts running candidate :
  NoDup (VIP_Name <$> running) → NoDup (VIP_Name <$> candidate) →
  let d := DiffVIPs running candidate in
  (VIP_Name <$> Added d) ++ ((VIP_Name ∘ VC_New) <$> Changed d) ++ Unchanged d
    ≡ₚ VIP_Name <$> candidate ∧
  (VIP_Name <$> Removed d) ++ ((VIP_Name ∘ VC_New) <$> Changed d) ++ Unchanged d
    ≡ₚ VIP_Name <$> running.
Proof.
  intros Hr Hc. cbv zeta. rewrite DiffVIPs_eq. cbn [Added Removed Changed Unchanged].
  split; [apply candidate_partition|].
  rewrite fmap_app, <-(assoc_L (++)), (Permutation_app_comm (VIP_Name <$> filter _ running)).
  rewrite (assoc_L (++)), running_partition by done. by apply names_split.
Qed.

(** A reload is accepted only when nothing that needs a restart changed:
    [RestartRequired] is empty exactly when the two configs agree everywhere
    but in their VIPs and in logging.level. *)
Theorem RestartRequired_nil running candidate :
  RestartRequired running candidate = [] ↔
  Cfg_Schema running = Cfg_Schema candidate ∧ Cfg_Router running = Cfg_Router candidate ∧
  Cfg_API running = Cfg_API candidate ∧
  Logging_Format (Cfg_Logging running) = Logging_Format (Cfg_Logging candidate) ∧
  Logging_OTelLevel (Cfg_Logging running) = Logging_OTelLevel (Cfg_Logging candidate) ∧
  Logging_Timestamps (Cfg_Logging running) = Logging_Timestamps (Cfg_Logging candidate) ∧
  Cfg_OTel running = Cfg_OTel candidate ∧ Cfg_Paths running = Cfg_Paths candidate ∧
  Cfg_BGP running = Cfg_BGP candidate.
Proof.
  unfold RestartRequired. rewrite !app_nil, !unless_nil, bool_decide_eq_true, !deepEqual_spec.
  destruct running as [s1 ro1 a1 [] o1 p1 [] v1], candidate as [s2 ro2 a2 [] o2 p2 [] v2].
  unfold clearLevel, clearNeighbors. cbn. split; intros; destruct_and!; simplify_eq;
    match goal with H : @eq BGPConfig _ _ |- _ => injection H; intros; subst end; by split_and!.
Qed.

(** [DiffVIPs] accounts for every VIP exactly once: each candidate is
    added, changed or unchanged; each running VIP is removed, changed or
    unchanged. *)
Theorem DiffVIPs_partition running candidate :
  NoDup (VIP_Name <$> running) → NoDup (VIP_Name <$> candidate) →
  let d := DiffVIPs running candidate in
  (VIP_Name <$> Added d) ++ ((VIP_Name ∘ VC_New) <$> Changed d) ++ Unchanged d
    ≡ₚ VIP_Name <$> candidate ∧
  (VIP_Name <$> Removed d) ++ ((VIP_Name ∘ VC_New) <$> Changed d) ++ Unchanged d
    ≡ₚ VIP_Name <$> running.
Proof. apply DiffVIPs_accounts. Qed.

(** A VIP is unchanged, changed, added or removed for the reason the
    reload acts on: only a definition deeply equal to the running one is left
    alone, a changed one keeps its name and prefix, a changed prefix is a
    removal and an addition, and what is removed is running and has no
    candidate of its name and prefix. *)
Theorem DiffVIPs_verdicts running candidate :
  NoDup (VIP_Name <$> running) → NoDup (VIP_Name <$> candidate) →
  let d := DiffVIPs running candidate in
  (∀ nv, nv ∈ Added d ↔ nv ∈ candidate ∧
     ∀ ov, ov ∈ running → VIP_Name ov = VIP_Name nv → VIP_Prefix ov ≠ VIP_Prefix nv) ∧
  (∀ ov, ov ∈ Removed d ↔ ov ∈ running ∧
     ∀ nv, nv ∈ candidate → VIP_Name ov = VIP_Name nv → VIP_Prefix ov ≠ VIP_Prefix nv) ∧
  (∀ ch, ch ∈ Changed d ↔ ∃ ov nv, ch = diffVIP ov nv ∧ ov ∈ running ∧ nv ∈ candidate ∧
     VIP_Name ov = VIP_Name nv ∧ VIP_Prefix ov = VIP_Prefix nv ∧ deepEqual ov nv = false) ∧
  (∀ name, name ∈ Unchanged d ↔ ∃ ov nv, ov ∈ running ∧ nv ∈ candidate ∧
     VIP_Name ov = name ∧ VIP_Name nv = name ∧ VIP_Prefix ov = VIP_Prefix nv ∧
     deepEqual ov nv = true).
Proof.
  intros Hr Hc. cbv zeta. rewrite DiffVIPs_eq. cbn [Added Removed Changed Unchanged].
  split; [|split; [|split]].
  - intros nv. rewrite list_elem_of_bind. setoid_rewrite addedBy_spec; [|done]. naive_solver.
  - intros ov. rewrite elem_of_app, list_elem_of_bind, list_elem_of_filter.
    setoid_rewrite removedBy_spec; [|done]. split.
    + intros [(nv & (? & Hn & Hp) & Hin)|[Hn ?]]; (split; [done|]); intros nv' Hin' Hn'.
      * by rewrite (same_candidate candidate Hc nv' nv) by congruence.
      * destruct Hn. rewrite Hn'. by apply list_elem_of_fmap_2.
    + intros [Hin H]. destruct (decide (VIP_Name ov ∈ VIP_Name <$> candidate)) as [E|E]; [left|by right].
      apply list_elem_of_fmap in E as (nv & ? & ?). naive_solver.
  - intros ch. rewrite list_elem_of_bind. setoid_rewrite changedBy_spec; [|done]. naive_solver.
  - intros name. rewrite list_elem_of_bind. setoid_rewrite unchangedBy_spec; [|done]. naive_solver.
Qed.

(** The checks of a changed VIP that must reach a verdict first are those
    that are new or whose definition differs, and all of them when the local
    address guard changed; the removed checks are those with no candidate of
    their name. *)
Theorem diffVIP_checks ov nv :
  NoDup (checkNames ov) →
  (∀ c, c ∈ ChecksChanged (diffVIP ov nv) ↔ c ∈ CheckList nv ∧
     (guardChanged ov nv ∨
      ∀ oc, oc ∈ CheckList ov → EffectiveName oc = EffectiveName c → deepEqual oc c = false)) ∧
  (∀ c, c ∈ ChecksRemoved (diffVIP ov nv) ↔ c ∈ CheckList ov ∧ EffectiveName c ∉ checkNames nv).
Proof.
  intros Hnd. split; intros c; cbn [ChecksChanged ChecksRemoved diffVIP]; rewrite list_elem_of_filter.
  - destruct (indexBy EffectiveName (CheckList ov) !! EffectiveName c) as [oc|] eqn:E.
    + rewrite differs_spec. apply indexBy_lookup in E as [Hin Hn]; [|done]. split.
      * intros [[Hg|Hd] Hc]; (split; [done|]); [by left|right]. intros oc' Hin' Hn'.
        rewrite (NoDup_fmap_elem_of EffectiveName (CheckList ov) oc' oc Hnd Hin' Hin); congruence.
      * intros [Hc [Hg|Hd]]; auto.
    + apply indexBy_None in E. split; [|by intros []]. intros [_ Hc]. split; [done|right].
      intros oc Hin Hn. destruct E. rewrite <-Hn. by apply list_elem_of_fmap_2.
  - rewrite indexBy_None. unfold checkNames. naive_solver.
Qed.

(** ** Witnesses *)

Definition wd_check (name typ : string) : CheckConfig :=
  mkCheckConfig name typ false None None None None None None None None None None None None None.
Definition wd_vip (name prefix : string) (checks : list CheckConfig) : VIPConfig :=
  mkVIPConfig name prefix zeroCheck (Some checks) EmptyString zeroPolicy false EmptyString.
Definition wd_running : list VIPConfig :=
  [wd_vip "a" "10.0.0.1/32" [wd_check "c" "tcp"]; wd_vip "b" "10.0.0.2/32" [wd_check "c" "tcp"];
   wd_vip "d" "10.0.0.4/32" [wd_check "c" "tcp"]; wd_vip "e" "10.0.0.5/32" [wd_check "c" "tcp"]].
Definition wd_candidate : list VIPConfig :=
  [wd_vip "a" "10.0.0.1/32" [wd_check "c" "tcp"]; wd_vip "b" "10.0.0.2/32" [wd_check "c" "udp"];
   wd_vip "d" "10.0.0.6/32" [wd_check "c" "tcp"]; wd_vip "f" "10.0.0.7/32" [wd_check "c" "tcp"]].

Lemma DiffVIPs_partition_witness :
  (VIP_Name <$> Removed (DiffVIPs wd_running wd_candidate)) = ["d"; "e"] ∧
  (VIP_Name <$> Removed (DiffVIPs wd_running wd_candidate)) ++
    ((VIP_Name ∘ VC_New) <$> Changed (DiffVIPs wd_running wd_candidate)) ++
    Unchanged (DiffVIPs wd_running wd_candidate) ≡ₚ ["a"; "b"; "d"; "e"].
Proof.
  split; [by vm_compute|].
  apply (DiffVIPs_partition wd_running wd_candidate); by_compute.
Defined.

Lemma DiffVIPs_verdicts_witness :
  Unchanged (DiffVIPs wd_running wd_candidate) = ["a"] ∧
  ("a" ∈ Unchanged (DiffVIPs wd_running wd_candidate) ↔
   ∃ ov nv, ov ∈ wd_running ∧ nv ∈ wd_candidate ∧ VIP_Name ov = "a" ∧ VIP_Name nv = "a" ∧
            VIP_Prefix ov = VIP_Prefix nv ∧ deepEqual ov nv = true).
Proof.
  split; [by vm_compute|].
  apply (DiffVIPs_verdicts wd_running wd_candidate); by_compute.
Defined.

Lemma diffVIP_checks_witness :
  let ov := wd_vip "a" "10.0.0.1/32" [wd_check "x" "tcp"; wd_check "y" "tcp"] in
  let nv := wd_vip "a" "10.0.0.1/32" [wd_check "x" "udp"; wd_check "z" "tcp"] in
  EffectiveName <$> ChecksChanged (diffVIP ov nv) = ["x"; "z"] ∧
  (∀ c, c ∈ ChecksRemoved (diffVIP ov nv) ↔ c ∈ CheckList ov ∧ EffectiveName c ∉ checkNames nv).
Proof.
  split; [by vm_compute|]. apply (diffVIP_checks _ _). by_compute.
Defined.

End Diff.
Export Diff.
