(* ===== verification/PolicyManager.v ===== *)
(** * VIP states and their routes: internal/policy/manager.go, reload.go

    The policy manager keeps an entry per VIP, combines the health of its
    checks, decides the state of the VIP and applies it to BGP.  Every
    operation holds [m.mu], so each is one step on the [Manager].

    The notifier is an interface of the source: [BGPNotifier] are its
    operations on an abstract state, [BGPNotifierLaws] what the manager's
    client-side theorems rely on; the BGP manager discharges them.  [stat]
    is [os.Stat(path)] succeeding, [now] is [time.Now()]; both are arguments
    of the operations that look.  The listener runs on its own goroutine:
    [mg_fired] counts its launches. *)

From S2P Require Import Prelude GoStrings Config Model Metrics ChecksPolicy Engine Scheduler.

Module PolicyManager.

(** ** The interface to BGP *)
Class BGPNotifier (B : Type) := {
  AnnounceVIP : string → RouteAttrs → B → B * goerror;
  WithdrawVIP : string → B → B * goerror;
  PessimizeVIP : string → RouteAttrs → B → B * goerror }.

(** [installed b p] is the route originated for the prefix [p], and
    [originated p a] the one that carries the attributes [a]; two prefixes with
    [same_route] name the same route.  A failed withdraw leaves the route as it
    was; a failed announcement may leave the old route, or none. *)
Class BGPNotifierLaws (B : Type) `{BGPNotifier B} := {
  Route : Type;
  originated : string → RouteAttrs → Route;
  bgp_valid : B → Prop;
  installed : B → string → option Route;
  same_route : string → string → Prop;
  same_route_sym p q : same_route p q → same_route q p;
  installed_same b p q : same_route p q → installed b p = installed b q;
  announce_valid p a b : bgp_valid b → bgp_valid (AnnounceVIP p a b).1;
  pessimize_valid p a b : bgp_valid b → bgp_valid (PessimizeVIP p a b).1;
  withdraw_valid p b : bgp_valid b → bgp_valid (WithdrawVIP p b).1;
  announce_installs p a b b' :
    bgp_valid b → AnnounceVIP p a b = (b', None) → installed b' p = Some (originated p a);
  pessimize_installs p a b b' :
    bgp_valid b → PessimizeVIP p a b = (b', None) → installed b' p = Some (originated p a);
  withdraw_removes p b b' :
    bgp_valid b → WithdrawVIP p b = (b', None) → installed b' p = None;
  withdraw_fails p b b' err :
    bgp_valid b → WithdrawVIP p b = (b', Some err) → installed b' p = installed b p;
  announce_frame p a b q :
    bgp_valid b → ¬ same_route p q → installed (AnnounceVIP p a b).1 q = installed b q;
  pessimize_frame p a b q :
    bgp_valid b → ¬ same_route p q → installed (PessimizeVIP p a b).1 q = installed b q;
  withdraw_frame p b q :
    bgp_valid b → ¬ same_route p q → installed (WithdrawVIP p b).1 q = installed b q }.

(** ** State *)

(** [checkState]. *)
Record checkState := mkCheckState {
  cs_cfg : CheckConfig;
  cs_health : HealthStatus;
  cs_lastResult : Result;
  cs_lastTime : Z }.

(** [vipState]. *)
Record vipState := mkVipState {
  vs_state : VIPState;
  vs_health : HealthStatus;
  vs_checks : gmap string checkState;
  vs_lowerPriorityFileOn : bool;
  vs_lastTransitionAt : Z;
  vs_lastTransitionReason : string;
  vs_bgpPending : bool }.

(** [CheckSeed]. *)
Record CheckSeed := mkCheckSeed {
  Seed_Health : HealthStatus;
  Seed_LastResult : Result;
  Seed_LastTime : Z }.

Definition setChecks (vs : vipState) (checks : gmap string checkState) : vipState :=
  mkVipState (vs_state vs) (vs_health vs) checks (vs_lowerPriorityFileOn vs)
    (vs_lastTransitionAt vs) (vs_lastTransitionReason vs) (vs_bgpPending vs).
Definition setHealth (vs : vipState) (h : HealthStatus) : vipState :=
  mkVipState (vs_state vs) h (vs_checks vs) (vs_lowerPriorityFileOn vs)
    (vs_lastTransitionAt vs) (vs_lastTransitionReason vs) (vs_bgpPending vs).
Definition setFileOn (vs : vipState) (on : bool) : vipState :=
  mkVipState (vs_state vs) (vs_health vs) (vs_checks vs) on
    (vs_lastTransitionAt vs) (vs_lastTransitionReason vs) (vs_bgpPending vs).
Definition setPending (vs : vipState) (pending : bool) : vipState :=
  mkVipState (vs_state vs) (vs_health vs) (vs_checks vs) (vs_lowerPriorityFileOn vs)
    (vs_lastTransitionAt vs) (vs_lastTransitionReason vs) pending.

(** A non-nil error. *)
Definition isErr (e : goerror) : bool := match e with Some _ => true | None => false end.

(** [priorityFor]. *)
Definition priorityFor (p : PolicyConfig) (state : VIPState) : Z :=
  match state with
  | StatePessimized => ASPathPrepend (RouteAttrsFor p state)
  | _ => ASPathPrepend (BaseRouteAttrs p)
  end.

(** [lowerPriorityFilePresent]. *)
Definition lowerPriorityFilePresent (stat : string → bool) (path : string) : bool :=
  if decide (path = EmptyString) then false else stat path.

(** The check a transition or a result is for: the named one, or the only one
    of a single-check VIP; with its key. *)
Definition findCheck (checks : gmap string checkState) (name : string)
    : option (string * checkState) :=
  match checks !! name with
  | Some c => Some (name, c)
  | None =>
      match map_to_list checks with
      | [only] => Some only
      | _ => None
      end
  end.

(** The check states [newVIPEntry] makes. *)
Definition newChecks (l : list CheckConfig) : gmap string checkState :=
  foldl (λ m c, <[EffectiveName c := mkCheckState c HealthUnknown zeroResult 0]> m) ∅ l.

Section PolicyManager.
Context `{ExprLang} {B : Type} `{BGPNotifier B}.

Record vipEntry := mkVipEntry {
  ve_cfg : VIPConfig;
  ve_eval : ChecksEvaluator;
  ve_state : vipState }.

Record Manager := mkManager {
  mg_vips : gmap string vipEntry;
  mg_order : list string;
  mg_metrics : Metrics;
  mg_notifier : option B;
  mg_onTransition : bool;
  mg_fired : nat }.

Definition setVips (m : Manager) (vips : gmap string vipEntry) : Manager :=
  mkManager vips (mg_order m) (mg_metrics m) (mg_notifier m) (mg_onTransition m) (mg_fired m).
Definition setMetrics (m : Manager) (x : Metrics) : Manager :=
  mkManager (mg_vips m) (mg_order m) x (mg_notifier m) (mg_onTransition m) (mg_fired m).
Definition setNotifier (m : Manager) (n : option B) : Manager :=
  mkManager (mg_vips m) (mg_order m) (mg_metrics m) n (mg_onTransition m) (mg_fired m).
Definition setEntry (m : Manager) (name : string) (e : vipEntry) : Manager :=
  setVips m (<[name := e]> (mg_vips m)).

(** [SetTransitionListener]. *)
Definition SetTransitionListener (m : Manager) : Manager :=
  mkManager (mg_vips m) (mg_order m) (mg_metrics m) (mg_notifier m) true (mg_fired m).

(** [newVIPEntry]. *)
Definition newVIPEntry (stat : string → bool) (now : Z) (v : VIPConfig) : vipEntry :=
  let cs := newChecks (CheckList v) in
  let names := checkNames v in
  let eval :=
    match CompileChecksPolicy (VIP_ChecksPolicy v) names with
    | Ok e => e
    | Err _ =>
        match CompileChecksPolicy ChecksPolicyAll names with
        | Ok e => e
        | Err _ => mkChecksEvaluator ChecksPolicyAll names None
        end
    end in
  mkVipEntry v eval
    (mkVipState StateWithdrawn HealthUnknown cs
       (lowerPriorityFilePresent stat (Policy_LowerPriorityFile (VIP_Policy v)))
       now "initial" false).

(** The gauges a VIP starts with. *)
Definition initSeries (v : VIPConfig) (x : Metrics) : Metrics :=
  Set_ M_VIPPriority [VIP_Name v; VIP_Prefix v] (priorityFor (VIP_Policy v) StateWithdrawn)
    (Set_ M_VIPState [VIP_Name v; VIP_Prefix v] (VIPState_int StateWithdrawn) x).

(** The loop body of [NewManager]; [AddVIP] does the same. *)
Definition registerVIP (stat : string → bool) (now : Z) (m : Manager) (v : VIPConfig) : Manager :=
  mkManager (<[VIP_Name v := newVIPEntry stat now v]> (mg_vips m))
    (mg_order m ++ [VIP_Name v]) (initSeries v (mg_metrics m))
    (mg_notifier m) (mg_onTransition m) (mg_fired m).

(** [NewManager]. *)
Definition NewManager (stat : string → bool) (now : Z) (vipConfigs : list VIPConfig)
    (x : Metrics) (notifier : option B) : Manager :=
  foldl (registerVIP stat now) (mkManager ∅ [] x notifier false 0) vipConfigs.

(** [combineHealth]. *)
Definition combineHealth (eval : ChecksEvaluator) (cs : gmap string checkState) : HealthStatus :=
  let anyKnown := negb (bool_decide (map_Forall (λ _ c, cs_health c = HealthUnknown) cs)) in
  let healthy := (λ c, bool_decide (cs_health c = HealthHealthy)) <$> cs in
  if anyKnown then if Eval eval healthy then HealthHealthy else HealthUnhealthy
  else HealthUnknown.

(** [applyBGP]. *)
Definition applyBGP (cfg : VIPConfig) (state : VIPState) (b : B) : B * goerror :=
  match state with
  | StateAnnounced => AnnounceVIP (VIP_Prefix cfg) (RouteAttrsFor (VIP_Policy cfg) state) b
  | StateWithdrawn => WithdrawVIP (VIP_Prefix cfg) b
  | StatePessimized => PessimizeVIP (VIP_Prefix cfg) (RouteAttrsFor (VIP_Policy cfg) state) b
  end.

(** [transitionStateLocked] on the VIP state [vs] of an entry the caller
    writes back. *)
Definition transitionStateLocked (now : Z) (m : Manager) (vs : vipState) (cfg : VIPConfig)
    (newState : VIPState) (reason : string) : Manager * vipState :=
  if decide (newState = vs_state vs) then (m, vs) else
  let labels := [VIP_Name cfg; VIP_Prefix cfg] in
  let x := Set_ M_VIPState labels (VIPState_int newState) (mg_metrics m) in
  let x := Inc M_VIPTransitions (labels ++ [VIPState_String newState]) x in
  let x := Set_ M_VIPLastTransition labels (Unix now) x in
  let x := Set_ M_VIPPriority labels (priorityFor (VIP_Policy cfg) newState) x in
  let '(notifier, pending) :=
    match mg_notifier m with
    | Some b => let '(b', err) := applyBGP cfg newState b in (Some b', isErr err)
    | None => (None, vs_bgpPending vs)
    end in
  (mkManager (mg_vips m) (mg_order m) x notifier (mg_onTransition m)
     (if mg_onTransition m then S (mg_fired m) else mg_fired m),
   mkVipState newState (vs_health vs) (vs_checks vs) (vs_lowerPriorityFileOn vs) now reason pending).

(** [OnHealthTransition]. *)
Definition OnHealthTransition (stat : string → bool) (now : Z) (t : HealthTransition) (m : Manager)
    : Manager :=
  match mg_vips m !! HT_VIPName t with
  | None => m
  | Some entry =>
      let cfg := ve_cfg entry in
      let vs := ve_state entry in
      match findCheck (vs_checks vs) (HT_CheckName t) with
      | None => m
      | Some (key, cs) =>
          let cs := mkCheckState (cs_cfg cs)
                      (if HT_Healthy t then HealthHealthy else HealthUnhealthy)
                      (cs_lastResult cs) (cs_lastTime cs) in
          let vs := setChecks vs (<[key := cs]> (vs_checks vs)) in
          let combined := combineHealth (ve_eval entry) (vs_checks vs) in
          let reason := if decide (1 < len (map_to_list (vs_checks vs)))
                        then HT_CheckName t +:+ ": " +:+ HT_Reason t else HT_Reason t in
          if decide (combined = vs_health vs) then
            setEntry m (HT_VIPName t) (mkVipEntry cfg (ve_eval entry) vs)
          else
            let vs := setHealth vs combined in
            let filePresent :=
              lowerPriorityFilePresent stat (Policy_LowerPriorityFile (VIP_Policy cfg)) in
            let vs := setFileOn vs filePresent in
            let newState :=
              Evaluate (bool_decide (combined = HealthHealthy)) filePresent (VIP_Policy cfg) in
            let '(m, vs) := transitionStateLocked now m vs cfg newState reason in
            setEntry m (HT_VIPName t) (mkVipEntry cfg (ve_eval entry) vs)
      end
  end.

(** [CombineChecks]. *)
Definition CombineChecks (m : Manager) (vipName : string) (healthy : gmap string bool)
    : bool * bool :=
  match mg_vips m !! vipName with
  | None => (false, false)
  | Some entry => (Eval (ve_eval entry) healthy, true)
  end.

(** The re-evaluation of [OnCheckResult]: the state follows the marker file. *)
Definition reevaluate (now : Z) (m : Manager) (vs : vipState) (cfg : VIPConfig)
    (filePresent fileChanged : bool) : Manager * vipState :=
  if decide (vs_health vs = HealthUnknown) then (m, vs) else
  let newState :=
    Evaluate (bool_decide (vs_health vs = HealthHealthy)) filePresent (VIP_Policy cfg) in
  if decide (newState = vs_state vs) then (m, vs) else
  let reason :=
    if fileChanged && negb (bool_decide (Policy_LowerPriorityFile (VIP_Policy cfg) = EmptyString))
    then if filePresent then "lower_priority_file created" else "lower_priority_file removed"
    else "policy reevaluation" in
  transitionStateLocked now m vs cfg newState reason.

(** The retry of [OnCheckResult]: a failed BGP operation is tried again. *)
Definition retryBGP (m : Manager) (vs : vipState) (cfg : VIPConfig) : Manager * vipState :=
  match vs_bgpPending vs, mg_notifier m with
  | true, Some b =>
      let '(b', err) := applyBGP cfg (vs_state vs) b in
      (setNotifier m (Some b'), if isErr err then vs else setPending vs false)
  | _, _ => (m, vs)
  end.

(** The metrics [OnCheckResult] records after it released the lock. *)
Definition observeResult (vipName prefix checkName checkType : string) (detailed : bool)
    (result : Result) (x : Metrics) : Metrics :=
  let ls := [vipName; prefix; checkName] in
  let resultLabel := if Success result then "success" else "fail" in
  let x := Set_ M_CheckLastResult ls (if Success result then 1 else 0) x in
  let x := Inc M_CheckTotal (ls ++ [checkType; resultLabel]) x in
  let x := Observe M_CheckDuration (ls ++ [checkType]) (Duration result) x in
  let x := if TimedOut result then Inc M_CheckTimeoutExceeded ls x else x in
  if detailed then ObserveCheckDetails vipName prefix checkName (Details result) x else x.

(** [OnCheckResult]. *)
Definition OnCheckResult (stat : string → bool) (now : Z) (vipName checkName : string)
    (result : Result) (m : Manager) : Manager :=
  match mg_vips m !! vipName with
  | None => m
  | Some entry =>
      let cfg := ve_cfg entry in
      let vs := ve_state entry in
      match findCheck (vs_checks vs) checkName with
      | None => m
      | Some (key, cs) =>
          let checkName := EffectiveName (cs_cfg cs) in
          let cs' := mkCheckState (cs_cfg cs) (cs_health cs) result now in
          let vs := setChecks vs (<[key := cs']> (vs_checks vs)) in
          let filePresent :=
            lowerPriorityFilePresent stat (Policy_LowerPriorityFile (VIP_Policy cfg)) in
          let fileChanged := negb (eqb filePresent (vs_lowerPriorityFileOn vs)) in
          let vs := setFileOn vs filePresent in
          let '(m, vs) := reevaluate now m vs cfg filePresent fileChanged in
          let '(m, vs) := retryBGP m vs cfg in
          let m := setEntry m vipName (mkVipEntry cfg (ve_eval entry) vs) in
          setMetrics m
            (observeResult vipName (VIP_Prefix cfg) checkName (Check_Type (cs_cfg cs))
               (Check_DetailedMetrics (cs_cfg cs)) result (mg_metrics m))
      end
  end.

(** [checkSummary] and [summarizeChecks]. *)
Record checkSummary := mkCheckSummary {
  sum_checks : list CheckStatus;
  sum_checkType : string;
  sum_lastSuccess : bool;
  sum_lastDetail : string;
  sum_lastTime : Z }.

(** The checks of the list that have a state, with it. *)
Definition withState (cs : gmap string checkState) (l : list CheckConfig)
    : list (CheckConfig * checkState) :=
  omap (λ c, (λ st, (c, st)) <$> cs !! EffectiveName c) l.

Definition statusOf (p : CheckConfig * checkState) : CheckStatus :=
  let '(c, st) := p in
  mkCheckStatus (EffectiveName c) (Check_Type c) (cs_health st) (HealthStatus_String (cs_health st))
    0 0 (Success (cs_lastResult st)) (Detail (cs_lastResult st)) (cs_lastTime st).

Definition summarizeChecks (cfg : VIPConfig) (eval : ChecksEvaluator) (cs : gmap string checkState)
    : checkSummary :=
  let l := CheckList cfg in
  let present := withState cs l in
  let types := (λ p, Check_Type p.1) <$> present in
  let detail (p : CheckConfig * checkState) :=
    let d := Detail (cs_lastResult p.2) in
    if decide (len l = 1) then [d]
    else if decide (d = EmptyString) then [] else [EffectiveName p.1 +:+ ": " +:+ d] in
  let lastOK := foldl (λ m p, <[EffectiveName p.1 := Success (cs_lastResult p.2)]> m) ∅ present in
  let checkType :=
    match l with
    | [c] => Check_Type c
    | _ =>
        if decide (ev_policy eval = ChecksPolicyAll ∨ ev_policy eval = ChecksPolicyAny)
        then ev_policy eval +:+ "(" +:+ Join types ", " +:+ ")"
        else ev_policy eval
    end in
  mkCheckSummary (statusOf <$> present) checkType (Eval eval lastOK)
    (Join (present ≫= detail) "; ")
    (foldl (λ t p, Z.max t (cs_lastTime p.2)) 0 present).

(** [GetVIPStatuses]; an order entry without a VIP dereferences nil. *)
Definition statusOfVIP (name : string) (entry : vipEntry) : VIPStatus :=
  let cfg := ve_cfg entry in
  let vs := ve_state entry in
  let attrs := RouteAttrsFor (VIP_Policy cfg) (vs_state vs) in
  let summary := summarizeChecks cfg (ve_eval entry) (vs_checks vs) in
  {| VS_Name := name; VS_Prefix := VIP_Prefix cfg;
     VS_State := vs_state vs; VS_StateName := VIPState_String (vs_state vs);
     VS_Health := vs_health vs; VS_HealthName := HealthStatus_String (vs_health vs);
     VS_ConsecutiveOK := 0; VS_ConsecutiveFail := 0;
     VS_LastCheckSuccess := sum_lastSuccess summary;
     VS_LastCheckDetail := sum_lastDetail summary;
     VS_LastCheckTime := sum_lastTime summary;
     VS_LastTransitionTime := vs_lastTransitionAt vs;
     VS_LastTransitionReason := vs_lastTransitionReason vs;
     VS_CheckType := sum_checkType summary;
     VS_ChecksPolicy := EffectiveChecksPolicy cfg;
     VS_Checks := sum_checks summary;
     VS_BGPPending := vs_bgpPending vs;
     VS_ASPathPrependBase := ASPathPrepend (BaseRouteAttrs (VIP_Policy cfg));
     VS_ASPathPrepend := ASPathPrepend attrs;
     VS_Communities := Communities attrs |}.

Fixpoint statusLoop (m : Manager) (names : list string) : outcome (list VIPStatus) :=
  match names with
  | [] => Ret []
  | name :: names' =>
      match mg_vips m !! name with
      | None => Panic
      | Some entry =>
          match statusLoop m names' with
          | Ret l => Ret (statusOfVIP name entry :: l)
          | Panic => Panic
          end
      end
  end.

Definition GetVIPStatuses (m : Manager) : outcome (list VIPStatus) := statusLoop m (mg_order m).

(** ** Reload: internal/policy/reload.go *)

(** [AddVIP]. *)
Definition AddVIP (stat : string → bool) (now : Z) (cfg : VIPConfig) (m : Manager) : Manager :=
  match mg_vips m !! VIP_Name cfg with
  | Some _ => m
  | None => registerVIP stat now m cfg
  end.

(** [slices.Delete] at the first index of the name. *)
Definition removeFirst (name : string) (l : list string) : list string :=
  match list_find (eq name) l with
  | Some (idx, _) => take idx l ++ drop (S idx) l
  | None => l
  end.

Definition forget (name : string) (m : Manager) : Manager :=
  mkManager (delete name (mg_vips m)) (removeFirst name (mg_order m))
    (DeleteVIPSeries name (mg_metrics m)) (mg_notifier m) (mg_onTransition m) (mg_fired m).

(** [RemoveVIP]. *)
Definition RemoveVIP (name : string) (m : Manager) : Manager * goerror :=
  match mg_vips m !! name with
  | None => (m, None)
  | Some entry =>
      match bool_decide (vs_state (ve_state entry) = StateWithdrawn), mg_notifier m with
      | false, Some b =>
          let '(b', err) := WithdrawVIP (VIP_Prefix (ve_cfg entry)) b in
          match err with
          | Some err =>
              (setNotifier m (Some b'),
               Some (Wrapf "withdrawing %s (%s): %w" [name; VIP_Prefix (ve_cfg entry)] err))
          | None => (forget name (setNotifier m (Some b')), None)
          end
      | _, _ => (forget name m, None)
      end
  end.

(** The loop of [CommitVIP] over the new checks: the running check states
    (whose [cfg] it overwrites in place), the next states, and the check it
    has no state for. *)
Fixpoint commitChecks (l : list CheckConfig) (seeds : gmap string CheckSeed)
    (running next : gmap string checkState)
    : gmap string checkState * result string (gmap string checkState) :=
  match l with
  | [] => (running, Ok next)
  | c :: l' =>
      let name := EffectiveName c in
      match seeds !! name with
      | Some seed =>
          commitChecks l' seeds running
            (<[name := mkCheckState c (Seed_Health seed) (Seed_LastResult seed) (Seed_LastTime seed)]>
               next)
      | None =>
          match running !! name with
          | Some old =>
              let old := mkCheckState c (cs_health old) (cs_lastResult old) (cs_lastTime old) in
              commitChecks l' seeds (<[name := old]> running) (<[name := old]> next)
          | None => (running, Err name)
          end
      end
  end.

(** [DeleteCheckSeries] for every running check that is not kept. *)
Definition deleteDropped (vip : string) (running next : gmap string checkState) (x : Metrics)
    : Metrics :=
  foldl (λ x name, DeleteCheckSeries vip name x) x
    (filter (λ name, next !! name = None) (map_to_list running).*1).

(** The end of [CommitVIP]: the state is evaluated once, and the route is
    originated again when its attributes changed. *)
Definition commitState (stat : string → bool) (now : Z) (m : Manager) (vs : vipState)
    (cfg : VIPConfig) (oldAttrs : RouteAttrs) : Manager * vipState :=
  if decide (vs_health vs = HealthUnknown) then (m, vs) else
  let filePresent := lowerPriorityFilePresent stat (Policy_LowerPriorityFile (VIP_Policy cfg)) in
  let vs := setFileOn vs filePresent in
  let newState :=
    Evaluate (bool_decide (vs_health vs = HealthHealthy)) filePresent (VIP_Policy cfg) in
  if decide (newState = vs_state vs) then
    match mg_notifier m with
    | Some b =>
        if negb (bool_decide (vs_state vs = StateWithdrawn))
           && (vs_bgpPending vs
               || negb (bool_decide (oldAttrs = RouteAttrsFor (VIP_Policy cfg) (vs_state vs)))) then
          let '(b', err) := applyBGP cfg (vs_state vs) b in
          (setNotifier m (Some b'), setPending vs (isErr err))
        else (m, vs)
    | None => (m, vs)
    end
  else transitionStateLocked now m vs cfg newState "config reload".

(** [CommitVIP]. *)
Definition CommitVIP (stat : string → bool) (now : Z) (cfg : VIPConfig)
    (seeds : gmap string CheckSeed) (m : Manager) : Manager * goerror :=
  let vip := VIP_Name cfg in
  match mg_vips m !! vip with
  | None => (m, Some (Errorf "CommitVIP: unknown VIP %q" [vip]))
  | Some entry =>
      if negb (bool_decide (VIP_Prefix (ve_cfg entry) = VIP_Prefix cfg)) then
        (m, Some (Errorf "CommitVIP: prefix of %q changed from %s to %s"
                    [vip; VIP_Prefix (ve_cfg entry); VIP_Prefix cfg]))
      else
      let vs := ve_state entry in
      let '(running, r) := commitChecks (CheckList cfg) seeds (vs_checks vs) ∅ in
      let kept := mkVipEntry (ve_cfg entry) (ve_eval entry) (setChecks vs running) in
      match r with
      | Err name =>
          (setEntry m vip kept,
           Some (Errorf "CommitVIP: check %q of %q has neither a running state nor a seed"
                   [name; vip]))
      | Ok next =>
          let m := setMetrics m (deleteDropped vip running next (mg_metrics m)) in
          match CompileChecksPolicy (EffectiveChecksPolicy cfg) (checkNames cfg) with
          | Err err =>
              (setEntry m vip kept, Some (Wrapf "CommitVIP: checks_policy of %q: %w" [vip] err))
          | Ok eval =>
              let oldAttrs := RouteAttrsFor (VIP_Policy (ve_cfg entry)) (vs_state vs) in
              let m := setMetrics m
                (Set_ M_VIPPriority [vip; VIP_Prefix cfg]
                   (priorityFor (VIP_Policy cfg) (vs_state vs)) (mg_metrics m)) in
              let vs := setHealth (setChecks vs next) (combineHealth eval next) in
              let '(m, vs) := commitState stat now m vs cfg oldAttrs in
              (setEntry m vip (mkVipEntry cfg eval vs), None)
          end
      end
  end.

(** [VIPNames]. *)
Definition VIPNames (m : Manager) : list string := mg_order m.

End PolicyManager.
End PolicyManager.
Export PolicyManager.
