(* ===== verification/PolicyProofs.v ===== *)
(** * The policy manager keeps its promises

    The invariant of the manager ([mgr_ok]) over every sequence of its
    operations, the agreement of the installed routes with the VIP states
    ([routes_ok]) against the laws of the BGP interface, and what single
    operations do on each branch. *)

From S2P Require Import Prelude GoStrings Config Model Metrics ChecksPolicy Engine Scheduler.
From S2P Require Import PolicyManager.

Module PolicyProofs.
Section Proofs.
Context `{ExprLang} {B : Type} `{BGPNotifier B}.

Local Notation Manager := (PolicyManager.Manager (B := B)).

(** ** Operations as data *)
Inductive pm_op :=
| OpTransition (stat : string → bool) (now : Z) (t : HealthTransition)
| OpResult (stat : string → bool) (now : Z) (vip check : string) (r : Result)
| OpAdd (stat : string → bool) (now : Z) (cfg : VIPConfig)
| OpRemove (name : string)
| OpCommit (stat : string → bool) (now : Z) (cfg : VIPConfig) (seeds : gmap string CheckSeed).

Definition exec (m : Manager) (op : pm_op) : Manager :=
  match op with
  | OpTransition stat now t => OnHealthTransition stat now t m
  | OpResult stat now vip check r => OnCheckResult stat now vip check r m
  | OpAdd stat now cfg => AddVIP stat now cfg m
  | OpRemove name => (RemoveVIP name m).1
  | OpCommit stat now cfg seeds => (CommitVIP stat now cfg seeds m).1
  end.

(** ** The invariant *)

(** The gauges of a VIP show its state and its priority. *)
Definition gauges_ok (x : Metrics) (cfg : VIPConfig) (state : VIPState) : Prop :=
  x !! (M_VIPState, [VIP_Name cfg; VIP_Prefix cfg]) = Some (VInt (VIPState_int state)) ∧
  x !! (M_VIPPriority, [VIP_Name cfg; VIP_Prefix cfg]) =
    Some (VInt (priorityFor (VIP_Policy cfg) state)).

(** The check states are those of the config's checks, under their names. *)
Definition checks_ok (cfg : VIPConfig) (cs : gmap string checkState) : Prop :=
  (∀ n, is_Some (cs !! n) ↔ n ∈ checkNames cfg) ∧
  map_Forall (λ k c, EffectiveName (cs_cfg c) = k) cs.

Record entry_ok (x : Metrics) (name : string) (e : vipEntry) : Prop := mkEntryOk {
  eo_name : VIP_Name (ve_cfg e) = name;
  eo_checks : checks_ok (ve_cfg e) (vs_checks (ve_state e));
  eo_names : ev_names (ve_eval e) = checkNames (ve_cfg e);
  eo_health : vs_health (ve_state e) = combineHealth (ve_eval e) (vs_checks (ve_state e));
  eo_state : vs_health (ve_state e) ≠ HealthUnknown →
    vs_state (ve_state e) =
      Evaluate (bool_decide (vs_health (ve_state e) = HealthHealthy))
        (vs_lowerPriorityFileOn (ve_state e)) (VIP_Policy (ve_cfg e));
  eo_gauges : gauges_ok x (ve_cfg e) (vs_state (ve_state e)) }.

Definition mgr_ok (m : Manager) : Prop :=
  NoDup (mg_order m) ∧
  (∀ n, n ∈ mg_order m ↔ is_Some (mg_vips m !! n)) ∧
  map_Forall (entry_ok (mg_metrics m)) (mg_vips m).

(** ** Metrics: what an operation on one VIP leaves alone *)

(** The state and priority series of every other VIP are kept. *)
Definition others_kept (name : string) (x x' : Metrics) : Prop :=
  ∀ v n p, n ≠ name → v = M_VIPState ∨ v = M_VIPPriority → x' !! (v, [n; p]) = x !! (v, [n; p]).

Lemma others_kept_refl name x : others_kept name x x.
Proof. done. Qed.

Lemma others_kept_trans name x y z :
  others_kept name x y → others_kept name y z → others_kept name x z.
Proof. intros H1 H2 v n p Hn Hv. by rewrite H2, H1. Qed.

Lemma others_kept_gauges name x x' cfg st :
  others_kept name x x' → VIP_Name cfg ≠ name → gauges_ok x cfg st → gauges_ok x' cfg st.
Proof.
  intros Hk Hn [H1 H2]. split; [rewrite (Hk M_VIPState)|rewrite (Hk M_VIPPriority)]; auto.
Qed.

Lemma entry_ok_others name x x' n e :
  others_kept name x x' → n ≠ name → entry_ok x n e → entry_ok x' n e.
Proof.
  intros Hk Hn []. constructor; try done. eapply others_kept_gauges; [done| |done]. congruence.
Qed.

(** Writing one entry back, after an operation that touched only it. *)
Lemma mgr_ok_setEntry m m' name e e0 :
  mgr_ok m → mg_vips m !! name = Some e0 →
  mg_vips m' = mg_vips m → mg_order m' = mg_order m →
  others_kept name (mg_metrics m) (mg_metrics m') → entry_ok (mg_metrics m') name e →
  mgr_ok (setEntry m' name e).
Proof.
  intros (Hnd & Hdom & Hall) He Hv Ho Hk Hok. unfold mgr_ok. cbn. rewrite Hv, Ho.
  split; [done|]. split.
  - intros n. rewrite Hdom. destruct (decide (n = name)) as [->|Hne].
    + rewrite lookup_insert_eq, He. split; eauto.
    + by rewrite lookup_insert_ne.
  - intros n e' [[<- <-]|[Hne Hn]]%lookup_insert_Some; [done|].
    eapply entry_ok_others; [done|done|]. by apply Hall.
Qed.

(** *** Transitions *)

Lemma gauges_other x cfg st v ls z :
  v ≠ M_VIPState → v ≠ M_VIPPriority → gauges_ok x cfg st → gauges_ok (Set_ v ls z x) cfg st.
Proof. intros ? ? [? ?]. split; by rewrite Set_other. Qed.

Lemma gauges_inc x cfg st v ls :
  v ≠ M_VIPState → v ≠ M_VIPPriority → gauges_ok x cfg st → gauges_ok (Inc v ls x) cfg st.
Proof. intros ? ? [? ?]. split; by rewrite Inc_other. Qed.

(** The four series [transitionStateLocked] writes. *)
Definition transitionSeries (now : Z) (cfg : VIPConfig) (st : VIPState) (x : Metrics) : Metrics :=
  let labels := [VIP_Name cfg; VIP_Prefix cfg] in
  Set_ M_VIPPriority labels (priorityFor (VIP_Policy cfg) st)
    (Set_ M_VIPLastTransition labels (Unix now)
       (Inc M_VIPTransitions (labels ++ [VIPState_String st])
          (Set_ M_VIPState labels (VIPState_int st) x))).

Lemma transitionSeries_gauges now cfg st x : gauges_ok (transitionSeries now cfg st x) cfg st.
Proof.
  split; unfold transitionSeries.
  - by rewrite Set_other, Set_other, Inc_other, lookup_Set, decide_True.
  - by rewrite lookup_Set, decide_True.
Qed.

Lemma transitionSeries_others now cfg st x :
  others_kept (VIP_Name cfg) x (transitionSeries now cfg st x).
Proof.
  intros v n p Hn Hv. unfold transitionSeries.
  rewrite lookup_Set, decide_False by congruence. rewrite Set_other by (by destruct Hv as [-> | ->]).
  rewrite Inc_other by (by destruct Hv as [-> | ->]). by rewrite lookup_Set, decide_False by congruence.
Qed.

Section Transition.
Context (now : Z) (m : Manager) (vs : vipState) (cfg : VIPConfig) (st : VIPState) (reason : string).
Let r := transitionStateLocked now m vs cfg st reason.

Lemma transition_vips : mg_vips r.1 = mg_vips m ∧ mg_order r.1 = mg_order m.
Proof. unfold r, transitionStateLocked. case_decide; [done|]. by repeat case_match. Qed.

Lemma transition_vs :
  vs_state r.2 = st ∧ vs_health r.2 = vs_health vs ∧ vs_checks r.2 = vs_checks vs ∧
  vs_lowerPriorityFileOn r.2 = vs_lowerPriorityFileOn vs.
Proof. unfold r, transitionStateLocked. case_decide; [done|]. by repeat case_match. Qed.

Lemma transition_others : others_kept (VIP_Name cfg) (mg_metrics m) (mg_metrics r.1).
Proof.
  unfold r, transitionStateLocked. case_decide; [done|].
  repeat case_match; apply transitionSeries_others.
Qed.

Lemma transition_gauges :
  gauges_ok (mg_metrics m) cfg (vs_state vs) → gauges_ok (mg_metrics r.1) cfg st.
Proof.
  unfold r, transitionStateLocked. case_decide; [by subst|]. intros _.
  repeat case_match; apply transitionSeries_gauges.
Qed.
End Transition.

(** *** Checks *)

Lemma findCheck_Some cs name k c : findCheck cs name = Some (k, c) → cs !! k = Some c.
Proof.
  unfold findCheck. destruct (cs !! name) as [c0|] eqn:E; [by intros [= <- <-]|].
  destruct (map_to_list cs) as [|[k' c'] [|]] eqn:El; intros [=]; subst.
  apply elem_of_map_to_list. rewrite El. by left.
Qed.

Lemma checks_ok_insert cfg cs k c c' :
  checks_ok cfg cs → cs !! k = Some c → cs_cfg c' = cs_cfg c → checks_ok cfg (<[k := c']> cs).
Proof.
  intros [Hdom Hkeys] Hk Hc. split.
  - intros n. rewrite <-Hdom. destruct (decide (n = k)) as [->|Hne].
    + rewrite lookup_insert_eq, Hk. split; eauto.
    + by rewrite lookup_insert_ne.
  - apply map_Forall_insert_2; [|done]. rewrite Hc. by apply Hkeys.
Qed.

(** Only the health of the checks matters to [combineHealth]. *)
Lemma combineHealth_ext eval cs cs' :
  cs_health <$> cs = cs_health <$> cs' → combineHealth eval cs = combineHealth eval cs'.
Proof.
  intros Hh. unfold combineHealth.
  assert ((λ c, bool_decide (cs_health c = HealthHealthy)) <$> cs =
          (λ c, bool_decide (cs_health c = HealthHealthy)) <$> cs') as ->.
  { change (((λ h, bool_decide (h = HealthHealthy)) ∘ cs_health) <$> cs =
            ((λ h, bool_decide (h = HealthHealthy)) ∘ cs_health) <$> cs').
    by rewrite !map_fmap_compose, Hh. }
  erewrite (bool_decide_ext (map_Forall _ cs)); [done|].
  change (map_Forall (λ _ c, cs_health c = HealthUnknown) cs) with
    (map_Forall (λ k, (λ h, h = HealthUnknown) ∘ cs_health) cs).
  change (map_Forall (λ _ c, cs_health c = HealthUnknown) cs') with
    (map_Forall (λ k, (λ h, h = HealthUnknown) ∘ cs_health) cs').
  rewrite <-!map_Forall_fmap with (P := λ _ h, h = HealthUnknown). by rewrite Hh.
Qed.

Lemma combineHealth_result eval cs k c c' :
  cs !! k = Some c → cs_health c' = cs_health c →
  combineHealth eval (<[k := c']> cs) = combineHealth eval cs.
Proof.
  intros Hk Hc. apply combineHealth_ext. rewrite fmap_insert, Hc. apply insert_id.
  by rewrite lookup_fmap, Hk.
Qed.

(** An entry whose state was just evaluated. *)
Lemma transition_entry_ok now m name vs cfg eval reason :
  VIP_Name cfg = name → checks_ok cfg (vs_checks vs) → ev_names eval = checkNames cfg →
  vs_health vs = combineHealth eval (vs_checks vs) →
  gauges_ok (mg_metrics m) cfg (vs_state vs) →
  let st := Evaluate (bool_decide (vs_health vs = HealthHealthy)) (vs_lowerPriorityFileOn vs)
              (VIP_Policy cfg) in
  let r := transitionStateLocked now m vs cfg st reason in
  entry_ok (mg_metrics r.1) name (mkVipEntry cfg eval r.2).
Proof.
  intros Hn Hc He Hh Hg st r.
  pose proof (transition_vs now m vs cfg st reason) as (Hst & Hhe & Hch & Hf).
  pose proof (transition_gauges now m vs cfg st reason Hg) as Hg'.
  fold r in Hst, Hhe, Hch, Hf, Hg'.
  constructor; cbn; rewrite ?Hst, ?Hhe, ?Hch, ?Hf; done.
Qed.

Lemma OnHealthTransition_preserves stat now t m :
  mgr_ok m → mgr_ok (OnHealthTransition stat now t m).
Proof.
  intros Hok. unfold OnHealthTransition.
  destruct (mg_vips m !! HT_VIPName t) as [e|] eqn:He; [|done].
  destruct (findCheck _ _) as [[k c]|] eqn:Hf; [|done]. apply findCheck_Some in Hf.
  pose proof (proj2 (proj2 Hok) _ _ He) as [Hname Hchecks Hnames Hhealth Hstate Hgauges].
  cbv zeta. destruct (decide (combineHealth _ _ = _)) as [Hcomb|Hcomb].
  - eapply (mgr_ok_setEntry m m); [done..|]. constructor; cbn; try done.
    eapply checks_ok_insert; done.
  - destruct (transitionStateLocked _ _ _ _ _ _) as [m' vs'] eqn:Et.
    apply (f_equal fst) in Et as Em. apply (f_equal snd) in Et as Evs. cbn in Em, Evs. subst m' vs'.
    eapply mgr_ok_setEntry; [done|done|apply transition_vips|apply transition_vips| |].
    + rewrite <-Hname. apply transition_others.
    + apply (transition_entry_ok now m _ (setFileOn (setHealth (setChecks _ _) _) _)); cbn; try done.
      eapply checks_ok_insert; done.
Qed.

(** *** Check results *)

(** Any change of the metrics that leaves the state and priority series
    alone. *)
Definition series_kept (x x' : Metrics) : Prop :=
  ∀ v ls, v = M_VIPState ∨ v = M_VIPPriority → x' !! (v, ls) = x !! (v, ls).

Lemma series_kept_others name x x' : series_kept x x' → others_kept name x x'.
Proof. intros Hk v n p _ Hv. by apply Hk. Qed.

Lemma series_kept_gauges x x' cfg st : series_kept x x' → gauges_ok x cfg st → gauges_ok x' cfg st.
Proof. intros Hk [? ?]. split; rewrite Hk; auto. Qed.

Lemma entry_ok_series x x' n e : series_kept x x' → entry_ok x n e → entry_ok x' n e.
Proof. intros Hk []. constructor; try done. by eapply series_kept_gauges. Qed.

Lemma mgr_ok_setMetrics m x : mgr_ok m → series_kept (mg_metrics m) x → mgr_ok (setMetrics m x).
Proof.
  intros (Hnd & Hdom & Hall) Hk. split; [done|]. split; [done|]. intros n e He.
  eapply entry_ok_series; [done|]. by apply Hall.
Qed.

Lemma observeResult_kept vip prefix check typ detailed result x :
  series_kept x (observeResult vip prefix check typ detailed result x).
Proof.
  intros v ls Hv. unfold observeResult.
  assert (∀ x', x' !! (v, ls) = x !! (v, ls) →
    (if detailed then ObserveCheckDetails vip prefix check (Details result) x' else x') !! (v, ls)
      = x !! (v, ls)) as Hd.
  { intros x' <-. destruct detailed; [|done].
    apply ObserveCheckDetails_other. by destruct Hv as [-> | ->]. }
  apply Hd. destruct (TimedOut result); rewrite ?Inc_other, ?Observe_other, ?Inc_other, ?Set_other;
    try done; by destruct Hv as [-> | ->].
Qed.

Section Reevaluate.
Context (now : Z) (m : Manager) (vs : vipState) (cfg : VIPConfig) (fileChanged : bool).
Let r := reevaluate now m vs cfg (vs_lowerPriorityFileOn vs) fileChanged.

(** [reevaluate] is a transition to the evaluated state, or nothing while the
    health is unknown. *)
Lemma reevaluate_eq :
  r = if decide (vs_health vs = HealthUnknown) then (m, vs)
      else transitionStateLocked now m vs cfg
        (Evaluate (bool_decide (vs_health vs = HealthHealthy)) (vs_lowerPriorityFileOn vs)
           (VIP_Policy cfg))
        (if fileChanged
            && negb (bool_decide (Policy_LowerPriorityFile (VIP_Policy cfg) = EmptyString))
         then if vs_lowerPriorityFileOn vs then "lower_priority_file created"
              else "lower_priority_file removed"
         else "policy reevaluation").
Proof.
  unfold r, reevaluate. destruct (decide (vs_health vs = HealthUnknown)); [done|]. cbv zeta.
  case_decide as Hst; [|done]. unfold transitionStateLocked. by rewrite decide_True.
Qed.

Lemma reevaluate_entry_ok name eval :
  VIP_Name cfg = name → checks_ok cfg (vs_checks vs) → ev_names eval = checkNames cfg →
  vs_health vs = combineHealth eval (vs_checks vs) →
  gauges_ok (mg_metrics m) cfg (vs_state vs) →
  entry_ok (mg_metrics r.1) name (mkVipEntry cfg eval r.2).
Proof.
  intros Hn Hc He Hh Hg. rewrite reevaluate_eq. case_decide.
  - by constructor; cbn.
  - by apply transition_entry_ok.
Qed.

Lemma reevaluate_frame :
  mg_vips r.1 = mg_vips m ∧ mg_order r.1 = mg_order m ∧
  others_kept (VIP_Name cfg) (mg_metrics m) (mg_metrics r.1).
Proof.
  rewrite reevaluate_eq. case_decide; [done|].
  split; [apply transition_vips|]. split; [apply transition_vips|apply transition_others].
Qed.
End Reevaluate.

(** The retry touches the BGP state and the pending flag, nothing else. *)
Lemma retryBGP_frame m vs cfg :
  let r := retryBGP m vs cfg in
  mg_vips r.1 = mg_vips m ∧ mg_order r.1 = mg_order m ∧ mg_metrics r.1 = mg_metrics m ∧
  r.2 = setPending vs (vs_bgpPending r.2).
Proof.
  unfold retryBGP. destruct vs as [? ? ? ? ? ? []], (mg_notifier m); cbn; try done.
  destruct (applyBGP _ _ _) as [b' err]; cbn. by destruct (isErr err).
Qed.

Lemma entry_ok_pending x name cfg eval vs p :
  entry_ok x name (mkVipEntry cfg eval vs) → entry_ok x name (mkVipEntry cfg eval (setPending vs p)).
Proof. intros []. by constructor. Qed.

Lemma OnCheckResult_preserves stat now vip check result m :
  mgr_ok m → mgr_ok (OnCheckResult stat now vip check result m).
Proof.
  intros Hok. unfold OnCheckResult.
  destruct (mg_vips m !! vip) as [e|] eqn:He; [|done].
  destruct (findCheck _ _) as [[k c]|] eqn:Hf; [|done]. apply findCheck_Some in Hf.
  pose proof (proj2 (proj2 Hok) _ _ He) as [Hname Hchecks Hnames Hhealth Hstate Hgauges].
  cbv zeta. set (vs1 := setFileOn _ _).
  change (lowerPriorityFilePresent stat _) with (vs_lowerPriorityFileOn vs1).
  rewrite (surjective_pairing (reevaluate _ _ _ _ _ _)). set (r1 := reevaluate _ _ _ _ _ _).
  rewrite (surjective_pairing (retryBGP _ _ _)). set (r2 := retryBGP _ _ _).
  destruct (retryBGP_frame r1.1 r1.2 (ve_cfg e)) as (Hv2 & Ho2 & Hm2 & Hvs2).
  fold r2 in Hv2, Ho2, Hm2, Hvs2.
  destruct (reevaluate_frame now m vs1 (ve_cfg e) (negb (eqb (vs_lowerPriorityFileOn vs1)
    (vs_lowerPriorityFileOn (setChecks (ve_state e) (<[k:=mkCheckState (cs_cfg c) (cs_health c) result now]>
      (vs_checks (ve_state e))))))))
    as (Hv1 & Ho1 & Hk1). fold r1 in Hv1, Ho1, Hk1.
  apply mgr_ok_setMetrics; [|apply observeResult_kept].
  eapply mgr_ok_setEntry; [done|done|congruence|congruence|rewrite Hm2, <-Hname; exact Hk1|].
  rewrite Hm2, Hvs2. apply entry_ok_pending, reevaluate_entry_ok; cbn; try done.
  - by eapply checks_ok_insert.
  - by erewrite combineHealth_result.
Qed.

(** *** Commits *)

Lemma deleteDropped_kept vip running next x : series_kept x (deleteDropped vip running next x).
Proof.
  intros v ls Hv. unfold deleteDropped. apply foldl_lookup_other. intros x' name.
  unfold DeleteCheckSeries. rewrite lookup_DeletePartialMatch, decide_False; [done|].
  intros [_ Hm]. unfold matchesLabels in Hm. cbn [forallb] in Hm.
  rewrite !andb_true_iff, !bool_decide_eq_true in Hm. destruct Hm as (_ & Hm & _).
  destruct Hv as [-> | ->]; destruct ls as [|? [|? [|]]]; cbn in Hm; done.
Qed.

(** The running states keep their keys and their health (only [cfg] is
    overwritten); the next states are those of the new checks, or the first
    check without a state is reported. *)
Definition keyed (cs : gmap string checkState) : Prop :=
  map_Forall (λ k c, EffectiveName (cs_cfg c) = k) cs.

Lemma commitChecks_running l seeds running next :
  keyed running →
  keyed (commitChecks l seeds running next).1 ∧
  cs_health <$> (commitChecks l seeds running next).1 = cs_health <$> running.
Proof.
  revert running next. induction l as [|c l IH]; intros running next Hk; cbn; [done|].
  destruct (seeds !! EffectiveName c); [by apply IH|].
  destruct (running !! EffectiveName c) as [old|] eqn:E; [|done].
  edestruct IH as [H1 H2]; [|split; [exact H1|rewrite H2]].
  - by apply map_Forall_insert_2.
  - rewrite fmap_insert. apply insert_id. by rewrite lookup_fmap, E.
Qed.

Lemma commitChecks_next l seeds running next next' :
  (commitChecks l seeds running next).2 = Ok next' → keyed next →
  keyed next' ∧ ∀ n, is_Some (next' !! n) ↔ is_Some (next !! n) ∨ n ∈ EffectiveName <$> l.
Proof.
  revert running next. induction l as [|c l IH]; intros running next Hr Hk; cbn in *.
  { simplify_eq. split; [done|]. intros n. rewrite elem_of_nil. naive_solver. }
  assert (∀ running st, cs_cfg st = c →
    (commitChecks l seeds running (<[EffectiveName c := st]> next)).2 = Ok next' →
    keyed next' ∧ ∀ n, is_Some (next' !! n) ↔ is_Some (next !! n) ∨ n ∈ EffectiveName c :: (EffectiveName <$> l))
    as Hstep.
  { intros run st Hst Hr'. destruct (IH _ _ Hr') as [H1 H2].
    { apply map_Forall_insert_2; [by rewrite Hst|done]. }
    split; [done|]. intros n. rewrite H2, elem_of_cons, lookup_insert_is_Some.
    destruct (decide (n = EffectiveName c)); naive_solver. }
  destruct (seeds !! EffectiveName c); [eapply Hstep; [|exact Hr]; done|].
  destruct (running !! EffectiveName c) as [old|]; [eapply Hstep; [|exact Hr]; done|done].
Qed.

Lemma checks_ok_health_eq cfg cs cs' :
  checks_ok cfg cs → keyed cs' → cs_health <$> cs' = cs_health <$> cs → checks_ok cfg cs'.
Proof.
  intros [Hdom Hkeys] Hk Hh. split; [|done]. intros n. rewrite <-Hdom.
  apply (f_equal (lookup n)) in Hh. rewrite !lookup_fmap in Hh.
  destruct (cs !! n), (cs' !! n); naive_solver.
Qed.

Section CommitState.
Context (stat : string → bool) (now : Z) (m : Manager) (vs : vipState) (cfg : VIPConfig)
        (oldAttrs : RouteAttrs).
Let r := commitState stat now m vs cfg oldAttrs.

Lemma commitState_frame :
  mg_vips r.1 = mg_vips m ∧ mg_order r.1 = mg_order m ∧
  others_kept (VIP_Name cfg) (mg_metrics m) (mg_metrics r.1).
Proof.
  unfold r, commitState. case_decide; [done|]. cbv zeta. case_decide.
  - destruct (mg_notifier m) as [b|]; [|done]. case_match; [|done].
    by destruct (applyBGP _ _ _).
  - split; [apply transition_vips|]. split; [apply transition_vips|apply transition_others].
Qed.

Lemma commitState_entry_ok name eval :
  VIP_Name cfg = name → checks_ok cfg (vs_checks vs) → ev_names eval = checkNames cfg →
  vs_health vs = combineHealth eval (vs_checks vs) →
  gauges_ok (mg_metrics m) cfg (vs_state vs) →
  entry_ok (mg_metrics r.1) name (mkVipEntry cfg eval r.2).
Proof.
  intros Hn Hc He Hh Hg. unfold r, commitState. case_decide as Hu.
  { by constructor; cbn. }
  cbv zeta. case_decide as Hst.
  - destruct (mg_notifier m) as [b|]; [|by constructor; cbn]. case_match; [|by constructor; cbn].
    destruct (applyBGP _ _ _); by constructor; cbn.
  - by apply transition_entry_ok.
Qed.
End CommitState.

Lemma CommitVIP_preserves stat now cfg seeds m :
  mgr_ok m → mgr_ok (CommitVIP stat now cfg seeds m).1.
Proof.
  intros Hok. unfold CommitVIP.
  destruct (mg_vips m !! VIP_Name cfg) as [e|] eqn:He; [|done].
  pose proof (proj2 (proj2 Hok) _ _ He) as [Hname Hchecks Hnames Hhealth Hstate Hgauges].
  cbv zeta. destruct (bool_decide_reflect (VIP_Prefix (ve_cfg e) = VIP_Prefix cfg)) as [Hp|Hp];
    cbn [negb]; [|done].
  pose proof (commitChecks_running (CheckList cfg) seeds (vs_checks (ve_state e)) ∅ (proj2 Hchecks))
    as [Hrk Hrh].
  pose proof (commitChecks_next (CheckList cfg) seeds (vs_checks (ve_state e)) ∅) as Hnext.
  destruct (commitChecks _ _ _ _) as [running [next|bad]]; cbn [fst snd] in *.
  2:{ eapply (mgr_ok_setEntry m m); [done..|]. constructor; cbn; try done.
      - by eapply checks_ok_health_eq.
      - rewrite Hhealth. by apply combineHealth_ext. }
  pose proof (deleteDropped_kept (VIP_Name cfg) running next (mg_metrics m)) as Hdel.
  destruct (CompileChecksPolicy _ _) as [eval|err] eqn:Ec; cbn [fst].
  2:{ eapply (mgr_ok_setEntry m); [done|done|done|done|by apply series_kept_others|].
      constructor; cbn; try done.
      - by eapply checks_ok_health_eq.
      - rewrite Hhealth. by apply combineHealth_ext.
      - by eapply series_kept_gauges. }
  rewrite (surjective_pairing (commitState _ _ _ _ _ _)). cbn [fst].
  edestruct commitState_frame as (Hv & Ho & Hk).
  destruct (Hnext next eq_refl) as [Hnk Hnd]; [apply map_Forall_empty|].
  eapply mgr_ok_setEntry; [done|done|rewrite Hv; done|rewrite Ho; done| |].
  - eapply others_kept_trans; [|exact Hk]. cbn.
    eapply others_kept_trans; [by apply series_kept_others|].
    intros v n p Hn _. rewrite lookup_Set, decide_False; [done|congruence].
  - apply commitState_entry_ok; cbn; try done.
    + split; [|done]. intros n. rewrite Hnd, lookup_empty. unfold checkNames. split; [|by right].
      intros [[? [=]]|?]. done.
    + by apply Compile_names in Ec.
    + split; cbn.
      * rewrite Set_other by done. rewrite Hdel by auto. rewrite <-Hp, <-Hname. apply Hgauges.
      * by rewrite lookup_Set, decide_True.
Qed.

(** *** Adding and removing *)

Lemma removeFirst_spec name l :
  NoDup l → NoDup (removeFirst name l) ∧ ∀ x, x ∈ removeFirst name l ↔ x ∈ l ∧ x ≠ name.
Proof.
  intros Hnd. unfold removeFirst. destruct (list_find _ l) as [[i y]|] eqn:E.
  - apply list_find_Some in E as (Hi & <- & _).
    rewrite <-(take_drop_middle l i name Hi) in Hnd.
    split; [|intros x; rewrite <-(take_drop_middle l i name Hi) at 3];
      apply NoDup_app in Hnd as (H1 & H2 & [H3 H4]%NoDup_cons).
    + apply NoDup_app. split; [done|]. split; [|done]. set_solver.
    + rewrite !elem_of_app, elem_of_cons. set_solver.
  - apply list_find_None in E. rewrite Forall_forall in E. split; [done|]. intros x.
    split; [|by intros []]. intros Hx. split; [done|]. intros ->. by apply (E name).
Qed.

Lemma DeleteVIPSeries_others name x : others_kept name x (DeleteVIPSeries name x).
Proof.
  intros v n p Hn Hv. unfold DeleteVIPSeries. rewrite lookup_DeletePartialMatch, decide_False; [done|].
  intros [_ Hm]. unfold matchesLabels in Hm. cbn [forallb] in Hm.
  rewrite andb_true_iff, bool_decide_eq_true in Hm. destruct Hm as [Hm _].
  destruct Hv as [-> | ->]; vm_compute in Hm; congruence.
Qed.

Lemma forget_preserves name m : mgr_ok m → mgr_ok (forget name m).
Proof.
  intros (Hnd & Hdom & Hall). destruct (removeFirst_spec name _ Hnd) as [Hnd' Helem].
  split; [done|]. split; cbn.
  - intros n. rewrite Helem, Hdom, lookup_delete_is_Some. naive_solver.
  - intros n e [Hne He]%lookup_delete_Some. eapply entry_ok_others.
    + apply DeleteVIPSeries_others.
    + done.
    + by apply Hall.
Qed.

Lemma mgr_ok_setNotifier m b : mgr_ok m → mgr_ok (setNotifier m b).
Proof. done. Qed.

Lemma RemoveVIP_preserves name m : mgr_ok m → mgr_ok (RemoveVIP name m).1.
Proof.
  intros Hok. unfold RemoveVIP. destruct (mg_vips m !! name) as [e|]; [|done].
  destruct (bool_decide _); [by apply forget_preserves|].
  destruct (mg_notifier m) as [b|]; [|by apply forget_preserves].
  destruct (WithdrawVIP _ _) as [b' [err|]]; cbn; [done|].
  by apply forget_preserves, mgr_ok_setNotifier.
Qed.

(** The fresh entry. *)
Lemma newChecks_lookup l n c :
  newChecks l !! n = Some c →
  EffectiveName (cs_cfg c) = n ∧ cs_health c = HealthUnknown.
Proof.
  induction l as [|c0 l IH] using rev_ind; [done|]. unfold newChecks in *. rewrite foldl_app. cbn.
  intros [[<- <-]|[_ Hc]]%lookup_insert_Some; [done|by apply IH].
Qed.

Lemma newChecks_dom l n : is_Some (newChecks l !! n) ↔ n ∈ EffectiveName <$> l.
Proof.
  induction l as [|c0 l IH] using rev_ind.
  { cbn. rewrite elem_of_nil. split; [by intros []|done]. }
  unfold newChecks in *. rewrite foldl_app, fmap_app, elem_of_app. cbn.
  rewrite lookup_insert_is_Some, IH, list_elem_of_singleton.
  destruct (decide (n = EffectiveName c0)); naive_solver.
Qed.

Lemma newVIPEntry_health stat now v :
  let e := newVIPEntry stat now v in combineHealth (ve_eval e) (vs_checks (ve_state e)) = HealthUnknown.
Proof.
  cbv zeta. unfold combineHealth. rewrite bool_decide_eq_true_2; [done|].
  intros n c Hc. by apply newChecks_lookup in Hc as [_ ?].
Qed.

Lemma newVIPEntry_names stat now v : ev_names (ve_eval (newVIPEntry stat now v)) = checkNames v.
Proof.
  cbn. destruct (CompileChecksPolicy (VIP_ChecksPolicy v) (checkNames v)) eqn:E; [|done].
  by apply Compile_names in E.
Qed.

Lemma newVIPEntry_ok stat now v x :
  entry_ok (initSeries v x) (VIP_Name v) (newVIPEntry stat now v).
Proof.
  constructor; try done.
  - split; [apply newChecks_dom|]. intros n c Hc. by apply newChecks_lookup in Hc as [? _].
  - apply newVIPEntry_names.
  - by rewrite newVIPEntry_health.
  - split; unfold initSeries; cbn.
    + by rewrite Set_other, lookup_Set, decide_True.
    + by rewrite lookup_Set, decide_True.
Qed.

Lemma initSeries_others v x : others_kept (VIP_Name v) x (initSeries v x).
Proof.
  intros w n p Hn Hw. unfold initSeries.
  by rewrite !lookup_Set, !decide_False by congruence.
Qed.

Lemma registerVIP_preserves stat now m v :
  mgr_ok m → mg_vips m !! VIP_Name v = None → mgr_ok (registerVIP stat now m v).
Proof.
  intros (Hnd & Hdom & Hall) Hnone. split; [|split]; cbn.
  - apply NoDup_app. split; [done|]. split; [|apply NoDup_singleton].
    intros n Hn. rewrite list_elem_of_singleton. intros ->. apply Hdom in Hn. rewrite Hnone in Hn.
    by destruct Hn.
  - intros n. rewrite elem_of_app, list_elem_of_singleton, Hdom, lookup_insert_is_Some.
    destruct (decide (n = VIP_Name v)); naive_solver.
  - intros n e [[<- <-]|[Hne He]]%lookup_insert_Some; [apply newVIPEntry_ok|].
    eapply entry_ok_others; [apply initSeries_others|done|by apply Hall].
Qed.

Lemma NewManager_ok stat now vips x notifier :
  NoDup (VIP_Name <$> vips) → mgr_ok (NewManager stat now vips x notifier).
Proof.
  intros Hnd. unfold NewManager.
  assert (∀ m : Manager, mgr_ok m → (∀ v, v ∈ vips → mg_vips m !! VIP_Name v = None) →
    mgr_ok (foldl (registerVIP stat now) m vips)) as Hgen.
  { revert Hnd. induction vips as [|v vips IH]; intros Hnd m Hm Hnone; cbn; [done|].
    apply NoDup_cons in Hnd as [Hv Hnd]. apply IH; [done| |].
    - apply registerVIP_preserves; [done|]. apply Hnone. by left.
    - intros w Hw. cbn. rewrite lookup_insert_ne; [apply Hnone; by right|].
      intros Hn. apply Hv. rewrite Hn. by apply list_elem_of_fmap_2. }
  apply Hgen; [|done]. split; [constructor|]. split; [|done].
  intros n. cbn. rewrite elem_of_nil. split; [done|by intros []].
Qed.

Lemma exec_preserves m op : mgr_ok m → mgr_ok (exec m op).
Proof.
  intros Hok. destruct op; cbn.
  - by apply OnHealthTransition_preserves.
  - by apply OnCheckResult_preserves.
  - unfold AddVIP. destruct (mg_vips m !! VIP_Name cfg) eqn:E; [done|]. by apply registerVIP_preserves.
  - by apply RemoveVIP_preserves.
  - by apply CommitVIP_preserves.
Qed.

Lemma run_preserves m ops : mgr_ok m → mgr_ok (foldl exec m ops).
Proof. revert m. induction ops as [|op ops IH]; intros m Hm; cbn; [done|]. by apply IH, exec_preserves. Qed.

(** ** Routes *)
Section Routes.
Context `{!BGPNotifierLaws B}.

(** The route a VIP in a state should have. *)
Definition routeOf (cfg : VIPConfig) (st : VIPState) : option Route :=
  match st with
  | StateWithdrawn => None
  | _ => Some (originated (VIP_Prefix cfg) (RouteAttrsFor (VIP_Policy cfg) st))
  end.

(** Unless an operation is pending, the installed route is the one of the
    state. *)
Definition route_ok (n : option B) (cfg : VIPConfig) (vs : vipState) : Prop :=
  ∀ b, n = Some b → vs_bgpPending vs = false →
    installed b (VIP_Prefix cfg) = routeOf cfg (vs_state vs).

Definition valid_n (n : option B) : Prop := ∀ b, n = Some b → bgp_valid b.

(** No two VIPs share a route, every VIP's route follows its state, and there
    is no route without a VIP. *)
Definition routes_ok (m : Manager) : Prop :=
  valid_n (mg_notifier m) ∧
  (∀ n1 n2 e1 e2, mg_vips m !! n1 = Some e1 → mg_vips m !! n2 = Some e2 →
     same_route (VIP_Prefix (ve_cfg e1)) (VIP_Prefix (ve_cfg e2)) → n1 = n2) ∧
  (∀ n e, mg_vips m !! n = Some e → route_ok (mg_notifier m) (ve_cfg e) (ve_state e)) ∧
  (∀ b q, mg_notifier m = Some b →
     (∀ n e, mg_vips m !! n = Some e → ¬ same_route (VIP_Prefix (ve_cfg e)) q) →
     installed b q = None).

(** A VIP no check has reported on is not announced. *)
Definition fail_closed (m : Manager) : Prop :=
  ∀ n e, mg_vips m !! n = Some e →
    vs_health (ve_state e) = HealthUnknown → vs_state (ve_state e) = StateWithdrawn.

(** The BGP state changed for one route at most. *)
Definition bgp_step (p : string) (n n' : option B) : Prop :=
  valid_n n' ∧
  match n, n' with
  | None, None => True
  | Some b, Some b' => ∀ q, ¬ same_route p q → installed b' q = installed b q
  | _, _ => False
  end.

Lemma bgp_step_refl p n : valid_n n → bgp_step p n n.
Proof. intros Hv. split; [done|]. by destruct n. Qed.

Lemma bgp_step_trans p n1 n2 n3 : bgp_step p n1 n2 → bgp_step p n2 n3 → bgp_step p n1 n3.
Proof.
  intros [_ H1] [Hv H2]. split; [done|]. destruct n1, n2, n3; try done. intros q Hq. by rewrite H2, H1.
Qed.

Lemma bgp_step_lookup p n b' :
  bgp_step p n (Some b') →
  ∃ b, n = Some b ∧ ∀ q, ¬ same_route p q → installed b' q = installed b q.
Proof. intros [_ Hst]. destruct n as [b|]; [|done]. eauto. Qed.

Lemma applyBGP_installs cfg st b b' :
  bgp_valid b → applyBGP cfg st b = (b', None) → installed b' (VIP_Prefix cfg) = routeOf cfg st.
Proof.
  destruct st; cbn; [apply withdraw_removes|apply announce_installs|apply pessimize_installs].
Qed.

Lemma applyBGP_frame cfg st b :
  bgp_valid b → bgp_step (VIP_Prefix cfg) (Some b) (Some (applyBGP cfg st b).1).
Proof.
  intros Hv. split.
  - intros b0 [= <-]. destruct st; cbn;
      [by apply withdraw_valid|by apply announce_valid|by apply pessimize_valid].
  - intros q Hq. destruct st; cbn;
      [by apply withdraw_frame|by apply announce_frame|by apply pessimize_frame].
Qed.

(** The outcome of [applyBGP] on a VIP. *)
Lemma applyBGP_routes cfg vs st b :
  bgp_valid b →
  let r := applyBGP cfg st b in
  vs_state vs = st → vs_bgpPending vs = isErr r.2 →
  route_ok (Some r.1) cfg vs ∧ bgp_step (VIP_Prefix cfg) (Some b) (Some r.1).
Proof.
  intros Hv r Hst Hp. split; [|by apply applyBGP_frame].
  intros b0 [= <-] Hpe. rewrite Hst. apply (applyBGP_installs cfg st b); [done|].
  fold r. destruct r as [b' [err|]]; [|done]. cbn in *. congruence.
Qed.

Lemma transition_routes now m vs cfg st reason :
  valid_n (mg_notifier m) →
  (st = vs_state vs → route_ok (mg_notifier m) cfg vs) →
  let r := transitionStateLocked now m vs cfg st reason in
  route_ok (mg_notifier r.1) cfg r.2 ∧ bgp_step (VIP_Prefix cfg) (mg_notifier m) (mg_notifier r.1).
Proof.
  intros Hv Hr. unfold transitionStateLocked.
  case_decide; [split; [by apply Hr|by apply bgp_step_refl]|].
  destruct (mg_notifier m) as [b|] eqn:En; cbn; [|done].
  rewrite (surjective_pairing (applyBGP cfg st b)). cbn.
  apply (applyBGP_routes cfg (mkVipState _ _ _ _ _ _ _)); [by apply Hv|done..].
Qed.

Lemma retry_routes m vs cfg :
  valid_n (mg_notifier m) →
  route_ok (mg_notifier m) cfg vs →
  let r := retryBGP m vs cfg in
  route_ok (mg_notifier r.1) cfg r.2 ∧ bgp_step (VIP_Prefix cfg) (mg_notifier m) (mg_notifier r.1).
Proof.
  intros Hv Hr. unfold retryBGP.
  destruct (vs_bgpPending vs) eqn:Ep; [|split; [done|by apply bgp_step_refl]].
  destruct (mg_notifier m) as [b|] eqn:En; cbn; [|by rewrite En].
  rewrite (surjective_pairing (applyBGP cfg (vs_state vs) b)). cbn.
  apply applyBGP_routes; [by apply Hv| |]; by destruct (isErr _) eqn:Ei.
Qed.

(** A commit installs the new attributes whenever the health is known. *)
Lemma commitState_routes stat now m vs cfg cfg0 :
  valid_n (mg_notifier m) →
  VIP_Prefix cfg = VIP_Prefix cfg0 → route_ok (mg_notifier m) cfg0 vs →
  (vs_health vs = HealthUnknown → vs_state vs = StateWithdrawn) →
  let r := commitState stat now m vs cfg (RouteAttrsFor (VIP_Policy cfg0) (vs_state vs)) in
  route_ok (mg_notifier r.1) cfg r.2 ∧ bgp_step (VIP_Prefix cfg) (mg_notifier m) (mg_notifier r.1).
Proof.
  intros Hv Hp Hr Hu. unfold commitState. case_decide as Hh.
  { split; [|by apply bgp_step_refl]. intros b Hb Hpe. cbn in *.
    by rewrite Hp, (Hr b Hb Hpe), (Hu Hh). }
  cbv zeta. case_decide as Hst; [|by apply transition_routes].
  destruct (mg_notifier m) as [b|] eqn:En; [|cbn; rewrite En; by split].
  cbn [vs_state vs_bgpPending setFileOn]. destruct (negb _ && _) eqn:Eg.
  - rewrite (surjective_pairing (applyBGP cfg (vs_state vs) b)). cbn.
    apply applyBGP_routes; [by apply Hv|done..].
  - cbn [fst snd]. rewrite En. split; [|by apply bgp_step_refl]. intros b0 [= <-] Hpe. cbn in *.
    rewrite Hp, (Hr b eq_refl Hpe). apply andb_false_iff in Eg. rewrite Hpe in Eg. cbn in Eg.
    rewrite !negb_false_iff, !bool_decide_eq_true in Eg. destruct Eg as [->|Eg]; [done|].
    unfold routeOf. by rewrite Eg, Hp.
Qed.

Definition sound (m : Manager) : Prop := routes_ok m ∧ fail_closed m.

(** Writing one entry back, after an operation on its route only. *)
Lemma sound_setEntry m m' name e0 e :
  sound m → mg_vips m !! name = Some e0 → mg_vips m' = mg_vips m →
  VIP_Prefix (ve_cfg e) = VIP_Prefix (ve_cfg e0) →
  route_ok (mg_notifier m') (ve_cfg e) (ve_state e) ∧
  bgp_step (VIP_Prefix (ve_cfg e)) (mg_notifier m) (mg_notifier m') →
  (vs_health (ve_state e) = HealthUnknown → vs_state (ve_state e) = StateWithdrawn) →
  sound (setEntry m' name e).
Proof.
  intros [(_ & Hinj & Hroute & Hnone) Hfc] He Hv Hp [Hre Hst] Hu.
  split; [split; [exact (proj1 Hst)|split; [|split]]|].
  - intros n1 n2 e1 e2. cbn. rewrite Hv.
    intros [[<- <-]|[Hn1 H1]]%lookup_insert_Some [[<- <-]|[Hn2 H2]]%lookup_insert_Some; rewrite ?Hp;
      eauto.
  - intros n e1. cbn. rewrite Hv. intros [[<- <-]|[Hn1 H1]]%lookup_insert_Some; [done|].
    intros b' Hb' Hpe. rewrite Hb' in Hst. apply bgp_step_lookup in Hst as (b & En & Hst).
    rewrite Hst; [by apply (Hroute n e1 H1 b En)|].
    intros Hs. apply Hn1. rewrite Hp in Hs. by eapply Hinj.
  - intros b' q Hb' Hq. cbn in Hb', Hq. rewrite Hv in Hq.
    rewrite Hb' in Hst. apply bgp_step_lookup in Hst as (b & En & Hst). rewrite Hst.
    + apply (Hnone b q En). intros n e1 H1. destruct (decide (n = name)) as [->|Hne].
      * rewrite He in H1. injection H1 as <-. rewrite <-Hp. apply (Hq name). by rewrite lookup_insert_eq.
      * apply (Hq n). by rewrite lookup_insert_ne.
    + apply (Hq name). by rewrite lookup_insert_eq.
  - intros n e1. cbn. rewrite Hv. intros [[<- <-]|[Hn1 H1]]%lookup_insert_Some; [done|by apply Hfc in H1].
Qed.

Lemma combineHealth_known eval cs k c :
  cs !! k = Some c → cs_health c ≠ HealthUnknown → combineHealth eval cs ≠ HealthUnknown.
Proof.
  intros Hk Hh. unfold combineHealth. rewrite bool_decide_eq_false_2.
  - cbn. by case_match.
  - intros Hall. by apply Hall in Hk.
Qed.

Lemma sound_entry m name e :
  sound m → mg_vips m !! name = Some e →
  valid_n (mg_notifier m) ∧ route_ok (mg_notifier m) (ve_cfg e) (ve_state e) ∧
  (vs_health (ve_state e) = HealthUnknown → vs_state (ve_state e) = StateWithdrawn).
Proof. intros [(Hv & _ & Hr & _) Hfc] He. split; [done|]. split; [by apply (Hr name)|by apply (Hfc name)]. Qed.

Lemma OnHealthTransition_sound stat now t m :
  sound m → sound (OnHealthTransition stat now t m).
Proof.
  intros Hs. unfold OnHealthTransition.
  destruct (mg_vips m !! HT_VIPName t) as [e|] eqn:He; [|done].
  destruct (findCheck _ _) as [[k c]|] eqn:Hf; [|done].
  cbv zeta. set (cs := mkCheckState _ _ _ _).
  destruct (sound_entry _ _ _ Hs He) as (Hv & Hroute & Hun).
  assert (combineHealth (ve_eval e) (<[k := cs]> (vs_checks (ve_state e))) ≠ HealthUnknown) as Hk.
  { eapply combineHealth_known; [by rewrite lookup_insert_eq|]. cbn. by case_match. }
  destruct (decide (combineHealth _ _ = _)) as [Hcomb|Hcomb].
  - eapply (sound_setEntry m m); [done..|split; [done|by apply bgp_step_refl]|done].
  - rewrite (surjective_pairing (transitionStateLocked _ _ _ _ _ _)).
    eapply (sound_setEntry m); [done|done|apply transition_vips|done|by apply transition_routes|].
    cbn [ve_state]. intros Hu. exfalso. apply Hk. rewrite <-Hu. symmetry.
    by edestruct transition_vs as (_ & -> & _).
Qed.

Lemma OnCheckResult_sound stat now vip check result m :
  sound m → sound (OnCheckResult stat now vip check result m).
Proof.
  intros Hs. unfold OnCheckResult.
  destruct (mg_vips m !! vip) as [e|] eqn:He; [|done].
  destruct (findCheck _ _) as [[k c]|] eqn:Hf; [|done]. cbv zeta.
  destruct (sound_entry _ _ _ Hs He) as (Hv & Hroute & Hun).
  set (vs1 := setFileOn _ _). set (changed := negb _).
  change (lowerPriorityFilePresent stat _) with (vs_lowerPriorityFileOn vs1).
  rewrite (surjective_pairing (reevaluate _ _ _ _ _ _)), (reevaluate_eq now m vs1 (ve_cfg e) changed).
  set (r1 := if decide _ then _ else _).
  assert (mg_vips r1.1 = mg_vips m ∧ (route_ok (mg_notifier r1.1) (ve_cfg e) r1.2 ∧
    bgp_step (VIP_Prefix (ve_cfg e)) (mg_notifier m) (mg_notifier r1.1)) ∧
    (vs_health r1.2 = HealthUnknown → vs_state r1.2 = StateWithdrawn)) as (Hv1 & [Hr1 Hb1] & Hu1).
  { unfold r1. case_decide as Hu.
    - split; [done|]. split; [split; [done|by apply bgp_step_refl]|done].
    - split; [apply transition_vips|]. split; [by apply transition_routes|].
      by edestruct transition_vs as (_ & -> & _). }
  rewrite (surjective_pairing (retryBGP _ _ _)).
  destruct (retryBGP_frame r1.1 r1.2 (ve_cfg e)) as (Hv2 & _ & _ & Hvs2).
  destruct (retry_routes r1.1 r1.2 (ve_cfg e) (proj1 Hb1) Hr1) as [Hr2 Hb2].
  set (m2 := setEntry _ _ _). enough (sound m2) by done.
  eapply (sound_setEntry m); [done|done|congruence|done| |].
  - split; [exact Hr2|]. eapply bgp_step_trans; [exact Hb1|exact Hb2].
  - cbn [ve_state]. rewrite Hvs2. exact Hu1.
Qed.

(** What an operation must not do for the routes to follow the states: add a
    VIP on a route in use, forget a VIP whose withdraw is pending, or commit a
    definition that takes every verdict away from an announced VIP. *)
Definition decisive (m : Manager) (op : pm_op) : Prop :=
  match op with
  | OpAdd _ _ cfg =>
      mg_vips m !! VIP_Name cfg = None →
      ∀ n e, mg_vips m !! n = Some e → ¬ same_route (VIP_Prefix (ve_cfg e)) (VIP_Prefix cfg)
  | OpRemove name =>
      ∀ e, mg_vips m !! name = Some e →
        vs_state (ve_state e) = StateWithdrawn → vs_bgpPending (ve_state e) = false
  | OpCommit stat now cfg seeds =>
      ∀ e, mg_vips (CommitVIP stat now cfg seeds m).1 !! VIP_Name cfg = Some e →
        vs_health (ve_state e) = HealthUnknown → vs_state (ve_state e) = StateWithdrawn
  | _ => True
  end.

Lemma registerVIP_sound stat now m v :
  sound m → mg_vips m !! VIP_Name v = None →
  (∀ n e, mg_vips m !! n = Some e → ¬ same_route (VIP_Prefix (ve_cfg e)) (VIP_Prefix v)) →
  sound (registerVIP stat now m v).
Proof.
  intros [(Hv & Hinj & Hroute & Hnone) Hfc] Hn Hd. split; [split; [done|split; [|split]]|].
  - intros n1 n2 e1 e2. cbn.
    intros [[<- <-]|[Hn1 H1]]%lookup_insert_Some [[<- <-]|[Hn2 H2]]%lookup_insert_Some Hsr; eauto.
    + exfalso. apply same_route_sym in Hsr. by apply (Hd _ _ H2).
    + exfalso. by apply (Hd _ _ H1).
  - intros n e1. cbn. intros [[<- <-]|[Hn1 H1]]%lookup_insert_Some; [|by apply (Hroute n)].
    intros b Hb _. by apply (Hnone b).
  - intros b q Hb Hq. cbn in Hq. apply (Hnone b q Hb). intros n e He. apply (Hq n).
    rewrite lookup_insert_ne; [done|]. intros <-. congruence.
  - intros n e1. cbn. intros [[<- <-]|[Hn1 H1]]%lookup_insert_Some; [done|by apply Hfc in H1].
Qed.

(** Forgetting a VIP whose route is gone. *)
Lemma forget_sound name m e n' :
  sound m → mg_vips m !! name = Some e →
  bgp_step (VIP_Prefix (ve_cfg e)) (mg_notifier m) n' →
  (∀ b, n' = Some b → installed b (VIP_Prefix (ve_cfg e)) = None) →
  sound (forget name (setNotifier m n')).
Proof.
  intros [(_ & Hinj & Hroute & Hnone) Hfc] He Hst Hgone.
  split; [split; [exact (proj1 Hst)|split; [|split]]|].
  - intros n1 n2 e1 e2. cbn. intros [_ H1]%lookup_delete_Some [_ H2]%lookup_delete_Some. eauto.
  - intros n e1. cbn. intros [Hn H1]%lookup_delete_Some b' Hb' Hpe.
    rewrite Hb' in Hst. apply bgp_step_lookup in Hst as (b & En & Hst).
    rewrite Hst; [by apply (Hroute n e1 H1 b En)|]. intros Hs. apply Hn. by eapply Hinj.
  - intros b' q Hb' Hq. cbn in Hb', Hq. subst n'. apply bgp_step_lookup in Hst as (b & En & Hst).
    destruct (installed b' q) as [rt|] eqn:Hin; [|done]. exfalso.
    assert (¬ same_route (VIP_Prefix (ve_cfg e)) q) as Hns.
    { intros Hsr. pose proof (Hgone b' eq_refl) as Hg. rewrite (installed_same b' _ _ Hsr) in Hg. congruence. }
    rewrite (Hst q Hns) in Hin. enough (installed b q = None) by congruence.
    apply (Hnone b q En). intros n e1 H1.
    destruct (decide (n = name)) as [->|Hnn]; [by simplify_eq|]. apply (Hq n). by rewrite lookup_delete_ne.
  - intros n e1. cbn. intros [_ H1]%lookup_delete_Some. by apply Hfc in H1.
Qed.

Lemma setNotifier_same (m : Manager) : setNotifier m (mg_notifier m) = m.
Proof. by destruct m. Qed.

Lemma setEntry_same (m : Manager) n name e :
  mg_vips m !! name = Some e → setEntry (setNotifier m n) name e = setNotifier m n.
Proof. intros He. unfold setEntry, setVips, setNotifier. cbn. by rewrite insert_id. Qed.

Lemma RemoveVIP_sound name m :
  sound m → decisive m (OpRemove name) → sound (RemoveVIP name m).1.
Proof.
  intros Hs Hd. unfold RemoveVIP. destruct (mg_vips m !! name) as [e|] eqn:He; [|done].
  destruct (sound_entry _ _ _ Hs He) as (Hv & Hroute & Hun).
  assert (bgp_step (VIP_Prefix (ve_cfg e)) (mg_notifier m) (mg_notifier m)) as Hrefl
    by by apply bgp_step_refl.
  destruct (bool_decide_reflect (vs_state (ve_state e) = StateWithdrawn)) as [Hw|Hw].
  { cbn [fst]. rewrite <-setNotifier_same. eapply forget_sound; [done|done|done|].
    intros b Hb. rewrite (Hroute b Hb); [by rewrite Hw|by apply Hd]. }
  destruct (mg_notifier m) as [b|] eqn:En.
  2:{ cbn [fst]. rewrite <-(setNotifier_same m), En. by eapply forget_sound; [| |rewrite En|]. }
  pose proof (Hv b eq_refl) as Hb.
  assert (bgp_step (VIP_Prefix (ve_cfg e)) (Some b) (Some (WithdrawVIP (VIP_Prefix (ve_cfg e)) b).1)) as Hst.
  { split; [intros ? [= <-]; by apply withdraw_valid|]. intros q Hq. by apply withdraw_frame. }
  destruct (WithdrawVIP _ _) as [b' [err|]] eqn:Ew; cbn [fst snd] in *.
  - rewrite <-(setEntry_same m (Some b') name e He).
    eapply (sound_setEntry m); [done|done|done|done| |done]. rewrite En. split; [|done].
    intros b0 [= <-] Hpe. rewrite (withdraw_fails _ _ _ _ Hb Ew). by apply Hroute.
  - eapply forget_sound; [done|done|by rewrite En|]. intros b0 [= <-]. by eapply withdraw_removes.
Qed.

Lemma CommitVIP_sound stat now cfg seeds m :
  sound m → decisive m (OpCommit stat now cfg seeds) → sound (CommitVIP stat now cfg seeds m).1.
Proof.
  intros Hs. cbn [decisive]. unfold CommitVIP.
  destruct (mg_vips m !! VIP_Name cfg) as [e|] eqn:He; [|done].
  destruct (sound_entry _ _ _ Hs He) as (Hv & Hroute & Hun).
  cbv zeta. destruct (bool_decide_reflect (VIP_Prefix (ve_cfg e) = VIP_Prefix cfg)) as [Hp|Hp];
    cbn [negb]; [|done].
  destruct (commitChecks _ _ _ _) as [running [next|bad]]; cbn [fst snd] in *.
  2:{ intros _. eapply (sound_setEntry m m); [done..|split; [done|by apply bgp_step_refl]|done]. }
  destruct (CompileChecksPolicy _ _) as [eval|err] eqn:Ec; cbn [fst].
  2:{ intros _. eapply (sound_setEntry m); [done|done|done|done|split; [done|by apply bgp_step_refl]|done]. }
  rewrite (surjective_pairing (commitState _ _ _ _ _ _)). cbn [fst]. intros Hd.
  specialize (Hd _ (lookup_insert_eq _ _ _)). cbn [ve_state] in Hd.
  eapply (sound_setEntry m); [done|done|by edestruct commitState_frame as (-> & _)|done| |exact Hd].
  cbn [ve_cfg ve_state].
  set (vs := setHealth _ _) in *. set (m1 := setMetrics _ _) in *.
  change (vs_state (ve_state e)) with (vs_state vs). change (mg_notifier m) with (mg_notifier m1).
  apply commitState_routes; [done|done|done|]. intros Hu.
  assert (commitState stat now m1 vs cfg (RouteAttrsFor (VIP_Policy (ve_cfg e)) (vs_state vs)) = (m1, vs))
    as Heq by (unfold commitState; by rewrite decide_True).
  change (vs_state (ve_state e)) with (vs_state vs) in Hd. rewrite Heq in Hd. by apply Hd.
Qed.

Lemma exec_sound m op : sound m → decisive m op → sound (exec m op).
Proof.
  intros Hs Hd. destruct op; cbn [exec].
  - by apply OnHealthTransition_sound.
  - by apply OnCheckResult_sound.
  - unfold AddVIP. destruct (mg_vips m !! VIP_Name cfg) eqn:E; [done|].
    apply registerVIP_sound; [done|done|by apply Hd].
  - by apply RemoveVIP_sound.
  - by apply CommitVIP_sound.
Qed.

(** A run of decisive operations. *)
Fixpoint decisive_run (m : Manager) (ops : list pm_op) : Prop :=
  match ops with
  | [] => True
  | op :: ops' => decisive m op ∧ decisive_run (exec m op) ops'
  end.

Lemma run_sound m ops : sound m → decisive_run m ops → sound (foldl exec m ops).
Proof.
  revert m. induction ops as [|op ops IH]; intros m Hs Hd; cbn; [done|].
  destruct Hd as [Hd Hrest]. apply IH; [by apply exec_sound|done].
Qed.

(** A daemon that starts with no route. *)
Definition noRoutes (notifier : option B) : Prop :=
  ∀ b, notifier = Some b → bgp_valid b ∧ ∀ q, installed b q = None.

Lemma NewManager_sound stat now vips x notifier :
  noRoutes notifier → NoDup (VIP_Name <$> vips) →
  (∀ i j v w, vips !! i = Some v → vips !! j = Some w →
     same_route (VIP_Prefix v) (VIP_Prefix w) → i = j) →
  sound (NewManager stat now vips x notifier).
Proof.
  intros Hn Hnd Hinj. unfold NewManager.
  assert (∀ m : Manager, sound m → (∀ v, v ∈ vips → mg_vips m !! VIP_Name v = None) →
    (∀ v n e, v ∈ vips → mg_vips m !! n = Some e → ¬ same_route (VIP_Prefix (ve_cfg e)) (VIP_Prefix v)) →
    sound (foldl (registerVIP stat now) m vips)) as Hgen.
  { clear Hn. revert Hnd Hinj. induction vips as [|v vips IH]; intros Hnd Hinj m Hm Hnone Hd; cbn; [done|].
    apply NoDup_cons in Hnd as [Hv Hnd]. apply IH; [done| | | |].
    - intros i j a b Hi Hj Hsr. by injection (Hinj (S i) (S j) a b Hi Hj Hsr).
    - apply registerVIP_sound; [done|apply Hnone; by left|]. intros n e. apply Hd. by left.
    - intros w Hw. cbn. rewrite lookup_insert_ne; [apply Hnone; by right|].
      intros Heq. apply Hv. rewrite Heq. by apply list_elem_of_fmap_2.
    - intros w n e Hw. cbn. intros [[<- <-]|[_ He]]%lookup_insert_Some; [|by apply (Hd w n); [right|]].
      intros Hsr. apply list_elem_of_lookup in Hw as [i Hi]. by specialize (Hinj 0%nat (S i) v w eq_refl Hi Hsr). }
  apply Hgen; [|done|done]. split; [split; [|split; [|split]]|]; try done.
  - intros b Hb. by apply Hn.
  - intros b q Hb _. by apply Hn.
Qed.

(** ** What the API reports *)

Lemma statusLoop_Ret (m : Manager) names :
  (∀ n, n ∈ names → is_Some (mg_vips m !! n)) →
  ∃ l, statusLoop m names = Ret l ∧ VS_Name <$> l = names ∧
       ∀ s, s ∈ l → ∃ e, mg_vips m !! VS_Name s = Some e ∧ s = statusOfVIP (VS_Name s) e.
Proof.
  induction names as [|n names IH]; intros Hall; cbn.
  { exists []. split; [done|]. split; [done|]. by intros s ?%not_elem_of_nil. }
  destruct (Hall n) as [e He]; [by left|]. rewrite He.
  destruct IH as (l & -> & Hn & Hl); [intros; apply Hall; by right|].
  exists (statusOfVIP n e :: l). split; [done|]. split; [cbn; by rewrite Hn|].
  intros s [->|Hs]%elem_of_cons; [by exists e|by apply Hl].
Qed.

Lemma GetVIPStatuses_Ret (m : Manager) :
  mgr_ok m → ∃ l, GetVIPStatuses m = Ret l ∧ VS_Name <$> l = VIPNames m ∧
    ∀ s, s ∈ l → ∃ e, mg_vips m !! VS_Name s = Some e ∧ s = statusOfVIP (VS_Name s) e.
Proof. intros (_ & Hdom & _). apply statusLoop_Ret. intros n. by apply Hdom. Qed.

(** The health of the checks, as [combineHealth] passes it to [Eval]. *)
Definition healthMap (cs : gmap string checkState) : gmap string bool :=
  (λ c, bool_decide (cs_health c = HealthHealthy)) <$> cs.

Lemma combineHealth_healthy eval cs :
  combineHealth eval cs = HealthHealthy → Eval eval (healthMap cs) = true.
Proof. unfold combineHealth. fold (healthMap cs). by repeat case_match. Qed.

Lemma Evaluate_announced h f p : Evaluate h f p = StateAnnounced → h = true ∧ f = false.
Proof. unfold Evaluate. by destruct h, f; repeat case_decide. Qed.

Lemma Evaluate_unhealthy f p :
  Policy_FailAction p ≠ "lower_priority" → Evaluate false f p = StateWithdrawn.
Proof. intros Hp. unfold Evaluate. by repeat case_decide. Qed.

Lemma RouteAttrs_eta a : mkRouteAttrs (ASPathPrepend a) (Communities a) = a.
Proof. by destruct a. Qed.

(** ** Properties of runs *)

(** C13: whatever transitions, results, additions, removals and commits the
    manager handles, its invariant holds: the order lists every VIP once, the
    check states and the evaluator are those of the VIP's config, the health
    is the combination of the checks, a known health determines the state,
    and the state and priority gauges show it. *)
Theorem policy_invariant stat now vips x (notifier : option B) ops :
  NoDup (VIP_Name <$> vips) →
  mgr_ok (foldl exec (NewManager stat now vips x notifier) ops).
Proof. intros Hnd. by apply run_preserves, NewManager_ok. Qed.

(** The route a status describes. *)
Definition statusRoute (s : VIPStatus) : option Route :=
  match VS_State s with
  | StateWithdrawn => None
  | _ => Some (originated (VS_Prefix s) (mkRouteAttrs (VS_ASPathPrepend s) (VS_Communities s)))
  end.

(** A manager whose routes follow its states reports them. *)
Lemma status_sound (m : Manager) :
  mgr_ok m → sound m →
  ∃ l, GetVIPStatuses m = Ret l ∧ VS_Name <$> l = VIPNames m ∧
  ∀ s b, s ∈ l → mg_notifier m = Some b → VS_BGPPending s = false →
    installed b (VS_Prefix s) = statusRoute s.
Proof.
  intros Hok Hs. destruct (GetVIPStatuses_Ret m Hok) as (l & Hl & Hnames & Hel).
  exists l. split; [done|]. split; [done|]. intros s b Hsl Hb. destruct (Hel s Hsl) as (e & He & ->).
  destruct (sound_entry m _ e Hs He) as (_ & Hr & _). intros Hp. cbn in *. rewrite (Hr b Hb Hp).
  unfold routeOf, statusRoute. cbn. by rewrite RouteAttrs_eta.
Qed.

Lemma status_truth stat now vips x notifier ops :
  NoDup (VIP_Name <$> vips) → noRoutes notifier →
  (∀ i j v w, vips !! i = Some v → vips !! j = Some w →
     same_route (VIP_Prefix v) (VIP_Prefix w) → i = j) →
  decisive_run (NewManager stat now vips x notifier) ops →
  let m := foldl exec (NewManager stat now vips x notifier) ops in
  ∃ l, GetVIPStatuses m = Ret l ∧ VS_Name <$> l = VIPNames m ∧
  ∀ s b, s ∈ l → mg_notifier m = Some b → VS_BGPPending s = false →
    installed b (VS_Prefix s) = statusRoute s.
Proof.
  intros Hnd Hn Hinj Hd m. apply status_sound; [by apply run_preserves, NewManager_ok|].
  apply run_sound; [by apply NewManager_sound|done].
Qed.

(** The status report never fails and tells the truth about BGP: in any
    decisive run, a VIP reported without a pending BGP operation has exactly
    the route its reported state, prepend and communities describe, and no
    route when it is reported withdrawn. *)
Theorem status_matches_bgp stat now vips x notifier ops :
  NoDup (VIP_Name <$> vips) → noRoutes notifier →
  (∀ i j v w, vips !! i = Some v → vips !! j = Some w →
     same_route (VIP_Prefix v) (VIP_Prefix w) → i = j) →
  decisive_run (NewManager stat now vips x notifier) ops →
  let m := foldl exec (NewManager stat now vips x notifier) ops in
  ∃ l, GetVIPStatuses m = Ret l ∧ VS_Name <$> l = VIPNames m ∧
  ∀ s b, s ∈ l → mg_notifier m = Some b → VS_BGPPending s = false →
    installed b (VS_Prefix s) = statusRoute s.
Proof. apply status_truth. Qed.

(** Fail closed: in any decisive run a VIP is out of the withdrawn state
    only after a check reported, announced at full priority only while
    checks_policy accepts the health of its checks and the marker file was
    absent, and, unless fail_action is lower_priority, announced at all only
    while checks_policy accepts. *)
Theorem announced_only_when_healthy stat now vips x notifier ops name e :
  NoDup (VIP_Name <$> vips) → noRoutes notifier →
  (∀ i j v w, vips !! i = Some v → vips !! j = Some w →
     same_route (VIP_Prefix v) (VIP_Prefix w) → i = j) →
  decisive_run (NewManager stat now vips x notifier) ops →
  mg_vips (foldl exec (NewManager stat now vips x notifier) ops) !! name = Some e →
  vs_state (ve_state e) ≠ StateWithdrawn →
  vs_health (ve_state e) ≠ HealthUnknown ∧
  (vs_state (ve_state e) = StateAnnounced →
     Eval (ve_eval e) (healthMap (vs_checks (ve_state e))) = true ∧
     vs_lowerPriorityFileOn (ve_state e) = false) ∧
  (Policy_FailAction (VIP_Policy (ve_cfg e)) ≠ "lower_priority" →
     Eval (ve_eval e) (healthMap (vs_checks (ve_state e))) = true).
Proof.
  intros Hnd Hn Hinj Hd He Hw.
  assert (sound (foldl exec (NewManager stat now vips x notifier) ops)) as Hs
    by (apply run_sound; [by apply NewManager_sound|done]).
  pose proof (run_preserves _ ops (NewManager_ok stat now vips x notifier Hnd)) as (_ & _ & Hok).
  destruct (Hok name e He) as [_ _ _ Hh Hst _].
  destruct (sound_entry _ _ _ Hs He) as (_ & _ & Hu).
  assert (vs_health (ve_state e) ≠ HealthUnknown) as Hk by auto.
  specialize (Hst Hk). split; [done|]. split.
  - intros Ha. rewrite Hst in Ha. apply Evaluate_announced in Ha as [Ha Hf].
    apply bool_decide_eq_true in Ha. split; [|done]. apply combineHealth_healthy. congruence.
  - intros Hf. apply combineHealth_healthy. rewrite <-Hh.
    destruct (decide (vs_health (ve_state e) = HealthHealthy)) as [|Hnh]; [done|].
    rewrite bool_decide_eq_false_2, Evaluate_unhealthy in Hst by done. done.
Qed.

End Routes.

(** ** Properties of single operations *)

(** BGP works again: a set of states in which every operation on the VIP
    succeeds and stays in the set. *)
Definition accepts (cfg : VIPConfig) (up : B → Prop) : Prop :=
  ∀ st b, up b → (applyBGP cfg st b).2 = None ∧ up (applyBGP cfg st b).1.

Definition is_up (up : B → Prop) (n : option B) : Prop := ∃ b, n = Some b ∧ up b.

Lemma retryBGP_clears up m vs cfg :
  accepts cfg up → is_up up (mg_notifier m) → vs_bgpPending (retryBGP m vs cfg).2 = false.
Proof.
  intros Hup (b & Hb & Hub). unfold retryBGP. rewrite Hb. destruct (vs_bgpPending vs) eqn:E; [|done].
  destruct (Hup (vs_state vs) b Hub) as [Hu _]. destruct (applyBGP _ _ b) as [b' err]. cbn in *. by subst.
Qed.

Lemma transition_up up now (m : Manager) vs cfg st reason :
  accepts cfg up → is_up up (mg_notifier m) →
  is_up up (mg_notifier (transitionStateLocked now m vs cfg st reason).1).
Proof.
  intros Hup (b & Hb & Hub). unfold transitionStateLocked. rewrite Hb.
  case_decide; [by exists b|]. destruct (Hup st b Hub) as [_ Hub'].
  destruct (applyBGP _ _ _) as [b' err]. by exists b'.
Qed.

Lemma reevaluate_up up now (m : Manager) vs cfg f c :
  accepts cfg up → is_up up (mg_notifier m) → is_up up (mg_notifier (reevaluate now m vs cfg f c).1).
Proof.
  intros Hup Hb. unfold reevaluate. case_decide; [done|]. cbv zeta. case_decide; [done|].
  by apply transition_up.
Qed.


(** [RemoveVIP] is all or nothing: when the withdraw fails the manager
    keeps the VIP, its order and its series, and reports the error; otherwise
    the VIP, its place in the order and every series of it are gone. *)
Theorem RemoveVIP_atomic name (m : Manager) :
  mgr_ok m →
  let '(m', err) := RemoveVIP name m in
  match err with
  | Some _ => mg_vips m' = mg_vips m ∧ mg_order m' = mg_order m ∧ mg_metrics m' = mg_metrics m
  | None =>
      mg_vips m' = delete name (mg_vips m) ∧
      (∀ n, n ∈ VIPNames m' ↔ n ∈ VIPNames m ∧ n ≠ name) ∧
      (is_Some (mg_vips m !! name) → ∀ v ls, v ∈ vipVecs → labelValue (labelNames v) ls "vip" = Some name →
         mg_metrics m' !! (v, ls) = None)
  end.
Proof.
  intros (Hnd & Hdom & _). pose proof (proj2 (removeFirst_spec name _ Hnd)) as Hrem.
  assert (∀ m0 : Manager, mg_vips m0 = mg_vips m → mg_order m0 = mg_order m →
    mg_vips (forget name m0) = delete name (mg_vips m) ∧
    (∀ n, n ∈ VIPNames (forget name m0) ↔ n ∈ VIPNames m ∧ n ≠ name) ∧
    (is_Some (mg_vips m !! name) → ∀ v ls, v ∈ vipVecs → labelValue (labelNames v) ls "vip" = Some name →
       mg_metrics (forget name m0) !! (v, ls) = None)) as Hforget.
  { intros m0 Hv Ho. cbn. rewrite Hv. split; [done|]. split.
    - unfold VIPNames. cbn. by rewrite Ho.
    - intros _ v ls Hvec Hl. unfold DeleteVIPSeries. rewrite lookup_DeletePartialMatch, decide_True; [done|].
      split; [done|]. unfold matchesLabels. cbn [forallb fst snd]. by rewrite Hl, bool_decide_eq_true_2. }
  unfold RemoveVIP. destruct (mg_vips m !! name) as [e|] eqn:He.
  2:{ split; [by rewrite delete_id|]. split; [|by intros []]. intros n. split; [|by intros []].
      intros Hn. split; [done|]. intros ->. apply Hdom in Hn. rewrite He in Hn. by destruct Hn. }
  destruct (bool_decide _); [by apply Hforget|].
  destruct (mg_notifier m) as [b|]; [|by apply Hforget].
  destruct (WithdrawVIP _ b) as [b' [err|]]; [done|by apply Hforget].
Qed.

(** C33: [RemoveVIP] of a VIP in the withdrawn state never talks to BGP, even
    when the withdraw that put it there failed and is still pending: the VIP
    is forgotten and the route it left behind stays. *)
Theorem RemoveVIP_leaks_pending name (m : Manager) e :
  mg_vips m !! name = Some e → vs_state (ve_state e) = StateWithdrawn →
  let '(m', err) := RemoveVIP name m in
  err = None ∧ mg_vips m' !! name = None ∧ mg_notifier m' = mg_notifier m.
Proof.
  intros He Hw. unfold RemoveVIP. rewrite He, bool_decide_eq_true_2 by done. cbn.
  by rewrite lookup_delete_eq.
Qed.

(** A rejected [CommitVIP] (unknown VIP, changed prefix, a check with
    neither a state nor a seed, a bad checks_policy) keeps the VIP on its old
    definition: config, evaluator, state, health, pending flag, the health of
    every check, and BGP are as before. *)
Theorem CommitVIP_rejected stat now cfg seeds (m : Manager) err :
  mgr_ok m → (CommitVIP stat now cfg seeds m).2 = Some err →
  let m' := (CommitVIP stat now cfg seeds m).1 in
  mg_notifier m' = mg_notifier m ∧ mg_order m' = mg_order m ∧
  (∀ n, n ≠ VIP_Name cfg → mg_vips m' !! n = mg_vips m !! n) ∧
  ∀ e, mg_vips m !! VIP_Name cfg = Some e →
    ∃ cs, mg_vips m' !! VIP_Name cfg =
            Some (mkVipEntry (ve_cfg e) (ve_eval e) (setChecks (ve_state e) cs)) ∧
          cs_health <$> cs = cs_health <$> vs_checks (ve_state e).
Proof.
  intros (_ & _ & Hall). unfold CommitVIP. cbv zeta.
  destruct (mg_vips m !! VIP_Name cfg) as [e|] eqn:He; [|done].
  assert (∀ m0 : Manager, mg_vips m0 = mg_vips m → ∀ e0, e0 = e → mg_vips m0 !! VIP_Name cfg =
    Some (mkVipEntry (ve_cfg e0) (ve_eval e0) (setChecks (ve_state e0) (vs_checks (ve_state e0))))) as Hsame.
  { intros m0 -> e0 ->. rewrite He. by destruct e as [? ? []]. }
  destruct (negb _).
  { intros _. split; [done|]. split; [done|]. split; [done|]. intros e0 [= <-]. eauto. }
  pose proof (commitChecks_running (CheckList cfg) seeds (vs_checks (ve_state e)) ∅
    (proj2 (eo_checks _ _ _ (Hall _ _ He)))) as [_ Hh].
  destruct (commitChecks _ _ _ _) as [running [next|bad]]; cbn [fst snd] in *.
  - destruct (CompileChecksPolicy _ _) as [eval|e1]; cbn [fst snd].
    { rewrite (surjective_pairing (commitState _ _ _ _ _ _)). done. }
    intros _. split; [done|]. split; [done|]. split; [intros n Hn; cbn; by rewrite lookup_insert_ne|].
    intros e0 [= <-]. exists running. cbn. by rewrite lookup_insert_eq.
  - intros _. split; [done|]. split; [done|]. split; [intros n Hn; cbn; by rewrite lookup_insert_ne|].
    intros e0 [= <-]. exists running. cbn. by rewrite lookup_insert_eq.
Qed.

(** C34: an accepted [CommitVIP] that leaves no check with a verdict keeps the
    VIP in the state it had, announced or not, whatever the new policy says,
    and does not touch BGP: its route stays with the old attributes. *)
Theorem CommitVIP_keeps_route_without_verdict stat now cfg seeds (m : Manager) e :
  mg_vips m !! VIP_Name cfg = Some e →
  (CommitVIP stat now cfg seeds m).2 = None →
  let m' := (CommitVIP stat now cfg seeds m).1 in
  (∀ e', mg_vips m' !! VIP_Name cfg = Some e' → vs_health (ve_state e') = HealthUnknown →
     mg_notifier m' = mg_notifier m ∧ vs_state (ve_state e') = vs_state (ve_state e) ∧
     ve_cfg e' = cfg).
Proof.
  intros He. unfold CommitVIP. cbv zeta. rewrite He. destruct (negb _); [done|].
  destruct (commitChecks _ _ _ _) as [running [next|bad]]; [|done].
  destruct (CompileChecksPolicy _ _) as [eval|e1]; [|done].
  set (m1 := setMetrics _ _). set (vs1 := setHealth _ _).
  rewrite (surjective_pairing (commitState _ _ _ _ _ _)). cbn [fst snd]. intros _ e'.
  cbn [mg_vips setEntry setVips]. rewrite lookup_insert_eq. intros [= <-]. cbn [ve_state ve_cfg].
  unfold commitState. destruct (decide (vs_health vs1 = HealthUnknown)) as [|Hk]; [done|].
  intros Hu. exfalso. apply Hk. rewrite <-Hu. cbv zeta.
  case_decide; [|by edestruct transition_vs as (_ & -> & _)].
  destruct (mg_notifier m1); [|done]. case_match; [|done]. by destruct (applyBGP _ _ _).
Qed.

Lemma transition_effect stat now t (m : Manager) e k c :
  mg_vips m !! HT_VIPName t = Some e →
  findCheck (vs_checks (ve_state e)) (HT_CheckName t) = Some (k, c) →
  let h := if HT_Healthy t then HealthHealthy else HealthUnhealthy in
  let cs := <[k := mkCheckState (cs_cfg c) h (cs_lastResult c) (cs_lastTime c)]>
              (vs_checks (ve_state e)) in
  let combined := combineHealth (ve_eval e) cs in
  let file := lowerPriorityFilePresent stat (Policy_LowerPriorityFile (VIP_Policy (ve_cfg e))) in
  ∃ e', mg_vips (OnHealthTransition stat now t m) !! HT_VIPName t = Some e' ∧
    ve_cfg e' = ve_cfg e ∧ ve_eval e' = ve_eval e ∧
    vs_checks (ve_state e') = cs ∧ vs_health (ve_state e') = combined ∧
    (vs_state (ve_state e'), vs_lowerPriorityFileOn (ve_state e')) =
      (if decide (combined = vs_health (ve_state e))
       then (vs_state (ve_state e), vs_lowerPriorityFileOn (ve_state e))
       else (Evaluate (bool_decide (combined = HealthHealthy)) file (VIP_Policy (ve_cfg e)), file)).
Proof.
  intros He Hf h cs combined file. unfold OnHealthTransition. rewrite He, Hf. cbv zeta. fold h.
  fold cs. change (vs_checks (setChecks (ve_state e) cs)) with cs. fold combined file.
  cbn [vs_health setChecks]. destruct (decide (combined = vs_health (ve_state e))) as [Heq|Hne].
  - eexists. split; [cbn; by rewrite lookup_insert_eq|]. by cbn.
  - rewrite (surjective_pairing (transitionStateLocked _ _ _ _ _ _)).
    eexists. split; [cbn; by rewrite lookup_insert_eq|]. cbn [ve_cfg ve_eval ve_state].
    edestruct transition_vs as (-> & -> & -> & ->). done.
Qed.

(** A result changes the health of no check. *)
Lemma result_effect stat now vip check result (m : Manager) e k c :
  mg_vips m !! vip = Some e → findCheck (vs_checks (ve_state e)) check = Some (k, c) →
  ∃ e', mg_vips (OnCheckResult stat now vip check result m) !! vip = Some e' ∧
    ve_cfg e' = ve_cfg e ∧ ve_eval e' = ve_eval e ∧
    vs_checks (ve_state e') = <[k := mkCheckState (cs_cfg c) (cs_health c) result now]>
                                (vs_checks (ve_state e)) ∧
    vs_lowerPriorityFileOn (ve_state e') =
      lowerPriorityFilePresent stat (Policy_LowerPriorityFile (VIP_Policy (ve_cfg e))).
Proof.
  intros He Hf. unfold OnCheckResult. rewrite He, Hf. cbv zeta. set (vs1 := setFileOn _ _).
  change (lowerPriorityFilePresent stat _) with (vs_lowerPriorityFileOn vs1).
  set (changed := negb _).
  rewrite (surjective_pairing (reevaluate _ _ _ _ _ _)), (reevaluate_eq now m vs1 (ve_cfg e) changed).
  set (r1 := if decide _ then _ else _).
  rewrite (surjective_pairing (retryBGP _ _ _)).
  destruct (retryBGP_frame r1.1 r1.2 (ve_cfg e)) as (_ & _ & _ & Hvs2).
  eexists. split; [cbn; by rewrite lookup_insert_eq|]. cbn [ve_cfg ve_eval ve_state].
  rewrite Hvs2. cbn [setPending vs_checks vs_lowerPriorityFileOn]. unfold r1. case_decide; [done|].
  edestruct transition_vs as (_ & _ & -> & ->). done.
Qed.

(** A health transition does exactly this to its VIP: the named check
    takes the health, the VIP's health becomes the combination of its checks,
    and only when that changed is the state evaluated again, under the marker
    file as it is now. *)
Theorem OnHealthTransition_effect stat now t (m : Manager) e k c :
  mg_vips m !! HT_VIPName t = Some e →
  findCheck (vs_checks (ve_state e)) (HT_CheckName t) = Some (k, c) →
  let h := if HT_Healthy t then HealthHealthy else HealthUnhealthy in
  let cs := <[k := mkCheckState (cs_cfg c) h (cs_lastResult c) (cs_lastTime c)]>
              (vs_checks (ve_state e)) in
  let combined := combineHealth (ve_eval e) cs in
  let file := lowerPriorityFilePresent stat (Policy_LowerPriorityFile (VIP_Policy (ve_cfg e))) in
  ∃ e', mg_vips (OnHealthTransition stat now t m) !! HT_VIPName t = Some e' ∧
    ve_cfg e' = ve_cfg e ∧ ve_eval e' = ve_eval e ∧
    vs_checks (ve_state e') = cs ∧ vs_health (ve_state e') = combined ∧
    (vs_state (ve_state e'), vs_lowerPriorityFileOn (ve_state e')) =
      (if decide (combined = vs_health (ve_state e))
       then (vs_state (ve_state e), vs_lowerPriorityFileOn (ve_state e))
       else (Evaluate (bool_decide (combined = HealthHealthy)) file (VIP_Policy (ve_cfg e)), file)).
Proof. apply transition_effect. Qed.

(** The VIP an operation is about. *)
Definition target (op : pm_op) : string :=
  match op with
  | OpTransition _ _ t => HT_VIPName t
  | OpResult _ _ vip _ _ => vip
  | OpAdd _ _ cfg | OpCommit _ _ cfg _ => VIP_Name cfg
  | OpRemove name => name
  end.

Lemma setEntry_other (m m' : Manager) name e n :
  mg_vips m' = mg_vips m → n ≠ name → mg_vips (setEntry m' name e) !! n = mg_vips m !! n.
Proof. intros Hv Hn. cbn. by rewrite Hv, lookup_insert_ne. Qed.

Lemma reevaluate_vips now (m : Manager) vs cfg f c :
  mg_vips (reevaluate now m vs cfg f c).1 = mg_vips m.
Proof.
  unfold reevaluate. case_decide; [done|]. cbv zeta. case_decide; [done|]. apply transition_vips.
Qed.

Lemma retryBGP_vips (m : Manager) vs cfg : mg_vips (retryBGP m vs cfg).1 = mg_vips m.
Proof. apply retryBGP_frame. Qed.

(** Isolation: no operation on one VIP changes the entry or the state and
    priority gauges of another. *)
Theorem exec_isolated (m : Manager) op n :
  mgr_ok m → n ≠ target op →
  mg_vips (exec m op) !! n = mg_vips m !! n ∧
  ∀ e, mg_vips m !! n = Some e → gauges_ok (mg_metrics (exec m op)) (ve_cfg e) (vs_state (ve_state e)).
Proof.
  intros Hok Hn. pose proof (exec_preserves m op Hok) as (_ & _ & Hall).
  assert (mg_vips (exec m op) !! n = mg_vips m !! n) as Hv.
  { destruct op; cbn [exec target] in *; clear Hall.
    - unfold OnHealthTransition. destruct (mg_vips m !! _) as [e|]; [|done].
      destruct (findCheck _ _) as [[k c]|]; [|done]. cbv zeta.
      destruct (decide (combineHealth _ _ = _)); [by apply setEntry_other|].
      rewrite (surjective_pairing (transitionStateLocked _ _ _ _ _ _)).
      apply setEntry_other; [apply transition_vips|done].
    - unfold OnCheckResult. destruct (mg_vips m !! _) as [e|]; [|done].
      destruct (findCheck _ _) as [[k c]|]; [|done]. cbv zeta.
      rewrite (surjective_pairing (reevaluate _ _ _ _ _ _)), (surjective_pairing (retryBGP _ _ _)).
      apply (setEntry_other m); [|done]. by rewrite retryBGP_vips, reevaluate_vips.
    - unfold AddVIP. destruct (mg_vips m !! _); [done|]. cbn. by rewrite lookup_insert_ne.
    - unfold RemoveVIP. destruct (mg_vips m !! name) as [e|]; [|done].
      destruct (bool_decide _); [by apply lookup_delete_ne|].
      destruct (mg_notifier m); [|by apply lookup_delete_ne].
      destruct (WithdrawVIP _ _) as [b' [err|]]; [done|by apply lookup_delete_ne].
    - unfold CommitVIP. destruct (mg_vips m !! _) as [e|]; [|done]. cbv zeta. destruct (negb _); [done|].
      destruct (commitChecks _ _ _ _) as [running [next|bad]]; [|by apply setEntry_other].
      destruct (CompileChecksPolicy _ _); [|by apply (setEntry_other m)].
      rewrite (surjective_pairing (commitState _ _ _ _ _ _)).
      apply (setEntry_other m); [|done]. by edestruct commitState_frame as (-> & _). }
  split; [done|]. intros e He. rewrite <-Hv in He. exact (eo_gauges _ _ _ (Hall n e He)).
Qed.

End Proofs.
End PolicyProofs.
Export PolicyProofs.
