(* ===== verification/BGPManager.v ===== *)
(** * The embedded BGP speaker: internal/bgp/manager.go, route_state_metrics.go

    GoBGP is not part of the repository: [GoBGP] are the server calls the
    manager makes, on an abstract server state.  The manager keeps the UUID
    GoBGP returned for each installed prefix; its methods are functions on the
    server, that table and the route_state series it exported.  Traces and
    logs are left out. *)

From S2P Require Import Prelude GoStrings NetIP Config Model Metrics PolicyManager.
From Stdlib Require Import Ascii.

Module BGPManager.

(** ** Values passed to GoBGP *)

(** [bgppacket.Family]; any other family has only its name here. *)
Inductive Family := RF_IPv4_UC | RF_IPv6_UC | RF_Other (name : string).

(** The path attributes the manager sets. *)
Inductive PathAttr :=
| AttrOriginIGP
| AttrNextHop (a : Addr)
| AttrAsPath (segments : list (list Z))
| AttrCommunities (values : list Z).

(** [apiutil.Path]; the NLRI is a masked prefix. *)
Record Path := mkPath {
  Path_Family : Family;
  Path_Nlri : Prefix;
  Path_Attrs : list PathAttr }.

(** [api.Global]. *)
Record Global := mkGlobal {
  Global_Asn : Z;
  Global_RouterId : string;
  Global_ListenPort : Z;
  Global_ListenAddresses : list string }.

(** [api.Peer], as the manager configures one. *)
Record PeerSpec := mkPeerSpec {
  Peer_NeighborAddress : string;
  Peer_PeerAsn : Z;
  Peer_Description : string;
  Peer_AuthPassword : string;
  Peer_LocalAddress : string;
  Peer_RemotePort : Z;
  Peer_AfiSafis : list Family;
  Peer_PassiveMode : bool;
  Peer_GracefulRestart : bool;
  Peer_Timers : option (Z * option Z);
  Peer_EbgpMultihop : option Z;
  Peer_Bfd : option BFDConfig }.

(** [api.Peer], as [ListPeer] reports one: the name of its session state and
    its description, address and ASN; either part can be missing. *)
Record PeerReport := mkPeerReport {
  Report_State : option string;
  Report_Conf : option (string * string * Z) }.

(** A path of the adj-rib-out, as [ListPath] reports one.  An AS path comes
    rendered by [bgppacket.AsPathString]. *)
Inductive OutAttr :=
| OutAsPath (text : string)
| OutCommunities (values : list Z)
| OutLocalPref (v : Z)
| OutMed (v : Z)
| OutOther.
Record OutPath := mkOutPath {
  Out_Family : Family;
  Out_Nlri : option string;
  Out_Attrs : list OutAttr }.

(** The calls on [server.BgpServer] and the two constructors of
    [bgppacket] that can fail. *)
Class GoBGP (S UUID : Type) := {
  newIPAddrPrefix : Prefix → goerror;
  newPathAttributeNextHop : Addr → goerror;
  startBgp : Global → S → S * goerror;
  addPeer : PeerSpec → S → S * goerror;
  stopServer : S → S;
  addPath : Path → S → S * result error (list (goerror * UUID));
  deletePathUUID : UUID → S → S * goerror;
  deletePathPath : Path → S → S * goerror;
  listPeer : S → list PeerReport * goerror;
  listPath : string → Family → string → S → list (string * list OutPath) * goerror }.

(** ** Pure helpers *)

(** [buildASPath]. *)
Definition buildASPath (localASN prepend : Z) : list Z :=
  replicate (Z.to_nat (Z.max prepend 0)) localASN.

(** One round of [parseCommunities]. *)
Definition parseCommunity (s : string) : result error Z :=
  match SplitN2 s ":"%char with
  | [h; l] =>
      match ParseUint h 16 with
      | None => Err (Wrapf "invalid community %q: %w" [s] (External "strconv.ParseUint"))
      | Some high =>
          match ParseUint l 16 with
          | None => Err (Wrapf "invalid community %q: %w" [s] (External "strconv.ParseUint"))
          | Some low => Ok (Z.lor (Z.shiftl high 16) low)
          end
      end
  | _ => Err (Errorf "invalid community %q" [s])
  end.

(** [parseCommunities]. *)
Fixpoint parseCommunities (strs : list string) : result error (list Z) :=
  match strs with
  | [] => Ok []
  | s :: strs' =>
      try c <- parseCommunity s ;
      try comms <- parseCommunities strs' ;
      Ok (c :: comms)
  end.

(** [stringifyCommunities]. *)
Definition formatCommunity (c : Z) : string :=
  Itoa (Z.shiftr c 16) +:+ ":" +:+ Itoa (Z.land c 0xFFFF).
Definition stringifyCommunities (communities : list Z) : string :=
  match communities with
  | [] => EmptyString
  | _ => Join (sortStrings (formatCommunity <$> communities)) ","
  end.

(** [familyName] and [routeFamily]. *)
Definition familyName (f : Family) : string :=
  match f with
  | RF_IPv4_UC => "ipv4-unicast"
  | RF_IPv6_UC => "ipv6-unicast"
  | RF_Other name => ToLower name
  end.

Definition routeFamily (prefix : string) : Family :=
  match ParsePrefix prefix with
  | Some pfx => if Is6 (Prefix_Addr pfx) then RF_IPv6_UC else RF_IPv4_UC
  | None => RF_IPv4_UC
  end.

(** [routeStateLabels], its [values] and its [key]. *)
Record routeStateLabels := mkRouteStateLabels {
  rs_nlri : string; rs_peerIP : string; rs_peerASN : string; rs_asPath : string;
  rs_communities : string; rs_localPreference : string; rs_med : string; rs_family : string }.

Definition values (l : routeStateLabels) : list string :=
  [rs_nlri l; rs_peerIP l; rs_peerASN l; rs_asPath l; rs_communities l; rs_localPreference l;
   rs_med l; rs_family l].

Definition labelsKey (l : routeStateLabels) : string := Join (values l) (String "000"%char EmptyString).

(** One attribute of [routeStateLabelsFromPath]. *)
Definition addAttr (l : routeStateLabels) (a : OutAttr) : routeStateLabels :=
  match a with
  | OutAsPath t =>
      mkRouteStateLabels (rs_nlri l) (rs_peerIP l) (rs_peerASN l) t (rs_communities l)
        (rs_localPreference l) (rs_med l) (rs_family l)
  | OutCommunities v =>
      mkRouteStateLabels (rs_nlri l) (rs_peerIP l) (rs_peerASN l) (rs_asPath l)
        (stringifyCommunities v) (rs_localPreference l) (rs_med l) (rs_family l)
  | OutLocalPref v =>
      mkRouteStateLabels (rs_nlri l) (rs_peerIP l) (rs_peerASN l) (rs_asPath l) (rs_communities l)
        (Itoa v) (rs_med l) (rs_family l)
  | OutMed v =>
      mkRouteStateLabels (rs_nlri l) (rs_peerIP l) (rs_peerASN l) (rs_asPath l) (rs_communities l)
        (rs_localPreference l) (Itoa v) (rs_family l)
  | OutOther => l
  end.

(** [decodeNLRIPrefix]; [None] is a path without an NLRI. *)
Definition decodeNLRIPrefix (path : OutPath) : string := default EmptyString (Out_Nlri path).

(** [routeStateLabelsFromPath]. *)
Definition routeStateLabelsFromPath (nlri : string) (path : OutPath) (peerIP peerASN : string)
    : routeStateLabels :=
  let family := familyName (Out_Family path) in
  let family := if decide (family = EmptyString) then "ipv4-unicast" else family in
  let nlri := if decide (nlri = EmptyString) then decodeNLRIPrefix path else nlri in
  foldl addAttr
    (mkRouteStateLabels nlri peerIP peerASN EmptyString EmptyString EmptyString EmptyString family)
    (Out_Attrs path).

(** [strings.TrimPrefix]. *)
Definition TrimPrefix (s p : string) : string := default s (CutPrefix s p).

Section BGPManager.
Context {S UUID : Type} `{GoBGP S UUID} (cfg : Config).

(** The manager's mutable state; [bm_routeState] is the route_state vector,
    absent when the manager has no metrics. *)
Record Manager := mkManager {
  bm_server : S;
  bm_installedRouteUUID : gmap string UUID;
  bm_routeState : option (gmap (list string) Z);
  bm_routeStateByPrefix : gmap string (gmap string routeStateLabels) }.

Definition setServer (m : Manager) (s : S) : Manager :=
  mkManager s (bm_installedRouteUUID m) (bm_routeState m) (bm_routeStateByPrefix m).
Definition setInstalled (m : Manager) (t : gmap string UUID) : Manager :=
  mkManager (bm_server m) t (bm_routeState m) (bm_routeStateByPrefix m).

Definition localASN : Z := Router_ASN (Cfg_Router cfg).

(** [effectiveListenAddress], [buildGlobalConfig], [Start]. *)
Definition effectiveListenAddress : string :=
  if decide (BGP_ListenAddress (Cfg_BGP cfg) = EmptyString) then
    if decide (Router_LocalAddress (Cfg_Router cfg) = EmptyString) then "0.0.0.0"
    else Router_LocalAddress (Cfg_Router cfg)
  else BGP_ListenAddress (Cfg_BGP cfg).

Definition buildGlobalConfig : Global :=
  mkGlobal (Router_ASN (Cfg_Router cfg)) (Router_RouterID (Cfg_Router cfg))
    (if decide (BGP_ListenPort (Cfg_BGP cfg) = 0) then 179 else BGP_ListenPort (Cfg_BGP cfg))
    [effectiveListenAddress].

Definition Start (m : Manager) : Manager * goerror :=
  let '(s, err) := startBgp buildGlobalConfig (bm_server m) in
  (setServer m s, match err with Some e => Some (Wrapf "starting BGP: %w" [] e) | None => None end).

(** [peerLocalAddress], [wantsIPv6], [buildPeerAfiSafis]. *)
Definition peerLocalAddress (n : NeighborConfig) : string :=
  if decide (Neighbor_LocalAddress n = EmptyString) then Router_LocalAddress (Cfg_Router cfg)
  else Neighbor_LocalAddress n.

Definition wantsIPv6 : bool :=
  negb (bool_decide (Router_LocalAddressIPv6 (Cfg_Router cfg) = EmptyString))
  || existsb (λ v, match ParsePrefix (VIP_Prefix v) with
                   | Some pfx => Is6 (Prefix_Addr pfx)
                   | None => false
                   end) (elems (Cfg_VIPs cfg)).

Definition buildPeerAfiSafis : list Family :=
  RF_IPv4_UC :: (if wantsIPv6 then [RF_IPv6_UC] else []).

(** Whole seconds of a duration. *)
Definition Seconds (d : Z) : Z := Z.quot d 1000000000.

(** [buildPeer]. *)
Definition buildPeer (n : NeighborConfig) : result error PeerSpec :=
  let localAddress := peerLocalAddress n in
  if negb (Neighbor_Passive n) && negb (bool_decide (localAddress = EmptyString))
     && bool_decide (localAddress = Neighbor_Address n) then
    Err (Errorf "active peer local_address %q must differ from neighbor address %q to avoid self-dial"
           [localAddress; Neighbor_Address n])
  else
    Ok {| Peer_NeighborAddress := Neighbor_Address n;
          Peer_PeerAsn := Neighbor_PeerASN n;
          Peer_Description := Neighbor_Name n;
          Peer_AuthPassword := Neighbor_AuthPassword n;
          Peer_LocalAddress := localAddress;
          Peer_RemotePort := Neighbor_Port n;
          Peer_AfiSafis := buildPeerAfiSafis;
          Peer_PassiveMode := Neighbor_Passive n;
          Peer_GracefulRestart := default false (BGP_GracefulRestart (Cfg_BGP cfg));
          Peer_Timers :=
            (λ h, (Seconds h, Seconds <$> BGP_KeepaliveTime (Cfg_BGP cfg)))
              <$> BGP_HoldTime (Cfg_BGP cfg);
          Peer_EbgpMultihop :=
            if Neighbor_EnableMultihop n then Some (Neighbor_MultihopTTL n) else None;
          Peer_Bfd :=
            match Neighbor_BFD n with
            | Some b => if BFD_Enabled b then Some b else None
            | None => None
            end |}.

(** [AddPeers]: stops at the first neighbor that fails. *)
Fixpoint addPeersLoop (l : list NeighborConfig) (m : Manager) : Manager * goerror :=
  match l with
  | [] => (m, None)
  | n :: l' =>
      match buildPeer n with
      | Err e =>
          (m, Some (Wrapf "building peer %s (%s): %w" [Neighbor_Name n; Neighbor_Address n] e))
      | Ok peer =>
          let '(s, err) := addPeer peer (bm_server m) in
          match err with
          | Some e =>
              (setServer m s,
               Some (Wrapf "adding peer %s (%s): %w" [Neighbor_Name n; Neighbor_Address n] e))
          | None => addPeersLoop l' (setServer m s)
          end
      end
  end.
Definition AddPeers (m : Manager) : Manager * goerror :=
  addPeersLoop (elems (BGP_Neighbors (Cfg_BGP cfg))) m.

(** [hasIBGPPeer]. *)
Definition hasIBGPPeer : bool :=
  existsb (λ n, bool_decide (Neighbor_PeerASN n = localASN)) (elems (BGP_Neighbors (Cfg_BGP cfg))).

(** [nextHopFor]. *)
Definition nextHopFor (family : Family) : result error Addr :=
  match family with
  | RF_IPv6_UC =>
      let a := Router_LocalAddressIPv6 (Cfg_Router cfg) in
      if decide (a = EmptyString) then
        Err (Errorf "IPv6 route requires router.local_address_ipv6 to be set" [])
      else
        match ParseAddr a with
        | None => Err (Wrapf "invalid next-hop %q: %w" [a] (External "netip.ParseAddr"))
        | Some addr =>
            if Is6 addr then Ok addr
            else Err (Errorf "IPv6 route requires an IPv6 router.local_address_ipv6, got %q" [a])
        end
  | _ =>
      let nextHop := Router_LocalAddress (Cfg_Router cfg) in
      let nextHop :=
        match ParseAddr nextHop with
        | Some addr => if Is4 addr then nextHop else Router_RouterID (Cfg_Router cfg)
        | None => Router_RouterID (Cfg_Router cfg)
        end in
      match ParseAddr nextHop with
      | None => Err (Wrapf "invalid next-hop %q: %w" [nextHop] (External "netip.ParseAddr"))
      | Some addr => Ok addr
      end
  end.

(** [buildPath]. *)
Definition buildPath (prefix : string) (attrs : RouteAttrs) : result error Path :=
  match ParsePrefix prefix with
  | None => Err (Wrapf "invalid prefix %q: %w" [prefix] (External "netip.ParsePrefix"))
  | Some pfx =>
      match newIPAddrPrefix (Masked pfx) with
      | Some e => Err (Wrapf "building nlri: %w" [] e)
      | None =>
          let family := if Is6 (Prefix_Addr pfx) then RF_IPv6_UC else RF_IPv4_UC in
          try nextHopAddr <- nextHopFor family ;
          match newPathAttributeNextHop nextHopAddr with
          | Some e => Err (Wrapf "building next-hop attribute: %w" [] e)
          | None =>
              let asPathParams :=
                if bool_decide (0 < ASPathPrepend attrs) && negb hasIBGPPeer
                then [buildASPath localASN (ASPathPrepend attrs)] else [] in
              let pathAttrs := [AttrOriginIGP; AttrNextHop nextHopAddr; AttrAsPath asPathParams] in
              match Communities attrs with
              | [] => Ok (mkPath family (Masked pfx) pathAttrs)
              | l =>
                  try comms <- parseCommunities l ;
                  Ok (mkPath family (Masked pfx) (pathAttrs ++ [AttrCommunities comms]))
              end
          end
      end
  end.

(** [GetPeerStates]: one report. *)
Definition peerStatus (p : PeerReport) : PeerStatus :=
  let state :=
    match Report_State p with
    | Some s => ToLower (TrimPrefix s "SESSION_STATE_")
    | None => "unknown"
    end in
  let '(name, addr, asn) := default (EmptyString, EmptyString, 0) (Report_Conf p) in
  let '(required, name) :=
    match list_find (λ n, Neighbor_Address n = addr) (elems (BGP_Neighbors (Cfg_BGP cfg))) with
    | Some (_, n) =>
        (default true (Neighbor_Required n),
         if decide (name = EmptyString) then Neighbor_Name n else name)
    | None => (true, name)
    end in
  mkPeerStatus name addr asn state required EmptyString.

Definition GetPeerStates (m : Manager) : list PeerStatus := peerStatus <$> (listPeer (bm_server m)).1.

(** [peerContext]. *)
Definition peerContext (m : Manager) : string :=
  match GetPeerStates m with
  | [] => "none"
  | l =>
      let part p :=
        (if decide (PS_Name p = EmptyString) then "unknown" else PS_Name p) +:+ "(" +:+
        (if decide (PS_Address p = EmptyString) then "unknown" else PS_Address p) +:+ ",asn=" +:+
        Itoa (PS_PeerASN p) +:+ ",state=" +:+ PS_SessionState p +:+ ")" in
      Join (sortStrings (part <$> l)) ", "
  end.

(** [pathOpError]. *)
Definition pathOpError (m : Manager) (operation prefix : string) (e : error) : error :=
  Wrapf "%s prefix %q failed (peers: %s): %w" [operation; prefix; peerContext m] e.

(** The labels [syncRouteStateMetric] collects from every neighbor. *)
Definition currentLabels (m : Manager) (prefix : string) : gmap string routeStateLabels :=
  foldl (λ cur n,
    foldl (λ cur '(nlri, paths),
      foldl (λ cur p,
        let l := routeStateLabelsFromPath nlri p (Neighbor_Address n) (Itoa (Neighbor_PeerASN n)) in
        <[labelsKey l := l]> cur) cur paths)
      cur (listPath (Neighbor_Address n) (routeFamily prefix) prefix (bm_server m)).1)
    ∅ (elems (BGP_Neighbors (Cfg_BGP cfg))).

(** [syncRouteStateMetric]. *)
Definition syncRouteStateMetric (prefix : string) (m : Manager) : Manager :=
  match bm_routeState m with
  | None => m
  | Some metric =>
      let current := currentLabels m prefix in
      let previous := default ∅ (bm_routeStateByPrefix m !! prefix) in
      let metric := map_fold (λ key l x, if decide (current !! key = None)
                                         then <[values l := 0]> x else x) metric previous in
      let metric := map_fold (λ _ l x, <[values l := 1]> x) metric current in
      mkManager (bm_server m) (bm_installedRouteUUID m) (Some metric)
        (<[prefix := current]> (bm_routeStateByPrefix m))
  end.

(** [installedUUID], [storeInstalledUUID] and [clearInstalledUUID], each under
    the manager's lock. *)
Definition installedUUID (prefix : string) (m : Manager) : option UUID := bm_installedRouteUUID m !! prefix.
Definition storeInstalledUUID (prefix : string) (id : UUID) (m : Manager) : Manager :=
  setInstalled m (<[prefix := id]> (bm_installedRouteUUID m)).
Definition clearInstalledUUID (prefix : string) (m : Manager) : Manager :=
  setInstalled m (delete prefix (bm_installedRouteUUID m)).

(** The first half of [upsertVIP]: the previous path is deleted and its UUID
    forgotten. *)
Definition dropOld (operation prefix : string) (m : Manager) : Manager * goerror :=
  match installedUUID prefix m with
  | Some oldUUID =>
      let '(s, err) := deletePathUUID oldUUID (bm_server m) in
      let m := setServer m s in
      match err with
      | Some e => (m, Some (pathOpError m operation prefix (Wrapf "deleting previous path: %w" [] e)))
      | None => (clearInstalledUUID prefix m, None)
      end
  | None => (m, None)
  end.

(** The second half: the new path is added and its UUID stored. *)
Definition addNew (operation prefix : string) (path : Path) (m : Manager) : Manager * goerror :=
  let '(s, r) := addPath path (bm_server m) in
  let m := setServer m s in
  match r with
  | Err e => (m, Some (pathOpError m operation prefix e))
  | Ok [] => (m, Some (pathOpError m operation prefix (Errorf "empty add-path response" [])))
  | Ok ((Some e, _) :: _) => (m, Some (pathOpError m operation prefix e))
  | Ok ((None, newUUID) :: _) =>
      (syncRouteStateMetric prefix (storeInstalledUUID prefix newUUID m), None)
  end.

(** [upsertVIP]. *)
Definition upsertVIP (operation prefix : string) (attrs : RouteAttrs) (m : Manager)
    : Manager * goerror :=
  match buildPath prefix attrs with
  | Err e => (m, Some e)
  | Ok path =>
      let '(m, err) := dropOld operation prefix m in
      match err with
      | Some e => (m, Some e)
      | None => addNew operation prefix path m
      end
  end.

(** [AnnounceVIP], [PessimizeVIP]: [originate] under two names. *)
Definition bgpAnnounceVIP (prefix : string) (attrs : RouteAttrs) (m : Manager) : Manager * goerror :=
  upsertVIP "announce" prefix attrs m.
Definition bgpPessimizeVIP (prefix : string) (attrs : RouteAttrs) (m : Manager) : Manager * goerror :=
  upsertVIP "pessimize" prefix attrs m.

(** [WithdrawVIP]. *)
Definition bgpWithdrawVIP (prefix : string) (m : Manager) : Manager * goerror :=
  match buildPath prefix zeroAttrs with
  | Err e => (m, Some e)
  | Ok path =>
      let '(s, err) :=
        match installedUUID prefix m with
        | Some oldUUID => deletePathUUID oldUUID (bm_server m)
        | None => deletePathPath path (bm_server m)
        end in
      let m := setServer m s in
      match err with
      | Some e => (m, Some (pathOpError m "withdraw" prefix e))
      | None =>
          (syncRouteStateMetric prefix (clearInstalledUUID prefix m), None)
      end
  end.

(** [Stop]. *)
Definition bgpStop (m : Manager) : Manager := setServer m (stopServer (bm_server m)).

(** The manager as the policy manager's notifier. *)
#[export] Instance bgp_notifier : BGPNotifier Manager := {|
  AnnounceVIP := bgpAnnounceVIP;
  WithdrawVIP := bgpWithdrawVIP;
  PessimizeVIP := bgpPessimizeVIP |}.

End BGPManager.

End BGPManager.
