(* ===== verification/BGPProofs.v ===== *)
(** * The BGP manager implements the notifier

    What GoBGP promises ([GoBGPLaws]), the invariant of the table of installed
    UUIDs, and the laws of the policy manager's interface derived from them;
    then the encoding of communities and of the AS path. *)

From S2P Require Import Prelude GoStrings NetIP Config Model PolicyManager BGPManager.
From Stdlib Require Import Ascii.

Module BGPProofs.
Import BGPManager.

(** ** GoBGP

    [rib s k] is the locally originated path of an NLRI, [uuidOf s k] the UUID
    it was added under, [issued s u] that the server handed [u] out.  An
    operation that reports an error changes none of them. *)
Class GoBGPLaws (S UUID : Type) `{GoBGP S UUID} := {
  srv_ok : S → Prop;
  rib : S → Prefix → option Path;
  uuidOf : S → Prefix → option UUID;
  issued : S → UUID → Prop;
  uuid_issued s k u : srv_ok s → uuidOf s k = Some u → issued s u;
  addPath_srv p s : srv_ok s → srv_ok (addPath p s).1;
  deleteUUID_srv u s : srv_ok s → srv_ok (deletePathUUID u s).1;
  deletePath_srv p s : srv_ok s → srv_ok (deletePathPath p s).1;
  addPath_issued p s u : issued s u → issued (addPath p s).1 u;
  deleteUUID_issued u s u' : issued s u' → issued (deletePathUUID u s).1 u';
  deletePath_issued p s u' : issued s u' → issued (deletePathPath p s).1 u';
  addPath_ok p s s' u rest :
    srv_ok s → addPath p s = (s', Ok ((None, u) :: rest)) →
    ¬ issued s u ∧ issued s' u ∧
    rib s' (Path_Nlri p) = Some p ∧ uuidOf s' (Path_Nlri p) = Some u ∧
    ∀ k, k ≠ Path_Nlri p → rib s' k = rib s k ∧ uuidOf s' k = uuidOf s k;
  addPath_fails p s s' r :
    srv_ok s → addPath p s = (s', r) →
    match r with Ok ((None, _) :: _) => False | _ => True end →
    ∀ k, rib s' k = rib s k ∧ uuidOf s' k = uuidOf s k;
  deleteUUID_ok u s s' :
    srv_ok s → deletePathUUID u s = (s', None) →
    ∃ k, uuidOf s k = Some u ∧ rib s' k = None ∧ uuidOf s' k = None ∧
         ∀ k', k' ≠ k → rib s' k' = rib s k' ∧ uuidOf s' k' = uuidOf s k';
  deleteUUID_fails u s s' e :
    srv_ok s → deletePathUUID u s = (s', Some e) →
    ∀ k, rib s' k = rib s k ∧ uuidOf s' k = uuidOf s k;
  deletePath_ok p s s' :
    srv_ok s → deletePathPath p s = (s', None) →
    rib s' (Path_Nlri p) = None ∧ uuidOf s' (Path_Nlri p) = None ∧
    ∀ k, k ≠ Path_Nlri p → rib s' k = rib s k ∧ uuidOf s' k = uuidOf s k;
  deletePath_fails p s s' e :
    srv_ok s → deletePathPath p s = (s', Some e) →
    ∀ k, rib s' k = rib s k ∧ uuidOf s' k = uuidOf s k }.

Section Laws.
Context {S UUID : Type} `{GoBGPLaws S UUID} (cfg : Config).
Local Notation Manager := (BGPManager.Manager (S := S) (UUID := UUID)).

(** A UUID of the table was issued, and can only name the path of its
    prefix. *)
Definition entry_names (s : S) (prefix : string) (u : UUID) : Prop :=
  issued s u ∧ ∃ pfx, ParsePrefix prefix = Some pfx ∧ ∀ k, uuidOf s k = Some u → k = Masked pfx.

Definition bm_ok (m : Manager) : Prop :=
  srv_ok (bm_server m) ∧
  map_Forall (entry_names (bm_server m)) (bm_installedRouteUUID m).

(** The path installed for a prefix. *)
Definition bm_installed (m : Manager) (p : string) : option Path :=
  match ParsePrefix p with Some pfx => rib (bm_server m) (Masked pfx) | None => None end.

Definition bm_same (p q : string) : Prop :=
  ∃ a b, ParsePrefix p = Some a ∧ ParsePrefix q = Some b ∧ Masked a = Masked b.

Lemma sync_server prefix m : bm_server (syncRouteStateMetric cfg prefix m) = bm_server m.
Proof. unfold syncRouteStateMetric. by destruct (bm_routeState m). Qed.
Lemma sync_table prefix m :
  bm_installedRouteUUID (syncRouteStateMetric cfg prefix m) = bm_installedRouteUUID m.
Proof. unfold syncRouteStateMetric. by destruct (bm_routeState m). Qed.

Lemma bm_ok_sync prefix m : bm_ok (syncRouteStateMetric cfg prefix m) ↔ bm_ok m.
Proof. unfold bm_ok. by rewrite sync_server, sync_table. Qed.
Lemma bm_installed_sync prefix m p : bm_installed (syncRouteStateMetric cfg prefix m) p = bm_installed m p.
Proof. unfold bm_installed. by rewrite sync_server. Qed.

Lemma buildPath_nlri prefix attrs path :
  buildPath cfg prefix attrs = Ok path →
  ∃ pfx, ParsePrefix prefix = Some pfx ∧ Path_Nlri path = Masked pfx.
Proof.
  unfold buildPath. destruct (ParsePrefix prefix) as [pfx|]; [|done].
  destruct (newIPAddrPrefix _); [done|]. destruct (nextHopFor _ _); [|done].
  destruct (newPathAttributeNextHop _); [done|].
  destruct (Communities attrs) as [|c l]; [intros [= <-]; by exists pfx|].
  destruct (parseCommunities _); [|done]. intros [= <-]. by exists pfx.
Qed.

(** A change of the server for one NLRI at most, which binds no UUID of the
    table to another NLRI. *)
Definition srv_step (key : Prefix) (s s' : S) : Prop :=
  srv_ok s' ∧ (∀ u, issued s u → issued s' u) ∧
  (∀ k, k ≠ key → rib s' k = rib s k) ∧
  (∀ k u, issued s u → uuidOf s' k = Some u → uuidOf s k = Some u).

Lemma srv_step_trans key s1 s2 s3 : srv_step key s1 s2 → srv_step key s2 s3 → srv_step key s1 s3.
Proof.
  intros (_ & A2 & A3 & A4) (B1 & B2 & B3 & B4). split; [done|]. split; [auto|]. split.
  - intros k Hk. by rewrite B3, A3.
  - intros k u Hu Hb. apply A4; [done|]. apply B4; auto.
Qed.

Lemma srv_step_same key s s' :
  srv_ok s' → (∀ u, issued s u → issued s' u) →
  (∀ k, rib s' k = rib s k ∧ uuidOf s' k = uuidOf s k) → srv_step key s s'.
Proof.
  intros H1 H2 H3. split; [done|]. split; [done|]. split; [intros k _; apply H3|].
  intros k u _. by rewrite (proj2 (H3 k)).
Qed.

Lemma addPath_step p s :
  srv_ok s → srv_step (Path_Nlri p) s (addPath p s).1.
Proof.
  intros Hs. pose proof (addPath_srv p s Hs) as H1. pose proof (addPath_issued p s) as H2.
  destruct (addPath p s) as [s' r] eqn:E; cbn in *.
  assert ((∃ u rest, r = Ok ((None, u) :: rest)) ∨
    match r with Ok ((None, _) :: _) => False | _ => True end) as [(u & rest & ->)|Hr].
  { destruct r as [[|[[|] u] rest]|]; eauto. }
  - destruct (addPath_ok p s s' u rest Hs E) as (Hn & _ & _ & Hu & Hf).
    split; [done|]. split; [done|]. split; [intros k Hk; by apply Hf|].
    intros k u' Hu' Hk. destruct (decide (k = Path_Nlri p)) as [->|Hne].
    + rewrite Hu in Hk. injection Hk as <-. done.
    + by rewrite (proj2 (Hf k Hne)) in Hk.
  - apply srv_step_same; [done|done|]. by eapply addPath_fails.
Qed.

Lemma deleteUUID_step m prefix u pfx :
  bm_ok m → bm_installedRouteUUID m !! prefix = Some u → ParsePrefix prefix = Some pfx →
  let r := deletePathUUID u (bm_server m) in
  srv_step (Masked pfx) (bm_server m) r.1 ∧
  (r.2 = None → rib r.1 (Masked pfx) = None) ∧
  (∀ e, r.2 = Some e → ∀ k, rib r.1 k = rib (bm_server m) k).
Proof.
  intros [Hs Ht] Hu Hp. destruct (Ht prefix u Hu) as (Hi & pfx' & Hp' & Hk).
  rewrite Hp in Hp'. injection Hp' as <-.
  pose proof (deleteUUID_srv u (bm_server m) Hs) as H1.
  pose proof (λ u', deleteUUID_issued u (bm_server m) u') as H2.
  destruct (deletePathUUID u (bm_server m)) as [s' [e|]] eqn:E; cbn in *.
  - pose proof (deleteUUID_fails u _ _ _ Hs E) as Hf. split; [by apply srv_step_same|].
    split; [done|]. intros e' _ k. apply Hf.
  - destruct (deleteUUID_ok u _ _ Hs E) as (k & Hku & Hr & Hn & Hf).
    apply Hk in Hku as Hkk. subst k. split; [|split; [done|done]].
    split; [done|]. split; [done|]. split; [intros k Hne; by apply Hf|].
    intros k u' _ Hk'. destruct (decide (k = Masked pfx)) as [->|Hne]; [congruence|].
    by rewrite (proj2 (Hf k Hne)) in Hk'.
Qed.

Lemma deletePath_step p s :
  srv_ok s →
  let r := deletePathPath p s in
  srv_step (Path_Nlri p) s r.1 ∧ (r.2 = None → rib r.1 (Path_Nlri p) = None) ∧
  (∀ e, r.2 = Some e → ∀ k, rib r.1 k = rib s k).
Proof.
  intros Hs. pose proof (deletePath_srv p s Hs) as H1.
  pose proof (λ u', deletePath_issued p s u') as H2.
  destruct (deletePathPath p s) as [s' [e|]] eqn:E; cbn in *.
  - pose proof (deletePath_fails p _ _ _ Hs E) as Hf. split; [by apply srv_step_same|].
    split; [done|]. intros e' _ k. apply Hf.
  - destruct (deletePath_ok p _ _ Hs E) as (Hr & Hn & Hf). split; [|split; [done|done]].
    split; [done|]. split; [done|]. split; [intros k Hne; by apply Hf|].
    intros k u' _ Hk'. destruct (decide (k = Path_Nlri p)) as [->|Hne]; [congruence|].
    by rewrite (proj2 (Hf k Hne)) in Hk'.
Qed.

(** The table survives a server step. *)
Lemma table_step key s s' (t : gmap string UUID) :
  srv_step key s s' → map_Forall (entry_names s) t → map_Forall (entry_names s') t.
Proof.
  intros (_ & H2 & _ & H4) Ht prefix u Hu. destruct (Ht prefix u Hu) as (Hi & pfx & Hp & Hk).
  split; [by apply H2|]. exists pfx. split; [done|]. intros k Hk'. apply Hk. by apply H4.
Qed.

Lemma bm_ok_setServer key m s' :
  bm_ok m → srv_step key (bm_server m) s' → bm_ok (setServer m s').
Proof. intros [_ Ht] Hst. split; [apply Hst|]. by eapply table_step. Qed.

Lemma bm_ok_delete m prefix :
  bm_ok m → bm_ok (setInstalled m (delete prefix (bm_installedRouteUUID m))).
Proof. intros [Hs Ht]. split; [done|]. by apply map_Forall_delete. Qed.

Lemma bm_frame key m m' p pfx q :
  ParsePrefix p = Some pfx → Masked pfx = key →
  srv_step key (bm_server m) (bm_server m') → ¬ bm_same p q → bm_installed m' q = bm_installed m q.
Proof.
  intros Hp <- (_ & _ & Hf & _) Hns. unfold bm_installed. destruct (ParsePrefix q) as [b|] eqn:Hq; [|done].
  apply Hf. intros Heq. apply Hns. by exists pfx, b.
Qed.

(** *** [upsertVIP] *)

Lemma dropOld_spec op prefix pfx m m1 err :
  bm_ok m → ParsePrefix prefix = Some pfx → dropOld cfg op prefix m = (m1, err) →
  bm_ok m1 ∧ srv_step (Masked pfx) (bm_server m) (bm_server m1) ∧
  match err with
  | None =>
      bm_installedRouteUUID m1 = delete prefix (bm_installedRouteUUID m) ∧
      (m1 = m ∨ rib (bm_server m1) (Masked pfx) = None)
  | Some _ =>
      bm_installedRouteUUID m1 = bm_installedRouteUUID m ∧
      ∀ k, rib (bm_server m1) k = rib (bm_server m) k
  end.
Proof.
  intros Hok Hp. unfold dropOld, installedUUID, clearInstalledUUID. destruct (bm_installedRouteUUID m !! prefix) as [u|] eqn:Hu.
  - destruct (deleteUUID_step m prefix u pfx Hok Hu Hp) as (Hst & Hgone & Hfail).
    destruct (deletePathUUID u (bm_server m)) as [s' [e|]]; cbn in *; intros [= <- <-].
    + split; [by eapply bm_ok_setServer|]. split; [done|]. split; [done|]. by apply (Hfail e).
    + split; [|split; [done|split; [done|right; by apply Hgone]]].
      apply (bm_ok_delete (setServer m s')). by eapply bm_ok_setServer.
  - intros [= <- <-]. split; [done|]. split; [by apply srv_step_same; [apply Hok|..]|].
    split; [by rewrite delete_id|by left].
Qed.

Lemma addNew_spec op prefix pfx path m m' err :
  bm_ok m → ParsePrefix prefix = Some pfx → Path_Nlri path = Masked pfx →
  addNew cfg op prefix path m = (m', err) →
  bm_ok m' ∧ srv_step (Masked pfx) (bm_server m) (bm_server m') ∧
  match err with
  | None => rib (bm_server m') (Masked pfx) = Some path ∧ is_Some (bm_installedRouteUUID m' !! prefix)
  | Some _ => bm_installedRouteUUID m' = bm_installedRouteUUID m ∧
              ∀ k, rib (bm_server m') k = rib (bm_server m) k
  end.
Proof.
  intros Hok Hp Hn. unfold addNew. pose proof (addPath_step path (bm_server m) (proj1 Hok)) as Hst.
  rewrite Hn in Hst. destruct (addPath path (bm_server m)) as [s' r] eqn:E; cbn [fst] in Hst.
  assert (bm_ok (setServer m s')) as Hok' by by eapply bm_ok_setServer.
  pose proof (addPath_fails path _ _ _ (proj1 Hok) E) as Hfail.
  destruct r as [[|[[e|] u] rest]|e]; intros [= <- <-];
    try (by (split; [done|]; split; [done|]; split; [done|]; intros k; apply Hfail)).
  destruct (addPath_ok path _ _ u rest (proj1 Hok) E) as (Hni & Hi & Hr & Hu & Hf).
  rewrite bm_ok_sync, sync_server, sync_table. cbn. rewrite <-Hn, Hr, lookup_insert_eq.
  split; [|split; [by rewrite Hn|by eauto]]. split; [apply Hok'|].
  intros q u'. cbn. intros [[<- <-]|[_ Hq]]%lookup_insert_Some; [|by apply Hok'].
  split; [done|]. exists pfx. split; [done|]. intros k Hk.
  destruct (decide (k = Path_Nlri path)) as [->|Hne]; [done|].
  rewrite (proj2 (Hf k Hne)) in Hk. destruct Hni. eapply uuid_issued; [apply Hok|done].
Qed.

(** Everything [upsertVIP] guarantees: the invariant, the frame, the new path
    on success and, on failure, either nothing changed or the old path is
    gone from the RIB and from the table. *)
Lemma upsert_spec op prefix attrs m m' err :
  bm_ok m → upsertVIP cfg op prefix attrs m = (m', err) →
  bm_ok m' ∧
  (∀ q, ¬ bm_same prefix q → bm_installed m' q = bm_installed m q) ∧
  match err with
  | None => ∃ path, buildPath cfg prefix attrs = Ok path ∧ bm_installed m' prefix = Some path ∧
                    is_Some (bm_installedRouteUUID m' !! prefix)
  | Some _ => (bm_installed m' prefix = bm_installed m prefix ∧
               bm_installedRouteUUID m' = bm_installedRouteUUID m) ∨
              (bm_installed m' prefix = None ∧
               bm_installedRouteUUID m' = delete prefix (bm_installedRouteUUID m))
  end.
Proof.
  intros Hok. unfold upsertVIP. destruct (buildPath cfg prefix attrs) as [path|e] eqn:Eb.
  2:{ intros [= <- <-]. split; [done|]. split; [done|]. by left. }
  destruct (buildPath_nlri _ _ _ Eb) as (pfx & Hp & Hn).
  destruct (dropOld cfg op prefix m) as [m1 err1] eqn:Ed.
  destruct (dropOld_spec _ _ _ _ _ _ Hok Hp Ed) as (Hok1 & Hst1 & Hd).
  destruct err1 as [e1|].
  { intros [= <- <-]. split; [done|]. split; [intros q; by apply (bm_frame (Masked pfx) m m1 prefix pfx)|]. left.
    unfold bm_installed. rewrite Hp. split; apply Hd. }
  intros Ea. destruct (addNew_spec _ _ _ _ _ _ _ Hok1 Hp Hn Ea) as (Hok' & Hst2 & Hadd).
  split; [done|]. split.
  { intros q. apply (bm_frame (Masked pfx) m m' prefix pfx); [done|done|]. by eapply srv_step_trans. }
  destruct err as [e|]; unfold bm_installed; rewrite Hp.
  - destruct Hadd as [Ht Hr], Hd as [Ht1 [->|Hr1]].
    + left. split; [apply Hr|done].
    + right. by rewrite Hr, Ht.
  - destruct Hadd as [Hr Hu]. by exists path.
Qed.

(** *** [WithdrawVIP] *)

Lemma withdraw_spec prefix m m' err :
  bm_ok m → bgpWithdrawVIP cfg prefix m = (m', err) →
  bm_ok m' ∧
  (∀ q, ¬ bm_same prefix q → bm_installed m' q = bm_installed m q) ∧
  match err with
  | None => bm_installed m' prefix = None ∧
            bm_installedRouteUUID m' = delete prefix (bm_installedRouteUUID m)
  | Some _ => bm_installed m' prefix = bm_installed m prefix ∧
              bm_installedRouteUUID m' = bm_installedRouteUUID m
  end.
Proof.
  intros Hok. unfold bgpWithdrawVIP, installedUUID, clearInstalledUUID. destruct (buildPath cfg prefix zeroAttrs) as [path|e] eqn:Eb.
  2:{ by intros [= <- <-]. }
  destruct (buildPath_nlri _ _ _ Eb) as (pfx & Hp & Hn).
  set (r := match bm_installedRouteUUID m !! prefix with Some u => _ | None => _ end).
  assert (srv_step (Masked pfx) (bm_server m) r.1 ∧ (r.2 = None → rib r.1 (Masked pfx) = None) ∧
    (∀ e, r.2 = Some e → ∀ k, rib r.1 k = rib (bm_server m) k)) as (Hst & Hgone & Hfail).
  { unfold r. destruct (bm_installedRouteUUID m !! prefix) as [u|] eqn:Hu.
    - by apply (deleteUUID_step m prefix u pfx).
    - rewrite <-Hn. apply deletePath_step, Hok. }
  destruct r as [s' [e|]]; cbn [fst snd] in *; intros [= <- <-].
  - split; [by eapply bm_ok_setServer|].
    split; [intros q; by apply (bm_frame (Masked pfx) m (setServer m s') prefix pfx)|].
    split; [|done]. unfold bm_installed. rewrite Hp. by apply (Hfail e).
  - split; [apply bm_ok_sync, (bm_ok_delete (setServer m s')); by eapply bm_ok_setServer|].
    split; [intros q; rewrite bm_installed_sync;
            by apply (bm_frame (Masked pfx) m (setInstalled (setServer m s') _) prefix pfx)|].
    rewrite bm_installed_sync, sync_table. split; [|done].
    unfold bm_installed. rewrite Hp. by apply Hgone.
Qed.

(** ** The laws of the notifier *)

(** The path an announcement with the attributes installs. *)
Definition pathFor (prefix : string) (attrs : RouteAttrs) : option Path :=
  match buildPath cfg prefix attrs with Ok path => Some path | Err _ => None end.

#[export] Instance bgp_laws : BGPNotifierLaws Manager (H := bgp_notifier cfg).
Proof.
  refine {| Route := option Path; originated := pathFor; bgp_valid := bm_ok;
            installed m p := Some <$> bm_installed m p; same_route := bm_same |}.
  - intros p q (a & b & ? & ? & ?). by exists b, a.
  - intros m p q (a & b & Hp & Hq & Heq). unfold bm_installed. by rewrite Hp, Hq, Heq.
  - intros p a m Hm. by eapply upsert_spec; [|apply surjective_pairing].
  - intros p a m Hm. by eapply upsert_spec; [|apply surjective_pairing].
  - intros p m Hm. by eapply withdraw_spec; [|apply surjective_pairing].
  - intros p a m m' Hm Ha. destruct (upsert_spec _ _ _ _ _ _ Hm Ha) as (_ & _ & path & Hb & -> & _).
    unfold pathFor. by rewrite Hb.
  - intros p a m m' Hm Ha. destruct (upsert_spec _ _ _ _ _ _ Hm Ha) as (_ & _ & path & Hb & -> & _).
    unfold pathFor. by rewrite Hb.
  - intros p m m' Hm Ha. by destruct (withdraw_spec _ _ _ _ Hm Ha) as (_ & _ & -> & _).
  - intros p m m' e Hm Ha. by destruct (withdraw_spec _ _ _ _ Hm Ha) as (_ & _ & -> & _).
  - intros p a m q Hm Hq. f_equal. eapply upsert_spec; [done|apply surjective_pairing|done].
  - intros p a m q Hm Hq. f_equal. eapply upsert_spec; [done|apply surjective_pairing|done].
  - intros p m q Hm Hq. f_equal. eapply withdraw_spec; [done|apply surjective_pairing|done].
Defined.

End Laws.
(** ** Communities *)

Lemma pack_disjoint h l : 0 ≤ l < 2 ^ 16 → Z.land (Z.shiftl h 16) l = 0.
Proof.
  intros Hl. apply Z.bits_inj'. intros n Hn. rewrite Z.land_spec, Z.bits_0.
  destruct (decide (n < 16)) as [Hlt|Hge]; [by rewrite Z.shiftl_spec_low|].
  rewrite (Z.bits_above_log2 l n), andb_false_r; [done|lia|].
  destruct (decide (l = 0)) as [->|Hne]; [cbn; lia|].
  assert (Z.log2 l < 16) by (apply Z.log2_lt_pow2; lia). lia.
Qed.

Lemma pack_lor h l : 0 ≤ l < 2 ^ 16 → Z.lor (Z.shiftl h 16) l = h * 2 ^ 16 + l.
Proof.
  intros Hl. pose proof (pack_disjoint h l Hl) as Hd.
  by rewrite <-Z.lxor_lor, <-Z.add_nocarry_lxor, Z.shiftl_mul_pow2.
Qed.

Lemma pack_unpack c :
  0 ≤ c < 2 ^ 32 →
  0 ≤ Z.shiftr c 16 < 2 ^ 16 ∧ 0 ≤ Z.land c 0xFFFF < 2 ^ 16 ∧
  Z.lor (Z.shiftl (Z.shiftr c 16) 16) (Z.land c 0xFFFF) = c.
Proof.
  intros Hc. rewrite Z.shiftr_div_pow2 by lia. change 0xFFFF with (Z.ones 16).
  rewrite Z.land_ones by lia.
  pose proof (Z.mod_pos_bound c (2 ^ 16) ltac:(lia)) as Hm.
  pose proof (Z.div_mod c (2 ^ 16) ltac:(lia)) as Hd.
  split; [split; [apply Z.div_pos; lia|apply Z.div_lt_upper_bound; lia]|]. split; [done|].
  rewrite pack_lor by done. lia.
Qed.

Lemma parseCommunity_range s c : parseCommunity s = Ok c → 0 ≤ c < 2 ^ 32.
Proof.
  unfold parseCommunity. destruct (SplitN2 s _) as [|h [|l [|]]]; try done.
  destruct (ParseUint h 16) as [high|] eqn:Eh; [|done].
  destruct (ParseUint l 16) as [low|] eqn:El; [|done]. intros [= <-].
  apply ParseUint_range in Eh, El. rewrite pack_lor by done. lia.
Qed.

Lemma digit_not_colon x :
  (x < 10)%N → negb (bool_decide (pretty_N_char x = ":"%char)) = true.
Proof.
  intros Hx. assert (x = 0 ∨ x = 1 ∨ x = 2 ∨ x = 3 ∨ x = 4 ∨ x = 5 ∨ x = 6
    ∨ x = 7 ∨ x = 8 ∨ x = 9)%N as H by lia.
  by repeat destruct H as [->|H]; [..|subst].
Qed.

Lemma pretty_go_no_colon x s :
  all_chars (λ a, negb (bool_decide (a = ":"%char))) s = true →
  all_chars (λ a, negb (bool_decide (a = ":"%char))) (pretty_N_go x s) = true.
Proof.
  revert s. induction (N.lt_wf_0 x) as [x _ IH]; intros s Hs.
  assert (x = 0 ∨ 0 < x)%N as [->|Hx] by lia; [by rewrite pretty_N_go_0|].
  rewrite pretty_N_go_step by done. apply IH; [by apply N.div_lt|].
  cbn [all_chars]. by rewrite digit_not_colon by (by apply N.mod_lt).
Qed.

Lemma Itoa_no_colon z :
  0 ≤ z → all_chars (λ a, negb (bool_decide (a = ":"%char))) (Itoa z) = true.
Proof.
  intros Hz. unfold Itoa. destruct z as [|p|p]; [done| |lia].
  change (pretty (Z.pos p)) with (pretty (N.pos p)). unfold pretty, pretty_N.
  rewrite decide_False by done. by apply pretty_go_no_colon.
Qed.

Lemma parse_format c : 0 ≤ c < 2 ^ 32 → parseCommunity (formatCommunity c) = Ok c.
Proof.
  intros Hc. destruct (pack_unpack c Hc) as (Hh & Hl & Hp).
  unfold parseCommunity, formatCommunity, SplitN2.
  change (":" +:+ Itoa (Z.land c 65535)) with (String ":"%char (Itoa (Z.land c 65535))).
  rewrite Cut_app by (apply Itoa_no_colon, Hh). by rewrite !ParseUint_Itoa, Hp.
Qed.

(** ** Properties *)

(** Standard communities survive the encoding: what [parseCommunities]
    accepts fits in 32 bits, one value per string, and every 32-bit value
    rendered for the metrics parses back to itself. *)
Theorem communities_roundtrip :
  (∀ strs l, parseCommunities strs = Ok l → length l = length strs ∧ Forall (λ c, 0 ≤ c < 2 ^ 32) l) ∧
  (∀ l, Forall (λ c, 0 ≤ c < 2 ^ 32) l → parseCommunities (formatCommunity <$> l) = Ok l).
Proof.
  split.
  - induction strs as [|s strs IH]; cbn; intros l; [by intros [= <-]|].
    destruct (parseCommunity s) as [c|] eqn:Ec; [|done].
    destruct (parseCommunities strs) as [l'|]; [|done]. intros [= <-].
    destruct (IH l' eq_refl) as [Hlen Hall]. cbn. rewrite Hlen. split; [done|].
    constructor; [|done]. by eapply parseCommunity_range.
  - induction l as [|c l IH]; cbn; intros Hall; [done|].
    apply Forall_cons in Hall as [Hc Hall]. by rewrite parse_format, IH.
Qed.

(** C28: the path of a VIP carries what its attributes say: its masked prefix,
    the family of the prefix, a next hop (of IPv6 for an IPv6 prefix), the
    local ASN prepended as often as asked unless some peer is internal, and
    the communities, in order. *)
Theorem buildPath_faithful {S UUID} `{GoBGP S UUID} cfg prefix attrs path :
  buildPath cfg prefix attrs = Ok path →
  ∃ pfx nh comms,
    ParsePrefix prefix = Some pfx ∧ Path_Nlri path = Masked pfx ∧
    Path_Family path = routeFamily prefix ∧
    (Is6 (Prefix_Addr pfx) = true → Is6 nh = true) ∧
    parseCommunities (Communities attrs) = Ok comms ∧
    Path_Attrs path =
      [AttrOriginIGP; AttrNextHop nh;
       AttrAsPath (if hasIBGPPeer cfg then []
                   else if decide (0 < ASPathPrepend attrs)
                        then [replicate (Z.to_nat (ASPathPrepend attrs)) (localASN cfg)] else [])] ++
      match comms with [] => [] | _ => [AttrCommunities comms] end.
Proof.
  unfold buildPath, routeFamily. destruct (ParsePrefix prefix) as [pfx|]; [|done].
  destruct (newIPAddrPrefix _); [done|].
  set (fam := if Is6 (Prefix_Addr pfx) then RF_IPv6_UC else RF_IPv4_UC).
  destruct (nextHopFor cfg fam) as [nh|] eqn:En; [|done].
  assert (Is6 (Prefix_Addr pfx) = true → Is6 nh = true) as H6.
  { intros Hp. unfold fam in En. rewrite Hp in En. cbn in En. case_decide; [done|].
    destruct (ParseAddr _) as [a|]; [|done]. destruct (Is6 a) eqn:Ea; [|done]. by injection En as <-. }
  destruct (newPathAttributeNextHop nh); [done|].
  assert ((if bool_decide (0 < ASPathPrepend attrs) && negb (hasIBGPPeer cfg)
           then [buildASPath (localASN cfg) (ASPathPrepend attrs)] else []) =
          (if hasIBGPPeer cfg then []
           else if decide (0 < ASPathPrepend attrs)
                then [replicate (Z.to_nat (ASPathPrepend attrs)) (localASN cfg)] else [])) as ->.
  { unfold buildASPath. destruct (hasIBGPPeer cfg), (decide (0 < ASPathPrepend attrs)) as [Hp|Hp];
      rewrite ?bool_decide_eq_true_2, ?bool_decide_eq_false_2 by done; cbn; try done.
    by rewrite Z.max_l by lia. }
  destruct (Communities attrs) as [|c l]; [intros [= <-]; by exists pfx, nh, []|].
  destruct (parseCommunities (c :: l)) as [comms|] eqn:Ec; [|done]. intros [= <-].
  exists pfx, nh, comms. repeat split; try done. cbn in Ec.
  destruct (parseCommunity c); [|done]. destruct (parseCommunities l); [|done]. by injection Ec as <-.
Qed.

(** C12: an announcement never leaves a stale UUID behind: it keeps the table
    of UUIDs consistent with the server, installs exactly the path it built
    when it succeeds, and when it fails either nothing changed or the old
    path is gone from the server and from the table; no other route moves. *)
Theorem upsertVIP_atomic {S UUID} `{GoBGPLaws S UUID} cfg op prefix attrs m m' err :
  bm_ok m → upsertVIP cfg op prefix attrs m = (m', err) →
  bm_ok m' ∧
  (∀ q, ¬ bm_same prefix q → bm_installed m' q = bm_installed m q) ∧
  match err with
  | None => ∃ path, buildPath cfg prefix attrs = Ok path ∧ bm_installed m' prefix = Some path ∧
                    is_Some (bm_installedRouteUUID m' !! prefix)
  | Some _ => (bm_installed m' prefix = bm_installed m prefix ∧
               bm_installedRouteUUID m' = bm_installedRouteUUID m) ∨
              (bm_installed m' prefix = None ∧
               bm_installedRouteUUID m' = delete prefix (bm_installedRouteUUID m))
  end.
Proof. apply upsert_spec. Qed.

(** A withdraw that succeeds leaves no route and no UUID for the prefix;
    one that fails leaves both as they were, so that it can be retried. *)
Theorem WithdrawVIP_atomic {S UUID} `{GoBGPLaws S UUID} cfg prefix m m' err :
  bm_ok m → bgpWithdrawVIP cfg prefix m = (m', err) →
  bm_ok m' ∧
  (∀ q, ¬ bm_same prefix q → bm_installed m' q = bm_installed m q) ∧
  match err with
  | None => bm_installed m' prefix = None ∧
            bm_installedRouteUUID m' = delete prefix (bm_installedRouteUUID m)
  | Some _ => bm_installed m' prefix = bm_installed m prefix ∧
              bm_installedRouteUUID m' = bm_installedRouteUUID m
  end.
Proof. apply withdraw_spec. Qed.

End BGPProofs.
