(* ===== verification/PolicyWitness.v ===== *)
(** * The policy theorems at work

    A reference BGP speaker that satisfies the laws of the interface, the
    one-name fragment of the expression language, and the theorems of the
    policy manager applied to a VIP with two checks. *)

From S2P Require Import Prelude GoStrings Config Model Metrics ChecksPolicy Engine Scheduler.
From S2P Require Import PolicyManager PolicyProofs.

Module PolicyWitness.

(** ** Reference instances *)

(** A speaker that accepts every operation while it is up and none while it
    is down. *)
Record RefBGP := mkRefBGP { ref_up : bool; ref_rib : gmap string RouteAttrs }.

Definition ref_op (f : gmap string RouteAttrs → gmap string RouteAttrs) (b : RefBGP)
    : RefBGP * goerror :=
  if ref_up b then (mkRefBGP true (f (ref_rib b)), None)
  else (b, Some (External "bgp server not running")).

#[export] Instance ref_notifier : BGPNotifier RefBGP := {|
  AnnounceVIP p a := ref_op (insert p a);
  WithdrawVIP p := ref_op (delete p);
  PessimizeVIP p a := ref_op (insert p a) |}.

Lemma ref_op_frame f (p q : string) b :
  (∀ x, f x !! q = x !! q) → ref_rib (ref_op f b).1 !! q = ref_rib b !! q.
Proof. intros Hf. unfold ref_op. destruct (ref_up b); cbn; [apply Hf|done]. Qed.

Lemma ref_op_ok f b b' : ref_op f b = (b', None) → ref_rib b' = f (ref_rib b).
Proof. unfold ref_op. destruct (ref_up b); intros [= <-]. done. Qed.

Lemma ref_op_err f b b' err : ref_op f b = (b', Some err) → b' = b.
Proof. unfold ref_op. destruct (ref_up b); intros [=]. done. Qed.

#[export] Instance ref_laws : BGPNotifierLaws RefBGP.
Proof.
  refine {| Route := RouteAttrs; originated _ a := a; bgp_valid _ := True;
            installed b p := ref_rib b !! p; same_route p q := p = q |}; try done.
  - by intros b p q ->.
  - intros p a b b' _ ->%ref_op_ok. apply lookup_insert_eq.
  - intros p a b b' _ ->%ref_op_ok. apply lookup_insert_eq.
  - intros p b b' _ ->%ref_op_ok. apply lookup_delete_eq.
  - by intros p b b' err _ ->%ref_op_err.
  - intros p a b q _ Hq. apply (ref_op_frame _ p). intros x. by apply lookup_insert_ne.
  - intros p a b q _ Hq. apply (ref_op_frame _ p). intros x. by apply lookup_insert_ne.
  - intros p b q _ Hq. apply (ref_op_frame _ p). intros x. by apply lookup_delete_ne.
Defined.

(** The expressions that name one check. *)
#[export] Instance ref_expr : ExprLang := {|
  Program := string;
  exprCompile policy env :=
    match env !! policy with
    | Some _ => Ok policy
    | None => Err (External "unknown name")
    end;
  exprRun prog env := Ok (env !! prog) |}.

(** ** A VIP with two checks, any of which may announce it *)
Definition pw_check (name typ : string) : CheckConfig :=
  mkCheckConfig name typ false None None None None None None None None None None None None None.
Definition pw_policy : PolicyConfig :=
  mkPolicyConfig "withdraw" EmptyString (Some (mkAnnounceConfig (Some 2) (Some ["65000:1"]))) None.
Definition pw_vip (checks : list CheckConfig) : VIPConfig :=
  mkVIPConfig "web" "10.0.0.1/32" zeroCheck (Some checks) "any" pw_policy false EmptyString.
Definition pw_web : VIPConfig := pw_vip [pw_check "a" "tcp"; pw_check "b" "dns"].
Definition pw_stat (_ : string) : bool := false.
Definition pw_new (up : bool) : Manager :=
  NewManager pw_stat 0 [pw_web] ∅ (Some (mkRefBGP up ∅)).
Definition pw_rise (check : string) : pm_op :=
  OpTransition pw_stat 1 (mkHealthTransition "web" check true "rise threshold reached" zeroResult).
Definition pw_fall (check : string) : pm_op :=
  OpTransition pw_stat 1 (mkHealthTransition "web" check false "fall threshold reached" zeroResult).
(** The VIP announced on the strength of its check a. *)
Definition pw_up : Manager := exec (pw_new true) (pw_rise "a").
(** The same VIP, its route installed, while BGP no longer answers. *)
Definition pw_down : Manager := setNotifier pw_up (Some (mkRefBGP false {["10.0.0.1/32" := mkRouteAttrs 2 ["65000:1"]]})).

Definition stateOf (m : Manager (B := RefBGP)) : option (VIPState * HealthStatus * bool) :=
  (λ e, (vs_state (ve_state e), vs_health (ve_state e), vs_bgpPending (ve_state e))) <$> mg_vips m !! "web".
Definition ribOf (m : Manager (B := RefBGP)) : option (gmap string RouteAttrs) :=
  ref_rib <$> mg_notifier m.

Lemma pw_up_state :
  stateOf pw_up = Some (StateAnnounced, HealthHealthy, false) ∧
  ribOf pw_up = Some {["10.0.0.1/32" := mkRouteAttrs 2 ["65000:1"]]}.
Proof. by vm_compute. Qed.

Lemma pw_unique : NoDup (VIP_Name <$> [pw_web]).
Proof. by_compute. Qed.

Lemma pw_ok : mgr_ok pw_up.
Proof. apply exec_preserves, NewManager_ok, pw_unique. Qed.

Lemma pw_distinct i j v w :
  [pw_web] !! i = Some v → [pw_web] !! j = Some w →
  same_route (VIP_Prefix v) (VIP_Prefix w) → i = j.
Proof. by destruct i as [|[|]], j as [|[|]]. Qed.

Lemma pw_noRoutes : noRoutes (Some (mkRefBGP true ∅)).
Proof. intros b [= <-]. split; [done|]. intros q. apply lookup_empty. Qed.

(** ** Witnesses *)

Lemma policy_invariant_witness :
  mgr_ok (foldl exec (pw_new true) [pw_rise "a"; pw_fall "b"; pw_fall "a"]) ∧
  stateOf (foldl exec (pw_new true) [pw_rise "a"; pw_fall "b"; pw_fall "a"]) =
    Some (StateWithdrawn, HealthUnhealthy, false).
Proof.
  split; [|by vm_compute]. apply (policy_invariant pw_stat 0 [pw_web] ∅). apply pw_unique.
Defined.

Lemma status_matches_bgp_witness :
  ∃ l, GetVIPStatuses pw_up = Ret l ∧ VS_Name <$> l = ["web"] ∧
  ∀ s b, s ∈ l → mg_notifier pw_up = Some b → VS_BGPPending s = false →
    installed b (VS_Prefix s) = statusRoute s.
Proof.
  exact (status_matches_bgp pw_stat 0 [pw_web] ∅ (Some (mkRefBGP true ∅)) [pw_rise "a"] pw_unique
    pw_noRoutes pw_distinct (conj I I)).
Defined.

Lemma announced_only_when_healthy_witness :
  ∃ e, mg_vips pw_up !! "web" = Some e ∧ vs_state (ve_state e) = StateAnnounced ∧
       Eval (ve_eval e) (healthMap (vs_checks (ve_state e))) = true.
Proof.
  eexists. split; [reflexivity|]. split; [by vm_compute|].
  refine (proj1 (proj1 (proj2 (announced_only_when_healthy pw_stat 0 [pw_web] ∅ (Some (mkRefBGP true ∅))
    [pw_rise "a"] "web" _ pw_unique pw_noRoutes pw_distinct (conj I I) eq_refl _)) _)); by vm_compute.
Defined.

(** The withdraw fails while BGP is down; BGP comes back; any result heals it. *)
Definition pw_pending : Manager := exec pw_down (pw_fall "a").
Definition pw_back : Manager :=
  setNotifier pw_pending (Some (mkRefBGP true {["10.0.0.1/32" := mkRouteAttrs 2 ["65000:1"]]})).

Lemma pw_accepts cfg : accepts cfg (λ b, ref_up b = true).
Proof. intros st [up rib] Hb. cbn in Hb. subst. by destruct st. Qed.


Lemma RemoveVIP_atomic_witness :
  (RemoveVIP "web" pw_down).2 =
    Some (Wrapf "withdrawing %s (%s): %w" ["web"; "10.0.0.1/32"] (External "bgp server not running")) ∧
  mg_vips (RemoveVIP "web" pw_down).1 = mg_vips pw_down ∧
  VIPNames (RemoveVIP "web" pw_up).1 = [].
Proof.
  split; [by vm_compute|]. split; [|by vm_compute].
  exact (proj1 (RemoveVIP_atomic "web" pw_down pw_ok)).
Defined.

Lemma RemoveVIP_leaks_pending_witness :
  stateOf pw_pending = Some (StateWithdrawn, HealthUnhealthy, true) ∧
  mg_vips (RemoveVIP "web" pw_pending).1 !! "web" = None ∧
  ribOf (RemoveVIP "web" pw_pending).1 = Some {["10.0.0.1/32" := mkRouteAttrs 2 ["65000:1"]]}.
Proof.
  split; [by vm_compute|]. split; [|by vm_compute].
  assert (∃ e, mg_vips pw_pending !! "web" = Some e ∧ vs_state (ve_state e) = StateWithdrawn)
    as (e & He & Hw) by (eexists; split; [reflexivity|by vm_compute]).
  pose proof (RemoveVIP_leaks_pending "web" pw_pending e He Hw) as Hl.
  destruct (RemoveVIP "web" pw_pending) as [m' err]. apply Hl.
Defined.

(** A commit that adds a check c without a seed is refused. *)
Definition pw_more : VIPConfig := pw_vip [pw_check "a" "tcp"; pw_check "c" "dns"].
Lemma CommitVIP_rejected_witness :
  is_Some (CommitVIP pw_stat 2 pw_more ∅ pw_up).2 ∧
  mg_notifier (CommitVIP pw_stat 2 pw_more ∅ pw_up).1 = mg_notifier pw_up.
Proof.
  assert (∃ err, (CommitVIP pw_stat 2 pw_more ∅ pw_up).2 = Some err) as [err Herr]
    by (eexists; reflexivity).
  split; [by exists err|]. exact (proj1 (CommitVIP_rejected pw_stat 2 pw_more ∅ pw_up err pw_ok Herr)).
Defined.

(** Dropping the only check with a verdict keeps the VIP announced. *)
Definition pw_less : VIPConfig := pw_vip [pw_check "b" "dns"].
Lemma CommitVIP_keeps_route_witness :
  stateOf (CommitVIP pw_stat 2 pw_less ∅ pw_up).1 = Some (StateAnnounced, HealthUnknown, false) ∧
  mg_notifier (CommitVIP pw_stat 2 pw_less ∅ pw_up).1 = mg_notifier pw_up.
Proof.
  split; [by vm_compute|].
  assert (∃ e', mg_vips (CommitVIP pw_stat 2 pw_less ∅ pw_up).1 !! "web" = Some e' ∧
    vs_health (ve_state e') = HealthUnknown) as (e' & He' & Hu) by (eexists; split; reflexivity).
  exact (proj1 (CommitVIP_keeps_route_without_verdict pw_stat 2 pw_less ∅ pw_up _ eq_refl eq_refl e' He' Hu)).
Defined.

Lemma OnHealthTransition_effect_witness :
  ∃ e, mg_vips (OnHealthTransition pw_stat 1
         (mkHealthTransition "web" "a" false "fall threshold reached" zeroResult) pw_up) !! "web" = Some e ∧
       vs_health (ve_state e) = HealthUnhealthy.
Proof.
  edestruct (OnHealthTransition_effect pw_stat 1
    (mkHealthTransition "web" "a" false "fall threshold reached" zeroResult) pw_up)
    as (e & He & _ & _ & _ & Hh & _); [reflexivity|reflexivity|].
  exists e. split; [exact He|]. rewrite Hh. by vm_compute.
Defined.

Lemma exec_isolated_witness :
  mg_vips (exec pw_up (OpAdd pw_stat 2 (mkVIPConfig "db" "10.0.0.2/32" zeroCheck None EmptyString
    zeroPolicy false EmptyString))) !! "web" = mg_vips pw_up !! "web".
Proof.
  refine (proj1 (exec_isolated pw_up _ "web" pw_ok _)). by_compute.
Defined.

End PolicyWitness.
