(* ===== verification/System.v ===== *)
(** * From check results to routes

    The schedulers of a VIP and the policy manager put together the way
    cmd/pathosd does: every result a checker returns goes through the
    scheduler's hysteresis, and the callbacks it fires go to the manager.  The
    results of several checks interleave in any order. *)

From S2P Require Import Prelude GoStrings Config Model Metrics ChecksPolicy Engine Scheduler.
From S2P Require Import PolicyManager PolicyProofs.

Module System.
Section System.
Context `{ExprLang} {B : Type} `{BGPNotifierLaws B}.
Context (stat : string → bool) (now : Z).
Local Notation Manager := (PolicyManager.Manager (B := B)).
Local Notation Sched := (Scheduler unit unit).

(** A callback, delivered. *)
Definition deliver (m : Manager) (c : Call unit unit) : Manager :=
  match c with
  | CallCheckResult _ vip check r => OnCheckResult stat now vip check r m
  | CallTransition _ t => OnHealthTransition stat now t m
  end.

(** One result of one check. *)
Definition feed (st : (string → Sched) * Manager) (p : string * Result) : (string → Sched) * Manager :=
  let '(sched, m) := st in
  let '(name, r) := p in
  let '(s', calls) := runCheck (sched name) r in
  (λ n, if decide (n = name) then s' else sched n, foldl deliver m calls).

(** The outcomes of a check, newest first. *)
Definition histOf (name : string) (trace : list (string * Result)) : list bool :=
  history ((filter (λ p, p.1 = name) trace).*2).

Lemma histOf_snoc name trace n r :
  histOf name (trace ++ [(n, r)]) =
    if decide (n = name) then Success r :: histOf name trace else histOf name trace.
Proof.
  unfold histOf, history. rewrite filter_app, filter_cons, filter_nil. cbn [fst].
  case_decide; [|by rewrite app_nil_r].
  by rewrite fmap_app, fmap_app, reverse_app.
Qed.

Section OneVIP.
Context (cfg : VIPConfig) (rise fall : string → Z).
Context (Hthr : ∀ n, n ∈ checkNames cfg → 1 ≤ rise n ∧ 1 ≤ fall n).
Context (Hnamed : ∀ n, n ∈ checkNames cfg → n ≠ EmptyString).
Context (Hfile : Policy_LowerPriorityFile (VIP_Policy cfg) = EmptyString).

Definition newSched (name : string) : Sched :=
  NewScheduler (mkSchedulerConfig (VIP_Name cfg) name None 0 0 (rise name) (fall name)
                  (Some tt) (Some tt)).

(** A scheduler and the check state the manager keeps for it. *)
Record linked (name : string) (hist : list bool) (s : Sched) (c : checkState) : Prop := mkLinked {
  ln_wf : wf s;
  ln_tracks : tracks s hist;
  ln_rise : sc_rise s = rise name;
  ln_fall : sc_fall s = fall name;
  ln_vip : sc_vipName s = VIP_Name cfg;
  ln_check : sc_checkName s = name;
  ln_tcb : sc_onTransition s = Some tt;
  ln_rcb : sc_onCheckResult s = Some tt;
  ln_health : cs_health c = HealthHealthy ↔ sc_healthy s = true }.

Definition entry_linked (eval : ChecksEvaluator) (trace : list (string * Result))
    (sched : string → Sched) (e : vipEntry) : Prop :=
  ve_cfg e = cfg ∧ ve_eval e = eval ∧ vs_lowerPriorityFileOn (ve_state e) = false ∧
  ∀ n, n ∈ checkNames cfg → ∃ c, vs_checks (ve_state e) !! n = Some c ∧
    linked n (histOf n trace) (sched n) c.

Definition sys_ok (eval : ChecksEvaluator) (trace : list (string * Result))
    (st : (string → Sched) * Manager) : Prop :=
  mgr_ok st.2 ∧ sound st.2 ∧
  ∃ e, mg_vips st.2 !! VIP_Name cfg = Some e ∧ entry_linked eval trace st.1 e.

Lemma file_absent : lowerPriorityFilePresent stat (Policy_LowerPriorityFile (VIP_Policy cfg)) = false.
Proof. unfold lowerPriorityFilePresent. by rewrite Hfile, decide_True. Qed.

Lemma findCheck_named cs n c : cs !! n = Some c → findCheck cs n = Some (n, c).
Proof. intros Hc. unfold findCheck. by rewrite Hc. Qed.

(** What [runCheck] fires, for a linked scheduler. *)
Lemma runCheck_calls n hist s c r :
  linked n hist s c →
  runCheck s r =
    ((applyResult s r).1,
     CallCheckResult tt (VIP_Name cfg) n r ::
     match (applyResult s r).2 with Some t => [CallTransition tt t] | None => [] end).
Proof.
  intros []. unfold runCheck. destruct (applyResult s r) as [s' t]. rewrite ln_rcb0, ln_tcb0, ln_vip0, ln_check0.
  by destruct t.
Qed.

Lemma linked_step n hist s c r c' :
  linked n hist s c →
  (cs_health c' = HealthHealthy ↔ sc_healthy (applyResult s r).1 = true) →
  linked n (Success r :: hist) (applyResult s r).1 c'.
Proof.
  intros [Hwf Ht Hr Hf Hv Hc Htc Hrc _] Hh.
  destruct (applyResult_thresholds s r) as (Er & Ef & Ev & Ec & _ & Etc & Erc & _).
  pose proof Hwf as (? & ? & _).
  constructor; [by apply applyResult_wf|by apply applyResult_tracks|congruence..|done].
Qed.

(** The other checks do not notice. *)
Lemma linked_others eval trace sched e n r s' c' st' :
  entry_linked eval trace sched e → n ∈ checkNames cfg →
  vs_checks st' = <[n := c']> (vs_checks (ve_state e)) → vs_lowerPriorityFileOn st' = false →
  linked n (Success r :: histOf n trace) s' c' →
  entry_linked eval (trace ++ [(n, r)]) (λ x, if decide (x = n) then s' else sched x)
    (mkVipEntry cfg eval st').
Proof.
  intros (_ & _ & _ & Hall) Hn Hcs Hfl Hl. split; [done|]. split; [done|]. split; [done|].
  intros x Hx. rewrite histOf_snoc. cbn [ve_state]. rewrite Hcs. destruct (decide (x = n)) as [->|Hne].
  - rewrite decide_True by done. exists c'. by rewrite lookup_insert_eq.
  - rewrite decide_False by done. rewrite lookup_insert_ne by done. by apply Hall.
Qed.

Lemma feed_ok eval trace st n r :
  sys_ok eval trace st → n ∈ checkNames cfg → sys_ok eval (trace ++ [(n, r)]) (feed st (n, r)).
Proof.
  destruct st as [sched m]. intros (Hok & Hs & e & He & Hlink) Hn. cbn [fst snd] in *.
  pose proof Hlink as (Hcfg & Heval & Hfl & Hall). destruct (Hall n Hn) as (c & Hc & Hl).
  cbn [feed]. rewrite (runCheck_calls _ _ _ _ r Hl). cbn [foldl deliver].
  set (m1 := OnCheckResult stat now (VIP_Name cfg) n r m).
  assert (mgr_ok m1) as Hok1 by by apply OnCheckResult_preserves.
  assert (sound m1) as Hs1 by by apply OnCheckResult_sound.
  destruct (result_effect stat now (VIP_Name cfg) n r m e n c He (findCheck_named _ _ _ Hc))
    as (e1 & He1 & Hcfg1 & Heval1 & Hcs1 & Hfl1). fold m1 in He1.
  rewrite Hcfg, file_absent in Hfl1. rewrite Hcfg in Hcfg1. rewrite Heval in Heval1.
  pose proof (applyResult_transition (sched n) r) as Ht.
  destruct (applyResult (sched n) r).2 as [t|] eqn:Et; cbn [foldl deliver].
  - destruct Ht as (Hth & Hflip & Htv & Htn & _). rewrite (ln_vip _ _ _ _ Hl) in Htv.
    rewrite (ln_check _ _ _ _ Hl) in Htn.
    rewrite <-Htv in He1.
    destruct (transition_effect stat now t m1 e1 n (mkCheckState (cs_cfg c) (cs_health c) r now) He1)
      as (e2 & He2 & Hcfg2 & Heval2 & Hcs2 & _ & Hst2).
    { rewrite Htn, Hcs1. apply findCheck_named. by rewrite lookup_insert_eq. }
    rewrite Htv in He2. rewrite Hcs1, insert_insert_eq in Hcs2. rewrite Hcfg1, file_absent in Hst2.
    split; [by apply OnHealthTransition_preserves|]. split; [by apply OnHealthTransition_sound|].
    exists e2. split; [done|]. cbn [fst].
    destruct e2 as [cfg2 eval2 st2]; cbn in *. rewrite Hcfg2, Heval2, Hcfg1, Heval1.
    eapply linked_others; [exact Hlink|done|exact Hcs2| |].
    + apply (f_equal snd) in Hst2. cbn in Hst2. rewrite Hst2. by case_decide.
    + eapply linked_step; [done|]. cbn. rewrite Hth. by destruct (sc_healthy _).
  - split; [done|]. split; [done|]. exists e1. split; [done|]. cbn [fst].
    destruct e1 as [cfg1 eval1 st1]; cbn in *. rewrite Hcfg1, Heval1.
    eapply linked_others; [exact Hlink|done|exact Hcs1|done|].
    eapply linked_step; [done|]. cbn. rewrite Ht. apply Hl.
Qed.

(** ** The start *)

Lemma NewManager_lookup vips x (notifier : option B) v :
  NoDup (VIP_Name <$> vips) → v ∈ vips →
  mg_vips (NewManager stat now vips x notifier) !! VIP_Name v = Some (newVIPEntry stat now v).
Proof.
  unfold NewManager. revert v. induction vips as [|w vips IH] using rev_ind; intros v Hnd Hv.
  { by apply not_elem_of_nil in Hv. }
  rewrite foldl_app. cbn. rewrite fmap_app, NoDup_app in Hnd. destruct Hnd as (Hnd & Hd & _).
  apply elem_of_app in Hv as [Hv|Hv%list_elem_of_singleton].
  - rewrite lookup_insert_ne; [by apply IH|]. intros Heq. apply (Hd (VIP_Name v)).
    + by apply list_elem_of_fmap_2.
    + rewrite <-Heq. cbn. by left.
  - subst. by rewrite lookup_insert_eq.
Qed.

Lemma newSched_linked n c :
  n ∈ checkNames cfg → cs_health c = HealthUnknown → linked n [] (newSched n) c.
Proof.
  intros Hn Hc. destruct (Hthr n Hn) as [Hr Hf]. constructor; try done.
  - by apply NewScheduler_wf.
  - by apply NewScheduler_tracks.
  - cbn. rewrite decide_False; [done|by apply Hnamed].
  - rewrite Hc. done.
Qed.

Lemma start_ok vips x notifier :
  NoDup (VIP_Name <$> vips) → cfg ∈ vips → noRoutes notifier →
  (∀ i j v w, vips !! i = Some v → vips !! j = Some w →
     same_route (VIP_Prefix v) (VIP_Prefix w) → i = j) →
  sys_ok (ve_eval (newVIPEntry stat now cfg)) [] (newSched, NewManager stat now vips x notifier).
Proof.
  intros Hnd Hin Hno Hinj. split; [by apply NewManager_ok|]. split; [by apply NewManager_sound|].
  exists (newVIPEntry stat now cfg). split; [by apply NewManager_lookup|].
  split; [done|]. split; [done|]. split; [apply file_absent|]. intros n Hn.
  destruct (proj2 (newChecks_dom (CheckList cfg) n) Hn) as [c Hc]. exists c. split; [done|].
  apply newSched_linked; [done|]. by apply newChecks_lookup in Hc as [_ ?].
Qed.

Lemma trace_ok vips x notifier trace :
  NoDup (VIP_Name <$> vips) → cfg ∈ vips → noRoutes notifier →
  (∀ i j v w, vips !! i = Some v → vips !! j = Some w →
     same_route (VIP_Prefix v) (VIP_Prefix w) → i = j) →
  (∀ p, p ∈ trace → p.1 ∈ checkNames cfg) →
  sys_ok (ve_eval (newVIPEntry stat now cfg)) trace
    (foldl feed (newSched, NewManager stat now vips x notifier) trace).
Proof.
  intros Hnd Hin Hno Hinj. induction trace as [|[n r] trace IH] using rev_ind; intros Hall.
  { by apply start_ok. }
  rewrite foldl_app. apply feed_ok.
  - apply IH. intros p Hp. apply Hall. apply elem_of_app. by left.
  - apply (Hall (n, r)). apply elem_of_app. right. by left.
Qed.

(** ** Policy "all" *)

(** Every check of the VIP passes its hysteresis. *)
Definition allHealthy (trace : list (string * Result)) : Prop :=
  ∀ n, n ∈ checkNames cfg → specHealthy (rise n) (fall n) (histOf n trace).

Context (Hpolicy : VIP_ChecksPolicy cfg = EmptyString ∨ VIP_ChecksPolicy cfg = ChecksPolicyAll).

Lemma eval_all : ve_eval (newVIPEntry stat now cfg) = mkChecksEvaluator ChecksPolicyAll (checkNames cfg) None.
Proof. cbn. by destruct Hpolicy as [-> | ->]. Qed.

Lemma checkNames_nonempty : checkNames cfg ≠ [].
Proof. unfold checkNames, CheckList. by destruct (elems (VIP_Checks cfg)). Qed.

Lemma list_choose {A} (l : list A) : l ≠ [] → ∃ a, a ∈ l.
Proof. destruct l as [|a l]; [done|]. intros _. exists a. by left. Qed.

(** The combined health says whether every check passes. *)
Lemma combined_all trace st e :
  sys_ok (ve_eval (newVIPEntry stat now cfg)) trace st → mg_vips st.2 !! VIP_Name cfg = Some e →
  vs_health (ve_state e) = HealthHealthy ↔ allHealthy trace.
Proof.
  intros ((_ & _ & Hok) & _ & e' & He' & Hcfg & Heval & _ & Hall) He. rewrite He in He'.
  injection He' as <-. rewrite (eo_health _ _ _ (Hok _ _ He)), Heval, eval_all.
  assert (∀ n c, vs_checks (ve_state e) !! n = Some c → n ∈ checkNames cfg →
    cs_health c = HealthHealthy ↔ specHealthy (rise n) (fall n) (histOf n trace)) as Hagree.
  { intros n c Hc Hn. destruct (Hall n Hn) as (c' & Hc' & []). rewrite Hc in Hc'. injection Hc' as <-.
    rewrite ln_health0, <-ln_rise0, <-ln_fall0. apply ln_tracks0. }
  assert (Eval (mkChecksEvaluator ChecksPolicyAll (checkNames cfg) None)
            (healthMap (vs_checks (ve_state e))) = true ↔
          checkNames cfg ≠ [] ∧ ∀ n, n ∈ checkNames cfg →
            healthMap (vs_checks (ve_state e)) !! n = Some true) as Hev by by apply Eval_all_spec.
  unfold combineHealth. fold (healthMap (vs_checks (ve_state e))). split.
  - destruct (negb _); [|done]. destruct (Eval _ _); [|done]. intros _ n Hn.
    destruct (Hall n Hn) as (c & Hc & _). apply (Hagree n c Hc Hn).
    destruct (proj1 Hev eq_refl) as [_ E]. specialize (E n Hn). unfold healthMap in E.
    rewrite lookup_fmap, Hc in E. injection E as E. by apply bool_decide_eq_true in E.
  - intros Ha. rewrite (proj2 Hev).
    + rewrite bool_decide_eq_false_2; [done|]. intros Hun.
      destruct (list_choose _ checkNames_nonempty) as [n Hn]. destruct (Hall n Hn) as (c & Hc & _).
      assert (cs_health c = HealthHealthy) by (apply (Hagree n c Hc Hn); by apply Ha).
      pose proof (Hun n c Hc) as Hu. cbn in Hu. congruence.
    + split; [apply checkNames_nonempty|]. intros n Hn. destruct (Hall n Hn) as (c & Hc & _).
      unfold healthMap. rewrite lookup_fmap, Hc. cbn. rewrite bool_decide_eq_true_2; [done|].
      apply (Hagree n c Hc Hn). by apply Ha.
Qed.

End OneVIP.

(** ** Properties *)

Lemma announced_iff cfg rise fall vips x notifier trace :
  (∀ n, n ∈ checkNames cfg → 1 ≤ rise n ∧ 1 ≤ fall n) →
  (∀ n, n ∈ checkNames cfg → n ≠ EmptyString) →
  Policy_LowerPriorityFile (VIP_Policy cfg) = EmptyString →
  VIP_ChecksPolicy cfg = EmptyString ∨ VIP_ChecksPolicy cfg = ChecksPolicyAll →
  Policy_FailAction (VIP_Policy cfg) = "withdraw" →
  NoDup (VIP_Name <$> vips) → cfg ∈ vips → noRoutes notifier →
  (∀ i j v w, vips !! i = Some v → vips !! j = Some w →
     same_route (VIP_Prefix v) (VIP_Prefix w) → i = j) →
  (∀ p, p ∈ trace → p.1 ∈ checkNames cfg) →
  let m := (foldl feed (newSched cfg rise fall, NewManager stat now vips x notifier) trace).2 in
  ∃ e, mg_vips m !! VIP_Name cfg = Some e ∧
    (allHealthy cfg rise fall trace → vs_state (ve_state e) = StateAnnounced) ∧
    (¬ allHealthy cfg rise fall trace → vs_state (ve_state e) = StateWithdrawn) ∧
    (∀ b, mg_notifier m = Some b → vs_bgpPending (ve_state e) = false →
       installed b (VIP_Prefix cfg) =
         if decide (vs_state (ve_state e) = StateAnnounced)
         then Some (originated (VIP_Prefix cfg) (BaseRouteAttrs (VIP_Policy cfg))) else None).
Proof.
  intros Hthr Hnamed Hfile Hpol Hfa Hnd Hin Hno Hinj Htr m.
  pose proof (trace_ok cfg rise fall Hthr Hnamed Hfile vips x notifier trace Hnd Hin Hno Hinj Htr) as Hsys.
  pose proof Hsys as ((_ & _ & Hok) & Hs & e & He & Hcfg & _ & Hfl & _).
  pose proof (combined_all cfg rise fall Hpol trace _ e Hsys He) as Hcomb.
  destruct (sound_entry _ _ _ Hs He) as (_ & Hr & Hu). fold m in He, Hr. exists e. split; [done|].
  pose proof (eo_state _ _ _ (Hok _ _ He)) as Hst. rewrite Hcfg in Hst, Hr.
  assert (vs_state (ve_state e) =
    if decide (vs_health (ve_state e) = HealthHealthy) then StateAnnounced else StateWithdrawn) as Hstate.
  { case_decide as Hh.
    - rewrite Hst by congruence. rewrite Hfl. unfold Evaluate. by rewrite bool_decide_eq_true_2.
    - destruct (decide (vs_health (ve_state e) = HealthUnknown)) as [|Hk]; [by apply Hu|].
      rewrite Hst by done. rewrite bool_decide_eq_false_2 by done. unfold Evaluate. by rewrite Hfa. }
  split; [|split].
  - intros Ha. apply Hcomb in Ha. by rewrite Hstate, decide_True.
  - intros Ha. rewrite Hstate, decide_False; [done|]. by rewrite Hcomb.
  - intros b Hb Hp. rewrite (Hr b Hb Hp), Hstate. by case_decide.
Qed.


End System.
End System.
