(* ===== verification/Daemon.v ===== *)
(** * The policy manager on top of GoBGP

    The two managers composed: what the status API reports against what the
    BGP server originates.  A reference server shows that the laws asked of
    GoBGP can hold, and the theorems are applied to it. *)

From S2P Require Import Prelude GoStrings NetIP Config Model Metrics ChecksPolicy Engine.
From S2P Require Import Scheduler PolicyManager PolicyProofs BGPManager BGPProofs.
From S2P Require Import PolicyWitness System.

Module Daemon.
Import BGPManager BGPProofs PolicyWitness System.

Section Daemon.
Context `{ExprLang} {S UUID : Type} `{GoBGPLaws S UUID} (cfg : Config).
Local Existing Instance bgp_notifier.
Local Existing Instance bgp_laws.

(** A server that originates nothing, and an empty UUID table. *)
Definition freshManager (m : BGPManager.Manager (S := S) (UUID := UUID)) : Prop :=
  srv_ok (bm_server m) ∧ bm_installedRouteUUID m = ∅ ∧ ∀ k, rib (bm_server m) k = None.

Lemma freshManager_noRoutes m : freshManager m → noRoutes (Some m) (BGPNotifierLaws0 := bgp_laws cfg).
Proof.
  intros (Hs & Ht & Hr) b [= <-]. split; [split; [done|]|].
  - rewrite Ht. apply map_Forall_empty.
  - intros q. cbn. unfold bm_installed. destruct (ParsePrefix q); [|done]. by rewrite Hr.
Qed.

(** What a status says of the server. *)
Definition reportsRoute (s : VIPStatus) (bm : BGPManager.Manager (S := S) (UUID := UUID)) : Prop :=
  ∀ pfx, VS_BGPPending s = false → ParsePrefix (VS_Prefix s) = Some pfx →
    match VS_State s with
    | StateWithdrawn => rib (bm_server bm) (Masked pfx) = None
    | _ => ∃ path,
        buildPath cfg (VS_Prefix s) (mkRouteAttrs (VS_ASPathPrepend s) (VS_Communities s)) = Ok path ∧
        rib (bm_server bm) (Masked pfx) = Some path
    end.

Lemma statusRoute_reports (s : VIPStatus) (bm : BGPManager.Manager (S := S) (UUID := UUID)) :
  (VS_BGPPending s = false →
     installed (H := bgp_notifier cfg) (BGPNotifierLaws := bgp_laws cfg) bm (VS_Prefix s) =
     statusRoute (H0 := bgp_notifier cfg) (BGPNotifierLaws0 := bgp_laws cfg) s) →
  reportsRoute s bm.
Proof.
  intros Hall pfx Hp Hpfx. specialize (Hall Hp). cbn in Hall. unfold statusRoute, bm_installed in Hall. cbn in Hall.
  rewrite Hpfx in Hall. unfold pathFor in Hall.
  destruct (rib (bm_server bm) (Masked pfx)) as [path|], (VS_State s); cbn in Hall; try done;
    destruct (buildPath _ _ _) as [path'|]; try done; injection Hall as <-; eauto.
Qed.

(** The routes of the BGP server are those the status API reports: in
    any decisive run of the policy manager on the BGP manager, a VIP reported
    without a pending operation has no path in the server when it is
    withdrawn, and otherwise exactly the path built from the reported prefix,
    prepend and communities. *)
Theorem status_matches_gobgp stat now vips x m0 ops :
  NoDup (VIP_Name <$> vips) → freshManager m0 →
  (∀ i j v w, vips !! i = Some v → vips !! j = Some w →
     bm_same (VIP_Prefix v) (VIP_Prefix w) → i = j) →
  decisive_run (H0 := bgp_notifier cfg) (BGPNotifierLaws0 := bgp_laws cfg)
    (NewManager stat now vips x (Some m0)) ops →
  let m := foldl (exec (H0 := bgp_notifier cfg)) (NewManager stat now vips x (Some m0)) ops in
  ∃ l, GetVIPStatuses m = Ret l ∧
  ∀ s bm pfx, s ∈ l → mg_notifier m = Some bm → VS_BGPPending s = false →
    ParsePrefix (VS_Prefix s) = Some pfx →
    match VS_State s with
    | StateWithdrawn => rib (bm_server bm) (Masked pfx) = None
    | _ => ∃ path,
        buildPath cfg (VS_Prefix s) (mkRouteAttrs (VS_ASPathPrepend s) (VS_Communities s)) = Ok path ∧
        rib (bm_server bm) (Masked pfx) = Some path
    end.
Proof.
  intros Hnd Hf Hinj Hd m.
  destruct (status_truth stat now vips x (Some m0) ops Hnd (freshManager_noRoutes m0 Hf) Hinj Hd)
    as (l & Hl & _ & Hall). exists l. split; [done|]. intros s bm pfx Hs Hb Hp Hpfx.
  exact (statusRoute_reports s bm (Hall s bm Hs Hb) pfx Hp Hpfx).
Qed.

End Daemon.

(** ** A reference server *)
Record RefServer := mkRefServer {
  rg_up : bool;
  rg_rib : gmap Prefix (Path * nat);
  rg_next : nat }.

Definition rg_find (u : nat) (s : RefServer) : option Prefix :=
  match list_find (λ kv, kv.2.2 = u) (map_to_list (rg_rib s)) with
  | Some (_, (k, _)) => Some k
  | None => None
  end.

Definition rg_delete (k : Prefix) (s : RefServer) : RefServer :=
  mkRefServer (rg_up s) (delete k (rg_rib s)) (rg_next s).

Definition rg_down : error := External "bgp server hasn't started yet".

#[export] Instance ref_gobgp : GoBGP RefServer nat := {|
  newIPAddrPrefix _ := None;
  newPathAttributeNextHop _ := None;
  startBgp _ s := (mkRefServer true (rg_rib s) (rg_next s), None);
  addPeer _ s := (s, None);
  stopServer s := mkRefServer false ∅ (rg_next s);
  addPath p s :=
    if rg_up s then
      (mkRefServer true (<[Path_Nlri p := (p, rg_next s)]> (rg_rib s)) (Datatypes.S (rg_next s)),
       Ok [(None, rg_next s)])
    else (s, Err rg_down);
  deletePathUUID u s :=
    if rg_up s then
      match rg_find u s with
      | Some k => (rg_delete k s, None)
      | None => (s, Some (External "can't find a specified path"))
      end
    else (s, Some rg_down);
  deletePathPath p s := if rg_up s then (rg_delete (Path_Nlri p) s, None) else (s, Some rg_down);
  listPeer s := ([], None);
  listPath _ _ _ s := ([], None) |}.

Lemma rg_find_Some u s k : rg_find u s = Some k → ∃ p, rg_rib s !! k = Some (p, u).
Proof.
  unfold rg_find. destruct (list_find _ _) as [[i [k' [p u']]]|] eqn:E; [|done]. intros [= ->].
  apply list_find_Some in E as (Hi & Hu & _). cbn in Hu. subst. exists p.
  apply elem_of_map_to_list. by eapply list_elem_of_lookup_2.
Qed.

#[export] Instance ref_gobgp_laws : GoBGPLaws RefServer nat.
Proof.
  refine {| srv_ok s := map_Forall (λ _ pu, pu.2 < rg_next s)%nat (rg_rib s);
            rib s k := fst <$> rg_rib s !! k; uuidOf s k := snd <$> rg_rib s !! k;
            issued s u := (u < rg_next s)%nat |}.
  - intros s k u Hs Hu. apply fmap_Some in Hu as ([p u'] & Hk & ->). by apply (Hs k (p, u')).
  - intros p s Hs. cbn. destruct (rg_up s); cbn; [|done]. apply map_Forall_insert_2; [cbn; lia|].
    intros k pu Hk. apply Hs in Hk. cbn in *. lia.
  - intros u s Hs. cbn. destruct (rg_up s); [|done]. destruct (rg_find u s); [|done]. cbn.
    by apply map_Forall_delete.
  - intros p s Hs. cbn. destruct (rg_up s); [|done]. cbn. by apply map_Forall_delete.
  - intros p s u Hu. cbn. destruct (rg_up s); cbn; lia.
  - intros u s u' Hu. cbn. destruct (rg_up s); [|done]. by destruct (rg_find u s).
  - intros p s u' Hu. cbn. by destruct (rg_up s).
  - intros p s s' u rest Hs. cbn. destruct (rg_up s); [|done]. intros [= <- <- <-]. cbn.
    rewrite !lookup_insert_eq. split; [lia|]. split; [lia|]. split; [done|]. split; [done|].
    intros k Hk. by rewrite lookup_insert_ne.
  - intros p s s' r Hs. cbn. destruct (rg_up s); intros [= <- <-]; done.
  - intros u s s' Hs. cbn. destruct (rg_up s); [|done].
    destruct (rg_find u s) as [k|] eqn:E; [|done]. intros [= <-].
    apply rg_find_Some in E as [p Hk]. exists k. cbn. rewrite Hk, lookup_delete_eq.
    split; [done|]. split; [done|]. split; [done|]. intros k' Hk'. by rewrite lookup_delete_ne.
  - intros u s s' e Hs. cbn. destruct (rg_up s); [|by intros [= <- <-]].
    destruct (rg_find u s); [done|]. by intros [= <- <-].
  - intros p s s' Hs. cbn. destruct (rg_up s); [|done]. intros [= <-]. cbn. rewrite lookup_delete_eq.
    split; [done|]. split; [done|]. intros k' Hk'. by rewrite lookup_delete_ne.
  - intros p s s' e Hs. cbn. destruct (rg_up s); [done|]. by intros [= <- <-].
Defined.

(** ** Witnesses *)

Definition dw_cfg : Config :=
  mkConfig "v1" (mkRouterConfig 65000 "192.0.2.1" "192.0.2.1" EmptyString)
    (Cfg_API zeroConfig) (Cfg_Logging zeroConfig) (Cfg_OTel zeroConfig) (Cfg_Paths zeroConfig)
    (Cfg_BGP zeroConfig) None.
Definition dw_bgp : BGPManager.Manager (S := RefServer) (UUID := nat) :=
  mkManager (mkRefServer true ∅ 0) ∅ (Some ∅) ∅.
Definition dw_attrs : RouteAttrs := mkRouteAttrs 2 ["65000:1"].

Lemma buildPath_faithful_witness :
  ∃ path, buildPath dw_cfg "10.0.0.1/24" dw_attrs = Ok path ∧
    Path_Nlri path = mkPrefix (Addr4 0x0a000000) 24 ∧
    Path_Attrs path = [AttrOriginIGP; AttrNextHop (Addr4 0xc0000201); AttrAsPath [[65000; 65000]];
                       AttrCommunities [0xfde80001]].
Proof.
  assert (∃ path, buildPath dw_cfg "10.0.0.1/24" dw_attrs = Ok path) as [path Hp]
    by (eexists; vm_compute; reflexivity).
  destruct (buildPath_faithful dw_cfg _ _ path Hp) as (pfx & nh & comms & Hpfx & Hn & _).
  exists path. split; [done|]. split.
  - rewrite Hn. vm_compute in Hpfx. injection Hpfx as <-. by vm_compute.
  - vm_compute in Hp. by injection Hp as <-.
Defined.

Lemma upsertVIP_atomic_witness :
  ∃ m, upsertVIP dw_cfg "announce" "10.0.0.1/32" dw_attrs dw_bgp = (m, None) ∧ bm_ok m.
Proof.
  assert (bm_ok dw_bgp) as H0 by (split; apply map_Forall_empty).
  destruct (upsertVIP dw_cfg "announce" "10.0.0.1/32" dw_attrs dw_bgp) as [m err] eqn:E.
  exists m. split.
  - f_equal. apply (f_equal snd) in E. vm_compute in E. done.
  - exact (proj1 (upsertVIP_atomic dw_cfg "announce" "10.0.0.1/32" dw_attrs dw_bgp m err H0 E)).
Defined.

(** A server that is down: the withdraw fails and changes nothing. *)
Definition dw_stopped : BGPManager.Manager (S := RefServer) (UUID := nat) := mkManager (mkRefServer false ∅ 0) ∅ (Some ∅) ∅.
Lemma WithdrawVIP_atomic_witness :
  ∃ m e, bgpWithdrawVIP dw_cfg "10.0.0.1/32" dw_stopped = (m, Some e) ∧
         bm_installedRouteUUID m = ∅.
Proof.
  assert (bm_ok dw_stopped) as H0 by (split; apply map_Forall_empty).
  destruct (bgpWithdrawVIP dw_cfg "10.0.0.1/32" dw_stopped) as [m [e|]] eqn:E.
  - exists m, e. split; [done|].
    exact (proj2 (proj2 (proj2 (WithdrawVIP_atomic dw_cfg "10.0.0.1/32" dw_stopped m (Some e) H0 E)))).
  - apply (f_equal snd) in E. vm_compute in E. done.
Defined.

Lemma dw_fresh : freshManager dw_bgp.
Proof. split; [apply map_Forall_empty|]. split; [done|]. intros k. cbn. by rewrite lookup_empty. Qed.

Lemma dw_distinct i j v w :
  [pw_web] !! i = Some v → [pw_web] !! j = Some w → bm_same (VIP_Prefix v) (VIP_Prefix w) → i = j.
Proof. by destruct i as [|[|]], j as [|[|]]. Qed.

Lemma status_matches_gobgp_witness :
  ∃ l, GetVIPStatuses (exec (H0 := bgp_notifier dw_cfg)
         (NewManager pw_stat 0 [pw_web] ∅ (Some dw_bgp)) (pw_rise "a")) = Ret l ∧
       VS_State <$> l = [StateAnnounced].
Proof.
  destruct (status_matches_gobgp dw_cfg pw_stat 0 [pw_web] ∅ dw_bgp [pw_rise "a"] pw_unique dw_fresh
    dw_distinct (conj I I)) as (l & Hl & _).
  exists l. split; [exact Hl|]. vm_compute in Hl. by injection Hl as <-.
Defined.

(** A VIP with two checks under checks_policy all, rise 2 and fall 1. *)
Definition dw_all : VIPConfig :=
  mkVIPConfig "web" "10.0.0.1/32" zeroCheck (Some [pw_check "a" "tcp"; pw_check "b" "dns"]) "all"
    pw_policy false EmptyString.
Definition dw_result (ok : bool) : Result := mkResult ok EmptyString 0 None false None.
Definition dw_trace : list (string * Result) :=
  [("a", dw_result true); ("b", dw_result true); ("b", dw_result true); ("a", dw_result true)].


End Daemon.
