(* ===== verification/Reload.v ===== *)
(** * Applying a changed config file: internal/reload/reload.go

    The reloader on top of the registry, the schedulers and the policy
    manager.  Every operation holds [r.mu], so each is one step; what other
    goroutines do meanwhile comes in as arguments: the bytes on disk and what
    [config.LoadRaw] made of them, the time, whether a checker can be built,
    and, for a commit, the results a shadow scheduler takes between the moment
    its seed is read and the moment it is attached to the policy manager.

    A scheduler is a pointer into [rl_heap]; [rl_closed] are those whose
    checker was closed.  The policy manager is used through the interface
    [Policy] of the source.  Iteration over a Go map follows the order of
    [map_to_list]. *)

From S2P Require Import Prelude GoStrings NetIP Config Model Metrics Scheduler Registry Diff.
From S2P Require Import PolicyManager Logging.

Module Reload.
Import Logging.

(** ** The interface [Policy] *)
Class Policy (P : Type) := {
  pol_AddVIP : Z → VIPConfig → P → P;
  pol_RemoveVIP : string → P → P * goerror;
  pol_CommitVIP : Z → VIPConfig → gmap string CheckSeed → P → P * goerror;
  pol_OnHealthTransition : Z → HealthTransition → P → P;
  pol_OnCheckResult : Z → string → string → Result → P → P }.

(** The callbacks a scheduler can have: the policy manager's, or
    [watchShadow]'s. *)
Inductive TCallback := PolicyTransition.
Inductive RCallback := PolicyResult | WatchShadow.
Abbreviation Sched := (Scheduler TCallback RCallback).

(** ** State *)

(** [stagedVIP]; a deadline is a time in nanoseconds. *)
Record stagedVIP := mkStagedVIP {
  st_cfg : VIPConfig;
  st_old : VIPConfig;
  st_shadows : gmap string ptr;
  st_verdicts : gset string;
  st_removed : list string;
  st_deadline : Z }.

Definition stagingGraceFactor : Z := 4.

(** [stagingDeadline]: a [time.Duration] is an int64 and wraps around. *)
Definition stagingDeadline (now : Z) (scheds : list Sched) : Z :=
  let window :=
    foldl (λ w s, w `max` wrap64 ((sc_rise s `max` sc_fall s) * sc_interval s)) 0 scheds in
  now + wrap64 (stagingGraceFactor * window).

(** [healthOf] and [boolGauge]. *)
Definition healthOf (s : Sched) : HealthStatus :=
  if sc_healthy s then HealthHealthy else HealthUnhealthy.
Definition boolGauge (b : bool) : Z := if b then 1 else 0.

Section Reload.
Context {P : Type} `{Policy P}.
(** [sha256.Sum256], on the bytes of the file. *)
Context {Hash : Type} `{EqDecision Hash} (zeroHash : Hash) (Sum256 : string → Hash).
(** [checks.NewChecker]: the type of the checker, or why it cannot be made. *)
Context (newChecker : CheckConfig → result error string).

Record Reloader := mkReloader {
  rl_path : string;
  rl_cur : Config;
  rl_curHash : Hash;
  rl_loadedAt : Z;
  rl_generation : Z;
  rl_last : option ReloadStatus;
  rl_staging : gmap string stagedVIP;
  rl_fileChanged : bool;
  rl_lockLogLevel : bool;
  rl_hasBGP : bool;
  rl_verdicts : list ptr;
  rl_wake : bool;
  rl_reg : Registry;
  rl_heap : gmap ptr Sched;
  rl_nextPtr : ptr;
  rl_closed : gset ptr;
  rl_pol : P;
  rl_metrics : Metrics;
  rl_logLevel : Z;
  rl_bgpLogLevel : Z;
  rl_changes : nat }.

(** Field updates. *)
Definition setStaging (r : Reloader) (s : gmap string stagedVIP) : Reloader :=
  mkReloader (rl_path r) (rl_cur r) (rl_curHash r) (rl_loadedAt r) (rl_generation r) (rl_last r)
    s (rl_fileChanged r) (rl_lockLogLevel r) (rl_hasBGP r) (rl_verdicts r) (rl_wake r)
    (rl_reg r) (rl_heap r) (rl_nextPtr r) (rl_closed r) (rl_pol r) (rl_metrics r) (rl_logLevel r)
    (rl_bgpLogLevel r) (rl_changes r).
Definition setFileChanged (r : Reloader) (b : bool) : Reloader :=
  mkReloader (rl_path r) (rl_cur r) (rl_curHash r) (rl_loadedAt r) (rl_generation r) (rl_last r)
    (rl_staging r) b (rl_lockLogLevel r) (rl_hasBGP r) (rl_verdicts r) (rl_wake r)
    (rl_reg r) (rl_heap r) (rl_nextPtr r) (rl_closed r) (rl_pol r) (rl_metrics r) (rl_logLevel r)
    (rl_bgpLogLevel r) (rl_changes r).
Definition setVerdicts (r : Reloader) (v : list ptr) (wake : bool) : Reloader :=
  mkReloader (rl_path r) (rl_cur r) (rl_curHash r) (rl_loadedAt r) (rl_generation r) (rl_last r)
    (rl_staging r) (rl_fileChanged r) (rl_lockLogLevel r) (rl_hasBGP r) v wake
    (rl_reg r) (rl_heap r) (rl_nextPtr r) (rl_closed r) (rl_pol r) (rl_metrics r) (rl_logLevel r)
    (rl_bgpLogLevel r) (rl_changes r).
Definition setReg (r : Reloader) (reg : Registry) : Reloader :=
  mkReloader (rl_path r) (rl_cur r) (rl_curHash r) (rl_loadedAt r) (rl_generation r) (rl_last r)
    (rl_staging r) (rl_fileChanged r) (rl_lockLogLevel r) (rl_hasBGP r) (rl_verdicts r) (rl_wake r)
    reg (rl_heap r) (rl_nextPtr r) (rl_closed r) (rl_pol r) (rl_metrics r) (rl_logLevel r)
    (rl_bgpLogLevel r) (rl_changes r).
Definition setHeap (r : Reloader) (h : gmap ptr Sched) (next : ptr) : Reloader :=
  mkReloader (rl_path r) (rl_cur r) (rl_curHash r) (rl_loadedAt r) (rl_generation r) (rl_last r)
    (rl_staging r) (rl_fileChanged r) (rl_lockLogLevel r) (rl_hasBGP r) (rl_verdicts r) (rl_wake r)
    (rl_reg r) h next (rl_closed r) (rl_pol r) (rl_metrics r) (rl_logLevel r)
    (rl_bgpLogLevel r) (rl_changes r).
Definition setClosed (r : Reloader) (c : gset ptr) : Reloader :=
  mkReloader (rl_path r) (rl_cur r) (rl_curHash r) (rl_loadedAt r) (rl_generation r) (rl_last r)
    (rl_staging r) (rl_fileChanged r) (rl_lockLogLevel r) (rl_hasBGP r) (rl_verdicts r) (rl_wake r)
    (rl_reg r) (rl_heap r) (rl_nextPtr r) c (rl_pol r) (rl_metrics r) (rl_logLevel r)
    (rl_bgpLogLevel r) (rl_changes r).
Definition setPol (r : Reloader) (p : P) : Reloader :=
  mkReloader (rl_path r) (rl_cur r) (rl_curHash r) (rl_loadedAt r) (rl_generation r) (rl_last r)
    (rl_staging r) (rl_fileChanged r) (rl_lockLogLevel r) (rl_hasBGP r) (rl_verdicts r) (rl_wake r)
    (rl_reg r) (rl_heap r) (rl_nextPtr r) (rl_closed r) p (rl_metrics r) (rl_logLevel r)
    (rl_bgpLogLevel r) (rl_changes r).
Definition setMetric (r : Reloader) (x : Metrics) : Reloader :=
  mkReloader (rl_path r) (rl_cur r) (rl_curHash r) (rl_loadedAt r) (rl_generation r) (rl_last r)
    (rl_staging r) (rl_fileChanged r) (rl_lockLogLevel r) (rl_hasBGP r) (rl_verdicts r) (rl_wake r)
    (rl_reg r) (rl_heap r) (rl_nextPtr r) (rl_closed r) (rl_pol r) x (rl_logLevel r)
    (rl_bgpLogLevel r) (rl_changes r).
Definition setLast (r : Reloader) (l : option ReloadStatus) : Reloader :=
  mkReloader (rl_path r) (rl_cur r) (rl_curHash r) (rl_loadedAt r) (rl_generation r) l
    (rl_staging r) (rl_fileChanged r) (rl_lockLogLevel r) (rl_hasBGP r) (rl_verdicts r) (rl_wake r)
    (rl_reg r) (rl_heap r) (rl_nextPtr r) (rl_closed r) (rl_pol r) (rl_metrics r) (rl_logLevel r)
    (rl_bgpLogLevel r) (rl_changes r).
Definition setLogLevels (r : Reloader) (level bgp : Z) : Reloader :=
  mkReloader (rl_path r) (rl_cur r) (rl_curHash r) (rl_loadedAt r) (rl_generation r) (rl_last r)
    (rl_staging r) (rl_fileChanged r) (rl_lockLogLevel r) (rl_hasBGP r) (rl_verdicts r) (rl_wake r)
    (rl_reg r) (rl_heap r) (rl_nextPtr r) (rl_closed r) (rl_pol r) (rl_metrics r) level
    bgp (rl_changes r).
(** [r.onChange()]. *)
Definition onChange (r : Reloader) : Reloader :=
  mkReloader (rl_path r) (rl_cur r) (rl_curHash r) (rl_loadedAt r) (rl_generation r) (rl_last r)
    (rl_staging r) (rl_fileChanged r) (rl_lockLogLevel r) (rl_hasBGP r) (rl_verdicts r) (rl_wake r)
    (rl_reg r) (rl_heap r) (rl_nextPtr r) (rl_closed r) (rl_pol r) (rl_metrics r) (rl_logLevel r)
    (rl_bgpLogLevel r) (S (rl_changes r)).
(** The running config, with what goes with it. *)
Definition setCur (r : Reloader) (cfg : Config) (hash : Hash) (fileChanged : bool) (at_ : Z) : Reloader :=
  mkReloader (rl_path r) cfg hash at_ (rl_generation r + 1) (rl_last r)
    (rl_staging r) fileChanged (rl_lockLogLevel r) (rl_hasBGP r) (rl_verdicts r) (rl_wake r)
    (rl_reg r) (rl_heap r) (rl_nextPtr r) (rl_closed r) (rl_pol r)
    (Set_ M_ConfigLoadedTimestamp [] (Unix at_) (rl_metrics r)) (rl_logLevel r)
    (rl_bgpLogLevel r) (rl_changes r).

(** [New]; the registry, the schedulers and the policy manager exist, and
    the two log levels are those the loggers started with. *)
Definition New (now : Z) (path : string) (cfg : Config) (raw : string) (pol : P) (reg : Registry)
    (heap : gmap ptr Sched) (next : ptr) (x : Metrics) (hasBGP : bool) : Reloader :=
  {| rl_path := path; rl_cur := cfg; rl_curHash := Sum256 raw; rl_loadedAt := now;
     rl_generation := 1; rl_last := None; rl_staging := ∅; rl_fileChanged := false;
     rl_lockLogLevel := false; rl_hasBGP := hasBGP; rl_verdicts := []; rl_wake := false;
     rl_reg := reg; rl_heap := heap; rl_nextPtr := next; rl_closed := ∅; rl_pol := pol;
     rl_metrics := Set_ M_ConfigLoadedTimestamp [] (Unix now) x;
     rl_logLevel := setupLevel (Logging_Level (Cfg_Logging cfg));
     rl_bgpLogLevel := newGoBGPLevelVar (Logging_Level (Cfg_Logging cfg)); rl_changes := 0 |}.

(** [LockLogLevel]. *)
Definition LockLogLevel (r : Reloader) : Reloader :=
  mkReloader (rl_path r) (rl_cur r) (rl_curHash r) (rl_loadedAt r) (rl_generation r) (rl_last r)
    (rl_staging r) (rl_fileChanged r) true (rl_hasBGP r) (rl_verdicts r) (rl_wake r)
    (rl_reg r) (rl_heap r) (rl_nextPtr r) (rl_closed r) (rl_pol r) (rl_metrics r) (rl_logLevel r)
    (rl_bgpLogLevel r) (rl_changes r).

(** The names behind a pointer. *)
Definition vipOf (h : gmap ptr Sched) (s : ptr) : string :=
  match h !! s with Some x => sc_vipName x | None => EmptyString end.
Definition checkOf (h : gmap ptr Sched) (s : ptr) : string :=
  match h !! s with Some x => sc_checkName x | None => EmptyString end.

(** [closeSchedulers]. *)
Definition closeSchedulers (scheds : list ptr) (r : Reloader) : Reloader :=
  setClosed r (list_to_set scheds ∪ rl_closed r).

(** [s.SetCallbacks] through a pointer. *)
Definition setCallbacks (t : option TCallback) (c : option RCallback) (s : ptr) (r : Reloader)
    : Reloader :=
  setHeap r (alter (SetCallbacks t c) s (rl_heap r)) (rl_nextPtr r).

(** [pendingLocked]. *)
Definition pendingLocked (r : Reloader) : list string := sortStrings (map_to_list (rl_staging r)).*1.

(** [Status] and [Config]. *)
Definition Status (r : Reloader) : ConfigStatus :=
  mkConfigStatus (rl_path r) (rl_loadedAt r) (rl_generation r) (rl_fileChanged r) (pendingLocked r)
    (rl_last r).
Definition RunningConfig (r : Reloader) : Config := rl_cur r.

(** [effectiveVIPsLocked]. *)
Definition effectiveVIPsLocked (r : Reloader) : list VIPConfig :=
  (λ v, match rl_staging r !! VIP_Name v with Some st => st_old st | None => v end)
    <$> elems (Cfg_VIPs (rl_cur r)).

(** [findVisible]. *)
Definition findVisible (r : Reloader) (vip check : string) : option ptr :=
  match list_find (λ s, checkOf (rl_heap r) s = check) (visibleOf (rl_reg r) vip) with
  | Some (_, s) => Some s
  | None => None
  end.

(** The part of [NewLocalAddressGuard] that can fail. *)
Definition newGuard (v : VIPConfig) : goerror :=
  if VIP_RequireLocalAddress v then
    match ParsePrefix (VIP_Prefix v) with
    | Some _ => None
    | None =>
        Some (Wrapf "creating local address guard for VIP %q: %w" [VIP_Name v]
                (Wrapf "invalid prefix %q: %w" [VIP_Prefix v] (External "netip.ParsePrefix")))
    end
  else None.

(** One scheduler of [NewSchedulers]. *)
Definition newSchedulerFor (v : VIPConfig) (c : CheckConfig) (typ : string) : Sched :=
  NewScheduler
    {| scfg_VIPName := VIP_Name v;
       scfg_CheckName := EffectiveName c;
       scfg_CheckerType := Some typ;
       scfg_Interval := default 1000000000 (Check_Interval c);
       scfg_Timeout := default 100000000 (Check_Timeout c);
       scfg_Rise := default 1 (Check_Rise c);
       scfg_Fall := default 3 (Check_Fall c);
       scfg_OnTransition := None;
       scfg_OnCheckResult := None |}.

(** The loop of [NewSchedulers]: the heap, the next pointer and the list. *)
Fixpoint newSchedulersLoop (v : VIPConfig) (l : list CheckConfig)
    (h : gmap ptr Sched) (next : ptr) (out : list ptr)
    : gmap ptr Sched * ptr * result error (list ptr) :=
  match l with
  | [] => (h, next, Ok out)
  | c :: l' =>
      match newChecker c with
      | Err e =>
          (h, next, Err (Wrapf "creating checker %q for VIP %q: %w" [EffectiveName c; VIP_Name v] e))
      | Ok typ =>
          newSchedulersLoop v l' (<[next := newSchedulerFor v c typ]> h) (S next) (out ++ [next])
      end
  end.

(** [NewSchedulers]. *)
Definition NewSchedulers (v : VIPConfig) (l : list CheckConfig) (r : Reloader)
    : Reloader * result error (list ptr) :=
  match newGuard v with
  | Some e => (r, Err e)
  | None =>
      let '(h, next, res) := newSchedulersLoop v l (rl_heap r) (rl_nextPtr r) [] in
      (setHeap r h next, res)
  end.

(** [watchShadow]. *)
Definition watchShadow (s : ptr) (r : Reloader) : Reloader :=
  setCallbacks None (Some WatchShadow) s r.

(** The callback [watchShadow] installs, run after a result of the
    scheduler: the non-blocking send fills the one-slot channel. *)
Definition shadowResult (p : ptr) (r : Reloader) : Reloader :=
  match rl_heap r !! p with
  | None => r
  | Some s =>
      if bool_decide (sc_consecutiveOK s < sc_rise s) && bool_decide (sc_consecutiveFail s < sc_fall s)
      then r
      else setVerdicts r
             (if mem p (rl_verdicts r) then rl_verdicts r else rl_verdicts r ++ [p]) true
  end.

(** One result of the scheduler behind a pointer, with its callbacks. *)
Definition fire (now : Z) (p : ptr) (r : Reloader) (c : Call TCallback RCallback) : Reloader :=
  match c with
  | CallCheckResult PolicyResult vip check res =>
      setPol r (pol_OnCheckResult now vip check res (rl_pol r))
  | CallCheckResult WatchShadow _ _ _ => shadowResult p r
  | CallTransition PolicyTransition t => setPol r (pol_OnHealthTransition now t (rl_pol r))
  end.

Definition schedResult (now : Z) (p : ptr) (res : Result) (r : Reloader) : Reloader :=
  match rl_heap r !! p with
  | None => r
  | Some s =>
      let '(s', calls) := runCheck s res in
      foldl (fire now p) (setHeap r (<[p := s']> (rl_heap r)) (rl_nextPtr r)) calls
  end.

(** Removing a check that the new config no longer has. *)
Definition removeCheck (vip : string) (r : Reloader) (check : string) : Reloader :=
  match findVisible r vip check with
  | Some old =>
      closeSchedulers [old] (setReg r (Registry.Remove (vipOf (rl_heap r)) old (rl_reg r)))
  | None => r
  end.

(** [Promote] a shadow and close what it replaced. *)
Definition promoteOne (r : Reloader) (sh : ptr) : Reloader :=
  let '(reg, old) := Promote (vipOf (rl_heap r)) (checkOf (rl_heap r)) sh (rl_reg r) in
  let r := setReg r reg in
  match old with Some o => closeSchedulers [o] r | None => r end.

(** The seed of a shadow: its state now. *)
Definition seedOf (now : Z) (h : gmap ptr Sched) (sh : ptr) : CheckSeed :=
  match h !! sh with
  | Some s => mkCheckSeed (healthOf s) (sc_lastResult s) now
  | None => mkCheckSeed HealthUnhealthy zeroResult now
  end.

(** Attaching one shadow to the policy manager; [res] are the results it
    took since its seed was read, [seed] the seed, [ok] that the commit
    succeeded. *)
Definition attachOne (now : Z) (vip : string) (ok : bool) (between : ptr → list Result)
    (seeds : gmap string CheckSeed) (r : Reloader) (e : string * ptr) : Reloader :=
  let '(name, sh) := e in
  let r := foldl (λ r res, schedResult now sh res r) r (between sh) in
  let r := setCallbacks (Some PolicyTransition) (Some PolicyResult) sh r in
  match rl_heap r !! sh, seeds !! name with
  | Some s, Some seed =>
      if ok && negb (bool_decide (healthOf s = Seed_Health seed)) then
        setPol r
          (pol_OnHealthTransition now
             (mkHealthTransition vip name (bool_decide (healthOf s = HealthHealthy))
                "verdict changed while the reload committed" (sc_lastResult s)) (rl_pol r))
      else r
  | _, _ => r
  end.

(** [commitLocked]. *)
Definition commitLocked (now : Z) (between : ptr → list Result) (st : stagedVIP) (r : Reloader)
    : Reloader :=
  let vip := VIP_Name (st_cfg st) in
  let r := setStaging r (delete vip (rl_staging r)) in
  let r := foldl (removeCheck vip) r (st_removed st) in
  let r := foldl promoteOne r (map_to_list (st_shadows st)).*2 in
  let seeds := seedOf now (rl_heap r) <$> st_shadows st in
  let '(pol, err) := pol_CommitVIP now (st_cfg st) seeds (rl_pol r) in
  let r := setPol r pol in
  let r := foldl (attachOne now vip (negb (isErr err)) between seeds) r (map_to_list (st_shadows st)) in
  let r :=
    match err, rl_last r with
    | Some e, Some l =>
        setMetric
          (setLast r (Some (mkReloadStatus (RS_At l) ReloadFailed (RS_Error l) (RS_Errors l ++ [e])
                              (RS_Added l) (RS_Removed l) (RS_Changed l) (RS_Pending l))))
          (Set_ M_ConfigLastReloadSuccess [] 0 (rl_metrics r))
    | _, _ => r
    end in
  match rl_last r with
  | Some l =>
      setLast r (Some (mkReloadStatus (RS_At l) (RS_Outcome l) (RS_Error l) (RS_Errors l)
                         (RS_Added l) (RS_Removed l) (RS_Changed l)
                         (filter (λ n, n ≠ vip) (RS_Pending l))))
  | None => r
  end.

(** The gauge of VIPs waiting for a verdict. *)
Definition setPendingGauge (r : Reloader) : Reloader :=
  setMetric r (Set_ M_ConfigReloadPendingVIPs [] (Z.of_nat (size (rl_staging r))) (rl_metrics r)).

(** One scheduler of the loop of [commitReady], and whether a VIP was
    committed. *)
Definition readyOne (now : Z) (between : ptr → list Result) (acc : Reloader * bool) (s : ptr)
    : Reloader * bool :=
  let '(r, changed) := acc in
  match rl_staging r !! vipOf (rl_heap r) s with
  | None => (r, changed)
  | Some st =>
      let check := checkOf (rl_heap r) s in
      if decide (st_shadows st !! check = Some s) then
        let st := mkStagedVIP (st_cfg st) (st_old st) (st_shadows st) ({[check]} ∪ st_verdicts st)
                    (st_removed st) (st_deadline st) in
        let r := setStaging r (<[vipOf (rl_heap r) s := st]> (rl_staging r)) in
        if decide (size (st_verdicts st) < size (st_shadows st))%nat then (r, changed)
        else (commitLocked now between st r, true)
      else (r, changed)
  end.

(** [commitReady], which runs when [Run] receives from [wake]. *)
Definition commitReady (now : Z) (between : ptr → list Result) (r : Reloader) : Reloader :=
  let ready := rl_verdicts r in
  let '(r, changed) := foldl (readyOne now between) (setVerdicts r [] false, false) ready in
  let r := setPendingGauge r in
  if changed then onChange r else r.

(** [expireStaged]: the loop ranges over the staged VIPs there are at the
    start, and [commitLocked] deletes only the one at hand. *)
Definition expireOne (now : Z) (between : ptr → list Result) (acc : Reloader * bool) (st : stagedVIP)
    : Reloader * bool :=
  let '(r, changed) := acc in
  if decide (now < st_deadline st) then (r, changed)
  else (commitLocked now between st r, true).

Definition expireStaged (now : Z) (between : ptr → list Result) (r : Reloader) : Reloader :=
  let '(r, changed) := foldl (expireOne now between) (r, false) (map_to_list (rl_staging r)).*2 in
  if changed then onChange (setPendingGauge r) else r.

(** [dropStagingLocked]. *)
Definition dropShadow (r : Reloader) (s : ptr) : Reloader :=
  closeSchedulers [s] (setReg r (Registry.Remove (vipOf (rl_heap r)) s (rl_reg r))).
Definition dropStagingLocked (r : Reloader) : Reloader :=
  let shadows := (map_to_list (rl_staging r)).*2 ≫= (λ st, (map_to_list (st_shadows st)).*2) in
  let r := foldl dropShadow r shadows in
  setVerdicts (setStaging r ∅) [] (rl_wake r).

(** ** [Reload] *)

(** Everything that can fail is built first: the schedulers of the added
    VIPs, by VIP name, until one cannot be built. *)
Fixpoint buildAdded (l : list VIPConfig) (r : Reloader) (added : gmap string (list ptr))
    : Reloader * gmap string (list ptr) * goerror :=
  match l with
  | [] => (r, added, None)
  | v :: l' =>
      let '(r, res) := NewSchedulers v (CheckList v) r in
      match res with
      | Err e => (r, added, Some e)
      | Ok scheds => buildAdded l' r (<[VIP_Name v := scheds]> added)
      end
  end.

(** The staging of one changed VIP. *)
Definition stageFor (at_ : Z) (ch : VIPChange) (h : gmap ptr Sched) (scheds : list ptr) : stagedVIP :=
  {| st_cfg := VC_New ch;
     st_old := VC_Old ch;
     st_shadows := foldl (λ m s, <[checkOf h s := s]> m) ∅ scheds;
     st_verdicts := ∅;
     st_removed := EffectiveName <$> ChecksRemoved ch;
     st_deadline := stagingDeadline at_ (omap (λ s, h !! s) scheds) |}.

Fixpoint buildStaged (at_ : Z) (l : list VIPChange) (r : Reloader) (staged : gmap string stagedVIP)
    : Reloader * gmap string stagedVIP * goerror :=
  match l with
  | [] => (r, staged, None)
  | ch :: l' =>
      match ChecksChanged ch with
      | [] => buildStaged at_ l' r staged
      | checks =>
          let '(r, res) := NewSchedulers (VC_New ch) checks r in
          match res with
          | Err e => (r, staged, Some e)
          | Ok scheds =>
              buildStaged at_ l' r
                (<[VIP_Name (VC_New ch) := stageFor at_ ch (rl_heap r) scheds]> staged)
          end
      end
  end.

(** A result that rejects the reload. *)
Definition rejected (at_ : Z) (e : error) : ReloadStatus :=
  mkReloadStatus at_ ReloadRejected (Some e) [] [] [] [] [].

(** [reject]: what was built is closed. *)
Definition reject (at_ : Z) (e : error) (added : gmap string (list ptr))
    (staged : gmap string stagedVIP) (r : Reloader) : Reloader * ReloadStatus :=
  let r := closeSchedulers (concat (map_to_list added).*2) r in
  let r := closeSchedulers ((map_to_list staged).*2 ≫= (λ st, (map_to_list (st_shadows st)).*2)) r in
  (setFileChanged r true, rejected at_ e).

(** The loop over the removed VIPs: the VIPs whose route could not be
    withdrawn, the errors and the names removed. *)
Fixpoint removeVIPs (l : list VIPConfig) (r : Reloader) (failed : gmap string VIPConfig)
    (errs : list error) (removed : list string)
    : outcome (Reloader * gmap string VIPConfig * list error * list string) :=
  match l with
  | [] => Ret (r, failed, errs, removed)
  | v :: l' =>
      let running := visibleOf (rl_reg r) (VIP_Name v) in
      match Registry.RemoveVIP (vipOf (rl_heap r)) (VIP_Name v) (rl_reg r) with
      | Panic => Panic
      | Ret reg =>
          let r := setReg r reg in
          let '(pol, err) := pol_RemoveVIP (VIP_Name v) (rl_pol r) in
          let r := setPol r pol in
          match err with
          | Some e =>
              let r := setReg r (foldl (λ reg s, Registry.Add (vipOf (rl_heap r)) s reg) (rl_reg r) running) in
              removeVIPs l' r (<[VIP_Name v := v]> failed) (errs ++ [e]) removed
          | None => removeVIPs l' (closeSchedulers running r) failed errs (removed ++ [VIP_Name v])
          end
      end
  end.

(** One added VIP; its name is reported when it was added. *)
Definition addOne (now : Z) (failed : gmap string VIPConfig) (built : gmap string (list ptr))
    (acc : Reloader * list string) (v : VIPConfig) : Reloader * list string :=
  let '(r, names) := acc in
  let scheds := default [] (built !! VIP_Name v) in
  match failed !! VIP_Name v with
  | Some _ => (closeSchedulers scheds r, names)
  | None =>
      let r := setPol r (pol_AddVIP now v (rl_pol r)) in
      let r := foldl (λ r s,
                 let r := setCallbacks (Some PolicyTransition) (Some PolicyResult) s r in
                 setReg r (Registry.Add (vipOf (rl_heap r)) s (rl_reg r))) r scheds in
      (r, names ++ [VIP_Name v])
  end.

(** One changed VIP: staged, or committed at once when no check has to prove
    itself. *)
Definition changeOne (now : Z) (staged : gmap string stagedVIP)
    (acc : Reloader * list error * list string) (ch : VIPChange)
    : Reloader * list error * list string :=
  let '(r, errs, pending) := acc in
  let vip := VIP_Name (VC_New ch) in
  match staged !! vip with
  | None =>
      let r := foldl (removeCheck vip) r (EffectiveName <$> ChecksRemoved ch) in
      let '(pol, err) := pol_CommitVIP now (VC_New ch) ∅ (rl_pol r) in
      (setPol r pol, match err with Some e => errs ++ [e] | None => errs end, pending)
  | Some st =>
      let r := setStaging r (<[vip := st]> (rl_staging r)) in
      let r := foldl (λ r s,
                 let r := watchShadow s r in
                 setReg r (AddShadow s (rl_reg r))) r (map_to_list (st_shadows st)).*2 in
      (r, errs, pending ++ [vip])
  end.

(** The log level follows the file, unless it is locked. *)
Definition applyLogLevel (level : string) (r : Reloader) : Reloader * list error :=
  if negb (rl_lockLogLevel r)
     && negb (bool_decide (level = Logging_Level (Cfg_Logging (rl_cur r)))) then
    match SetLevel level (rl_logLevel r) with
    | (_, Some e) => (r, [Wrapf "logging.level: %w" [] e])
    | (lvl, None) =>
        (setLogLevels r lvl (if rl_hasBGP r then SetLogLevel level (rl_bgpLogLevel r) else rl_bgpLogLevel r), [])
    end
  else (r, []).

(** The VIPs whose removal failed keep their old definition in the config. *)
Definition keepOld (vips : list VIPConfig) (old : VIPConfig) : list VIPConfig :=
  match list_find (λ v, VIP_Name v = VIP_Name old) vips with
  | Some (idx, _) => <[idx := old]> vips
  | None => vips ++ [old]
  end.
Definition setVIPs (cfg : Config) (vips : list VIPConfig) : Config :=
  mkConfig (Cfg_Schema cfg) (Cfg_Router cfg) (Cfg_API cfg) (Cfg_Logging cfg) (Cfg_OTel cfg)
    (Cfg_Paths cfg) (Cfg_BGP cfg) (match vips with [] => Cfg_VIPs cfg | _ => Some vips end).

(** The second half of [reloadLocked]: the diff is applied. *)
Definition applyDiff (now : Z) (cfg : Config) (hash : Hash) (diff : VIPChanges)
    (added : gmap string (list ptr)) (staged : gmap string stagedVIP) (r : Reloader)
    : outcome (Reloader * ReloadStatus) :=
  let r := dropStagingLocked r in
  match removeVIPs (Removed diff) r ∅ [] [] with
  | Panic => Panic
  | Ret (r, failed, errs, removed) =>
      let '(r, names) := foldl (addOne now failed added) (r, []) (Added diff) in
      let '(r, errs, pending) := foldl (changeOne now staged) (r, errs, []) (Changed diff) in
      let '(r, logErrs) := applyLogLevel (Logging_Level (Cfg_Logging cfg)) r in
      let errs := errs ++ logErrs in
      let cfg := setVIPs cfg (foldl keepOld (elems (Cfg_VIPs cfg)) (map_to_list failed).*2) in
      let keep := bool_decide (failed = ∅) in
      let r := setCur r cfg (if keep then hash else zeroHash) (negb keep) now in
      Ret (r, mkReloadStatus now (match errs with [] => ReloadApplied | _ => ReloadFailed end) None
                errs names removed ((VIP_Name ∘ VC_New) <$> Changed diff) pending)
  end.

(** [reloadLocked], on what [config.LoadRaw] returned. *)
Definition reloadLocked (now : Z) (loaded : result error (Config * string)) (r : Reloader)
    : outcome (Reloader * ReloadStatus) :=
  match loaded with
  | Err e => Ret (r, rejected now e)
  | Ok (cfg, raw) =>
      let hash := Sum256 raw in
      if decide (hash = rl_curHash r) then
        Ret (setFileChanged r false,
             mkReloadStatus now ReloadUnchanged None [] [] [] [] (pendingLocked r))
      else
        match RestartRequired (rl_cur r) cfg with
        | [] =>
            let diff := DiffVIPs (effectiveVIPsLocked r) (elems (Cfg_VIPs cfg)) in
            let '(r, added, err) := buildAdded (Added diff) r ∅ in
            match err with
            | Some e => Ret (reject now e added ∅ r)
            | None =>
                let '(r, staged, err) := buildStaged now (Changed diff) r ∅ in
                match err with
                | Some e => Ret (reject now e added staged r)
                | None => applyDiff now cfg hash diff added staged r
                end
            end
        | fields =>
            Ret (setFileChanged r true,
                 rejected now (Errorf "restart required: %s changed" [Join fields ", "]))
        end
  end.

(** [recordLocked]. *)
Definition recordLocked (res : ReloadStatus) (r : Reloader) : Reloader :=
  let x := Inc M_ConfigReloadTotal [ReloadOutcome_string (RS_Outcome res)] (rl_metrics r) in
  let x := Set_ M_ConfigLastReloadTimestamp [] (Unix (RS_At res)) x in
  let x := Set_ M_ConfigLastReloadSuccess [] (if OK (Some res) then 1 else 0) x in
  let x := Set_ M_ConfigFileChanged [] (boolGauge (rl_fileChanged r)) x in
  let x := Set_ M_ConfigReloadPendingVIPs [] (Z.of_nat (size (rl_staging r))) x in
  setMetric (setLast r (Some res)) x.

(** [Reload]. *)
Definition Reload (now : Z) (loaded : result error (Config * string)) (r : Reloader)
    : outcome (Reloader * ReloadStatus) :=
  match reloadLocked now loaded r with
  | Panic => Panic
  | Ret (r, res) => Ret (onChange (recordLocked res r), res)
  end.

(** [pollFile]; [None] is a file that cannot be read. *)
Definition pollFile (raw : option string) (r : Reloader) : Reloader :=
  let changed := match raw with
                 | None => true
                 | Some raw => negb (bool_decide (Sum256 raw = rl_curHash r))
                 end in
  let flipped := negb (Bool.eqb changed (rl_fileChanged r)) in
  let r := setFileChanged r changed in
  let r := setMetric r (Set_ M_ConfigFileChanged [] (boolGauge changed) (rl_metrics r)) in
  if flipped then onChange r else r.

(** What [Run] selects: the context ended, a token of [wake], or the ticker,
    with what the calls find. *)
Inductive loopEvent :=
| LoopDone
| LoopWake (now : Z) (between : ptr → list Result)
| LoopTick (now : Z) (between : ptr → list Result) (raw : option string).

(** One turn; [None] when [Run] returns.  Without a token in [wake] that case
    is not ready. *)
Definition loopTurn (e : loopEvent) (r : Reloader) : option Reloader :=
  match e with
  | LoopDone => None
  | LoopWake now between => Some (if rl_wake r then commitReady now between r else r)
  | LoopTick now between raw => Some (pollFile raw (expireStaged now between r))
  end.

(** The loop over the events, with what the other goroutines do to the
    reloader before each of them; the boolean is whether it returned. *)
Fixpoint loopFrom (events : list ((Reloader → Reloader) * loopEvent)) (r : Reloader) : Reloader * bool :=
  match events with
  | [] => (r, false)
  | (others, e) :: events' =>
      let r := others r in
      match loopTurn e r with
      | None => (r, true)
      | Some r => loopFrom events' r
      end
  end.

(** [Reloader.Run]; a ticker needs a positive interval. *)
Definition Reloader_Run (pollInterval : Z) (events : list ((Reloader → Reloader) * loopEvent)) (r : Reloader)
    : outcome (Reloader * bool) :=
  if pollInterval <=? 0 then Panic else Ret (loopFrom events r).

End Reload.
End Reload.
