(* ===== verification/ReloadProofs.v ===== *)
(** * Lemmas on the steps of the reloader

    What each operation of Reload.v leaves alone: building schedulers and
    rejecting a reload touch nothing that runs ([untouched]), a commit takes
    exactly its own VIP out of the staging, and every step keeps the wake-up
    protocol between the shadow schedulers and the commit loop ([wake_ok]). *)

From S2P Require Import Prelude GoStrings NetIP Config Model Metrics ChecksPolicy Engine.
From S2P Require Import Scheduler Registry Diff PolicyManager PolicyProofs Logging Reload.

Module ReloadProofs.
Import Logging Reload.

Section Proofs.
Context {P : Type} `{Policy P} {Hash : Type} `{EqDecision Hash} (zeroHash : Hash) (Sum256 : string → Hash).
Context (newChecker : CheckConfig → result error string).
Local Notation Reloader := (Reload.Reloader (P := P) (Hash := Hash)).
Local Notation Reload := (Reload.Reload zeroHash Sum256 newChecker).

(** ** Building changes nothing that runs *)

(** [r'] is [r] with schedulers allocated at fresh pointers. *)
Definition allocated (r r' : Reloader) : Prop :=
  ∃ h n, r' = setHeap r h n ∧ (rl_nextPtr r ≤ n)%nat ∧
         ∀ p, (p < rl_nextPtr r)%nat → h !! p = rl_heap r !! p.

Lemma setHeap_same (r : Reloader) : setHeap r (rl_heap r) (rl_nextPtr r) = r.
Proof. by destruct r. Qed.

Lemma allocated_refl r : allocated r r.
Proof. exists (rl_heap r), (rl_nextPtr r). by rewrite setHeap_same. Qed.

Lemma allocated_trans r1 r2 r3 : allocated r1 r2 → allocated r2 r3 → allocated r1 r3.
Proof.
  intros (h1 & n1 & -> & Hn1 & Hh1) (h2 & n2 & -> & Hn2 & Hh2). cbn in *.
  exists h2, n2. split; [done|]. split; [lia|]. intros p Hp. rewrite Hh2, Hh1 by lia. done.
Qed.

(** The pointers a build returns are new. *)
Definition fresh_for (r r' : Reloader) (s : ptr) : Prop :=
  (rl_nextPtr r ≤ s < rl_nextPtr r')%nat.

Lemma newSchedulersLoop_spec v l h next out h' next' res n0 :
  newSchedulersLoop newChecker v l h next out = (h', next', res) →
  (n0 ≤ next)%nat →
  (∀ s, s ∈ out → (n0 ≤ s < next)%nat) →
  (next ≤ next')%nat ∧ (∀ p, (p < next)%nat → h' !! p = h !! p) ∧
  match res with Ok scheds => ∀ s, s ∈ scheds → (n0 ≤ s < next')%nat | Err _ => True end.
Proof.
  revert h next out. induction l as [|c l IH]; intros h next out; cbn.
  { intros [= <- <- <-] Hn Hout. split; [lia|]. done. }
  destruct (newChecker c) as [typ|e]; [|by intros [= <- <- <-]].
  intros Hl Hn Hout. destruct (IH _ _ _ Hl) as (H1 & H2 & H3); [lia| |].
  { intros s [Hs|Hs%list_elem_of_singleton]%elem_of_app; [apply Hout in Hs|subst]; lia. }
  split; [lia|]. split; [|done]. intros p Hp. rewrite H2 by lia. rewrite lookup_insert_ne; [done|lia].
Qed.

(** [NewSchedulers] allocates one scheduler per check, in order. *)
Lemma newSchedulersLoop_builds v l h next out h' next' scheds :
  newSchedulersLoop newChecker v l h next out = (h', next', Ok scheds) →
  scheds = out ++ seq next (length l) ∧ next' = (next + length l)%nat ∧
  (∀ p, (p < next)%nat → h' !! p = h !! p) ∧
  (∀ i c, l !! i = Some c → ∃ typ, newChecker c = Ok typ ∧ h' !! (next + i)%nat = Some (newSchedulerFor v c typ)).
Proof.
  revert h next out. induction l as [|c l IH]; intros h next out; cbn [newSchedulersLoop].
  { intros [= <- <- <-]. cbn. rewrite app_nil_r. split_and!; [done|lia|done|done]. }
  destruct (newChecker c) as [typ|e] eqn:Ec; [|done]. intros (-> & -> & Hlow & Hnew)%IH.
  cbn [length seq]. split_and!; [by rewrite <-app_assoc|lia| |].
  - intros p Hp. rewrite Hlow, lookup_insert_ne by lia. done.
  - intros [|i] c' Hc'; cbn in Hc'.
    + injection Hc' as <-. exists typ. split; [done|]. rewrite Nat.add_0_r, Hlow by lia. by rewrite lookup_insert_eq.
    + destruct (Hnew i c' Hc') as (typ' & Ht & Hl). exists typ'. split; [done|]. by rewrite <-Nat.add_succ_comm.
Qed.

Lemma NewSchedulers_spec v l r r' res :
  NewSchedulers newChecker v l r = (r', res) →
  allocated r r' ∧
  match res with Ok scheds => ∀ s, s ∈ scheds → fresh_for r r' s | Err _ => True end.
Proof.
  unfold NewSchedulers. destruct (newGuard v); [intros [= <- <-]; split; [apply allocated_refl|done]|].
  destruct (newSchedulersLoop _ _ _ _ _ _) as [[h n] res'] eqn:E. intros [= <- <-].
  destruct (newSchedulersLoop_spec _ _ _ _ _ _ _ _ (rl_nextPtr r) E) as (H1 & H2 & H3); [lia| |].
  { by intros s ?%not_elem_of_nil. }
  split; [by exists h, n|done].
Qed.

Lemma fresh_for_mono r r1 r2 s : allocated r1 r2 → fresh_for r r1 s → fresh_for r r2 s.
Proof. intros (h & n & -> & Hn & _) [? ?]. unfold fresh_for in *. cbn. lia. Qed.

Lemma fresh_for_le r r1 r2 s : allocated r r1 → fresh_for r1 r2 s → fresh_for r r2 s.
Proof. intros (h & n & -> & Hn & _) [? ?]. unfold fresh_for in *. cbn in *. lia. Qed.

Lemma buildAdded_spec l r added r' added' err r0 :
  buildAdded newChecker l r added = (r', added', err) →
  allocated r0 r → map_Forall (λ _ scheds, ∀ s, s ∈ scheds → fresh_for r0 r s) added →
  allocated r0 r' ∧ allocated r r' ∧ map_Forall (λ _ scheds, ∀ s, s ∈ scheds → fresh_for r0 r' s) added'.
Proof.
  revert r added. induction l as [|v l IH]; intros r added; cbn.
  { intros [= <- <- <-] H0 Ha. split; [done|]. split; [apply allocated_refl|done]. }
  destruct (NewSchedulers newChecker v (CheckList v) r) as [r1 [scheds|e]] eqn:E;
    destruct (NewSchedulers_spec _ _ _ _ _ E) as [Hal Hfr]; intros Hl H0 Ha.
  - destruct (IH _ _ Hl) as (I1 & I2 & I3).
    + by eapply allocated_trans.
    + apply map_Forall_insert_2.
      * intros s Hs. eapply fresh_for_le; [exact H0|]. by apply Hfr.
      * intros k l' Hk s Hs. eapply fresh_for_mono; [done|]. by apply (Ha k l' Hk).
    + split; [done|]. split; [by eapply allocated_trans|done].
  - injection Hl as <- <- <-. split; [by eapply allocated_trans|]. split; [done|].
    intros k l' Hk s Hs. eapply fresh_for_mono; [done|]. by apply (Ha k l' Hk).
Qed.

(** The shadows of a staging are among its schedulers. *)
Lemma shadows_elem (h : gmap ptr Sched) (scheds : list ptr) k s :
  foldl (λ m s, <[checkOf h s := s]> m) (∅ : gmap string ptr) scheds !! k = Some s → s ∈ scheds.
Proof.
  induction scheds as [|x scheds IH] using rev_ind; [done|]. rewrite foldl_app. cbn.
  intros [[_ <-]|[_ Hk]]%lookup_insert_Some; apply elem_of_app; [right; by left|left; by apply IH].
Qed.

Definition shadowsOf (st : stagedVIP) : list ptr := (map_to_list (st_shadows st)).*2.

Lemma shadowsOf_elem st s : s ∈ shadowsOf st ↔ ∃ k, st_shadows st !! k = Some s.
Proof.
  unfold shadowsOf. rewrite list_elem_of_fmap. split.
  - intros ([k s'] & -> & Hk%elem_of_map_to_list). eauto.
  - intros [k Hk]. exists (k, s). split; [done|]. by apply elem_of_map_to_list.
Qed.

Lemma buildStaged_spec at_ l r staged r' staged' err r0 :
  buildStaged newChecker at_ l r staged = (r', staged', err) →
  allocated r0 r → map_Forall (λ _ st, ∀ s, s ∈ shadowsOf st → fresh_for r0 r s) staged →
  allocated r0 r' ∧ allocated r r' ∧ map_Forall (λ _ st, ∀ s, s ∈ shadowsOf st → fresh_for r0 r' s) staged'.
Proof.
  revert r staged. induction l as [|ch l IH]; intros r staged; cbn.
  { intros [= <- <- <-] H0 Ha. split; [done|]. split; [apply allocated_refl|done]. }
  destruct (ChecksChanged ch) as [|c cl]; [by apply IH|].
  destruct (NewSchedulers newChecker (VC_New ch) (c :: cl) r) as [r1 [scheds|e]] eqn:E;
    destruct (NewSchedulers_spec _ _ _ _ _ E) as [Hal Hfr]; intros Hl H0 Ha.
  - destruct (IH _ _ Hl) as (I1 & I2 & I3).
    + by eapply allocated_trans.
    + apply map_Forall_insert_2.
      * intros s [k Hk%shadows_elem]%shadowsOf_elem. eapply fresh_for_le; [exact H0|]. by apply Hfr.
      * intros k st Hk s Hs. eapply fresh_for_mono; [done|]. by apply (Ha k st Hk).
    + split; [done|]. split; [by eapply allocated_trans|done].
  - injection Hl as <- <- <-. split; [by eapply allocated_trans|]. split; [done|].
    intros k st Hk s Hs. eapply fresh_for_mono; [done|]. by apply (Ha k st Hk).
Qed.

(** ** Rejected reloads *)

(** Everything that runs is as it was: the config, the staging, the registry,
    the policy manager and every scheduler there was; a checker that was
    closed belongs to a scheduler that never ran. *)
Record untouched (r r' : Reloader) : Prop := mkUntouched {
  un_cur : rl_cur r' = rl_cur r;
  un_hash : rl_curHash r' = rl_curHash r;
  un_loaded : rl_loadedAt r' = rl_loadedAt r;
  un_generation : rl_generation r' = rl_generation r;
  un_staging : rl_staging r' = rl_staging r;
  un_reg : rl_reg r' = rl_reg r;
  un_pol : rl_pol r' = rl_pol r;
  un_verdicts : rl_verdicts r' = rl_verdicts r ∧ rl_wake r' = rl_wake r;
  un_levels : rl_logLevel r' = rl_logLevel r ∧ rl_bgpLogLevel r' = rl_bgpLogLevel r;
  un_next : (rl_nextPtr r ≤ rl_nextPtr r')%nat;
  un_heap : ∀ p, (p < rl_nextPtr r)%nat → rl_heap r' !! p = rl_heap r !! p;
  un_closed : ∀ p, p ∈ rl_closed r' → p ∈ rl_closed r ∨ fresh_for r r' p }.

Lemma untouched_refl r : untouched r r.
Proof. constructor; try done. auto. Qed.

Lemma untouched_fileChanged r b : untouched r (setFileChanged r b).
Proof. constructor; try done. auto. Qed.

Lemma untouched_record r r' res : untouched r r' → untouched r (onChange (recordLocked res r')).
Proof. by intros []. Qed.

Lemma reject_untouched at_ e added staged r0 r :
  allocated r0 r →
  map_Forall (λ _ scheds, ∀ s, s ∈ scheds → fresh_for r0 r s) added →
  map_Forall (λ _ st, ∀ s, s ∈ shadowsOf st → fresh_for r0 r s) staged →
  untouched r0 (reject at_ e added staged r).1.
Proof.
  intros (h & n & -> & Hn & Hh) Ha Hs. constructor; try done. cbn. intros p.
  rewrite !elem_of_union, !elem_of_list_to_set. intros [Hp|[Hp|?]]; [right|right|by left].
  - rewrite list_elem_of_bind in Hp. destruct Hp as (st & Hp & Hst).
    apply list_elem_of_fmap in Hst as ([k st'] & -> & Hk%elem_of_map_to_list).
    apply (Hs k st' Hk p Hp).
  - apply list_elem_of_In, in_concat in Hp as (l & Hl%list_elem_of_In & Hp%list_elem_of_In).
    apply list_elem_of_fmap in Hl as ([k l'] & -> & Hk%elem_of_map_to_list).
    apply (Ha k l' Hk p Hp).
Qed.

Lemma reject_outcome at_ e added staged (r : Reloader) :
  RS_Outcome (reject at_ e added staged r).2 = ReloadRejected.
Proof. done. Qed.

(** The outcome [applyDiff] reports. *)
Lemma applyDiff_outcome now cfg hash diff added staged r r' res :
  applyDiff zeroHash now cfg hash diff added staged r = Ret (r', res) →
  RS_Outcome res = ReloadApplied ∨ RS_Outcome res = ReloadFailed.
Proof.
  unfold applyDiff. destruct (removeVIPs _ _ _ _ _) as [[[[r1 failed] errs] removed]|]; [|done].
  destruct (foldl _ _ _) as [r2 names]. destruct (foldl _ _ _) as [[r3 errs'] pending].
  destruct (applyLogLevel _ _) as [r4 logErrs]. intros [= <- <-]. cbn.
  destruct (errs' ++ logErrs); auto.
Qed.

Lemma reloadLocked_rejected now loaded r r' res :
  reloadLocked zeroHash Sum256 newChecker now loaded r = Ret (r', res) →
  RS_Outcome res = ReloadRejected ∨ RS_Outcome res = ReloadUnchanged → untouched r r'.
Proof.
  unfold reloadLocked. destruct loaded as [[cfg raw]|e].
  2:{ intros [= <- <-] _. apply untouched_refl. }
  case_decide; [intros [= <- <-] _; apply untouched_fileChanged|].
  destruct (RestartRequired _ _); [|intros [= <- <-] _; apply untouched_fileChanged].
  destruct (buildAdded _ _ _ _) as [[r1 added] err1] eqn:E1.
  destruct (buildAdded_spec _ _ _ _ _ _ r E1) as (A1 & A2 & A3);
    [apply allocated_refl|apply map_Forall_empty|].
  destruct err1 as [e1|].
  { intros [= <- <-] _. apply (reject_untouched now e1 added ∅ r r1); [done|done|apply map_Forall_empty]. }
  destruct (buildStaged _ _ _ _ _) as [[r2 staged] err2] eqn:E2.
  destruct (buildStaged_spec _ _ _ _ _ _ _ r E2) as (B1 & B2 & B3); [done|apply map_Forall_empty|].
  destruct err2 as [e2|].
  { intros [= <- <-] _. apply (reject_untouched now e2 added staged r r2); [done| |done].
    intros k l Hk s Hs. eapply fresh_for_mono; [done|]. by apply (A3 k l Hk). }
  intros Ha Ho. apply applyDiff_outcome in Ha. destruct Ha as [Ha|Ha], Ho; congruence.
Qed.

(** ** What each step leaves alone *)

Lemma removeCheck_staging vip (r : Reloader) c : rl_staging (removeCheck vip r c) = rl_staging r.
Proof. unfold removeCheck. by destruct (findVisible r vip c). Qed.
Lemma promoteOne_staging (r : Reloader) sh : rl_staging (promoteOne r sh) = rl_staging r.
Proof. unfold promoteOne. by destruct (Promote _ _ _ _) as [reg [o|]]. Qed.
Lemma shadowResult_staging p (r : Reloader) : rl_staging (shadowResult p r) = rl_staging r.
Proof. unfold shadowResult. destruct (rl_heap r !! p); [|done]. by case_match. Qed.
Lemma fire_staging now p (r : Reloader) c : rl_staging (fire now p r c) = rl_staging r.
Proof. destruct c as [[] ? ? ?|[] ?]; cbn; try done. apply shadowResult_staging. Qed.
Lemma schedResult_staging now p res (r : Reloader) : rl_staging (schedResult now p res r) = rl_staging r.
Proof.
  unfold schedResult. destruct (rl_heap r !! p) as [s|]; [|done]. destruct (runCheck s res) as [s' calls].
  rewrite (foldl_keeps rl_staging); [done|]. intros. apply fire_staging.
Qed.
Lemma attachOne_staging now vip ok between seeds (r : Reloader) e :
  rl_staging (attachOne now vip ok between seeds r e) = rl_staging r.
Proof.
  destruct e as [name sh]. unfold attachOne. cbv zeta. set (r1 := foldl _ r _).
  assert (rl_staging r1 = rl_staging r) as Hr.
  { apply (foldl_keeps rl_staging). intros. apply schedResult_staging. }
  destruct (rl_heap _ !! sh); [|done]. destruct (seeds !! name); [|done]. by case_match.
Qed.

(** A commit takes exactly its own VIP out of the staging. *)
Lemma commitLocked_staging now between st (r : Reloader) :
  rl_staging (commitLocked now between st r) = delete (VIP_Name (st_cfg st)) (rl_staging r).
Proof.
  unfold commitLocked. cbv zeta. set (r1 := foldl promoteOne _ _).
  assert (rl_staging r1 = delete (VIP_Name (st_cfg st)) (rl_staging r)) as H1.
  { unfold r1. rewrite (foldl_keeps rl_staging) by (intros; apply promoteOne_staging).
    by rewrite (foldl_keeps rl_staging) by (intros; apply removeCheck_staging). }
  destruct (pol_CommitVIP _ _ _ _) as [pol err]. set (r2 := foldl _ (setPol r1 pol) _).
  assert (rl_staging r2 = delete (VIP_Name (st_cfg st)) (rl_staging r)) as H2.
  { unfold r2. by rewrite (foldl_keeps rl_staging) by (intros; apply attachOne_staging). }
  destruct err as [e|], (rl_last r2) as [l|] eqn:El; cbn; rewrite ?El; cbn; done.
Qed.

(** ** Staged VIPs expire *)

(** The staging is keyed by VIP name. *)
Definition staging_keyed (s : gmap string stagedVIP) : Prop :=
  map_Forall (λ k st, VIP_Name (st_cfg st) = k) s.

Lemma expire_fold now between l (r : Reloader) b :
  let r' := (foldl (expireOne now between) (r, b) l).1 in
  rl_staging r' =
    foldl (λ s st, if decide (now < st_deadline st) then s else delete (VIP_Name (st_cfg st)) s)
      (rl_staging r) l.
Proof.
  revert r b. induction l as [|st l IH]; intros r b; [done|]. cbn [foldl].
  replace (expireOne now between (r, b) st)
    with (if decide (now < st_deadline st) then (r, b) else (commitLocked now between st r, true)) by done.
  case_decide; rewrite IH; [done|]. by rewrite commitLocked_staging.
Qed.

Lemma delete_fold_lookup (keep : stagedVIP → Prop) `{∀ st, Decision (keep st)} l (s : gmap string stagedVIP) k st :
  foldl (λ s st, if decide (keep st) then s else delete (VIP_Name (st_cfg st)) s) s l !! k = Some st →
  s !! k = Some st ∧ ∀ st', st' ∈ l → ¬ keep st' → VIP_Name (st_cfg st') ≠ k.
Proof.
  revert s. induction l as [|x l IH]; intros s; cbn.
  { intros Hk. split; [done|]. by intros st' ?%not_elem_of_nil. }
  intros [Hs Hl]%IH. case_decide as Hx.
  - split; [done|]. intros st' [->|Hin]%elem_of_cons Hn; [done|by apply Hl].
  - apply lookup_delete_Some in Hs as [Hne Hs]. split; [done|].
    intros st' [->|Hin]%elem_of_cons Hn; [done|by apply Hl].
Qed.

Lemma delete_fold_keeps (keep : stagedVIP → Prop) `{∀ st, Decision (keep st)} l (s : gmap string stagedVIP) k st :
  s !! k = Some st → (∀ st', st' ∈ l → ¬ keep st' → VIP_Name (st_cfg st') ≠ k) →
  foldl (λ s st, if decide (keep st) then s else delete (VIP_Name (st_cfg st)) s) s l !! k = Some st.
Proof.
  revert s. induction l as [|x l IH]; intros s Hk Hl; [done|]. cbn. apply IH.
  - case_decide as Hx; [done|]. rewrite lookup_delete_ne; [done|]. apply Hl; [by left|done].
  - intros st' ?. apply Hl. by right.
Qed.

(** ** No verdict is lost *)

(** Whenever a shadow waits in the list, the commit loop has a token. *)
Definition wake_ok (r : Reloader) : Prop := rl_verdicts r ≠ [] → rl_wake r = true.

Lemma shadowResult_wake p r : wake_ok r → wake_ok (shadowResult p r).
Proof.
  intros Hw. unfold shadowResult. destruct (rl_heap r !! p); [|done]. case_match; [done|]. by intros _.
Qed.
Lemma fire_wake now p r c : wake_ok r → wake_ok (fire now p r c).
Proof. intros Hw. destruct c as [[] ? ? ?|[] ?]; cbn; try done. by apply shadowResult_wake. Qed.
Lemma schedResult_wake now p res r : wake_ok r → wake_ok (schedResult now p res r).
Proof.
  intros Hw. unfold schedResult. destruct (rl_heap r !! p) as [s|]; [|done].
  destruct (runCheck s res) as [s' calls]. apply foldl_ind; [|done]. intros. by apply fire_wake.
Qed.
Lemma removeCheck_wake vip r c : wake_ok r → wake_ok (removeCheck vip r c).
Proof. unfold removeCheck. by destruct (findVisible r vip c). Qed.
Lemma promoteOne_wake r sh : wake_ok r → wake_ok (promoteOne r sh).
Proof. unfold promoteOne. by destruct (Promote _ _ _ _) as [reg [o|]]. Qed.
Lemma attachOne_wake now vip ok between seeds r e :
  wake_ok r → wake_ok (attachOne now vip ok between seeds r e).
Proof.
  intros Hw. destruct e as [name sh]. unfold attachOne. cbv zeta. set (r1 := foldl _ r _).
  assert (wake_ok r1) as H1 by (apply foldl_ind; [intros; by apply schedResult_wake|done]).
  destruct (rl_heap _ !! sh); [|done]. destruct (seeds !! name); [|done]. by case_match.
Qed.
Lemma commitLocked_wake now between st r : wake_ok r → wake_ok (commitLocked now between st r).
Proof.
  intros Hw. unfold commitLocked. cbv zeta. set (r1 := foldl promoteOne _ _).
  assert (wake_ok r1) as H1.
  { apply foldl_ind; [intros; by apply promoteOne_wake|].
    apply foldl_ind; [intros; by apply removeCheck_wake|done]. }
  destruct (pol_CommitVIP _ _ _ _) as [pol err]. set (r2 := foldl _ (setPol r1 pol) _).
  assert (wake_ok r2) as H2 by (apply foldl_ind; [intros; by apply attachOne_wake|done]).
  destruct err as [e|], (rl_last r2) as [l|] eqn:El; cbn; rewrite ?El; done.
Qed.
Lemma commitReady_wake now between r : wake_ok r → wake_ok (commitReady now between r).
Proof.
  intros _. unfold commitReady. cbv zeta.
  destruct (foldl _ _ _) as [r' changed] eqn:E. enough (wake_ok r') by (by case_match).
  change r' with (r', changed).1. rewrite <-E.
  apply (foldl_ind (λ acc, wake_ok acc.1)); [|by intros []]. intros [r1 c] s H1. cbn in H1. unfold readyOne.
  destruct (rl_staging r1 !! _); [|done]. cbv zeta. case_decide; [|done]. case_decide; [done|].
  by apply commitLocked_wake.
Qed.
Lemma expireStaged_wake now between r : wake_ok r → wake_ok (expireStaged now between r).
Proof.
  intros Hw. unfold expireStaged. destruct (foldl _ _ _) as [r' changed] eqn:E.
  enough (wake_ok r') by (by case_match). change r' with (r', changed).1. rewrite <-E.
  apply (foldl_ind (λ acc, wake_ok acc.1)); [|done]. intros [r1 c] st H1. unfold expireOne.
  case_decide; [done|]. by apply commitLocked_wake.
Qed.
Lemma pollFile_wake raw r : wake_ok r → wake_ok (pollFile Sum256 raw r).
Proof. intros Hw. unfold pollFile. cbv zeta. by case_match. Qed.

Lemma removeVIPs_wake l r failed errs removed r' failed' errs' removed' :
  removeVIPs l r failed errs removed = Ret (r', failed', errs', removed') → wake_ok r → wake_ok r'.
Proof.
  revert r failed errs removed. induction l as [|v l IH]; intros r failed errs removed; cbn.
  { by intros [= <- <- <- <-]. }
  destruct (Registry.RemoveVIP _ _ _) as [reg|]; [|done].
  destruct (pol_RemoveVIP _ _) as [pol [e|]]; intros Hr Hw; by apply (IH _ _ _ _ Hr).
Qed.

Lemma applyDiff_wake now cfg hash diff added staged r r' res :
  applyDiff zeroHash now cfg hash diff added staged r = Ret (r', res) → wake_ok r'.
Proof.
  unfold applyDiff. destruct (removeVIPs _ _ _ _ _) as [[[[r1 failed] errs] removed]|] eqn:E1; [|done].
  assert (wake_ok r1) as H1 by (eapply removeVIPs_wake; [exact E1|by intros []]).
  destruct (foldl (addOne _ _ _) _ _) as [r2 names] eqn:E2.
  assert (wake_ok r2) as H2.
  { change r2 with (r2, names).1. rewrite <-E2. apply (foldl_ind (λ acc, wake_ok acc.1)); [|done].
    intros [ra na] v Ha. unfold addOne. destruct (failed !! _); [done|]. cbn.
    by apply foldl_ind. }
  destruct (foldl (changeOne _ _) _ _) as [[r3 errs3] pending] eqn:E3.
  assert (wake_ok r3) as H3.
  { change r3 with (r3, errs3, pending).1.1. rewrite <-E3.
    apply (foldl_ind (λ acc, wake_ok acc.1.1)); [|done]. intros [[ra ea] pa] ch Ha. unfold changeOne.
    destruct (staged !! _); [cbn; by apply foldl_ind|]. cbn.
    destruct (pol_CommitVIP _ _ _ _) as [pol err]. cbn.
    assert (wake_ok (foldl (removeCheck (VIP_Name (VC_New ch))) ra (EffectiveName <$> ChecksRemoved ch)))
      by (apply foldl_ind; [intros; by apply removeCheck_wake|done]). done. }
  unfold applyLogLevel. destruct (_ && _); [destruct (SetLevel _ _) as [? []]|]; by intros [= <- <-].
Qed.

Lemma allocated_wake r r' : allocated r r' → wake_ok r → wake_ok r'.
Proof. by intros (h & n & -> & _). Qed.

Lemma Reload_wake now loaded r r' res : Reload now loaded r = Ret (r', res) → wake_ok r → wake_ok r'.
Proof.
  unfold Reload.Reload. destruct (reloadLocked _ _ _ _ _ _) as [[r1 res1]|] eqn:E; [|done].
  intros [= <- <-] Hw. enough (wake_ok r1) by done.
  destruct (decide (RS_Outcome res1 = ReloadRejected ∨ RS_Outcome res1 = ReloadUnchanged)) as [Ho|Ho].
  { destruct (reloadLocked_rejected _ _ _ _ _ E Ho) as [_ _ _ _ _ _ _ [Hv Hk] _ _ _ _].
    unfold wake_ok. by rewrite Hv, Hk. }
  revert E. unfold reloadLocked. destruct loaded as [[cfg raw]|e]; [|intros [= <- <-]; cbn in Ho; tauto].
  case_decide; [intros [= <- <-]; cbn in Ho; tauto|].
  destruct (RestartRequired _ _); [|intros [= <- <-]; cbn in Ho; tauto].
  destruct (buildAdded _ _ _ _) as [[ra added] [e1|]]; [intros [= <- <-]; cbn in Ho; tauto|].
  destruct (buildStaged _ _ _ _ _) as [[rb staged] [e2|]]; [intros [= <- <-]; cbn in Ho; tauto|].
  apply applyDiff_wake.
Qed.

End Proofs.

#[export] Hint Resolve schedResult_wake commitReady_wake expireStaged_wake pollFile_wake Reload_wake
  : pathosd.
End ReloadProofs.
