(* ===== verification/ReloadStaging.v ===== *)
(** * Staged VIPs: shadows are isolated and their verdicts are never lost

    The reloader as a state machine ([rl_step]): a scheduler takes a result,
    the commit loop wakes up, the ticker expires stagings and polls the file,
    somebody asks for a reload.  Over every run: a shadow of a staged VIP
    reports to the reloader and never to the policy manager, a verdict always
    leaves a token for the commit loop, the commit loop commits a VIP once all
    its shadows have a verdict, and no VIP stays staged past its deadline. *)

From S2P Require Import Prelude GoStrings NetIP Config Model Metrics ChecksPolicy Engine.
From S2P Require Import Scheduler Registry Diff PolicyManager PolicyProofs Logging Reload ReloadProofs.

Module ReloadStaging.
Import Logging Reload ReloadProofs.

Section Staging.
Context {P : Type} `{Policy P} {Hash : Type} `{EqDecision Hash} (zeroHash : Hash) (Sum256 : string → Hash).
Context (newChecker : CheckConfig → result error string).
Local Notation Reloader := (Reload.Reloader (P := P) (Hash := Hash)).
Local Notation Reload := (Reload.Reload zeroHash Sum256 newChecker).

(** ** The state machine *)
Inductive rl_step : Reloader → Reloader → Prop :=
| step_result now p res r : rl_step r (schedResult now p res r)
| step_wake now between r : rl_wake r = true → rl_step r (commitReady now between r)
| step_expire now between r : rl_step r (expireStaged now between r)
| step_poll raw r : rl_step r (pollFile Sum256 raw r)
| step_lock r : rl_step r (LockLogLevel r)
| step_reload now loaded r r' res : Reload now loaded r = Ret (r', res) → rl_step r r'.

(** *** The loop of the reloader takes these steps *)

Lemma loopTurn_steps e r r' : loopTurn Sum256 e r = Some r' → rtc rl_step r r'.
Proof.
  destruct e as [|now between|now between raw]; [done| |]; intros [= <-].
  - destruct (rl_wake r) eqn:E; [|done]. by apply rtc_once, step_wake.
  - eapply rtc_l; [by apply step_expire|]. apply rtc_once, step_poll.
Qed.

(** [Run] returns exactly when the context ends, having taken steps of the
    state machine only if the other goroutines do. *)
Lemma loopFrom_steps events r :
  Forall (λ x, ∀ r, rtc rl_step r (x.1 r)) events →
  rtc rl_step r (loopFrom Sum256 events r).1 ∧ ((loopFrom Sum256 events r).2 = true ↔ LoopDone ∈ events.*2).
Proof.
  intros Hev. revert r. induction Hev as [|[others e] events Ho Hev IH]; intros r; cbn [loopFrom].
  { split; [done|]. rewrite elem_of_nil. done. }
  rewrite fmap_cons, elem_of_cons. cbn [snd fst] in *. destruct (loopTurn Sum256 e (others r)) as [r'|] eqn:E.
  - destruct (IH r') as [Hs Hd]. split; [by etrans; [apply Ho|]; etrans; [by eapply loopTurn_steps|]|].
    rewrite Hd. split; [by right|]. by intros [<-|?].
  - destruct e; try done. split; [apply Ho|]. by split; [left|].
Qed.

(** ** Names never change *)

(** The scheduler at [s] belongs to the given check of the given VIP. *)
Definition named (h : gmap ptr Sched) (vip check : string) (s : ptr) : Prop :=
  ∃ x, h !! s = Some x ∧ sc_vipName x = vip ∧ sc_checkName x = check.

(** A shadow: its results go to the reloader only. *)
Definition shadow_ok (h : gmap ptr Sched) (vip check : string) (s : ptr) : Prop :=
  ∃ x, h !! s = Some x ∧ sc_vipName x = vip ∧ sc_checkName x = check ∧
       sc_onTransition x = None ∧ sc_onCheckResult x = Some WatchShadow.

Lemma shadow_named h vip check s : shadow_ok h vip check s → named h vip check s.
Proof. intros (x & ? & ? & ? & _). by exists x. Qed.

Lemma named_vipOf h vip check s : named h vip check s → vipOf h s = vip ∧ checkOf h s = check.
Proof. intros (x & Hx & <- & <-). unfold vipOf, checkOf. by rewrite Hx. Qed.

Lemma applyResult_keeps (s : Sched) res :
  let s' := (applyResult s res).1 in
  sc_vipName s' = sc_vipName s ∧ sc_checkName s' = sc_checkName s ∧
  sc_onTransition s' = sc_onTransition s ∧ sc_onCheckResult s' = sc_onCheckResult s ∧
  sc_rise s' = sc_rise s ∧ sc_fall s' = sc_fall s.
Proof. unfold applyResult. cbv zeta. repeat case_match; simplify_eq; done. Qed.

Lemma fire_heap now p (r : Reloader) c :
  rl_heap (fire now p r c) = rl_heap r ∧ rl_nextPtr (fire now p r c) = rl_nextPtr r.
Proof.
  destruct c as [[] ? ? ?|[] ?]; cbn; try done. unfold shadowResult.
  destruct (rl_heap r !! p); [|done]. by case_match.
Qed.

Lemma schedResult_heap now p res (r : Reloader) :
  rl_heap (schedResult now p res r) = alter (λ s, (applyResult s res).1) p (rl_heap r).
Proof.
  unfold schedResult. destruct (rl_heap r !! p) as [s|] eqn:E.
  2:{ apply map_eq. intros q. destruct (decide (q = p)) as [->|].
      - by rewrite lookup_alter_eq, E. - by rewrite lookup_alter_ne. }
  destruct (runCheck s res) as [s' calls] eqn:Er.
  rewrite (foldl_keeps rl_heap) by (intros; apply fire_heap). cbn.
  apply map_eq. intros q. destruct (decide (q = p)) as [->|].
  - rewrite lookup_insert_eq, lookup_alter_eq, E. cbn. by rewrite <-runCheck_fst, Er.
  - by rewrite lookup_insert_ne, lookup_alter_ne.
Qed.

Lemma schedResult_next now p res (r : Reloader) : rl_nextPtr (schedResult now p res r) = rl_nextPtr r.
Proof.
  unfold schedResult. destruct (rl_heap r !! p) as [s|]; [|done]. destruct (runCheck s res) as [s' calls].
  by rewrite (foldl_keeps rl_nextPtr) by (intros; apply fire_heap).
Qed.

(** Altering a scheduler with something that keeps names and callbacks. *)
Lemma named_alter f p h vip check s :
  (∀ x : Sched, sc_vipName (f x) = sc_vipName x ∧ sc_checkName (f x) = sc_checkName x) →
  named h vip check s → named (alter f p h) vip check s.
Proof.
  intros Hf (x & Hx & <- & <-). destruct (decide (s = p)) as [->|].
  - exists (f x). rewrite lookup_alter_eq, Hx. split; [done|]. apply Hf.
  - exists x. by rewrite lookup_alter_ne by done.
Qed.
Lemma shadow_alter_ne f p h vip check s : s ≠ p → shadow_ok h vip check s → shadow_ok (alter f p h) vip check s.
Proof. intros Hne (x & Hx & ?). exists x. by rewrite lookup_alter_ne by done. Qed.

Lemma named_schedResult now p res (r : Reloader) vip check s :
  named (rl_heap r) vip check s → named (rl_heap (schedResult now p res r)) vip check s.
Proof.
  rewrite schedResult_heap. apply named_alter. intros x. destruct (applyResult_keeps x res) as (? & ? & _). done.
Qed.
Lemma shadow_schedResult now p res (r : Reloader) vip check s :
  shadow_ok (rl_heap r) vip check s → shadow_ok (rl_heap (schedResult now p res r)) vip check s.
Proof.
  rewrite schedResult_heap. intros (x & Hx & <- & <- & Ht & Hc).
  destruct (decide (s = p)) as [->|Hne]; [|by apply shadow_alter_ne; [done|exists x]].
  exists (applyResult x res).1. rewrite lookup_alter_eq, Hx.
  destruct (applyResult_keeps x res) as (? & ? & -> & -> & _). done.
Qed.
Lemma named_callbacks t c p (r : Reloader) vip check s :
  named (rl_heap r) vip check s → named (rl_heap (setCallbacks t c p r)) vip check s.
Proof. by apply named_alter. Qed.

(** ** Folds over a heap property *)

Lemma attachOne_heap (Q : gmap ptr Sched → Prop) now vip ok between seeds (r : Reloader) e :
  (∀ res (r : Reloader), Q (rl_heap r) → Q (rl_heap (schedResult now e.2 res r))) →
  (∀ r : Reloader, Q (rl_heap r) →
     Q (rl_heap (setCallbacks (Some PolicyTransition) (Some PolicyResult) e.2 r))) →
  Q (rl_heap r) → Q (rl_heap (attachOne now vip ok between seeds r e)).
Proof.
  destruct e as [name sh]. intros H1 H2 Hr. unfold attachOne. cbv zeta. set (r1 := foldl _ r _).
  assert (Q (rl_heap r1)) as Hr1.
  { apply (foldl_ind (λ r, Q (rl_heap r))); [|done]. intros ra res. apply H1. }
  apply H2 in Hr1. destruct (rl_heap _ !! sh); [|done]. destruct (seeds !! name); [|done]. by case_match.
Qed.

Lemma removeCheck_heap vip (r : Reloader) c :
  rl_heap (removeCheck vip r c) = rl_heap r ∧ rl_nextPtr (removeCheck vip r c) = rl_nextPtr r.
Proof. unfold removeCheck. by destruct (findVisible r vip c). Qed.
Lemma promoteOne_heap (r : Reloader) sh :
  rl_heap (promoteOne r sh) = rl_heap r ∧ rl_nextPtr (promoteOne r sh) = rl_nextPtr r.
Proof. unfold promoteOne. by destruct (Promote _ _ _ _) as [reg [o|]]. Qed.

(** What a commit does to the heap it does by attaching the shadows. *)
Lemma commitLocked_heap (Q : gmap ptr Sched → Prop) now between st (r : Reloader) :
  (∀ s res (r : Reloader), s ∈ shadowsOf st → Q (rl_heap r) → Q (rl_heap (schedResult now s res r))) →
  (∀ s (r : Reloader), s ∈ shadowsOf st → Q (rl_heap r) →
     Q (rl_heap (setCallbacks (Some PolicyTransition) (Some PolicyResult) s r))) →
  Q (rl_heap r) → Q (rl_heap (commitLocked now between st r)).
Proof.
  intros H1 H2 Hr. unfold commitLocked. cbv zeta. set (r1 := foldl promoteOne _ _).
  assert (rl_heap r1 = rl_heap r) as Hr1.
  { unfold r1. rewrite (foldl_keeps rl_heap) by (intros; apply promoteOne_heap).
    by rewrite (foldl_keeps rl_heap) by (intros; apply removeCheck_heap). }
  destruct (pol_CommitVIP _ _ _ _) as [pol err]. set (r2 := foldl _ (setPol r1 pol) _).
  assert (Q (rl_heap r2)) as Hr2.
  { unfold r2. assert (Q (rl_heap (setPol r1 pol))) as Hq by (cbn; by rewrite Hr1).
    assert (∀ e, e ∈ map_to_list (st_shadows st) → e.2 ∈ shadowsOf st) as He
      by (intros e He; by apply list_elem_of_fmap_2).
    revert Hq He. generalize (setPol r1 pol). generalize (map_to_list (st_shadows st)).
    intros l. induction l as [|e l IH]; intros r0 Hq He; [done|]. cbn [foldl]. apply IH.
    - apply attachOne_heap; [| |done]; intros; [apply H1|apply H2]; try done; apply He; by left.
    - intros e' ?. apply He. by right. }
  destruct err as [e|], (rl_last r2) as [l|] eqn:El; cbn; rewrite ?El; done.
Qed.

Lemma commitLocked_named now between st (r : Reloader) vip check s :
  named (rl_heap r) vip check s → named (rl_heap (commitLocked now between st r)) vip check s.
Proof.
  apply (commitLocked_heap (λ h, named h vip check s)); intros; [by apply named_schedResult|by apply named_callbacks].
Qed.

Lemma commitLocked_shadow now between st (r : Reloader) vip check s :
  s ∉ shadowsOf st →
  shadow_ok (rl_heap r) vip check s → shadow_ok (rl_heap (commitLocked now between st r)) vip check s.
Proof.
  intros Hs. apply (commitLocked_heap (λ h, shadow_ok h vip check s)); intros;
    [by apply shadow_schedResult|apply shadow_alter_ne; [set_solver|done]].
Qed.

(** ** The invariant *)
Definition staged_ok (r : Reloader) : Prop :=
  ∀ vip st, rl_staging r !! vip = Some st →
    VIP_Name (st_cfg st) = vip ∧
    ∀ check s, st_shadows st !! check = Some s →
      shadow_ok (rl_heap r) vip check s ∧ (s < rl_nextPtr r)%nat.

(** Shadows of different VIPs are different schedulers. *)
Lemma staged_disjoint r vip st vip' st' s :
  staged_ok r → rl_staging r !! vip = Some st → rl_staging r !! vip' = Some st' → vip ≠ vip' →
  s ∈ shadowsOf st → s ∉ shadowsOf st'.
Proof.
  intros Hok H1 H2 Hne [c Hc]%shadowsOf_elem [c' Hc']%shadowsOf_elem.
  destruct (proj2 (Hok _ _ H1) _ _ Hc) as [Hs _], (proj2 (Hok _ _ H2) _ _ Hc') as [Hs' _].
  apply shadow_named, named_vipOf in Hs as [E1 _]. apply shadow_named, named_vipOf in Hs' as [E2 _].
  congruence.
Qed.

Lemma staged_keyed r : staged_ok r → staging_keyed (rl_staging r).
Proof. intros Hok vip st Hst. by destruct (Hok vip st Hst). Qed.

Lemma attachOne_next now vip ok between seeds (r : Reloader) e :
  rl_nextPtr (attachOne now vip ok between seeds r e) = rl_nextPtr r.
Proof.
  destruct e as [name sh]. unfold attachOne. cbv zeta. set (r1 := foldl _ r _).
  assert (rl_nextPtr r1 = rl_nextPtr r) as Hr.
  { apply (foldl_keeps rl_nextPtr). intros. apply schedResult_next. }
  destruct (rl_heap _ !! sh); [|done]. destruct (seeds !! name); [|done]. by case_match.
Qed.

Lemma commitLocked_next now between st (r : Reloader) :
  rl_nextPtr (commitLocked now between st r) = rl_nextPtr r.
Proof.
  unfold commitLocked. cbv zeta. set (r1 := foldl promoteOne _ _).
  assert (rl_nextPtr r1 = rl_nextPtr r) as H1.
  { unfold r1. rewrite (foldl_keeps rl_nextPtr) by (intros; apply promoteOne_heap).
    by rewrite (foldl_keeps rl_nextPtr) by (intros; apply removeCheck_heap). }
  destruct (pol_CommitVIP _ _ _ _) as [pol err]. set (r2 := foldl _ (setPol r1 pol) _).
  assert (rl_nextPtr r2 = rl_nextPtr r) as H2.
  { unfold r2. by rewrite (foldl_keeps rl_nextPtr) by (intros; apply attachOne_next). }
  destruct err as [e|], (rl_last r2) as [l|] eqn:El; cbn; rewrite ?El; cbn; done.
Qed.

(** A commit keeps the other stagings as they are. *)
Lemma commitLocked_staged now between st (r : Reloader) :
  staged_ok r →
  (∀ vip' st' s, vip' ≠ VIP_Name (st_cfg st) → rl_staging r !! vip' = Some st' →
     s ∈ shadowsOf st' → s ∉ shadowsOf st) →
  staged_ok (commitLocked now between st r).
Proof.
  intros Hok Hd vip' st'. rewrite commitLocked_staging. intros [Hne Hst]%lookup_delete_Some.
  destruct (Hok _ _ Hst) as [Hk Hs]. split; [done|]. intros check s Hc. rewrite commitLocked_next.
  destruct (Hs _ _ Hc). split; [|done]. apply commitLocked_shadow; [|done].
  eapply Hd; [by symmetry|done|]. apply shadowsOf_elem. by exists check.
Qed.

Lemma readyOne_staged now between acc s : staged_ok acc.1 → staged_ok (readyOne now between acc s).1.
Proof.
  destruct acc as [r changed]. cbn. intros Hok.
  destruct (rl_staging r !! vipOf (rl_heap r) s) as [st|] eqn:Est; [|done]. cbv zeta.
  case_decide as Hs; [|done]. destruct (Hok _ _ Est) as [Hk Hsh].
  set (st1 := mkStagedVIP _ _ _ _ _ _). set (r1 := setStaging r _).
  assert (staged_ok r1) as Hok1.
  { intros vip' st'. unfold r1. cbn. intros [[<- <-]|[_ H']]%lookup_insert_Some; [done|by apply Hok]. }
  assert (rl_staging r1 !! vipOf (rl_heap r) s = Some st1) as E1 by apply lookup_insert_eq.
  case_decide; [done|]. apply commitLocked_staged; [done|]. intros vip' st' x Hne Hst' Hx Hx1.
  eapply (staged_disjoint r1 vip' st' _ st1); [done|done|exact E1| |done|done].
  unfold st1 in Hne. cbn in Hne. by rewrite Hk in Hne.
Qed.

Lemma commitReady_staged now between (r : Reloader) : staged_ok r → staged_ok (commitReady now between r).
Proof.
  intros Hok. unfold commitReady. cbv zeta. destruct (foldl _ _ _) as [r' changed] eqn:E.
  enough (staged_ok r') by (by case_match). change r' with (r', changed).1. rewrite <-E.
  apply (foldl_ind (λ acc, staged_ok acc.1)); [|done]. intros acc s. apply readyOne_staged.
Qed.

Lemma expire_staged_fold now between l (r0 r : Reloader) b :
  staged_ok r0 → (∀ st, st ∈ l → rl_staging r0 !! VIP_Name (st_cfg st) = Some st) →
  staged_ok r → rl_staging r ⊆ rl_staging r0 →
  staged_ok (foldl (expireOne now between) (r, b) l).1.
Proof.
  intros Hok0. revert r b. induction l as [|st l IH]; intros r b Hl Hok Hsub; [done|]. cbn [foldl].
  replace (expireOne now between (r, b) st)
    with (if decide (now < st_deadline st) then (r, b) else (commitLocked now between st r, true)) by done.
  assert (∀ st, st ∈ l → rl_staging r0 !! VIP_Name (st_cfg st) = Some st) as Hl' by (intros; apply Hl; by right).
  case_decide; apply IH; try done.
  - apply commitLocked_staged; [done|]. intros vip' st' s Hne Hst' Hs Hs'.
    eapply (staged_disjoint r0 vip' st'); [done|by eapply lookup_weaken|apply Hl; by left|done|done|done].
  - rewrite commitLocked_staging. etrans; [apply delete_subseteq|done].
Qed.

Lemma expireStaged_staged now between (r : Reloader) : staged_ok r → staged_ok (expireStaged now between r).
Proof.
  intros Hok. unfold expireStaged. destruct (foldl _ _ _) as [r' changed] eqn:E.
  enough (staged_ok r') by (by case_match). change r' with (r', changed).1. rewrite <-E.
  eapply expire_staged_fold; [exact Hok| |done|done].
  intros st ([vip st'] & -> & Hst%elem_of_map_to_list)%list_elem_of_fmap. cbn.
  by rewrite (staged_keyed r Hok vip st' Hst).
Qed.

(** ** A reload builds what it stages *)

Definition staged_named (h : gmap ptr Sched) (next : ptr) (staged : gmap string stagedVIP) : Prop :=
  ∀ vip st, staged !! vip = Some st →
    VIP_Name (st_cfg st) = vip ∧
    ∀ check s, st_shadows st !! check = Some s → named h vip check s ∧ (s < next)%nat.

Lemma newSchedulersLoop_named v l h next out h' next' scheds :
  newSchedulersLoop newChecker v l h next out = (h', next', Ok scheds) →
  (∀ s, s ∈ out → vipOf h s = VIP_Name v ∧ is_Some (h !! s) ∧ (s < next)%nat) →
  ∀ s, s ∈ scheds → vipOf h' s = VIP_Name v ∧ is_Some (h' !! s) ∧ (s < next')%nat.
Proof.
  revert h next out. induction l as [|c l IH]; intros h next out; cbn; [by intros [= <- <- <-]|].
  destruct (newChecker c) as [typ|e]; [|done]. intros Hl Hout. eapply IH; [exact Hl|].
  intros s [Hs|Hs%list_elem_of_singleton]%elem_of_app; unfold vipOf.
  - destruct (Hout _ Hs) as (Hv & Hi & Hn). rewrite lookup_insert_ne by lia. split_and!; [done|done|lia].
  - subst s. rewrite lookup_insert_eq. split_and!; [done|by eexists|lia].
Qed.

Lemma NewSchedulers_named v l (r r' : Reloader) scheds :
  NewSchedulers newChecker v l r = (r', Ok scheds) →
  ∀ s, s ∈ scheds → named (rl_heap r') (VIP_Name v) (checkOf (rl_heap r') s) s ∧ (s < rl_nextPtr r')%nat.
Proof.
  unfold NewSchedulers. destruct (newGuard v); [done|].
  destruct (newSchedulersLoop _ _ _ _ _ _) as [[h n] res] eqn:E. intros [= <- ->] s Hs.
  destruct (newSchedulersLoop_named _ _ _ _ _ _ _ _ E) with s as (Hv & [x Hx] & Hn); [|done|].
  { by intros ? ?%not_elem_of_nil. }
  split; [|done]. exists x. unfold vipOf, checkOf in *. cbn. by rewrite Hx in *.
Qed.

Lemma shadows_keyed (h : gmap ptr Sched) (scheds : list ptr) k s :
  foldl (λ m s, <[checkOf h s := s]> m) (∅ : gmap string ptr) scheds !! k = Some s → checkOf h s = k.
Proof.
  induction scheds as [|x scheds IH] using rev_ind; [done|]. rewrite foldl_app. cbn.
  intros [[<- <-]|[_ Hk]]%lookup_insert_Some; [done|by apply IH].
Qed.

Lemma allocated_named (r r' : Reloader) vip check s :
  allocated r r' → (s < rl_nextPtr r)%nat → named (rl_heap r) vip check s → named (rl_heap r') vip check s.
Proof. intros (h & n & -> & _ & Hh) Hs (x & Hx & ?). exists x. cbn. by rewrite Hh. Qed.

Lemma allocated_next (r r' : Reloader) : allocated r r' → (rl_nextPtr r ≤ rl_nextPtr r')%nat.
Proof. by intros (h & n & -> & ? & _). Qed.

Lemma buildStaged_named at_ l (r : Reloader) staged r' staged' :
  buildStaged newChecker at_ l r staged = (r', staged', None) →
  staged_named (rl_heap r) (rl_nextPtr r) staged →
  staged_named (rl_heap r') (rl_nextPtr r') staged'.
Proof.
  revert r staged. induction l as [|ch l IH]; intros r staged; cbn; [by intros [= <- <-]|].
  destruct (ChecksChanged ch) as [|c cl]; [by apply IH|].
  destruct (NewSchedulers newChecker (VC_New ch) (c :: cl) r) as [r1 [scheds|e]] eqn:E; [|done].
  destruct (NewSchedulers_spec _ _ _ _ _ _ E) as [Hal _]. intros Hl Hst. eapply IH; [exact Hl|].
  intros vip st [[<- <-]|[_ Hvip]]%lookup_insert_Some.
  - split; [done|]. cbn. intros check s Hs. rewrite <-(shadows_keyed _ _ _ _ Hs).
    eapply NewSchedulers_named; [exact E|]. by apply shadows_elem in Hs.
  - destruct (Hst _ _ Hvip) as [Hk Hsh]. split; [done|]. intros check s Hs.
    destruct (Hsh _ _ Hs). split; [by eapply allocated_named|]. apply allocated_next in Hal. lia.
Qed.

(** Watching a shadow makes it one, whatever callbacks it had. *)
Lemma watch_shadow_ok t (r : Reloader) vip check s :
  (s = t → named (rl_heap r) vip check s) → (s ≠ t → shadow_ok (rl_heap r) vip check s) →
  shadow_ok (rl_heap (watchShadow t r)) vip check s.
Proof.
  intros H1 H2. destruct (decide (s = t)) as [->|Hne]; [|by apply shadow_alter_ne; [|apply H2]].
  destruct (H1 eq_refl) as (x & Hx & <- & <-). exists (SetCallbacks None (Some WatchShadow) x).
  cbn. by rewrite lookup_alter_eq, Hx.
Qed.
Lemma watch_keeps_shadow t (r : Reloader) vip check s :
  shadow_ok (rl_heap r) vip check s → shadow_ok (rl_heap (watchShadow t r)) vip check s.
Proof. intros Hs. apply watch_shadow_ok; intros _; [by apply shadow_named|done]. Qed.

(** The shadows of one VIP are launched. *)
Definition launchShadow (r : Reloader) (s : ptr) : Reloader :=
  let r := watchShadow s r in setReg r (AddShadow s (rl_reg r)).

Lemma launch_shadows l (r : Reloader) vip check s :
  named (rl_heap r) vip check s → s ∈ l ∨ shadow_ok (rl_heap r) vip check s →
  shadow_ok (rl_heap (foldl launchShadow r l)) vip check s.
Proof.
  revert r. induction l as [|t l IH]; intros r Hn Hs.
  { by destruct Hs as [?%not_elem_of_nil|]. }
  cbn [foldl]. apply IH; [by apply named_callbacks|].
  destruct (decide (s = t)) as [->|Hne].
  - right. by apply watch_shadow_ok.
  - destruct Hs as [[?|?]%elem_of_cons|Hs]; [done|by left|right; by apply watch_keeps_shadow].
Qed.

Lemma launch_keeps l (r : Reloader) vip check s :
  named (rl_heap r) vip check s → named (rl_heap (foldl launchShadow r l)) vip check s.
Proof. apply (foldl_ind (λ r, named (rl_heap r) vip check s)). intros. by apply named_callbacks. Qed.

Lemma launch_fixed l (r : Reloader) :
  rl_staging (foldl launchShadow r l) = rl_staging r ∧ rl_nextPtr (foldl launchShadow r l) = rl_nextPtr r.
Proof. split; by apply foldl_keeps. Qed.

(** What holds while the changes are applied. *)
Definition applying (staged : gmap string stagedVIP) (r : Reloader) : Prop :=
  staged_named (rl_heap r) (rl_nextPtr r) staged ∧ staged_ok r.

Lemma changeOne_applying now staged acc ch :
  applying staged acc.1.1 → applying staged (changeOne now staged acc ch).1.1.
Proof.
  destruct acc as [[r errs] pending]. cbn. intros [Hn Hok].
  destruct (staged !! VIP_Name (VC_New ch)) as [st|] eqn:E.
  - cbn. change (λ r s, setReg (watchShadow s r) _) with launchShadow.
    set (r1 := setStaging r _). destruct (launch_fixed (shadowsOf st) r1) as [Hs Hx].
    change ((map_to_list (st_shadows st)).*2) with (shadowsOf st).
    destruct (Hn _ _ E) as [Hk Hsh]. split.
    + intros vip st' Hst'. destruct (Hn _ _ Hst') as [? Hsh']. split; [done|].
      intros check s Hc. rewrite Hx. destruct (Hsh' _ _ Hc). split; [by apply launch_keeps|done].
    + intros vip st'. rewrite Hs, Hx. cbn. intros [[<- <-]|[_ Hst']]%lookup_insert_Some.
      * split; [done|]. intros check s Hc. destruct (Hsh _ _ Hc). split; [|done].
        apply launch_shadows; [done|]. left. apply shadowsOf_elem. by exists check.
      * destruct (Hok _ _ Hst') as [? Hsh']. split; [done|]. intros check s Hc.
        destruct (Hsh' _ _ Hc). split; [|done]. apply launch_shadows; [by apply shadow_named|by right].
  - destruct (pol_CommitVIP _ _ _ _) as [pol err]. cbn. set (r1 := foldl _ _ _).
    assert (rl_heap r1 = rl_heap r ∧ rl_nextPtr r1 = rl_nextPtr r ∧ rl_staging r1 = rl_staging r)
      as (Hh & Hx & Hs).
    { unfold r1. split_and!; apply foldl_keeps; intros; [..|apply removeCheck_staging]; apply removeCheck_heap. }
    unfold applying, staged_ok. cbn. by rewrite Hh, Hx, Hs.
Qed.

Lemma removeVIPs_fixed l (r : Reloader) failed errs removed r' failed' errs' removed' :
  removeVIPs l r failed errs removed = Ret (r', failed', errs', removed') →
  rl_heap r' = rl_heap r ∧ rl_nextPtr r' = rl_nextPtr r ∧ rl_staging r' = rl_staging r.
Proof.
  revert r failed errs removed. induction l as [|v l IH]; intros r failed errs removed; cbn.
  { by intros [= <- <- <- <-]. }
  destruct (Registry.RemoveVIP _ _ _) as [reg|]; [|done].
  destruct (pol_RemoveVIP _ _) as [pol [e|]]; intros Hr; by destruct (IH _ _ _ _ Hr) as (-> & -> & ->).
Qed.

Lemma addOne_fixed now failed built acc v :
  rl_nextPtr (addOne now failed built acc v).1 = rl_nextPtr (acc.1 : Reloader) ∧
  rl_staging (addOne now failed built acc v).1 = rl_staging acc.1 ∧
  ∀ vip check s, named (rl_heap acc.1) vip check s →
    named (rl_heap (addOne now failed built acc v).1) vip check s.
Proof.
  destruct acc as [r names]. unfold addOne. destruct (failed !! _); [done|]. cbn. split_and!.
  - by rewrite (foldl_keeps rl_nextPtr).
  - by rewrite (foldl_keeps rl_staging).
  - intros vip check s Hs. apply (foldl_ind (λ r, named (rl_heap r) vip check s)); [|done].
    intros. by apply named_callbacks.
Qed.

Lemma dropStaging_fixed (r : Reloader) :
  rl_heap (dropStagingLocked r) = rl_heap r ∧ rl_nextPtr (dropStagingLocked r) = rl_nextPtr r ∧
  rl_staging (dropStagingLocked r) = ∅.
Proof. unfold dropStagingLocked. cbn. split_and!; [by apply foldl_keeps..|done]. Qed.

Lemma staged_ok_empty (r : Reloader) : rl_staging r = ∅ → staged_ok r.
Proof. intros Hs vip st. by rewrite Hs, lookup_empty. Qed.

Lemma applyDiff_staged now cfg hash diff added staged (r r' : Reloader) res :
  applyDiff zeroHash now cfg hash diff added staged r = Ret (r', res) →
  staged_named (rl_heap r) (rl_nextPtr r) staged → staged_ok r'.
Proof.
  unfold applyDiff. destruct (dropStaging_fixed r) as (Dh & Dn & Ds).
  destruct (removeVIPs _ _ _ _ _) as [[[[r1 failed] errs] removed]|] eqn:E1; [|done].
  destruct (removeVIPs_fixed _ _ _ _ _ _ _ _ _ E1) as (Rh & Rn & Rs).
  rewrite Dh in Rh. rewrite Dn in Rn. rewrite Ds in Rs.
  destruct (foldl (addOne _ _ _) _ _) as [r2 names] eqn:E2.
  destruct (foldl (changeOne _ _) _ _) as [[r3 errs3] pending] eqn:E3. intros Hap Hn.
  assert (applying staged r2) as H2.
  { change r2 with (r2, names).1. rewrite <-E2.
    destruct (foldl_ind (λ acc, staged_named (rl_heap acc.1) (rl_nextPtr acc.1) staged ∧
                                rl_staging acc.1 = ∅)
                (addOne now failed added) (Added diff) (r1, [])) as [Ha Hs].
    3:{ split; [exact Ha|by apply staged_ok_empty]. }
    - intros acc v [Ha Hs]. destruct (addOne_fixed now failed added acc v) as (-> & -> & Hk).
      split; [|done]. intros vip st Hst. destruct (Ha _ _ Hst) as [? Hsh]. split; [done|].
      intros check s Hc. destruct (Hsh _ _ Hc). split; [by apply Hk|done].
    - cbn. by rewrite Rh, Rn. }
  assert (applying staged r3) as [_ H3].
  { change r3 with (r3, errs3, pending).1.1. rewrite <-E3.
    apply (foldl_ind (λ acc, applying staged acc.1.1)); [|done]. intros acc ch. apply changeOne_applying. }
  revert Hap. unfold applyLogLevel. destruct (_ && _); [destruct (SetLevel _ _) as [? []]|]; by intros [= <- <-].
Qed.

Lemma untouched_staged (r r' : Reloader) : untouched r r' → staged_ok r → staged_ok r'.
Proof.
  intros U Hok vip st. rewrite (un_staging _ _ U). intros Hst. destruct (Hok _ _ Hst) as [Hk Hs].
  split; [done|]. intros check s Hc. destruct (Hs _ _ Hc) as [(x & Hx & Hrest) Hlt].
  pose proof (un_next _ _ U). split; [|lia]. exists x. by rewrite (un_heap _ _ U).
Qed.

(** What a returned [reloadLocked] did. *)
Lemma reloadLocked_cases now loaded (r r' : Reloader) res :
  reloadLocked zeroHash Sum256 newChecker now loaded r = Ret (r', res) →
  (untouched r r' ∧ (RS_Outcome res = ReloadRejected ∨ RS_Outcome res = ReloadUnchanged)) ∨
  ∃ cfg raw r1 r2 added staged,
    loaded = Ok (cfg, raw) ∧ Sum256 raw ≠ rl_curHash r ∧ RestartRequired (rl_cur r) cfg = [] ∧
    let diff := DiffVIPs (effectiveVIPsLocked r) (elems (Cfg_VIPs cfg)) in
    buildAdded newChecker (Added diff) r ∅ = (r1, added, None) ∧
    buildStaged newChecker now (Changed diff) r1 ∅ = (r2, staged, None) ∧
    applyDiff zeroHash now cfg (Sum256 raw) diff added staged r2 = Ret (r', res).
Proof.
  intros E. destruct (decide (RS_Outcome res = ReloadRejected ∨ RS_Outcome res = ReloadUnchanged)) as [Ho|Ho].
  { left. split; [by eapply reloadLocked_rejected|done]. }
  right. revert E. unfold reloadLocked. destruct loaded as [[cfg raw]|e]; [|intros [= <- <-]; cbn in Ho; tauto].
  case_decide; [intros [= <- <-]; cbn in Ho; tauto|].
  destruct (RestartRequired _ _) eqn:Er; [|intros [= <- <-]; cbn in Ho; tauto].
  destruct (buildAdded _ _ _ _) as [[ra added] [e1|]] eqn:Ea; [intros [= <- <-]; cbn in Ho; tauto|].
  destruct (buildStaged _ _ _ _ _) as [[rb staged] [e2|]] eqn:Es; [intros [= <- <-]; cbn in Ho; tauto|].
  intros Hap. by exists cfg, raw, ra, rb, added, staged.
Qed.

Lemma Reload_staged now loaded (r r' : Reloader) res :
  Reload now loaded r = Ret (r', res) → staged_ok r → staged_ok r'.
Proof.
  unfold Reload.Reload. destruct (reloadLocked _ _ _ _ _ _) as [[r1 res1]|] eqn:E; [|done].
  intros [= <- <-] Hok. enough (staged_ok r1) by done.
  destruct (reloadLocked_cases _ _ _ _ _ E) as [[U _]|(cfg & raw & ra & rb & added & staged & _ & _ & _ & Ea & Es & Ha)].
  { by eapply untouched_staged. }
  eapply applyDiff_staged; [exact Ha|]. eapply buildStaged_named; [exact Es|]. by intros vip st ?%lookup_empty_Some.
Qed.

Lemma schedResult_staged now p res (r : Reloader) : staged_ok r → staged_ok (schedResult now p res r).
Proof.
  intros Hok vip st. rewrite schedResult_staging, schedResult_next. intros Hst.
  destruct (Hok _ _ Hst) as [Hk Hs]. split; [done|]. intros check s Hc. destruct (Hs _ _ Hc).
  split; [by apply shadow_schedResult|done].
Qed.

Lemma pollFile_staged raw (r : Reloader) : staged_ok r → staged_ok (pollFile Sum256 raw r).
Proof. intros Hok. unfold pollFile. cbv zeta. by case_match. Qed.

#[local] Hint Resolve schedResult_staged commitReady_staged expireStaged_staged pollFile_staged
  Reload_staged : pathosd.

(** The two invariants of every reachable state. *)
Lemma step_invariant (r r' : Reloader) :
  rl_step r r' → staged_ok r ∧ wake_ok r → staged_ok r' ∧ wake_ok r'.
Proof.
  intros [] [Hs Hw]; split; eauto with pathosd.
Qed.

(** A reloader as [New] makes it: nothing is staged. *)
Definition initial (r : Reloader) : Prop :=
  ∃ now path cfg raw pol reg heap next x hasBGP,
    r = Reload.New Sum256 now path cfg raw pol reg heap next x hasBGP.

Lemma reachable_ok (r0 r : Reloader) : initial r0 → rtc rl_step r0 r → staged_ok r ∧ wake_ok r.
Proof.
  intros (now & path & cfg & raw & pol & reg & heap & next & x & hasBGP & ->) Hr.
  eapply (rtc_ind_r (λ r, staged_ok r ∧ wake_ok r)); [| |exact Hr].
  - split; [by apply staged_ok_empty|by intros []].
  - intros y z _ Hyz. by apply step_invariant.
Qed.

(** ** A VIP whose shadows all reported is committed *)
Section Progress.
Context (vip : string) (shadows : gmap string ptr) (before : gset string).

(** The verdicts a staging has collected: those it had [before] and those of
    the schedulers [seen]. *)
Definition collected (seen : list ptr) (st : stagedVIP) : Prop :=
  st_shadows st = shadows ∧
  (∀ c s, shadows !! c = Some s → c ∈ before ∨ s ∈ seen → c ∈ st_verdicts st) ∧
  ((∃ c s, shadows !! c = Some s ∧ s ∈ seen) → (size (st_verdicts st) < size shadows)%nat).

Definition progress (seen : list ptr) (r : Reloader) : Prop :=
  staged_ok r ∧
  (∀ c s, shadows !! c = Some s → named (rl_heap r) vip c s) ∧
  (rl_staging r !! vip = None ∨ ∃ st, rl_staging r !! vip = Some st ∧ collected seen st).

Lemma collected_other seen st s :
  (∀ c, shadows !! c ≠ Some s) → collected seen st → collected (seen ++ [s]) st.
Proof.
  intros Hno (? & H1 & H2). split; [done|]. split.
  - intros c x Hc [Hb|[Hx|Hx%list_elem_of_singleton]%elem_of_app]; [eapply H1; eauto..|subst; by destruct (Hno c)].
  - intros (c & x & Hc & [Hx|Hx%list_elem_of_singleton]%elem_of_app); [by eauto|subst; by destruct (Hno c)].
Qed.

Lemma readyOne_progress now between seen acc s :
  progress seen acc.1 → progress (seen ++ [s]) (readyOne now between acc s).1.
Proof.
  destruct acc as [r changed]. intros (Hok & Hn & Hst).
  pose proof (readyOne_staged now between (r, changed) s Hok) as Hok'. split; [exact Hok'|]. clear Hok'.
  assert (∀ c, shadows !! c = Some s → vipOf (rl_heap r) s = vip ∧ checkOf (rl_heap r) s = c) as Hnm
    by (intros c Hc; by apply named_vipOf, Hn).
  cbn in *. destruct (rl_staging r !! vipOf (rl_heap r) s) as [st|] eqn:E.
  2:{ split; [done|]. destruct Hst as [?|(st & Hst & Hc)]; [by left|]. right. exists st. split; [done|].
      apply collected_other; [|done]. intros c [Hv _]%Hnm. congruence. }
  destruct (Hok _ _ E) as [Hk _]. case_decide as Hs.
  2:{ split; [done|]. destruct Hst as [?|(st' & Hst & Hc)]; [by left|]. right. exists st'. split; [done|].
      apply collected_other; [|done]. intros c Hcs. destruct (Hnm c Hcs) as [Hv Hcn].
      rewrite Hv, Hst in E. injection E as ->. apply Hs. destruct Hc as [-> _]. by rewrite Hcn. }
  set (st1 := mkStagedVIP _ _ _ _ _ _). set (r1 := setStaging r _).
  destruct (decide (vipOf (rl_heap r) s = vip)) as [Hv|Hv].
  - rewrite Hv in E. rewrite Hv in Hk. destruct Hst as [?|(st' & Hst & Hc)]; [congruence|].
    rewrite Hst in E. injection E as ->. destruct Hc as (Hsh & H1 & H2). cbn in *.
    case_decide as Hsz; cbn.
    + split; [done|]. right. exists st1.
      split; [rewrite Hv; apply lookup_insert_eq|]. split; [done|]. split.
      * intros c x Hc [Hb|[Hx|Hx%list_elem_of_singleton]%elem_of_app]; [cbn; apply elem_of_union; right; eauto..|].
        subst. destruct (Hnm c Hc) as [_ <-]. cbn. set_solver.
      * intros _. cbn. by rewrite <-Hsh.
    + split; [intros; by apply commitLocked_named, Hn|]. left. rewrite commitLocked_staging. cbn.
      rewrite Hk. apply lookup_delete_eq.
  - assert (∀ c, shadows !! c ≠ Some s) as Hno by (by intros c [? _]%Hnm).
    case_decide; cbn.
    + split; [done|]. rewrite lookup_insert_ne by done. destruct Hst as [?|(st' & Hst & Hc)]; [by left|].
      right. exists st'. split; [done|]. by apply collected_other.
    + split; [intros; by apply commitLocked_named, Hn|]. rewrite commitLocked_staging. cbn.
      rewrite Hk, lookup_delete_ne, lookup_insert_ne by done.
      destruct Hst as [?|(st' & Hst & Hc)]; [by left|].
      right. exists st'. split; [done|]. by apply collected_other.
Qed.

Lemma readyFold_progress now between l seen acc :
  progress seen acc.1 → progress (seen ++ l) (foldl (readyOne now between) acc l).1.
Proof.
  revert seen acc. induction l as [|s l IH]; intros seen acc Hp; [by rewrite app_nil_r|].
  cbn [foldl]. rewrite (cons_middle s seen l), app_assoc. by apply IH, readyOne_progress.
Qed.

Lemma collected_all seen st :
  (∃ c s, shadows !! c = Some s ∧ s ∈ seen) →
  (∀ c s, shadows !! c = Some s → c ∈ before ∨ s ∈ seen) → ¬ collected seen st.
Proof.
  intros Hne Hall (_ & H1 & H2).
  assert (dom shadows ⊆ st_verdicts st) as Hsub%subseteq_size
    by (intros x [y Hy]%elem_of_dom; eapply H1; eauto).
  rewrite size_dom in Hsub. specialize (H2 Hne). lia.
Qed.
End Progress.

Lemma commitReady_committed now between (r : Reloader) vip st :
  staged_ok r → rl_staging r !! vip = Some st →
  (∃ c s, st_shadows st !! c = Some s ∧ s ∈ rl_verdicts r) →
  (∀ c s, st_shadows st !! c = Some s → c ∈ st_verdicts st ∨ s ∈ rl_verdicts r) →
  rl_staging (commitReady now between r) !! vip = None.
Proof.
  intros Hok Hst Hne Hall. unfold commitReady. cbv zeta.
  destruct (readyFold_progress vip (st_shadows st) (st_verdicts st) now between (rl_verdicts r) []
              (setVerdicts r [] false, false)) as (_ & _ & Hp).
  { split; [exact Hok|]. split.
    - intros c s Hc. apply shadow_named. by apply (proj2 (Hok _ _ Hst)).
    - right. exists st. split; [done|]. split; [done|]. split.
      + by intros c s _ [?|?%not_elem_of_nil].
      + by intros (c & s & _ & ?%not_elem_of_nil). }
  destruct (foldl _ _ _) as [r' changed] eqn:E. enough (rl_staging r' !! vip = None) by (by case_match).
  rewrite <-E in *. destruct Hp as [Hp|(st' & _ & Hc)]; [by rewrite E in Hp|].
  by apply collected_all in Hc.
Qed.

(** One result of a shadow. *)
Lemma isolated (r : Reloader) vip check s now res :
  shadow_ok (rl_heap r) vip check s →
  let r' := schedResult now s res r in
  rl_pol r' = rl_pol r ∧ rl_reg r' = rl_reg r ∧ rl_staging r' = rl_staging r ∧
  ∃ x, rl_heap r' !! s = Some x ∧ sc_lastResult x = res ∧
       (sc_rise x ≤ sc_consecutiveOK x ∨ sc_fall x ≤ sc_consecutiveFail x →
        s ∈ rl_verdicts r' ∧ rl_wake r' = true).
Proof.
  intros (x & Hx & _ & _ & Ht & Hc). cbv zeta. rewrite schedResult_staging, schedResult_heap.
  assert (sc_lastResult (applyResult x res).1 = res) as Hl
    by (unfold applyResult; repeat case_match; simplify_eq; done).
  unfold schedResult, runCheck. rewrite Hx, Ht, Hc.
  destruct (applyResult x res) as [x' t] eqn:E. cbn in Hl.
  replace (match t with Some _ | _ => [] end) with (@nil (Call TCallback RCallback)) by (by destruct t).
  cbn [app foldl fire]. unfold shadowResult. cbn [rl_heap setHeap]. rewrite lookup_insert_eq.
  rewrite lookup_alter_eq, Hx. cbn [fmap option_fmap option_map]. rewrite E. cbn [fst].
  destruct (_ && _) eqn:Eb; cbn.
  - split_and!; try done. exists x'. split_and!; try done. apply andb_true_iff in Eb as [E1 E2].
    apply bool_decide_eq_true in E1, E2. lia.
  - split_and!; try done. exists x'. split_and!; try done. intros _. split; [|done].
    case_match eqn:Em; [by apply mem_true|set_solver].
Qed.

Lemma expireStaged_lookup now between (r : Reloader) vip st :
  staging_keyed (rl_staging r) →
  rl_staging (expireStaged now between r) !! vip = Some st ↔
  rl_staging r !! vip = Some st ∧ now < st_deadline st.
Proof.
  intros Hk. pose proof (expire_fold now between (map_to_list (rl_staging r)).*2 r false) as Hf.
  unfold expireStaged. destruct (foldl (expireOne _ _) _ _) as [r' changed].
  assert (∀ b : bool, rl_staging (if b then onChange (setPendingGauge r') else r') = rl_staging r') as ->
    by (by intros []).
  cbn in Hf. rewrite Hf. split.
  - intros [Hs Hl]%delete_fold_lookup. split; [done|].
    destruct (decide (now < st_deadline st)) as [|Hd]; [done|]. destruct (Hl st); [|done|by apply Hk].
    apply list_elem_of_fmap. exists (vip, st). split; [done|by apply elem_of_map_to_list].
  - intros [Hs Hd]. apply delete_fold_keeps; [done|].
    intros st' ([k st''] & -> & Hst'%elem_of_map_to_list)%list_elem_of_fmap Hn Heq. cbn in *.
    rewrite (Hk _ _ Hst') in Heq. subst k. rewrite Hst' in Hs. simplify_eq. by apply Hn.
Qed.

(** ** The properties *)

(** C5: Over every run of the reloader, a shadow scheduler of a staged VIP
    never reaches the policy manager: one more result of it leaves the policy
    state, the registry and the staging as they are; and as soon as it has a
    verdict ([rise] successes or [fall] failures in a row) it is in the list
    of verdicts and the commit loop has a token in its channel. *)
Theorem staged_shadow_isolated (r0 r : Reloader) vip st check s now res :
  initial r0 → rtc rl_step r0 r →
  rl_staging r !! vip = Some st → st_shadows st !! check = Some s →
  let r' := schedResult now s res r in
  rl_pol r' = rl_pol r ∧ rl_reg r' = rl_reg r ∧ rl_staging r' = rl_staging r ∧
  ∃ x, rl_heap r' !! s = Some x ∧ sc_lastResult x = res ∧
       (sc_rise x ≤ sc_consecutiveOK x ∨ sc_fall x ≤ sc_consecutiveFail x →
        s ∈ rl_verdicts r' ∧ rl_wake r' = true).
Proof.
  intros H0 Hr Hst Hc. destruct (reachable_ok _ _ H0 Hr) as [Hok _].
  destruct (Hok _ _ Hst) as [_ Hs]. destruct (Hs _ _ Hc) as [Hsh _]. by eapply isolated.
Qed.


(** The ticker bounds the staging: after [expireStaged] every VIP still
    staged was staged before, unchanged, and has its deadline ahead of it;
    every VIP whose deadline is ahead stays staged. *)
Theorem expireStaged_bounded (r0 r : Reloader) now between vip st :
  initial r0 → rtc rl_step r0 r →
  rl_staging (expireStaged now between r) !! vip = Some st ↔
  rl_staging r !! vip = Some st ∧ now < st_deadline st.
Proof.
  intros H0 Hr. destruct (reachable_ok _ _ H0 Hr) as [Hok _]. by apply expireStaged_lookup, staged_keyed.
Qed.

End Staging.
End ReloadStaging.
