(* ===== verification/ReloadFrame.v ===== *)
(** * What the reloader's operations can change

    Every operation of the reloader is a composition of field updates, and it
    touches the policy manager through the interface [Policy] only.  A
    predicate that these elementary updates keep ([frame]) is therefore kept
    by every step up to the point where a reload installs a new config; what
    is particular to one predicate is proved once, for the updates. *)

From S2P Require Import Prelude GoStrings NetIP Config Model Metrics ChecksPolicy Engine.
From S2P Require Import Scheduler Registry Diff PolicyManager PolicyProofs Logging Reload ReloadProofs ReloadStaging.

Module ReloadFrame.
Create HintDb frame discriminated.
#[local] Hint Constants Opaque : frame.
Import Logging Reload ReloadProofs ReloadStaging.

Section Frame.
Context {P : Type} `{Policy P} {Hash : Type} `{EqDecision Hash} (zeroHash : Hash) (Sum256 : string → Hash).
Context (newChecker : CheckConfig → result error string).
Local Notation Reloader := (Reload.Reloader (P := P) (Hash := Hash)).
Local Notation Reload := (Reload.Reload zeroHash Sum256 newChecker).
Implicit Types r : Reloader.

(** One call of the interface. *)
Inductive pol_call : P → P → Prop :=
| call_AddVIP now v p : pol_call p (pol_AddVIP now v p)
| call_RemoveVIP name p : pol_call p (pol_RemoveVIP name p).1
| call_CommitVIP now v seeds p : pol_call p (pol_CommitVIP now v seeds p).1
| call_OnHealthTransition now t p : pol_call p (pol_OnHealthTransition now t p)
| call_OnCheckResult now vip check res p : pol_call p (pol_OnCheckResult now vip check res p).

Record frame (Q : Reloader → Prop) : Prop := mkFrame {
  fr_staging r s : Q r → Q (setStaging r s);
  fr_file r b : Q r → Q (setFileChanged r b);
  fr_verdicts r v w : Q r → Q (setVerdicts r v w);
  fr_reg r reg : Q r → Q (setReg r reg);
  fr_heap r h n : Q r → Q (setHeap r h n);
  fr_closed r c : Q r → Q (setClosed r c);
  fr_pol r p : pol_call (rl_pol r) p → Q r → Q (setPol r p);
  fr_metric r x : Q r → Q (setMetric r x);
  fr_last r l : Q r → Q (setLast r l);
  fr_change r : Q r → Q (onChange r) }.

Section Steps.
Context (Q : Reloader → Prop) (HQ : frame Q).

(** The database [frame] closes a goal [Q r] by the updates [r] is made of. *)
Hint Constructors pol_call : frame.
Hint Extern 1 (Q (setStaging _ _)) => apply (fr_staging _ HQ) : frame.
Hint Extern 1 (Q (setFileChanged _ _)) => apply (fr_file _ HQ) : frame.
Hint Extern 1 (Q (setVerdicts _ _ _)) => apply (fr_verdicts _ HQ) : frame.
Hint Extern 1 (Q (setReg _ _)) => apply (fr_reg _ HQ) : frame.
Hint Extern 1 (Q (setHeap _ _ _)) => apply (fr_heap _ HQ) : frame.
Hint Extern 1 (Q (setClosed _ _)) => apply (fr_closed _ HQ) : frame.
Hint Extern 1 (Q (setPol _ _)) => apply (fr_pol _ HQ) : frame.
Hint Extern 1 (Q (setMetric _ _)) => apply (fr_metric _ HQ) : frame.
Hint Extern 1 (Q (setLast _ _)) => apply (fr_last _ HQ) : frame.
Hint Extern 1 (Q (onChange _)) => apply (fr_change _ HQ) : frame.
Hint Extern 1 (Q (foldl _ _ _)) => (apply foldl_ind; [intros ? ? ?|]) : frame.
Ltac framed := cbv zeta; intros; auto 10 with frame nocore.

Lemma callbacks_frame t c s r : Q r → Q (setCallbacks t c s r).
Proof. unfold setCallbacks. framed. Qed.
Lemma close_frame l r : Q r → Q (closeSchedulers l r).
Proof. unfold closeSchedulers. framed. Qed.
Hint Resolve callbacks_frame close_frame : frame.

Lemma fire_frame now p r c : Q r → Q (fire now p r c).
Proof.
  intros Hr. destruct c as [[] ? ? ?|[] ?]; cbn; [framed| |framed].
  unfold shadowResult. destruct (rl_heap r !! p); [|done]. case_match; framed.
Qed.
Hint Resolve fire_frame : frame.

Lemma schedResult_frame now p res r : Q r → Q (schedResult now p res r).
Proof.
  intros Hr. unfold schedResult. destruct (rl_heap r !! p) as [s|]; [|done].
  destruct (runCheck s res) as [s' calls]. framed.
Qed.
Hint Resolve schedResult_frame : frame.

Lemma removeCheck_frame vip r c : Q r → Q (removeCheck vip r c).
Proof. intros Hr. unfold removeCheck. destruct (findVisible r vip c); framed. Qed.
Lemma promoteOne_frame r s : Q r → Q (promoteOne r s).
Proof. intros Hr. unfold promoteOne. destruct (Promote _ _ _ _) as [reg [o|]]; cbv zeta; framed. Qed.
Lemma attachOne_frame now vip ok between seeds r e : Q r → Q (attachOne now vip ok between seeds r e).
Proof.
  intros Hr. destruct e as [name sh]. unfold attachOne. cbv zeta.
  assert (Q (foldl (λ r res, schedResult now sh res r) r (between sh))) as H1 by framed.
  case_match; [|framed]. case_match; [|framed]. case_match; framed.
Qed.
Hint Resolve removeCheck_frame promoteOne_frame attachOne_frame : frame.

Lemma commit_pol_frame now v seeds r p err :
  pol_CommitVIP now v seeds (rl_pol r) = (p, err) → Q r → Q (setPol r p).
Proof. intros E Hr. apply fr_pol; [done| |done]. replace p with (p, err).1 by done. rewrite <-E. constructor. Qed.

Lemma commitLocked_frame now between st r : Q r → Q (commitLocked now between st r).
Proof.
  intros Hr. unfold commitLocked. cbv zeta. set (r1 := foldl promoteOne _ _).
  assert (Q r1) as H1 by (unfold r1; framed).
  destruct (pol_CommitVIP _ _ _ _) as [pol err] eqn:E. set (r2 := foldl _ (setPol r1 pol) _).
  assert (Q r2) as H2 by (unfold r2; apply foldl_ind; [framed|by eapply commit_pol_frame]).
  clearbody r1 r2. destruct err as [e|], (rl_last r2) as [l|] eqn:El; cbn; rewrite ?El; framed.
Qed.
Hint Resolve commitLocked_frame : frame.

Lemma commitReady_frame now between r : Q r → Q (commitReady now between r).
Proof.
  intros Hr. unfold commitReady. cbv zeta. destruct (foldl _ _ _) as [r' changed] eqn:E.
  enough (Q r') by (unfold setPendingGauge; case_match; framed). change r' with (r', changed).1. rewrite <-E.
  apply (foldl_ind (λ acc, Q acc.1)); [|cbn; framed]. intros [r1 c] s H1. cbn in H1. unfold readyOne.
  destruct (rl_staging r1 !! _); [|done]. cbv zeta. case_decide; [|done]. case_decide; cbn; framed.
Qed.

Lemma expireStaged_frame now between r : Q r → Q (expireStaged now between r).
Proof.
  intros Hr. unfold expireStaged. destruct (foldl _ _ _) as [r' changed] eqn:E.
  enough (Q r') by (unfold setPendingGauge; case_match; framed). change r' with (r', changed).1. rewrite <-E.
  apply (foldl_ind (λ acc, Q acc.1)); [|done]. intros [r1 c] st H1. cbn in H1. unfold expireOne.
  case_decide; cbn; framed.
Qed.

Lemma pollFile_frame raw r : Q r → Q (pollFile Sum256 raw r).
Proof. intros Hr. unfold pollFile. cbv zeta. case_match; framed. Qed.

Lemma allocated_frame r r' : allocated r r' → Q r → Q r'.
Proof. intros (h & n & -> & _). framed. Qed.

Lemma removeVIPs_frame l r failed errs removed r' failed' errs' removed' :
  removeVIPs l r failed errs removed = Ret (r', failed', errs', removed') → Q r → Q r'.
Proof.
  revert r failed errs removed. induction l as [|v l IH]; intros r failed errs removed; cbn.
  { by intros [= <- <- <- <-]. }
  destruct (Registry.RemoveVIP _ _ _) as [reg|]; [|done].
  destruct (pol_RemoveVIP _ _) as [pol err] eqn:E. intros Hl Hr.
  assert (Q (setPol (setReg r reg) pol)) as Hq.
  { apply fr_pol; [done| |framed]. cbn. replace pol with (pol, err).1 by done. rewrite <-E. constructor. }
  destruct err; apply IH in Hl; framed.
Qed.

Lemma addOne_frame now failed built acc v : Q acc.1 → Q (addOne now failed built acc v).1.
Proof.
  destruct acc as [r names]. unfold addOne. destruct (failed !! _); cbn; [framed|]. intros Hr.
  apply foldl_ind; [|framed]. framed.
Qed.

Lemma changeOne_frame now staged acc ch : Q acc.1.1 → Q (changeOne now staged acc ch).1.1.
Proof.
  destruct acc as [[r errs] pending]. cbn. intros Hr. destruct (staged !! _).
  - cbn. apply foldl_ind; [|framed]. intros ? ? ?. unfold watchShadow. framed.
  - destruct (pol_CommitVIP _ _ _ _) as [pol err] eqn:E. cbn. eapply commit_pol_frame; [exact E|]. framed.
Qed.

(** A diff is applied by framed steps, then the log level follows and the
    config is installed. *)
Lemma applyDiff_frame now cfg hash diff added staged r r' res :
  applyDiff zeroHash now cfg hash diff added staged r = Ret (r', res) → Q r →
  ∃ r1 cfg' hash' changed,
    Q r1 ∧ r' = setCur (applyLogLevel (Logging_Level (Cfg_Logging cfg)) r1).1 cfg' hash' changed now.
Proof.
  intros E Hr. revert E. unfold applyDiff.
  assert (Q (dropStagingLocked r)) as H0 by (unfold dropStagingLocked, dropShadow; framed).
  destruct (removeVIPs _ _ _ _ _) as [[[[r1 failed] errs] removed]|] eqn:E1; [|done].
  apply removeVIPs_frame in E1; [|done].
  pose proof (foldl_ind (λ acc, Q acc.1) (addOne now failed added) (Added diff) (r1, [])
    (addOne_frame now failed added) E1) as H2.
  destruct (foldl (addOne _ _ _) _ _) as [r2 names].
  pose proof (foldl_ind (λ acc, Q acc.1.1) (changeOne now staged) (Changed diff) (r2, errs, [])
    (changeOne_frame now staged) H2) as H3.
  destruct (foldl (changeOne _ _) _ _) as [[r3 errs3] pending].
  destruct (applyLogLevel _ _) as [r4 logErrs] eqn:E4. intros [= <- <-].
  eexists r3, _, _, _. split; [exact H3|]. by rewrite E4.
Qed.

(** A reload either leaves everything that runs as it was, or applies a
    diff. *)
Lemma reloadLocked_frame now loaded r r' res :
  reloadLocked zeroHash Sum256 newChecker now loaded r = Ret (r', res) → Q r →
  (RS_Outcome res = ReloadRejected ∨ RS_Outcome res = ReloadUnchanged) ∧ Q r' ∨
  ∃ r1 level cfg hash changed, Q r1 ∧ r' = setCur (applyLogLevel level r1).1 cfg hash changed now.
Proof.
  unfold reloadLocked. destruct loaded as [[cfg raw]|e]; [|intros [= <- <-]; by auto].
  case_decide; [intros [= <- <-]; left; split; [by right|by framed]|].
  destruct (RestartRequired _ _); [|intros [= <- <-]; left; split; [by left|by framed]].
  destruct (buildAdded _ _ _ _) as [[r1 added] err1] eqn:E1.
  destruct (buildAdded_spec _ _ _ _ _ _ _ r E1) as (A1 & _ & _); [apply allocated_refl|apply map_Forall_empty|].
  pose proof (allocated_frame _ _ A1) as H1.
  destruct err1 as [e1|]; [intros [= <- <-]; left; split; [by left|by framed]|].
  destruct (buildStaged _ _ _ _ _) as [[r2 staged] err2] eqn:E2.
  destruct (buildStaged_spec _ _ _ _ _ _ _ _ r E2) as (B1 & _ & _); [done|apply map_Forall_empty|].
  pose proof (allocated_frame _ _ B1) as H2.
  destruct err2 as [e2|]; [intros [= <- <-]; left; split; [by left|by framed]|].
  intros Hap Hr. right. apply applyDiff_frame in Hap; [|by auto].
  destruct Hap as (r3 & cfg' & hash' & ch & Hr3 & ->). by eexists r3, _, cfg', hash', ch.
Qed.

Lemma Reload_frame now loaded r r' res :
  Reload now loaded r = Ret (r', res) → Q r →
  untouched r r' ∧ Q r' ∨
  ∃ r1 level cfg hash changed,
    Q r1 ∧ r' = onChange (recordLocked res (setCur (applyLogLevel level r1).1 cfg hash changed now)).
Proof.
  unfold Reload.Reload. destruct (reloadLocked _ _ _ _ _ _) as [[r0 res0]|] eqn:E; [|done].
  intros [= <- <-] Hr. destruct (reloadLocked_frame _ _ _ _ _ E Hr) as [[Ho Hq]|(r1 & l & c & h & ch & H1 & ->)].
  - left. split; [apply untouched_record; by eapply reloadLocked_rejected|]. unfold recordLocked. framed.
  - right. by exists r1, l, c, h, ch.
Qed.
End Steps.

(** ** The number of configs that were applied *)

Lemma generation_frame g : frame (λ r, rl_generation r = g).
Proof. by constructor. Qed.

Lemma applyLogLevel_fields level r :
  rl_generation (applyLogLevel level r).1 = rl_generation r ∧ rl_pol (applyLogLevel level r).1 = rl_pol r.
Proof. unfold applyLogLevel. destruct (_ && _); [|done]. by destruct (SetLevel _ _) as [? []]. Qed.

Lemma Reload_generation now loaded r r' res :
  Reload now loaded r = Ret (r', res) → untouched r r' ∨ rl_generation r' = rl_generation r + 1.
Proof.
  intros E. destruct (Reload_frame _ (generation_frame (rl_generation r)) _ _ _ _ _ E eq_refl)
    as [[U _]|(r1 & l & c & h & ch & H1 & ->)]; [by left|].
  right. cbn. rewrite (proj1 (applyLogLevel_fields l r1)). lia.
Qed.

(** ** The policy manager, through its interface *)

(** A predicate on the policy state that every call keeps is kept by every
    step of the reloader. *)
Section Policy.
Context (I : P → Prop) (HI : ∀ p p', pol_call p p' → I p → I p').

Lemma policy_frame : frame (λ r, I (rl_pol r)).
Proof. constructor; try done. cbn. intros r p Hp. by apply HI. Qed.

Lemma Reload_policy now loaded r r' res : Reload now loaded r = Ret (r', res) → I (rl_pol r) → I (rl_pol r').
Proof.
  intros E Hr. destruct (Reload_frame _ policy_frame _ _ _ _ _ E Hr) as [[_ Hq]|(r1 & l & c & h & ch & H1 & ->)]; [done|].
  cbn. by rewrite (proj2 (applyLogLevel_fields l r1)).
Qed.

Lemma step_policy r r' : rl_step zeroHash Sum256 newChecker r r' → I (rl_pol r) → I (rl_pol r').
Proof.
  intros [] Hr.
  - by apply (schedResult_frame _ policy_frame).
  - by apply (commitReady_frame _ policy_frame).
  - by apply (expireStaged_frame _ policy_frame).
  - by apply (pollFile_frame _ policy_frame).
  - done.
  - by eapply Reload_policy.
Qed.
End Policy.

(** Until a reload is applied nothing is staged, and only results and
    transitions reach the policy manager. *)
Section Unreloaded.
Context (I : P → Prop).
Context (HT : ∀ now t p, I p → I (pol_OnHealthTransition now t p)).
Context (HR : ∀ now vip check res p, I p → I (pol_OnCheckResult now vip check res p)).

Definition unreloaded (g : Z) r : Prop :=
  g < rl_generation r ∨ rl_generation r = g ∧ rl_staging r = ∅ ∧ I (rl_pol r).

Lemma schedResult_pol now p res r : I (rl_pol r) → I (rl_pol (schedResult now p res r)).
Proof.
  intros Hr. unfold schedResult. destruct (rl_heap r !! p) as [s|]; [|done].
  destruct (runCheck s res) as [s' calls]. apply (foldl_ind (λ r, I (rl_pol r))); [|done].
  intros ra c Ha. destruct c as [[] ? ? ?|[] ?]; cbn; [by apply HR| |by apply HT].
  unfold shadowResult. destruct (rl_heap ra !! p); [|done]. by case_match.
Qed.

Lemma commitReady_idle now between r :
  rl_staging r = ∅ → rl_staging (commitReady now between r) = ∅ ∧ rl_pol (commitReady now between r) = rl_pol r.
Proof.
  intros Hs. unfold commitReady. cbv zeta.
  destruct (foldl_ind (λ acc, rl_staging acc.1 = ∅ ∧ rl_pol acc.1 = rl_pol r) (readyOne now between)
    (rl_verdicts r) (setVerdicts r [] false, false)) as [H1 H2].
  { intros [ra c] s [Ha Hp]. cbn in *. unfold readyOne. rewrite Ha, lookup_empty. done. }
  { done. }
  destruct (foldl _ _ _) as [r' []]; done.
Qed.

Lemma expireStaged_idle now between r : rl_staging r = ∅ → expireStaged now between r = r.
Proof. intros Hs. unfold expireStaged. rewrite Hs, map_to_list_empty. done. Qed.

Lemma Reload_unreloaded g now loaded r r' res :
  Reload now loaded r = Ret (r', res) → unreloaded g r → unreloaded g r'.
Proof.
  intros E Hu. destruct (Reload_generation _ _ _ _ _ E) as [U|Hg].
  - destruct U. unfold unreloaded. by rewrite un_generation0, un_staging0, un_pol0.
  - left. destruct Hu as [?|[? _]]; lia.
Qed.

Lemma step_unreloaded g r r' : rl_step zeroHash Sum256 newChecker r r' → unreloaded g r → unreloaded g r'.
Proof.
  intros Hst Hu.
  assert (∀ r', rl_generation r' = rl_generation r → (rl_staging r = ∅ → I (rl_pol r) → rl_staging r' = ∅ ∧ I (rl_pol r')) →
    unreloaded g r') as Hgen.
  { intros r1 Hg Hi. destruct Hu as [?|(? & Hs & Hp)]; [left; lia|right]. split; [lia|by apply Hi]. }
  pose proof (generation_frame (rl_generation r)) as GF.
  destruct Hst as [now p res r|now between r _|now between r|raw r|r|now loaded r r' res E].
  - apply Hgen; [by apply (schedResult_frame _ GF)|]. intros Hs Hp. rewrite schedResult_staging. split; [done|].
    by apply schedResult_pol.
  - apply Hgen; [by apply (commitReady_frame _ GF)|]. intros Hs Hp. by destruct (commitReady_idle now between r Hs) as [-> ->].
  - apply Hgen; [by apply (expireStaged_frame _ GF)|]. intros Hs Hp. by rewrite expireStaged_idle.
  - apply Hgen; [by apply (pollFile_frame _ GF)|]. intros Hs Hp. unfold pollFile. cbv zeta. by case_match.
  - by apply Hgen.
  - by eapply Reload_unreloaded.
Qed.
End Unreloaded.
End Frame.
End ReloadFrame.
