(* ===== verification/ReloadOutcome.v ===== *)
(** * What a reload leaves behind

    For each outcome of [Reload]: what runs afterwards, which config and hash
    the reloader holds, what the next reload of the same file does; that
    [Reload] returns when no removed VIP has more than one check; and the
    deadline a staged VIP gets. *)

From S2P Require Import Prelude GoStrings NetIP Config Model Metrics ChecksPolicy Engine.
From S2P Require Import Scheduler Registry Diff PolicyManager PolicyProofs Reload ReloadProofs.
From S2P Require Import ReloadStaging.

Module ReloadOutcome.
Import Reload ReloadProofs ReloadStaging.

Section Outcome.
Context {P : Type} `{Policy P} {Hash : Type} `{EqDecision Hash} (zeroHash : Hash) (Sum256 : string → Hash).
Context (newChecker : CheckConfig → result error string).
Local Notation Reloader := (Reload.Reloader (P := P) (Hash := Hash)).
Local Notation Reload := (Reload.Reload zeroHash Sum256 newChecker).

(** The difference a reload to [cfg] applies. *)
Definition diffTo (r : Reloader) (cfg : Config) : VIPChanges :=
  DiffVIPs (effectiveVIPsLocked r) (elems (Cfg_VIPs cfg)).

(** ** The loop over the removed VIPs *)

(** Every VIP it was given is reported removed or is in [failed] as it was;
    a failure comes with an error. *)
Lemma removeVIPs_accounts l (r : Reloader) failed errs removed r' failed' errs' removed' :
  removeVIPs l r failed errs removed = Ret (r', failed', errs', removed') →
  NoDup (VIP_Name <$> l) →
  (∀ v, v ∈ l → VIP_Name v ∉ removed ∧ failed !! VIP_Name v = None) →
  map_Forall (λ k v, VIP_Name v = k) failed → (failed = ∅ ∨ errs ≠ []) →
  (∀ v, v ∈ l → VIP_Name v ∈ removed' ∨ failed' !! VIP_Name v = Some v) ∧
  map_Forall (λ k v, VIP_Name v = k) failed' ∧ (failed' = ∅ ∨ errs' ≠ []) ∧
  removed ⊆ removed' ∧ failed ⊆ failed'.
Proof.
  revert r failed errs removed. induction l as [|v l IH]; intros r failed errs removed; cbn.
  { intros [= <- <- <- <-] _ _ ? ?. split_and!; try done. by intros ? ?%not_elem_of_nil. }
  destruct (Registry.RemoveVIP _ _ _) as [reg|]; [|done].
  intros Hr [Hv Hnd]%NoDup_cons Hl Hk He.
  assert (∀ w, w ∈ l → VIP_Name w ≠ VIP_Name v) as Hne
    by (intros w Hw Heq; apply Hv; rewrite <-Heq; by apply list_elem_of_fmap_2).
  destruct (Hl v) as [Hv1 Hv2]; [by left|].
  assert (∀ w, w ∈ l → VIP_Name w ∉ removed ∧ failed !! VIP_Name w = None) as Hl'
    by (intros; apply Hl; by right).
  destruct (pol_RemoveVIP _ _) as [pol [e|]].
  - destruct (IH _ _ _ _ Hr Hnd) as (I1 & I2 & I3 & I4 & I5).
    + intros w Hw. destruct (Hl' w Hw). split; [done|]. rewrite lookup_insert_ne; [done|]. symmetry. by apply Hne.
    + by apply map_Forall_insert_2.
    + right. by destruct errs.
    + split_and!; try done; [|by etrans; [apply insert_subseteq|]].
      intros w [->|Hw]%elem_of_cons; [|by apply I1]. right.
      eapply lookup_weaken; [|exact I5]. apply lookup_insert_eq.
  - destruct (IH _ _ _ _ Hr Hnd) as (I1 & I2 & I3 & I4 & I5); [|done|done|].
    + intros w Hw. destruct (Hl' w Hw). split; [|done]. apply not_elem_of_app. split; [done|].
      rewrite list_elem_of_singleton. by apply Hne.
    + split_and!; try done; [|set_solver].
      intros w [->|Hw]%elem_of_cons; [|by apply I1]. left. apply I4. set_solver.
Qed.

(** Nothing kept is reported as added. *)
Lemma addOne_names now failed built (l : list VIPConfig) (acc : Reloader * list string) :
  (∀ n, n ∈ acc.2 → failed !! n = None) →
  ∀ n, n ∈ (foldl (addOne now failed built) acc l).2 → failed !! n = None.
Proof.
  apply (foldl_ind (λ acc, ∀ n, n ∈ acc.2 → failed !! n = None)). intros [r names] v Ha.
  unfold addOne. destruct (failed !! VIP_Name v) eqn:E; [done|]. cbn.
  intros n [Hn|Hn%list_elem_of_singleton]%elem_of_app; [by apply Ha|by subst].
Qed.

Lemma changeOne_errs now staged (l : list VIPChange) (acc : Reloader * list error * list string) :
  acc.1.2 ≠ [] → (foldl (changeOne now staged) acc l).1.2 ≠ [].
Proof.
  apply (foldl_ind (λ acc, acc.1.2 ≠ [])). intros [[r errs] pending] ch Hne. cbn in *.
  destruct (staged !! _); [done|]. destruct (pol_CommitVIP _ _ _ _) as [pol [e|]]; cbn; [by destruct errs|done].
Qed.

(** ** The running config *)

Lemma setVIPs_same cfg : setVIPs cfg (elems (Cfg_VIPs cfg)) = cfg.
Proof. destruct cfg as [? ? ? ? ? ? ? [[|v l]|]]; done. Qed.

Lemma setVIPs_elems cfg vips v : v ∈ vips → v ∈ elems (Cfg_VIPs (setVIPs cfg vips)).
Proof. by destruct vips as [|x l]; [intros ?%not_elem_of_nil|]. Qed.

Lemma keepOld_in vips v : v ∈ keepOld vips v.
Proof.
  unfold keepOld. destruct (list_find _ _) as [[i x]|] eqn:E; [|set_solver].
  apply list_find_Some in E as (Hi & _). apply lookup_lt_Some in Hi.
  by eapply list_elem_of_lookup_2, list_lookup_insert_eq.
Qed.

Lemma keepOld_other vips v w : VIP_Name w ≠ VIP_Name v → v ∈ vips → v ∈ keepOld vips w.
Proof.
  intros Hne Hv. unfold keepOld. destruct (list_find _ _) as [[i x]|] eqn:E; [|set_solver].
  apply list_find_Some in E as (Hi & Hx & _). apply list_elem_of_lookup in Hv as [j Hj].
  apply (list_elem_of_lookup_2 _ j). rewrite list_lookup_insert_ne; [done|]. intros <-. congruence.
Qed.

Lemma keepOld_fold vips (l : list VIPConfig) v :
  (∀ w, w ∈ l → VIP_Name w = VIP_Name v → w = v) → v ∈ vips ∨ v ∈ l → v ∈ foldl keepOld vips l.
Proof.
  revert vips. induction l as [|w l IH]; intros vips Hu Hv; cbn.
  { by destruct Hv as [?|?%not_elem_of_nil]. }
  apply IH; [intros; apply Hu; [by right|done]|].
  destruct (decide (VIP_Name w = VIP_Name v)) as [Hw|Hw].
  - left. rewrite (Hu w) by (by left || done). apply keepOld_in.
  - destruct Hv as [Hv|[->|Hv]%elem_of_cons]; [left; by apply keepOld_other|done|by right].
Qed.

(** What [applyDiff] leaves in the reloader. *)
Lemma applyDiff_accounts now cfg hash diff added staged (r r' : Reloader) res :
  applyDiff zeroHash now cfg hash diff added staged r = Ret (r', res) →
  NoDup (VIP_Name <$> Removed diff) →
  ∃ failed : gmap string VIPConfig,
    rl_cur r' = setVIPs cfg (foldl keepOld (elems (Cfg_VIPs cfg)) (map_to_list failed).*2) ∧
    rl_curHash r' = (if bool_decide (failed = ∅) then hash else zeroHash) ∧
    rl_fileChanged r' = negb (bool_decide (failed = ∅)) ∧
    (∀ v, v ∈ Removed diff → VIP_Name v ∈ RS_Removed res ∨ failed !! VIP_Name v = Some v) ∧
    map_Forall (λ k v, VIP_Name v = k) failed ∧
    (∀ n, n ∈ RS_Added res → failed !! n = None) ∧
    (failed ≠ ∅ → RS_Outcome res = ReloadFailed).
Proof.
  intros Ha Hnd. revert Ha. unfold applyDiff.
  destruct (removeVIPs _ _ _ _ _) as [[[[r1 failed] errs] removed]|] eqn:E1; [|done].
  destruct (removeVIPs_accounts _ _ _ _ _ _ _ _ _ E1) as (A1 & A2 & A3 & _ & _); [done| |done|by left|].
  { intros v _. split; [apply not_elem_of_nil|apply lookup_empty]. }
  pose proof (addOne_names now failed added (Added diff) (r1, [])) as Hn.
  destruct (foldl (addOne _ _ _) _ _) as [r2 names] eqn:E2.
  pose proof (changeOne_errs now staged (Changed diff) (r2, errs, [])) as He.
  destruct (foldl (changeOne _ _) _ _) as [[r3 errs3] pending] eqn:E3.
  destruct (applyLogLevel _ _) as [r4 logErrs]. intros [= <- <-]. exists failed. cbn in *.
  split_and!; try done.
  - apply Hn. by intros ? ?%not_elem_of_nil.
  - intros Hf. destruct A3 as [|A3]; [done|]. by destruct errs3; [destruct (He A3)|].
Qed.

Lemma applyDiff_meta now cfg hash diff added staged (r r' : Reloader) res :
  applyDiff zeroHash now cfg hash diff added staged r = Ret (r', res) →
  rl_loadedAt r' = now ∧ RS_At res = now.
Proof.
  unfold applyDiff. destruct (removeVIPs _ _ _ _ _) as [[[[r1 failed] errs] removed]|]; [|done].
  destruct (foldl _ _ _) as [r2 names]. destruct (foldl _ _ _) as [[r3 errs'] pending].
  destruct (applyLogLevel _ _) as [r4 logErrs]. by intros [= <- <-].
Qed.

Lemma removed_names (r : Reloader) cfg :
  NoDup (VIP_Name <$> effectiveVIPsLocked r) → NoDup (VIP_Name <$> elems (Cfg_VIPs cfg)) →
  NoDup (VIP_Name <$> Removed (diffTo r cfg)).
Proof.
  intros Hr Hc. destruct (DiffVIPs_accounts _ _ Hr Hc) as [_ Hp]. fold (diffTo r cfg) in Hp.
  rewrite <-Hp in Hr. by apply NoDup_app in Hr as [? _].
Qed.

(** A reload that is neither rejected nor unchanged applied the difference. *)
Lemma Reload_applies now cfg raw (r r' : Reloader) res :
  Reload now (Ok (cfg, raw)) r = Ret (r', res) →
  RS_Outcome res = ReloadApplied ∨ RS_Outcome res = ReloadFailed →
  ∃ rb ra added staged,
    applyDiff zeroHash now cfg (Sum256 raw) (diffTo r cfg) added staged rb = Ret (ra, res) ∧
    r' = onChange (recordLocked res ra).
Proof.
  unfold Reload.Reload. destruct (reloadLocked _ _ _ _ _ _) as [[r1 res1]|] eqn:E; [|done].
  intros [= <- <-] Ho.
  destruct (reloadLocked_cases _ _ _ _ _ _ _ _ E)
    as [[_ Hn]|(cfg' & raw' & ra & rb & added & staged & [= <- <-] & _ & _ & _ & _ & Ha)].
  { destruct Ho, Hn; congruence. }
  by exists rb, r1, added, staged.
Qed.

(** ** [Reload] returns *)

(** What the loop needs of the registry: listed schedulers are under their
    own VIP. *)
Definition listed_right (h : gmap ptr Sched) (reg : Registry) : Prop :=
  ∀ vip s, s ∈ visibleOf reg vip → vipOf h s = vip.

Lemma deleteAt_sub {A} i (l : list A) x : x ∈ deleteAt i l → x ∈ l.
Proof.
  unfold deleteAt. intros Hx. rewrite <-(take_drop i l). apply elem_of_app.
  apply elem_of_app in Hx as [Hx|Hx]; [by left|right].
  rewrite <-Nat.add_1_r, <-drop_drop in Hx. destruct (drop i l) as [|y l']; [done|by right].
Qed.

Lemma Remove_shrinks h s reg vip :
  (length (visibleOf (Registry.Remove (vipOf h) s reg) vip) ≤ length (visibleOf reg vip))%nat ∧
  ∀ x, x ∈ visibleOf (Registry.Remove (vipOf h) s reg) vip → x ∈ visibleOf reg vip.
Proof.
  rewrite visibleOf_Remove. case_decide; [|done]. subst.
  destruct (list_find _ _) as [[i y]|] eqn:E; [|done]. split; [|apply deleteAt_sub].
  apply list_find_Some in E as (Hi & _). apply deleteAt_length in Hi. lia.
Qed.

Lemma Add_visible (V : ptr → string) s reg vip :
  visibleOf (Registry.Add V s reg) vip =
    if decide (vip = V s) then visibleOf reg vip ++ [s] else visibleOf reg vip.
Proof.
  unfold Registry.Add, visibleOf. case_match; cbn; case_decide; subst;
    rewrite ?lookup_insert_eq, ?lookup_insert_ne by done; done.
Qed.

Lemma RemoveVIP_returns h reg vip :
  (length (visibleOf reg vip) ≤ 1)%nat → listed_right h reg →
  ∃ reg', Registry.RemoveVIP (vipOf h) vip reg = Ret reg' ∧ listed_right h reg' ∧
          ∀ w, (length (visibleOf reg' w) ≤ length (visibleOf reg w))%nat.
Proof.
  intros Hlen Hl. destruct (visibleOf reg vip) as [|s [|s' l]] eqn:E; cbn in Hlen; [| |lia].
  - exists reg. by rewrite RemoveVIP_none.
  - exists (Registry.Remove (vipOf h) s reg). rewrite (RemoveVIP_single _ _ s) by done. split; [done|]. split.
    + intros w x Hx. apply Hl. by eapply Remove_shrinks.
    + intros w. apply Remove_shrinks.
Qed.

(** Putting the checks of a VIP back. *)
Lemma readd_others h (l : list ptr) reg vip w :
  (∀ s, s ∈ l → vipOf h s = vip) → w ≠ vip →
  visibleOf (foldl (λ reg s, Registry.Add (vipOf h) s reg) reg l) w = visibleOf reg w.
Proof.
  revert reg. induction l as [|s l IH]; intros reg Hl Hne; [done|]. cbn.
  rewrite IH; [|intros; apply Hl; by right|done]. rewrite Add_visible, decide_False; [done|].
  by rewrite (Hl s) by (by left).
Qed.

Lemma readd_listed h (l : list ptr) reg :
  listed_right h reg → listed_right h (foldl (λ reg s, Registry.Add (vipOf h) s reg) reg l).
Proof.
  apply (foldl_ind (listed_right h)). intros reg' s Hr vip x. rewrite Add_visible.
  case_decide as Hv; [|by apply Hr]. intros [Hx|Hx%list_elem_of_singleton]%elem_of_app; [by apply Hr|by subst].
Qed.

Lemma removeVIPs_returns l (r : Reloader) failed errs removed :
  NoDup (VIP_Name <$> l) → listed_right (rl_heap r) (rl_reg r) →
  (∀ v, v ∈ l → (length (visibleOf (rl_reg r) (VIP_Name v)) ≤ 1)%nat) →
  ∃ out, removeVIPs l r failed errs removed = Ret out.
Proof.
  revert r failed errs removed. induction l as [|v l IH]; intros r failed errs removed; [by eexists|].
  cbn. intros [Hv Hnd]%NoDup_cons Hl Hlen.
  destruct (RemoveVIP_returns (rl_heap r) (rl_reg r) (VIP_Name v)) as (reg' & -> & Hl' & Hle); [|done|].
  { apply Hlen. by left. }
  assert (∀ w, w ∈ l → (length (visibleOf reg' (VIP_Name w)) ≤ 1)%nat) as Hlen'
    by (intros w Hw; etrans; [apply Hle|apply Hlen; by right]).
  destruct (pol_RemoveVIP _ _) as [pol [e|]]; apply IH; cbn; try done.
  - by apply readd_listed.
  - intros w Hw. rewrite (readd_others _ _ _ (VIP_Name v)); [by apply Hlen'|by intros s; apply Hl|].
    intros Heq. apply Hv. rewrite <-Heq. by apply list_elem_of_fmap_2.
Qed.

Lemma dropStaging_reg (r : Reloader) :
  listed_right (rl_heap r) (rl_reg r) →
  listed_right (rl_heap r) (rl_reg (dropStagingLocked r)) ∧
  ∀ w, (length (visibleOf (rl_reg (dropStagingLocked r)) w) ≤ length (visibleOf (rl_reg r) w))%nat.
Proof.
  intros Hl. unfold dropStagingLocked. cbn. set (l := _ ≫= _). clearbody l.
  cut (let r' := foldl dropShadow r l in rl_heap r' = rl_heap r ∧ listed_right (rl_heap r) (rl_reg r') ∧
       ∀ w, (length (visibleOf (rl_reg r') w) ≤ length (visibleOf (rl_reg r) w))%nat).
  { by intros (_ & ? & ?). }
  apply (foldl_ind (λ r', rl_heap r' = rl_heap r ∧ listed_right (rl_heap r) (rl_reg r') ∧
    ∀ w, (length (visibleOf (rl_reg r') w) ≤ length (visibleOf (rl_reg r) w))%nat)); [|done].
  intros r' s (Hh & Hr & Hle). cbn. split; [done|]. split.
  - intros vip x Hx. apply Hr. by eapply Remove_shrinks.
  - intros w. etrans; [apply Remove_shrinks|apply Hle].
Qed.

Lemma applyDiff_returns now cfg hash diff added staged (r : Reloader) :
  NoDup (VIP_Name <$> Removed diff) → listed_right (rl_heap r) (rl_reg r) →
  (∀ v, v ∈ Removed diff → (length (visibleOf (rl_reg r) (VIP_Name v)) ≤ 1)%nat) →
  ∃ out, applyDiff zeroHash now cfg hash diff added staged r = Ret out.
Proof.
  intros Hnd Hl Hlen. destruct (dropStaging_reg r Hl) as [Hl' Hle]. destruct (dropStaging_fixed r) as (Hh & _ & _).
  unfold applyDiff. destruct (removeVIPs_returns (Removed diff) (dropStagingLocked r) ∅ [] [])
    as ([[[r1 failed] errs] removed] & ->); [done|by rewrite Hh| |].
  { intros v Hv. etrans; [apply Hle|by apply Hlen]. }
  destruct (foldl _ _ _) as [r2 names]. destruct (foldl _ _ _) as [[r3 errs'] pending].
  destruct (applyLogLevel _ _) as [r4 logErrs]. by eexists.
Qed.

Lemma allocated_listed (r r' : Reloader) :
  allocated r r' → (∀ vip s, s ∈ visibleOf (rl_reg r) vip → (s < rl_nextPtr r)%nat) →
  listed_right (rl_heap r) (rl_reg r) → listed_right (rl_heap r') (rl_reg r') ∧ rl_reg r' = rl_reg r.
Proof.
  intros (h & n & -> & _ & Hh) Hlt Hl. split; [|done]. intros vip s Hs. unfold vipOf. cbn.
  rewrite Hh by (by eapply Hlt). by apply Hl.
Qed.

Lemma Reload_returned now loaded (r : Reloader) :
  (∀ vip s, s ∈ visibleOf (rl_reg r) vip → vipOf (rl_heap r) s = vip ∧ (s < rl_nextPtr r)%nat) →
  (∀ cfg raw, loaded = Ok (cfg, raw) →
     NoDup (VIP_Name <$> Removed (diffTo r cfg)) ∧
     ∀ v, v ∈ Removed (diffTo r cfg) → (length (visibleOf (rl_reg r) (VIP_Name v)) ≤ 1)%nat) →
  ∃ r' res, Reload now loaded r = Ret (r', res).
Proof.
  intros Hreg Hone. unfold Reload.Reload.
  enough (∃ out, reloadLocked zeroHash Sum256 newChecker now loaded r = Ret out) as [[r1 res] ->]
    by by eexists _, _.
  unfold reloadLocked. destruct loaded as [[cfg raw]|e]; [|by eexists].
  destruct (Hone cfg raw eq_refl) as [Hnd Hlen]. unfold diffTo in *.
  case_decide; [by eexists|]. destruct (RestartRequired _ _); [|by eexists].
  destruct (buildAdded _ _ _ _) as [[ra added] err1] eqn:Ea.
  destruct (buildAdded_spec _ _ _ _ _ _ _ r Ea) as (A1 & _ & _); [apply allocated_refl|apply map_Forall_empty|].
  destruct err1; [by eexists|]. destruct (buildStaged _ _ _ _ _) as [[rb staged] err2] eqn:Eb.
  destruct (buildStaged_spec _ _ _ _ _ _ _ _ r Eb) as (B1 & _ & _); [done|apply map_Forall_empty|].
  destruct err2; [by eexists|].
  destruct (allocated_listed r rb B1) as [Hl Hr]; [intros vip s Hs; by apply (Hreg vip)|intros vip s Hs; by apply Hreg|].
  apply applyDiff_returns; [done|done|]. by rewrite Hr.
Qed.

(** ** The deadline of a staged VIP *)

(** The longest time a check of the list needs for a verdict. *)
Definition slowest (scheds : list Sched) : Z :=
  foldl (λ w s, w `max` ((sc_rise s `max` sc_fall s) * sc_interval s)) 0 scheds.

Lemma slowest_bound (scheds : list Sched) s :
  s ∈ scheds → (sc_rise s `max` sc_fall s) * sc_interval s ≤ slowest scheds.
Proof.
  unfold slowest. induction scheds as [|x l IH] using rev_ind; [by intros ?%not_elem_of_nil|].
  rewrite foldl_app. cbn. intros [Hs|Hs%list_elem_of_singleton]%elem_of_app; [apply IH in Hs|subst]; lia.
Qed.

Lemma stagingDeadline_exact now (scheds : list Sched) :
  (∀ s, s ∈ scheds → 0 ≤ (sc_rise s `max` sc_fall s) * sc_interval s < 2 ^ 61) →
  stagingDeadline now scheds = now + 4 * slowest scheds.
Proof.
  intros Hs. unfold stagingDeadline, slowest. f_equal.
  assert (foldl (λ w s, w `max` wrap64 ((sc_rise s `max` sc_fall s) * sc_interval s)) 0 scheds =
          foldl (λ w s, w `max` ((sc_rise s `max` sc_fall s) * sc_interval s)) 0 scheds ∧
          0 ≤ foldl (λ w s, w `max` ((sc_rise s `max` sc_fall s) * sc_interval s)) 0 scheds < 2 ^ 61) as [-> Hb].
  { induction scheds as [|x l IH] using rev_ind; [cbn; lia|].
    destruct IH as [IH Hb]; [intros; apply Hs; set_solver|]. rewrite !foldl_app. cbn. rewrite IH.
    destruct (Hs x) as [H1 H2]; [set_solver|]. rewrite wrap64_id by lia. lia. }
  unfold stagingGraceFactor. apply wrap64_id. lia.
Qed.

(** ** The properties *)

(** C11: A reload that is rejected, or finds the file unchanged, touches
    nothing that runs: the config and its hash, the staged VIPs, the
    registry, the policy manager, the log levels and every existing scheduler
    are what they were, and every checker it closed it had built itself; the
    attempt is recorded as the last reload. *)
Theorem Reload_rejected_untouched now loaded (r r' : Reloader) res :
  Reload now loaded r = Ret (r', res) →
  RS_Outcome res = ReloadRejected ∨ RS_Outcome res = ReloadUnchanged →
  untouched r r' ∧ rl_last r' = Some res.
Proof.
  unfold Reload.Reload. destruct (reloadLocked _ _ _ _ _ _) as [[r1 res1]|] eqn:E; [|done].
  intros [= <- <-] Ho. split; [|done]. apply untouched_record. by eapply reloadLocked_rejected.
Qed.

(** C24: After a reload that was applied without error the daemon runs the
    file: the running config is the one that was read, its hash is the hash
    of the file, the file no longer counts as changed; and reloading the same
    bytes again, whatever they parse to, is reported unchanged and touches
    nothing. *)
Theorem Reload_applied_idempotent now cfg raw (r r' : Reloader) res now' cfg' :
  Reload now (Ok (cfg, raw)) r = Ret (r', res) → RS_Outcome res = ReloadApplied →
  NoDup (VIP_Name <$> effectiveVIPsLocked r) → NoDup (VIP_Name <$> elems (Cfg_VIPs cfg)) →
  rl_cur r' = cfg ∧ rl_curHash r' = Sum256 raw ∧ rl_fileChanged r' = false ∧ rl_loadedAt r' = now ∧
  ∃ r'' res', Reload now' (Ok (cfg', raw)) r' = Ret (r'', res') ∧
              RS_Outcome res' = ReloadUnchanged ∧ untouched r' r''.
Proof.
  intros Hr Ho Hn1 Hn2. destruct (Reload_applies _ _ _ _ _ _ Hr) as (rb & ra & added & staged & Ha & ->); [by left|].
  destruct (applyDiff_meta _ _ _ _ _ _ _ _ _ Ha) as [Ht _].
  destruct (applyDiff_accounts _ _ _ _ _ _ _ _ _ Ha (removed_names _ _ Hn1 Hn2))
    as (failed & Hc & Hh & Hf & _ & _ & _ & Hfail).
  destruct (decide (failed = ∅)) as [->|Hne]; [|rewrite Hfail in Ho; done].
  rewrite bool_decide_true in Hh, Hf by done. cbn in Hc. rewrite setVIPs_same in Hc.
  split_and!; [done..|]. unfold Reload.Reload, reloadLocked. cbn. rewrite decide_True by done.
  eexists _, _. split; [done|]. split; [done|]. by apply untouched_record, untouched_fileChanged.
Qed.



(** The deadline of a staged VIP is exactly four times the slowest
    verdict window of its new checks after the reload, so it lies after the
    time each of them needs to reach its thresholds, as long as every window
    is shorter than 2^61 nanoseconds (73 years). *)
Theorem stagingDeadline_bounds now (scheds : list Sched) :
  (∀ s, s ∈ scheds → 0 ≤ (sc_rise s `max` sc_fall s) * sc_interval s < 2 ^ 61) →
  stagingDeadline now scheds = now + 4 * slowest scheds ∧
  ∀ s, s ∈ scheds → now + 4 * ((sc_rise s `max` sc_fall s) * sc_interval s) ≤ stagingDeadline now scheds.
Proof.
  intros Hs. rewrite stagingDeadline_exact by done. split; [done|]. intros s Hin.
  pose proof (slowest_bound scheds s Hin). lia.
Qed.

End Outcome.
End ReloadOutcome.
