(* ===== verification/ReloadOwns.v ===== *)
(** * Who owns a scheduler

    A scheduler the reloader has built is listed in the registry, runs as the
    shadow of a staged VIP, is built and not launched yet, or was closed.
    [owns] states that these are disjoint, that a goroutine exists exactly for
    the listed schedulers and the shadows, and that the registry keeps its
    invariant; every operation of the registry moves schedulers from one
    owner to another.  [runs_as] adds what the listed schedulers are: the
    settings of the checks that govern the VIPs. *)

From S2P Require Import Prelude GoStrings NetIP Config Model Metrics Scheduler Registry Diff.
From S2P Require Import PolicyManager Logging Reload ReloadProofs ReloadStaging ReloadOutcome.

Module ReloadOwns.
Import Reload ReloadProofs ReloadStaging ReloadOutcome.

(** ** What the registry lists and runs *)

Definition listed (reg : Registry) (p : ptr) : Prop := ∃ vip, p ∈ visibleOf reg vip.
Definition launched (reg : Registry) (p : ptr) : Prop := is_Some (reg_running reg !! p).

Section Listed.
Context (V C : ptr → string).
Implicit Types (reg : Registry) (p x : ptr).

Lemma listed_under reg p : reg_ok V C reg → listed reg p → p ∈ visibleOf reg (V p).
Proof. intros (Hl & _) [vip Hp]. by rewrite (proj2 (lists_ok_visibleOf V C reg vip Hl) p Hp). Qed.

(** A VIP lists one scheduler per check name. *)
Lemma listed_inj reg p x :
  reg_ok V C reg → listed reg p → listed reg x → V p = V x → C p = C x → p = x.
Proof.
  intros Hok Hp Hx Hv Hc. apply (listed_under _ _ Hok) in Hp. apply (listed_under _ _ Hok) in Hx.
  rewrite <-Hv in Hx. eapply NoDup_fmap_elem_of; [by apply (lists_ok_visibleOf V C reg (V p)), Hok|done..].
Qed.

Lemma Remove_listed reg p x : reg_ok V C reg → listed (Registry.Remove V p reg) x ↔ listed reg x ∧ x ≠ p.
Proof.
  intros (Hl & _). unfold listed. setoid_rewrite (Remove_visible_elem V C p reg); [|done]. naive_solver.
Qed.
Lemma Remove_launched reg p x : launched (Registry.Remove V p reg) x ↔ launched reg x ∧ x ≠ p.
Proof. clear C. unfold launched. rewrite Remove_running. case_decide; [|by split; [|intros []]]. split; [by intros []|by intros []]. Qed.
Lemma Remove_started reg p : reg_started (Registry.Remove V p reg) = reg_started reg.
Proof. clear C. unfold Registry.Remove. by rewrite stopRunning_started. Qed.

Lemma Add_listed reg p x : listed (Registry.Add V p reg) x ↔ listed reg x ∨ x = p.
Proof. clear C.
  unfold listed. setoid_rewrite Add_visible. split.
  - intros [vip Hx]. case_decide; [|by eauto]. apply elem_of_app in Hx as [?|?%list_elem_of_singleton]; eauto.
  - intros [[vip Hx]| ->]; [exists vip|exists (V p)]; case_decide; try done; set_solver.
Qed.
Lemma Add_launched reg p x :
  reg_started reg = true → launched (Registry.Add V p reg) x ↔ launched reg x ∨ x = p.
Proof. clear C.
  intros Hst. unfold launched, Registry.Add. cbn. rewrite Hst. cbn. destruct (decide (x = p)) as [->|Hne].
  - rewrite lookup_insert_eq. naive_solver.
  - rewrite lookup_insert_ne by done. naive_solver.
Qed.
Lemma Add_started reg p : reg_started (Registry.Add V p reg) = reg_started reg.
Proof. clear C. unfold Registry.Add. by case_match. Qed.

Lemma AddShadow_launched reg p x : launched (AddShadow p reg) x ↔ launched reg x ∨ x = p.
Proof. clear V C.
  unfold launched. cbn. destruct (decide (x = p)) as [->|Hne].
  - rewrite lookup_insert_eq. naive_solver.
  - rewrite lookup_insert_ne by done. naive_solver.
Qed.

(** [Promote] returns the listed scheduler of its VIP and check. *)
Lemma Promote_old reg p o :
  reg_ok V C reg → (Promote V C p reg).2 = Some o ↔ listed reg o ∧ V o = V p ∧ C o = C p.
Proof.
  intros Hok. pose proof Hok as (Hl & _). destruct (lists_ok_visibleOf V C reg (V p) Hl) as [Hnd Hv].
  rewrite Promote_returns. unfold promoted. destruct (list_find _ _) as [[i y]|] eqn:E; cbn.
  - apply list_find_Some in E as (Hi & Hc & _). apply list_elem_of_lookup_2 in Hi. split.
    + intros [= <-]. split; [by exists (V p)|]. split; [by apply Hv|done].
    + intros (Ho & Hvo & Hco). f_equal. apply (listed_inj reg); [done|by exists (V p)|done| |congruence].
      rewrite Hvo. by apply Hv.
  - apply list_find_None in E. rewrite Forall_forall in E. split; [done|]. intros (Ho & Hvo & Hco).
    apply (listed_under _ _ Hok) in Ho. rewrite Hvo in Ho. by destruct (E o Ho).
Qed.
Lemma Promote_listed reg p x :
  reg_ok V C reg → listed (Promote V C p reg).1 x ↔ x = p ∨ listed reg x ∧ (Promote V C p reg).2 ≠ Some x.
Proof.
  intros Hok. pose proof Hok as (Hl & _). destruct (lists_ok_visibleOf V C reg (V p) Hl) as [Hnd Hv].
  pose proof (λ o, Promote_old reg p o Hok) as Hold. rewrite Promote_returns in *.
  unfold listed at 1. setoid_rewrite visibleOf_Promote. split.
  - intros [vip Hx]. destruct (decide (vip = V p)) as [->|Hne].
    + rewrite promoted_elem in Hx by done. destruct Hx as [?|[Hx ?]]; [by left|]. right. split; [by exists (V p)|done].
    + right. split; [by exists vip|]. intros (_ & Hvx & _)%Hold.
      by rewrite (proj2 (lists_ok_visibleOf V C reg vip Hl) x Hx) in Hvx.
  - intros [->|[Hx Ho]].
    + exists (V p). rewrite decide_True by done. apply promoted_elem; auto.
    + exists (V x). pose proof (listed_under _ _ Hok Hx) as Hvx. case_decide as Hd; [|done].
      rewrite <-Hd in *. apply promoted_elem; auto.
Qed.
Lemma Promote_launched reg p x :
  launched (Promote V C p reg).1 x ↔ launched reg x ∧ (Promote V C p reg).2 ≠ Some x.
Proof.
  unfold launched. rewrite Promote_running. case_decide; [split; [by intros []|naive_solver]|].
  rewrite unshadow_lookup. case_decide; subst; [|naive_solver]. destruct (reg_running reg !! p); naive_solver.
Qed.
Lemma Promote_started reg p : reg_started (Promote V C p reg).1 = reg_started reg.
Proof. rewrite Promote_eq. destruct (promoted _ _ _) as [l [o|]]; cbn; by rewrite ?stopRunning_started. Qed.

(** The invariant looks at the names of listed schedulers only. *)
Lemma reg_ok_names (V' C' : ptr → string) reg :
  (∀ p, listed reg p → V' p = V p ∧ C' p = C p) → reg_ok V C reg → reg_ok V' C' reg.
Proof.
  intros Hn (Hl & Hg & Hr). split; [|done]. intros vip l Hvis. destruct (Hl vip l Hvis) as (Hne & Hnd & Hv).
  assert (∀ s, s ∈ l → V' s = V s ∧ C' s = C s) as Hs.
  { intros s Hs. apply Hn. exists vip. unfold visibleOf. by rewrite Hvis. }
  split; [done|]. split; [|intros s Hin; by rewrite (proj1 (Hs s Hin)), Hv].
  replace (C' <$> l) with (C <$> l); [done|]. apply list_fmap_ext. intros i s Hi.
  symmetry. apply Hs. by eapply list_elem_of_lookup_2.
Qed.
End Listed.

(** ** Settings *)

(** What a scheduler is built with; its checker aside, this is all of it. *)
Record Settings := mkSettings {
  set_vip : string; set_check : string; set_interval : Z; set_timeout : Z; set_rise : Z; set_fall : Z }.
#[export] Instance Settings_eq_dec : EqDecision Settings.
Proof. solve_decision. Defined.

Definition settings (s : Sched) : Settings :=
  mkSettings (sc_vipName s) (sc_checkName s) (sc_interval s) (sc_timeout s) (sc_rise s) (sc_fall s).
Definition settingsOf (h : gmap ptr Sched) (p : ptr) : option Settings := settings <$> h !! p.

(** The settings a check of a VIP asks for. *)
Definition wanted (v : VIPConfig) (c : CheckConfig) : Settings :=
  mkSettings (VIP_Name v) (EffectiveName c) (default 1000000000 (Check_Interval c))
    (default 100000000 (Check_Timeout c)) (default 1 (Check_Rise c)) (default 3 (Check_Fall c)).

Lemma settings_names h p d : settingsOf h p = Some d → vipOf h p = set_vip d ∧ checkOf h p = set_check d.
Proof. unfold settingsOf, vipOf, checkOf. by intros (x & -> & ->)%fmap_Some. Qed.

Lemma settings_same h h' p :
  settingsOf h' p = settingsOf h p → vipOf h' p = vipOf h p ∧ checkOf h' p = checkOf h p.
Proof.
  unfold settingsOf, vipOf, checkOf. destruct (h !! p) as [x|], (h' !! p) as [y|]; cbn; try done.
  by intros [= -> -> _ _ _ _].
Qed.

(** ** Owners *)

(** [U] are the schedulers built and not launched, [S] the shadows. *)
Record owns (U S : gset ptr) (h : gmap ptr Sched) (n : ptr) (reg : Registry) (c : gset ptr) : Prop := mkOwns {
  ow_reg : reg_ok (vipOf h) (checkOf h) reg;
  ow_started : reg_started reg = true;
  ow_held p : listed reg p ∨ p ∈ S ∨ p ∈ U → (p < n)%nat ∧ p ∉ c ∧ is_Some (settingsOf h p);
  ow_closed p : p ∈ c → (p < n)%nat;
  ow_shadow p : p ∈ S → ¬ listed reg p ∧ p ∉ U;
  ow_built p : p ∈ U → ¬ listed reg p;
  ow_launched p : launched reg p ↔ listed reg p ∨ p ∈ S }.

Section Owns.
Context (U S : gset ptr) (h : gmap ptr Sched) (n : ptr) (reg : Registry) (c : gset ptr).
Context (Ho : owns U S h n reg c).
Implicit Types p x : ptr.

Lemma owns_detach p :
  listed reg p ∨ p ∈ S → owns ({[p]} ∪ U) (S ∖ {[p]}) h n (Registry.Remove (vipOf h) p reg) c.
Proof.
  intros Hp. destruct Ho as [Hreg Hst Hh Hc Hs Hb Hl].
  pose proof (λ x, Remove_listed (vipOf h) _ reg p x Hreg) as HL.
  pose proof (λ x, Remove_launched (vipOf h) reg p x) as HR. constructor.
  - by apply Remove_preserves.
  - by rewrite Remove_started.
  - intros x Hx. apply Hh. rewrite HL in Hx. set_solver.
  - done.
  - intros x Hx. rewrite HL. set_solver.
  - intros x Hx. rewrite HL. set_solver.
  - intros x. rewrite HL, HR, Hl. set_solver.
Qed.

Lemma owns_close T : T ⊆ U → owns (U ∖ T) S h n reg (T ∪ c).
Proof.
  intros HT. destruct Ho as [Hreg Hst Hh Hc Hs Hb Hl]. constructor; try done.
  - intros x Hx. destruct (Hh x) as (? & ? & ?); [set_solver|]. split_and!; try done.
    intros [Hx'|?]%elem_of_union; [|done]. destruct Hx as [Hx|[Hx|Hx]]; [by apply (Hb x); [set_solver|]|apply Hs in Hx|]; set_solver.
  - intros x [Hx|Hx]%elem_of_union; [apply (Hh x); set_solver|by apply Hc].
  - intros x Hx. destruct (Hs x Hx). split; set_solver.
  - intros x Hx. apply Hb. set_solver.
Qed.

Lemma owns_less U' : U' ⊆ U → owns U' S h n reg c.
Proof. intros HU. destruct Ho as [Hreg Hst Hh Hc Hs Hb Hl]. constructor; try done; set_solver. Qed.

Lemma owns_promote p :
  p ∈ S →
  owns (option_to_set (Promote (vipOf h) (checkOf h) p reg).2 ∪ U) (S ∖ {[p]}) h n
    (Promote (vipOf h) (checkOf h) p reg).1 c.
Proof.
  intros Hp. destruct Ho as [Hreg Hst Hh Hc Hs Hb Hl]. destruct (Hs p Hp) as [Hnl HnU].
  pose proof (λ x, Promote_listed (vipOf h) (checkOf h) reg p x Hreg) as HL.
  pose proof (λ x, Promote_launched (vipOf h) (checkOf h) reg p x) as HR.
  pose proof (λ x, Promote_old (vipOf h) (checkOf h) reg p x Hreg) as HO.
  assert (∀ x, x ∈ (option_to_set (Promote (vipOf h) (checkOf h) p reg).2 : gset ptr) ↔
    (Promote (vipOf h) (checkOf h) p reg).2 = Some x) as Hset by (intros x; by rewrite elem_of_option_to_set).
  set (old := (Promote (vipOf h) (checkOf h) p reg).2) in *.
  assert (∀ x, old = Some x → listed reg x) as Hold by (intros x [? _]%HO; done).
  constructor.
  - apply Promote_preserves; [done|by intros ?; apply Hnl; exists (vipOf h p)|]. intros _. apply Hl. by right.
  - by rewrite Promote_started.
  - intros x Hx. apply Hh. rewrite HL in Hx. destruct Hx as [[->|[? _]]|[?|[Hx|?]%elem_of_union]]; [set_solver..| |set_solver].
    left. by apply Hold, Hset.
  - done.
  - intros x [Hx Hne]%elem_of_difference. destruct (Hs x Hx). rewrite HL. split; [set_solver|].
    rewrite elem_of_union, Hset. intros [?%Hold|?]; done.
  - intros x [Hx|Hx]%elem_of_union.
    + rewrite Hset in Hx. rewrite HL. intros [->|[_ ?]]; [|done]. by apply Hnl, Hold.
    + rewrite HL. intros [->|[? _]]; [done|]. by apply (Hb x).
  - intros x. rewrite HL, HR, Hl, elem_of_difference, elem_of_singleton. split.
    + intros [[?|?] ?]; [by auto|]. destruct (decide (x = p)); auto.
    + intros [[->|[? ?]]|[? ?]]; [|by auto|].
      * split; [by right|]. by intros ?%Hold.
      * split; [by right|]. intros ?%Hold. by destruct (Hs x).
Qed.

Lemma owns_add p :
  p ∈ U → (∀ x, listed reg x → vipOf h x = vipOf h p → checkOf h x ≠ checkOf h p) →
  owns (U ∖ {[p]}) S h n (Registry.Add (vipOf h) p reg) c.
Proof.
  intros Hp Hnew. destruct Ho as [Hreg Hst Hh Hc Hs Hb Hl].
  assert (p ∉ S) as HpS by (intros ?; by destruct (Hs p)).
  assert (¬ launched reg p) as Hnr by (rewrite Hl; intros [?|?]; [by apply (Hb p)|done]).
  pose proof (λ x, Add_listed (vipOf h) reg p x) as HL.
  pose proof (λ x, Add_launched (vipOf h) reg p x Hst) as HR. constructor.
  - apply Add_preserves; [done|by apply eq_None_not_Some|].
    intros (x & Hx & Hin)%list_elem_of_fmap. apply (Hnew x); [by exists (vipOf h p)| |done].
    by apply (lists_ok_visibleOf (vipOf h) (checkOf h) reg (vipOf h p)), Hin; apply Hreg.
  - by rewrite Add_started.
  - intros x Hx. apply Hh. rewrite HL in Hx. set_solver.
  - done.
  - intros x Hx. rewrite HL. set_solver.
  - intros x Hx. rewrite HL. set_solver.
  - intros x. rewrite HL, HR, Hl. set_solver.
Qed.

Lemma owns_launch p : p ∈ U → owns (U ∖ {[p]}) ({[p]} ∪ S) h n (AddShadow p reg) c.
Proof.
  intros Hp. destruct Ho as [Hreg Hst Hh Hc Hs Hb Hl].
  assert (p ∉ S) as HpS by (intros ?; by destruct (Hs p)).
  pose proof (λ x, AddShadow_launched reg p x) as HR.
  assert (∀ x, listed (AddShadow p reg) x ↔ listed reg x) as HL by done. constructor.
  - apply AddShadow_preserves; [done| |intros ?; apply (Hb p); [done|by exists (vipOf h p)]].
    apply eq_None_not_Some. change (¬ launched reg p). rewrite Hl. intros [?|?]; [by apply (Hb p)|done].
  - done.
  - intros x Hx. apply Hh. rewrite HL in Hx. set_solver.
  - done.
  - intros x Hx. rewrite HL. set_solver.
  - intros x Hx. rewrite HL. set_solver.
  - intros x. rewrite HL, HR, Hl. set_solver.
Qed.

(** Schedulers allocated in between are built. *)
Lemma owns_alloc U' h' n' :
  (n ≤ n')%nat → (∀ p, (p < n)%nat → settingsOf h' p = settingsOf h p) →
  (∀ p, p ∈ U' → (n ≤ p < n')%nat ∧ is_Some (settingsOf h' p)) →
  owns (U' ∪ U) S h' n' reg c.
Proof.
  intros Hn Hh' HU. destruct Ho as [Hreg Hst Hh Hc Hs Hb Hl].
  assert (∀ x, listed reg x ∨ x ∈ S ∨ x ∈ U → x ∉ U') as Hnew.
  { intros x Hx Hx'. destruct (Hh x Hx) as (? & _). destruct (HU x Hx') as [? _]. lia. }
  constructor; try done.
  - eapply reg_ok_names; [|exact Hreg]. intros p Hp. apply settings_same, Hh', Hh. by left.
  - intros x Hx. destruct (decide (x ∈ U')) as [Hin|Hin].
    + destruct (HU x Hin) as [? ?]. split_and!; [lia| |done]. intros ?%Hc. lia.
    + destruct (Hh x) as (? & ? & ?); [set_solver|]. rewrite Hh' by done. split_and!; [lia|done..].
  - intros x ?%Hc. lia.
  - intros x Hx. destruct (Hs x Hx). set_solver.
  - intros x [Hx|Hx]%elem_of_union Hlx; [by apply (Hnew x); auto|by apply (Hb x)].
Qed.
End Owns.
End ReloadOwns.
