(* ===== verification/ReloadSync.v ===== *)
(** * What runs is what governs

    The reloader's operations on the schedulers, in terms of the settings
    they run with.  [mid U S G r] says that the schedulers of [r] are owned
    as [ReloadOwns.owns] describes and that the listed ones have exactly the
    settings [G].  Every operation of a reload, of a commit and of the start
    changes [G] in the way the config it works for asks; so in every
    reachable state the listed schedulers are those of the definitions that
    govern the VIPs, and no closed scheduler is in use. *)

From S2P Require Import Prelude GoStrings NetIP Config Model Metrics Scheduler Registry Diff.
From S2P Require Import PolicyManager PolicyProofs Logging Reload ReloadProofs ReloadStaging ReloadOutcome ReloadFrame ReloadOwns.

Module ReloadSync.
Import Logging Reload ReloadProofs ReloadStaging ReloadOutcome ReloadFrame ReloadOwns.

Section Sync.
Context {P : Type} `{Policy P} {Hash : Type}.
Local Notation Reloader := (Reload.Reloader (P := P) (Hash := Hash)).
Implicit Types (r : Reloader) (U S : gset ptr) (G : Settings → Prop) (p s : ptr) (d e : Settings).

(** The settings of the listed schedulers. *)
Definition shows (h : gmap ptr Sched) (reg : Registry) d : Prop :=
  ∃ s, listed reg s ∧ settingsOf h s = Some d.

Definition mid U S G r : Prop :=
  owns U S (rl_heap r) (rl_nextPtr r) (rl_reg r) (rl_closed r) ∧
  ∀ d, shows (rl_heap r) (rl_reg r) d ↔ G d.

Lemma mid_iff U S G G' r : (∀ d, G d ↔ G' d) → mid U S G r → mid U S G' r.
Proof. intros HG [Ho Hs]. split; [done|]. intros d. by rewrite Hs. Qed.

(** ** Steps that only run schedulers *)

Record same r r' : Prop := mkSame {
  sm_reg : rl_reg r' = rl_reg r;
  sm_closed : rl_closed r' = rl_closed r;
  sm_next : rl_nextPtr r' = rl_nextPtr r;
  sm_heap p : settingsOf (rl_heap r') p = settingsOf (rl_heap r) p;
  sm_staging : rl_staging r' = rl_staging r;
  sm_cur : rl_cur r' = rl_cur r }.

#[local] Instance same_preorder : PreOrder same.
Proof.
  split; [by constructor|]. intros r1 r2 r3 [] []. constructor; congruence.
Qed.

Lemma same_fold {A} (f : Reloader → A → Reloader) l r : (∀ r a, same r (f r a)) → same r (foldl f r l).
Proof. intros Hf. apply (foldl_ind (same r)); [|done]. intros r' a Hr. by etrans. Qed.

Lemma same_alter f p r :
  (∀ x : Sched, settings (f x) = settings x) → same r (setHeap r (alter f p (rl_heap r)) (rl_nextPtr r)).
Proof.
  intros Hf. constructor; try done. intros q. cbn. unfold settingsOf. destruct (decide (q = p)) as [->|].
  - rewrite lookup_alter_eq. destruct (rl_heap r !! p); cbn; [by rewrite Hf|done].
  - by rewrite lookup_alter_ne.
Qed.

Lemma callbacks_same t c p r : same r (setCallbacks t c p r).
Proof. by apply same_alter. Qed.

Lemma fire_same now p r c : same r (fire now p r c).
Proof.
  destruct c as [[] ? ? ?|[] ?]; cbn; try done. unfold shadowResult. destruct (rl_heap r !! p); [|done].
  by case_match.
Qed.

Lemma schedResult_same now p res r : same r (schedResult now p res r).
Proof.
  unfold schedResult. destruct (rl_heap r !! p) as [s|] eqn:E; [|done].
  destruct (runCheck s res) as [s' calls] eqn:Er. etrans; [|apply same_fold; intros; apply fire_same].
  constructor; try done. intros q. cbn. unfold settingsOf. destruct (decide (q = p)) as [->|].
  - rewrite lookup_insert_eq, E. cbn. f_equal. replace s' with (applyResult s res).1 by (by rewrite <-runCheck_fst, Er).
    unfold applyResult. by repeat case_match; simplify_eq.
  - by rewrite lookup_insert_ne.
Qed.

Lemma attachOne_same now vip ok between seeds r b : same r (attachOne now vip ok between seeds r b).
Proof.
  destruct b as [name sh]. unfold attachOne. cbv zeta. etrans; [apply (same_fold (λ r res, schedResult now sh res r)); intros; apply schedResult_same|].
  etrans; [apply callbacks_same|]. destruct (rl_heap _ !! sh); [|done]. destruct (seeds !! name); [|done]. by case_match.
Qed.

Lemma mid_same U S G r r' : same r r' → mid U S G r → mid U S G r'.
Proof.
  intros [Hr Hc Hn Hh _ _] [Ho Hs]. unfold mid. rewrite Hr, Hc, Hn. split.
  - rewrite <-(union_empty_l_L U). by eapply owns_alloc; [exact Ho|done|intros; apply Hh|set_solver].
  - intros d. unfold shows. setoid_rewrite Hh. apply Hs.
Qed.

(** ** Taking schedulers out *)

(** Two settings belong to the same check of the same VIP. *)
Definition key d : string * string := (set_vip d, set_check d).

Lemma shown_key h reg s x d e :
  reg_ok (vipOf h) (checkOf h) reg → listed reg s → settingsOf h s = Some d → listed reg x → settingsOf h x = Some e →
  key d = key e → s = x.
Proof.
  intros Hok Hs Hd Hx He [= Hv Hc]. destruct (settings_names _ _ _ Hd), (settings_names _ _ _ He).
  eapply listed_inj; [done..|congruence|congruence].
Qed.

(** [Remove] takes the settings of its scheduler away. *)
Lemma shows_Remove h reg p e d :
  reg_ok (vipOf h) (checkOf h) reg → listed reg p → settingsOf h p = Some e →
  shows h (Registry.Remove (vipOf h) p reg) d ↔ shows h reg d ∧ key d ≠ key e.
Proof.
  intros Hok Hp He. unfold shows. setoid_rewrite (Remove_listed (vipOf h) (checkOf h)); [|done]. split.
  - intros (s & [Hs Hne] & Hd). split; [by exists s|]. intros Hk. by apply Hne, (shown_key h reg s p d e).
  - intros [(s & Hs & Hd) Hk]. exists s. split; [|done]. split; [done|]. intros ->. by simplify_eq.
Qed.

Lemma shows_Remove_shadow h reg p d :
  reg_ok (vipOf h) (checkOf h) reg → ¬ listed reg p → shows h (Registry.Remove (vipOf h) p reg) d ↔ shows h reg d.
Proof.
  intros Hok Hp. unfold shows. setoid_rewrite (Remove_listed (vipOf h) (checkOf h)); [|done]. split.
  - intros (s & [Hs _] & Hd). by exists s.
  - intros (s & Hs & Hd). exists s. split; [|done]. split; [done|]. by intros ->.
Qed.

Lemma findVisible_spec r vip check o :
  reg_ok (vipOf (rl_heap r)) (checkOf (rl_heap r)) (rl_reg r) →
  findVisible r vip check = Some o ↔ listed (rl_reg r) o ∧ vipOf (rl_heap r) o = vip ∧ checkOf (rl_heap r) o = check.
Proof.
  intros Hok. pose proof Hok as (Hl & _).
  destruct (lists_ok_visibleOf _ _ _ vip Hl) as [Hnd Hv]. unfold findVisible.
  destruct (list_find _ _) as [[i x]|] eqn:E.
  - apply list_find_Some in E as (Hi & Hc & _). apply list_elem_of_lookup_2 in Hi. split.
    + intros [= <-]. split; [by exists vip|]. split; [by apply Hv|done].
    + intros (Ho & Hvo & Hco). f_equal. eapply listed_inj; [exact Hok|by exists vip|done| |congruence].
      rewrite Hvo. by apply Hv.
  - apply list_find_None in E. rewrite Forall_forall in E. split; [done|]. intros (Ho & Hvo & Hco).
    apply (listed_under _ _ _ _ Hok) in Ho. rewrite Hvo in Ho. by destruct (E o Ho).
Qed.

Lemma owned_settings U S r p :
  owns U S (rl_heap r) (rl_nextPtr r) (rl_reg r) (rl_closed r) → listed (rl_reg r) p ∨ p ∈ S ∨ p ∈ U →
  ∃ d, settingsOf (rl_heap r) p = Some d.
Proof. intros Ho Hp. by destruct (ow_held _ _ _ _ _ _ Ho p Hp) as (_ & _ & [d Hd]); exists d. Qed.

(** Closing a scheduler that was taken out. *)
Lemma owns_closed U S r reg p :
  owns ({[p]} ∪ U) S (rl_heap r) (rl_nextPtr r) reg (rl_closed r) → p ∉ U →
  owns U S (rl_heap r) (rl_nextPtr r) reg ({[p]} ∪ rl_closed r).
Proof.
  intros Ho Hp. eapply owns_less; [apply (owns_close _ _ _ _ _ _ Ho {[p]})|]; set_solver.
Qed.

Lemma removeCheck_mid U S G vip check r :
  mid U S G r → mid U S (λ d, G d ∧ key d ≠ (vip, check)) (removeCheck vip r check).
Proof.
  intros [Ho Hs]. pose proof (ow_reg _ _ _ _ _ _ Ho) as Hok. unfold removeCheck.
  pose proof (λ o, findVisible_spec r vip check o Hok) as Hf.
  destruct (findVisible r vip check) as [o|].
  - destruct (proj1 (Hf o) eq_refl) as (Hl & Hv & Hc).
    destruct (owned_settings _ _ _ o Ho) as [e He]; [by left|]. destruct (settings_names _ _ _ He) as [E1 E2].
    assert (o ∉ U ∧ o ∉ S) as [HU HS].
    { split; intros ?; [by apply (ow_built _ _ _ _ _ _ Ho o)|by destruct (ow_shadow _ _ _ _ _ _ Ho o)]. }
    split.
    + cbn. rewrite union_empty_r_L. apply owns_closed; [|done].
      replace S with (S ∖ {[o]}) by set_solver. apply owns_detach; [done|by left].
    + intros d. cbn. rewrite (shows_Remove _ _ _ e), Hs by done. unfold key at 2. by rewrite <-E1, <-E2, Hv, Hc.
  - split; [done|]. intros d. rewrite Hs. split; [|by intros []]. intros Hg. split; [done|].
    intros [= Hv Hc]. apply Hs in Hg as (s & Hl & Hd). destruct (settings_names _ _ _ Hd).
    assert (None = Some s) by (apply Hf; split_and!; congruence). done.
Qed.

Lemma removeChecks_mid U S G vip l r :
  mid U S G r → mid U S (λ d, G d ∧ (set_vip d = vip → set_check d ∉ l)) (foldl (removeCheck vip) r l).
Proof.
  revert G r. induction l as [|c l IH]; intros G r Hm; cbn [foldl].
  { eapply mid_iff; [|exact Hm]. intros d. split; [|by intros []]. intros ?. split; [done|]. by intros _ ?%not_elem_of_nil. }
  eapply mid_iff; [|apply IH, removeCheck_mid, Hm]. intros d. unfold key. cbn.
  rewrite elem_of_cons. split; [naive_solver|]. intros [Hg Hn]. split_and!; naive_solver.
Qed.

(** A superseded shadow is stopped and closed. *)
Lemma dropShadow_mid U S G r p : p ∈ S → mid U S G r → mid U (S ∖ {[p]}) G (dropShadow r p).
Proof.
  intros Hp [Ho Hs]. destruct (ow_shadow _ _ _ _ _ _ Ho p Hp) as [Hnl HU]. split.
  - cbn. rewrite union_empty_r_L. apply owns_closed; [|done]. apply owns_detach; [done|by right].
  - intros d. cbn. rewrite shows_Remove_shadow by (done || apply Ho). apply Hs.
Qed.

Lemma dropShadows_mid U S G l r :
  NoDup l → (∀ p, p ∈ l → p ∈ S) → mid U S G r → mid U (S ∖ list_to_set l) G (foldl dropShadow r l).
Proof.
  revert S r. induction l as [|p l IH]; intros S r Hnd Hl Hm; cbn [foldl list_to_set].
  { by rewrite difference_empty_L. }
  apply NoDup_cons in Hnd as [Hp Hnd]. rewrite <-difference_difference_l_L. apply IH; [done| |].
  - intros x Hx. apply elem_of_difference. split; [apply Hl; by right|]. rewrite elem_of_singleton. by intros ->.
  - apply dropShadow_mid; [apply Hl; by left|done].
Qed.

(** ** Commits *)

Lemma shows_Promote h reg p e d :
  reg_ok (vipOf h) (checkOf h) reg → settingsOf h p = Some e →
  shows h (Promote (vipOf h) (checkOf h) p reg).1 d ↔ d = e ∨ shows h reg d ∧ key d ≠ key e.
Proof.
  intros Hok He. destruct (settings_names _ _ _ He) as [Ev Ec]. unfold shows.
  setoid_rewrite (Promote_listed (vipOf h) (checkOf h)); [|done].
  setoid_rewrite (Promote_old (vipOf h) (checkOf h)); [|done]. split.
  - intros (s & [->|[Hs Ho]] & Hd); [left; congruence|]. right. split; [by exists s|]. intros [= Hv Hc].
    destruct (settings_names _ _ _ Hd). apply Ho. split_and!; [done|congruence..].
  - intros [->|[(s & Hs & Hd) Hk]]; [exists p; auto|]. exists s. split; [|done]. right. split; [done|].
    intros (_ & Hv & Hc). destruct (settings_names _ _ _ Hd). apply Hk. unfold key. congruence.
Qed.

Lemma promoteOne_mid U S G r p e :
  p ∈ S → settingsOf (rl_heap r) p = Some e → mid U S G r →
  mid U (S ∖ {[p]}) (λ d, d = e ∨ G d ∧ key d ≠ key e) (promoteOne r p).
Proof.
  intros Hp He [Ho Hs]. pose proof (ow_reg _ _ _ _ _ _ Ho) as Hok.
  pose proof (owns_promote _ _ _ _ _ _ Ho p Hp) as Ho'.
  pose proof (λ d, shows_Promote _ _ p e d Hok He) as Hsh.
  pose proof (λ o, proj1 (Promote_old _ _ _ p o Hok)) as Hold.
  unfold promoteOne. destruct (Promote _ _ _ _) as [reg [o|]]; cbn [fst snd] in *.
  - split; cbn.
    + rewrite union_empty_r_L. apply owns_closed; [done|]. intros ?. apply (ow_built _ _ _ _ _ _ Ho o); [done|].
      by apply Hold.
    + intros d. by rewrite Hsh, Hs.
  - split; cbn; [|intros d; by rewrite Hsh, Hs]. eapply owns_less; [exact Ho'|set_solver].
Qed.

(** Shadows with distinct checks are promoted one after the other. *)
Lemma promotes_mid U S G l r (ds : list Settings) :
  Forall2 (λ p d, p ∈ S ∧ settingsOf (rl_heap r) p = Some d) l ds → NoDup l → NoDup (key <$> ds) → mid U S G r →
  mid U (S ∖ list_to_set l) (λ d, d ∈ ds ∨ G d ∧ key d ∉ key <$> ds) (foldl promoteOne r l).
Proof.
  intros Hl. revert S G r Hl. induction l as [|p l IH] in ds |- *; intros S G r Hl Hnd Hk Hm.
  { apply Forall2_nil_inv_l in Hl as ->. cbn. rewrite difference_empty_L. eapply mid_iff; [|exact Hm].
    intros d. rewrite elem_of_nil. set_solver. }
  apply Forall2_cons_inv_l in Hl as (e & ds' & [Hp He] & Hl & ->).
  apply NoDup_cons in Hnd as [Hpl Hnd]. apply NoDup_cons in Hk as [Hke Hk]. cbn [foldl list_to_set].
  rewrite <-difference_difference_l_L. eapply mid_iff; [|apply IH; [|done|exact Hk|by apply promoteOne_mid]].
  - intros d. cbn. rewrite !elem_of_cons. split.
    + intros [?|[[->|[? ?]] ?]]; [by auto..|]. right. split; [done|]. by intros [?|?].
    + intros [[->|?]|[? Hn]]; [by auto|by auto|]. right. split; [right; split; [done|]|]; intros ?; apply Hn; auto.
  - eapply Forall2_impl; [|intros x d Hx; exact Hx].
    apply Forall2_same_length_lookup. apply Forall2_same_length_lookup in Hl as [Hlen Hl]. split; [done|].
    intros i x d Hx Hd. destruct (Hl i x d Hx Hd) as [HxS Hxd]. rewrite (proj1 (promoteOne_heap r p)).
    split; [|done]. apply elem_of_difference. split; [done|]. rewrite elem_of_singleton. intros ->.
    by apply Hpl, (list_elem_of_lookup_2 _ i).
Qed.

(** A commit replaces the checks of its VIP: the removed ones are gone, the
    shadows take the places of those of their names. *)
Lemma commitLocked_mid U S G now between st r (ds : list Settings) :
  Forall2 (λ p d, p ∈ S ∧ settingsOf (rl_heap r) p = Some d) (shadowsOf st) ds →
  NoDup (shadowsOf st) → NoDup (key <$> ds) → mid U S G r →
  mid U (S ∖ list_to_set (shadowsOf st))
    (λ d, d ∈ ds ∨ (G d ∧ (set_vip d = VIP_Name (st_cfg st) → set_check d ∉ st_removed st)) ∧ key d ∉ key <$> ds)
    (commitLocked now between st r).
Proof.
  intros Hl Hnd Hk Hm. unfold commitLocked. cbv zeta. set (r0 := setStaging r _).
  set (r1 := foldl (removeCheck _) r0 _).
  assert (rl_heap r1 = rl_heap r) as Hh.
  { unfold r1. by rewrite (foldl_keeps rl_heap) by (intros; apply removeCheck_heap). }
  assert (mid U S _ r1) as Hm1 by exact (removeChecks_mid U S G _ _ r0 Hm). rewrite <-Hh in Hl.
  pose proof (promotes_mid _ _ _ _ _ _ Hl Hnd Hk Hm1) as Hm2. cbv beta in Hm2.
  change ((map_to_list (st_shadows st)).*2) with (shadowsOf st). set (r2 := foldl promoteOne r1 _) in *.
  clearbody r2. destruct (pol_CommitVIP _ _ _ _) as [pol err].
  assert (mid U _ _ (setPol r2 pol)) as Hm3 by exact Hm2. revert Hm3. generalize (setPol r2 pol). intros r3 Hm3.
  eapply mid_same in Hm3; [|apply (same_fold (attachOne now (VIP_Name (st_cfg st)) (negb (isErr err)) between
    (seedOf now (rl_heap r2) <$> st_shadows st)) (map_to_list (st_shadows st))); intros; apply attachOne_same].
  revert Hm3. generalize (foldl (attachOne now (VIP_Name (st_cfg st)) (negb (isErr err)) between
    (seedOf now (rl_heap r2) <$> st_shadows st)) r3 (map_to_list (st_shadows st))). intros r4 Hm4.
  destruct err as [er|], (rl_last r4) as [la|] eqn:El; cbn [rl_last setLast setMetric]; rewrite ?El; exact Hm4.
Qed.

(** ** Removed VIPs *)

(** [RemoveVIP] returns only for a VIP with at most one scheduler. *)
Lemma RemoveVIP_Ret (V C : ptr → string) vip reg reg' :
  reg_ok V C reg → Registry.RemoveVIP V vip reg = Ret reg' →
  visibleOf reg vip = [] ∧ reg' = reg ∨
  ∃ s, visibleOf reg vip = [s] ∧ V s = vip ∧ reg' = Registry.Remove V s reg.
Proof.
  intros (Hl & _). destruct (visibleOf reg vip) as [|s [|s' l]] eqn:E.
  - rewrite RemoveVIP_none by done. intros [= <-]. by left.
  - rewrite (RemoveVIP_single V vip s) by done. intros [= <-]. right. exists s. split; [done|]. split; [|done].
    apply (lists_ok_visibleOf V C reg vip Hl). rewrite E. by left.
  - rewrite (RemoveVIP_two V C) by (rewrite ?E; cbn; (done || lia)). done.
Qed.

Lemma unlisted h reg vip :
  reg_ok (vipOf h) (checkOf h) reg → visibleOf reg vip = [] → ∀ s d, listed reg s → settingsOf h s = Some d → set_vip d ≠ vip.
Proof.
  intros Hok He s d Hs [Hv _]%settings_names <-. apply (listed_under _ _ _ _ Hok) in Hs. rewrite Hv, He in Hs.
  by apply not_elem_of_nil in Hs.
Qed.

(** One removed VIP: its scheduler is closed, or put back when the route
    could not be withdrawn. *)
Lemma removed_mid U S G r vip reg pol :
  Registry.RemoveVIP (vipOf (rl_heap r)) vip (rl_reg r) = Ret reg → mid U S G r →
  mid U S (λ d, G d ∧ set_vip d ≠ vip) (closeSchedulers (visibleOf (rl_reg r) vip) (setPol (setReg r reg) pol)) ∧
  mid U S G (setReg (setPol (setReg r reg) pol)
    (foldl (λ reg s, Registry.Add (vipOf (rl_heap r)) s reg) reg (visibleOf (rl_reg r) vip))).
Proof.
  intros Hr [Ho Hs]. pose proof (ow_reg _ _ _ _ _ _ Ho) as Hok.
  destruct (RemoveVIP_Ret _ _ _ _ _ Hok Hr) as [[He ->]|(s & He & Hv & ->)]; rewrite He.
  - assert (∀ d, shows (rl_heap r) (rl_reg r) d → set_vip d ≠ vip) as Hno
      by (intros d (s & ? & ?); by eapply unlisted).
    split; (split; cbn; [rewrite ?union_empty_l_L; exact Ho|]); intros d; [|apply Hs].
    rewrite Hs. split; [|by intros []]. intros Hg. split; [done|]. apply Hno. by apply Hs.
  - assert (listed (rl_reg r) s) as Hls by (exists vip; rewrite He; by left).
    destruct (owned_settings _ _ _ s Ho) as [e Hse]; [by left|]. destruct (settings_names _ _ _ Hse) as [Ev Ec].
    assert (s ∉ U ∧ s ∉ S) as [HU HS].
    { split; intros ?; [by apply (ow_built _ _ _ _ _ _ Ho s)|by destruct (ow_shadow _ _ _ _ _ _ Ho s)]. }
    pose proof (owns_detach _ _ _ _ _ _ Ho s (or_introl Hls)) as Hd.
    replace (S ∖ {[s]}) with S in Hd by set_solver.
    assert (∀ x, listed (rl_reg r) x → vipOf (rl_heap r) x = vip → x = s) as Hone.
    { intros x Hx Hvx. apply (listed_under _ _ _ _ Hok) in Hx. rewrite Hvx, He in Hx. by apply list_elem_of_singleton in Hx. }
    split; split; cbn.
    + rewrite union_empty_r_L. by apply owns_closed.
    + intros d. rewrite (shows_Remove _ _ _ e), Hs by done. split; intros [Hg Hk]; (split; [done|]).
      * intros Hdv. apply Hk. apply Hs in Hg as (x & Hx & Hdx). destruct (settings_names _ _ _ Hdx) as [Hvx Hcx].
        rewrite (Hone x Hx) in Hdx by congruence. congruence.
      * intros [= Hkv _]. congruence.
    + eapply owns_less; [apply (owns_add _ _ _ _ _ _ Hd s); [set_solver|]|set_solver].
      intros x [Hx Hne]%(Remove_listed _ _ _ _ _ Hok) Hvx. by rewrite (Hone x Hx) in Hne by congruence.
    + intros d. rewrite <-Hs. unfold shows. setoid_rewrite Add_listed. setoid_rewrite (Remove_listed _ _ _ _ _ Hok). split.
      * intros (x & [[Hx _]| ->] & Hdx); by eexists.
      * intros (x & Hx & Hdx). exists x. split; [|done]. destruct (decide (x = s)); auto.
Qed.

(** The loop: the VIPs [gone] have no scheduler left, those in [failed'] run
    as before. *)
Lemma removeVIPs_mid U S l G r failed errs removed r' failed' errs' removed' :
  removeVIPs l r failed errs removed = Ret (r', failed', errs', removed') →
  NoDup (VIP_Name <$> l) → (∀ v, v ∈ l → failed !! VIP_Name v = None) → mid U S G r →
  ∃ gone : list string, mid U S (λ d, G d ∧ set_vip d ∉ gone) r' ∧
    (∀ v, v ∈ l → VIP_Name v ∈ gone ∧ failed' !! VIP_Name v = None ∨ VIP_Name v ∉ gone ∧ failed' !! VIP_Name v = Some v) ∧
    (∀ k, k ∉ VIP_Name <$> l → k ∉ gone ∧ failed' !! k = failed !! k).
Proof.
  revert G r failed errs removed. induction l as [|v l IH]; intros G r failed errs removed; cbn.
  { intros [= <- <- <- <-] _ _ Hm. exists []. split; [|split; [by intros ? ?%not_elem_of_nil|]].
    - eapply mid_iff; [|exact Hm]. intros d. split; [|by intros []]. intros ?. split; [done|apply not_elem_of_nil].
    - intros k _. split; [apply not_elem_of_nil|done]. }
  destruct (Registry.RemoveVIP _ _ _) as [reg|] eqn:Er; [|done].
  destruct (pol_RemoveVIP _ _) as [pol err]. intros Hl [Hv Hnd]%NoDup_cons Hf Hm.
  destruct (removed_mid _ _ _ _ _ _ pol Er Hm) as [Hclose Hback].
  assert (∀ w, w ∈ l → VIP_Name v ≠ VIP_Name w) as Hne
    by (intros w Hw Heq; apply Hv; rewrite Heq; by apply list_elem_of_fmap_2).
  destruct err as [e|].
  - destruct (IH G _ _ _ _ Hl Hnd) as (gone & Hm' & Hin & Hout); [|exact Hback|].
    { intros w Hw. rewrite lookup_insert_ne by (by apply Hne). apply Hf. by right. }
    exists gone. split; [done|]. split.
    + intros w [->|Hw]%elem_of_cons; [|by apply Hin]. right. destruct (Hout _ Hv) as [? ->].
      split; [done|apply lookup_insert_eq].
    + intros k [Hkv Hk]%not_elem_of_cons. destruct (Hout k Hk) as [? ->]. split; [done|]. by rewrite lookup_insert_ne.
  - destruct (IH (λ d, G d ∧ set_vip d ≠ VIP_Name v) _ _ _ _ Hl Hnd) as (gone & Hm' & Hin & Hout); [|exact Hclose|].
    { intros w Hw. apply Hf. by right. }
    exists (VIP_Name v :: gone). split; [|split].
    + eapply mid_iff; [|exact Hm']. intros d. rewrite not_elem_of_cons. tauto.
    + intros w [->|Hw]%elem_of_cons.
      * left. split; [by left|]. destruct (Hout _ Hv) as [_ ->]. apply Hf. by left.
      * destruct (Hin w Hw) as [[? ?]|[? ?]]; [left; split; [by right|done]|right]. split; [|done].
        rewrite not_elem_of_cons. split; [|done]. intros Heq. by apply (Hne w).
    + intros k [Hkv Hk]%not_elem_of_cons. destruct (Hout k Hk) as [? ->]. by rewrite not_elem_of_cons.
Qed.

(** ** Added VIPs and launched shadows *)

Definition addSched r s : Reloader :=
  let r := setCallbacks (Some PolicyTransition) (Some PolicyResult) s r in
  setReg r (Registry.Add (vipOf (rl_heap r)) s (rl_reg r)).

Lemma add_mid U S G r s d :
  s ∈ U → settingsOf (rl_heap r) s = Some d → (∀ e, G e → key e ≠ key d) → mid U S G r →
  mid (U ∖ {[s]}) S (λ e, G e ∨ e = d) (addSched r s).
Proof.
  intros HsU Hd Hnew Hm. unfold addSched. set (r1 := setCallbacks _ _ _ _).
  assert (same r r1) as Hsm by apply callbacks_same. pose proof (mid_same _ _ _ _ _ Hsm Hm) as [Ho Hs].
  rewrite <-(sm_heap _ _ Hsm) in Hd. destruct (settings_names _ _ _ Hd) as [Ev Ec]. clear Hsm. clearbody r1. split; cbn.
  - apply owns_add; [done|done|]. intros x Hx Hvx Hcx.
    destruct (owned_settings _ _ _ x Ho) as [e He]; [by left|]. destruct (settings_names _ _ _ He).
    apply (Hnew e); [apply Hs; by exists x|]. unfold key. congruence.
  - intros e. unfold shows. setoid_rewrite Add_listed. split.
    + intros (x & [Hx| ->] & He); [left; apply Hs; by exists x|right; congruence].
    + intros [(x & Hx & He)%Hs| ->]; [exists x; auto|exists s; auto].
Qed.

Lemma adds_mid U S l G r (ds : list Settings) :
  Forall2 (λ p d, p ∈ U ∧ settingsOf (rl_heap r) p = Some d) l ds → NoDup l → NoDup (key <$> ds) →
  (∀ e, G e → key e ∉ key <$> ds) → mid U S G r →
  mid (U ∖ list_to_set l) S (λ e, G e ∨ e ∈ ds) (foldl addSched r l).
Proof.
  intros Hl. revert U G r Hl. induction l as [|p l IH] in ds |- *; intros U G r Hl Hnd Hk Hnew Hm.
  { apply Forall2_nil_inv_l in Hl as ->. cbn. rewrite difference_empty_L. eapply mid_iff; [|exact Hm].
    intros d. rewrite elem_of_nil. tauto. }
  apply Forall2_cons_inv_l in Hl as (e & ds' & [Hp He] & Hl & ->).
  apply NoDup_cons in Hnd as [Hpl Hnd]. apply NoDup_cons in Hk as [Hke Hk]. cbn [foldl list_to_set].
  rewrite <-difference_difference_l_L. eapply mid_iff; [|apply IH; [|done|exact Hk| |apply add_mid; [done|exact He| |done]]].
  - intros d. cbn. rewrite elem_of_cons. tauto.
  - apply Forall2_same_length_lookup. apply Forall2_same_length_lookup in Hl as [Hlen Hl]. split; [done|].
    intros i x d Hx Hd. destruct (Hl i x d Hx Hd) as [HxU Hxd].
    split; [|by rewrite <-Hxd; apply (sm_heap _ _ (callbacks_same _ _ p r))].
    apply elem_of_difference. split; [done|]. rewrite elem_of_singleton. intros ->.
    by apply Hpl, (list_elem_of_lookup_2 _ i).
  - intros d [Hg| ->]; [|done]. intros Hd. apply (Hnew d Hg). by right.
  - intros d Hg Hd. apply (Hnew d Hg). rewrite Hd. by left.
Qed.

Lemma launches_mid U S G l r :
  NoDup l → (∀ p, p ∈ l → p ∈ U) → mid U S G r →
  mid (U ∖ list_to_set l) (list_to_set l ∪ S) G (foldl launchShadow r l).
Proof.
  revert U S r. induction l as [|p l IH]; intros U S r Hnd Hl Hm; cbn [foldl list_to_set].
  { by rewrite difference_empty_L, union_empty_l_L. }
  apply NoDup_cons in Hnd as [Hp Hnd]. rewrite <-difference_difference_l_L.
  replace ({[p]} ∪ list_to_set l ∪ S) with (list_to_set l ∪ ({[p]} ∪ S)) by set_solver. apply IH; [done| |].
  - intros x Hx. apply elem_of_difference. split; [apply Hl; by right|]. rewrite elem_of_singleton. by intros ->.
  - pose proof (mid_same _ _ _ _ _ (callbacks_same None (Some WatchShadow) p r) Hm) as [Ho Hs].
    split; [|exact Hs]. apply owns_launch; [exact Ho|]. apply Hl. by left.
Qed.
End Sync.
End ReloadSync.
