(* ===== verification/ReloadGoverns.v ===== *)
(** * The definitions that govern the VIPs

    A staged VIP is governed by the definition it had before the reload, any
    other VIP by the running config ([effectiveVIPsLocked]).  [governed] is
    the invariant of the reloader built on this: the listed schedulers have
    exactly the settings of the governing definitions, and what is staged is
    what the difference between the two definitions asks for. *)

From S2P Require Import Prelude GoStrings NetIP Config Model Metrics Scheduler Registry Diff.
From S2P Require Import PolicyManager PolicyProofs Logging Reload ReloadProofs ReloadStaging ReloadOutcome ReloadFrame ReloadOwns.
From S2P Require Import ReloadSync.

Module ReloadGoverns.
Import Logging Reload ReloadProofs ReloadStaging ReloadOutcome ReloadFrame ReloadOwns ReloadSync.

(** ** What a list of VIPs asks for *)

(** The names a loaded config has: distinct and not empty. *)
Definition goodVIP (v : VIPConfig) : Prop := NoDup (checkNames v) ∧ EmptyString ∉ checkNames v.
Definition goodVIPs (vips : list VIPConfig) : Prop :=
  NoDup (VIP_Name <$> vips) ∧ ∀ v, v ∈ vips → goodVIP v.

Definition wantedBy (v : VIPConfig) (d : Settings) : Prop := ∃ c, c ∈ CheckList v ∧ d = wanted v c.
Definition wants (vips : list VIPConfig) (d : Settings) : Prop := ∃ v, v ∈ vips ∧ wantedBy v d.

Lemma wantedBy_vip v d : wantedBy v d → set_vip d = VIP_Name v.
Proof. by intros (c & _ & ->). Qed.

Lemma wanted_fields c oc :
  deepEqual oc c = true →
  EffectiveName oc = EffectiveName c ∧ Check_Interval oc = Check_Interval c ∧ Check_Timeout oc = Check_Timeout c ∧
  Check_Rise oc = Check_Rise c ∧ Check_Fall oc = Check_Fall c.
Proof.
  unfold deepEqual, deepEqual_Check. rewrite !andb_true_iff, !deepEqual_on_spec. intros; destruct_and!.
  split_and!; try done. unfold EffectiveName.
  by repeat match goal with E : _ oc = _ c |- _ => rewrite E; clear E end.
Qed.

Lemma wanted_same ov nv oc c : VIP_Name ov = VIP_Name nv → deepEqual oc c = true → wanted ov oc = wanted nv c.
Proof. intros Hn (E1 & E2 & E3 & E4 & E5)%wanted_fields. unfold wanted. congruence. Qed.

(** The checks of a VIP that is deeply equal ask for the same. *)
Lemma checks_same (l l' : list CheckConfig) :
  deepEqual l l' = true → Forall2 (λ oc c, deepEqual oc c = true) l l'.
Proof.
  revert l'. induction l as [|x l IH]; intros [|y l']; cbn; try done.
  rewrite andb_true_iff. intros [? ?]. constructor; [done|by apply IH].
Qed.

Lemma CheckList_same ov nv : deepEqual ov nv = true → Forall2 (λ oc c, deepEqual oc c = true) (CheckList ov) (CheckList nv).
Proof.
  unfold deepEqual, deepEqual_VIP. rewrite !andb_true_iff. intros; destruct_and!.
  match goal with H : deepEqual_on VIP_Checks ov nv = true |- _ => rename H into Hl end.
  match goal with H : deepEqual_on VIP_Check ov nv = true |- _ => rename H into Hc end.
  unfold deepEqual_on in Hl, Hc. unfold CheckList, elems.
  destruct (VIP_Checks ov) as [l|], (VIP_Checks nv) as [l'|]; cbn in *; try done.
  - apply checks_same in Hl. destruct Hl; [by repeat constructor|by constructor].
  - by repeat constructor.
Qed.

Lemma wantedBy_same ov nv d : deepEqual ov nv = true → wantedBy ov d ↔ wantedBy nv d.
Proof.
  intros Hd. assert (VIP_Name ov = VIP_Name nv) as Hn.
  { revert Hd. unfold deepEqual, deepEqual_VIP. rewrite !andb_true_iff, !deepEqual_on_spec. by intros; destruct_and!. }
  pose proof (CheckList_same ov nv Hd) as Hl. apply Forall2_same_length_lookup in Hl as [Hlen Hl].
  split; intros (c & [i Hi]%list_elem_of_lookup & ->).
  - destruct (lookup_lt_is_Some_2 (CheckList nv) i) as [c' Hc'];
      [rewrite <-Hlen; by eapply lookup_lt_Some|]. exists c'. split; [by eapply list_elem_of_lookup_2|].
    apply wanted_same; [done|by apply (Hl i)].
  - destruct (lookup_lt_is_Some_2 (CheckList ov) i) as [c' Hc'];
      [rewrite Hlen; by eapply lookup_lt_Some|]. exists c'. split; [by eapply list_elem_of_lookup_2|].
    symmetry. apply wanted_same; [done|by apply (Hl i)].
Qed.

(** ** What a commit leaves *)

Lemma wanted_key v c c' : goodVIP v → c ∈ CheckList v → c' ∈ CheckList v →
  set_check (wanted v c) = set_check (wanted v c') → c = c'.
Proof. intros [Hnd _] Hc Hc' He. by eapply NoDup_fmap_elem_of. Qed.

(** The settings of the new definition are those of the changed checks, and
    those of the old definition whose checks are neither removed nor
    changed. *)
Lemma commit_wants ov nv (ds : list Settings) d :
  goodVIP ov → goodVIP nv → VIP_Name ov = VIP_Name nv →
  (∀ e, e ∈ ds ↔ ∃ c, c ∈ ChecksChanged (diffVIP ov nv) ∧ e = wanted nv c) →
  wantedBy nv d ↔
  d ∈ ds ∨ (wantedBy ov d ∧ set_check d ∉ EffectiveName <$> ChecksRemoved (diffVIP ov nv)) ∧ key d ∉ key <$> ds.
Proof.
  intros Hgo Hgn Hn Hds. destruct (diffVIP_checks ov nv (proj1 Hgo)) as [Hch Hrm].
  assert (∀ c, c ∈ CheckList nv → c ∉ ChecksChanged (diffVIP ov nv) → ∃ oc, oc ∈ CheckList ov ∧
    EffectiveName oc = EffectiveName c ∧ wanted ov oc = wanted nv c) as Hkept.
  { intros c Hc Hnc. rewrite Hch in Hnc.
    destruct (indexBy EffectiveName (CheckList ov) !! EffectiveName c) as [oc|] eqn:E.
    - apply indexBy_lookup in E as [Ho He]; [|apply Hgo]. exists oc. split; [done|]. split; [done|].
      apply wanted_same; [done|]. destruct (deepEqual oc c) eqn:Ed; [done|]. destruct Hnc. split; [done|]. right.
      intros oc' Ho' He'. by rewrite (NoDup_fmap_elem_of EffectiveName (CheckList ov) oc' oc (proj1 Hgo) Ho' Ho) by congruence.
    - apply indexBy_None in E. destruct Hnc. split; [done|]. right. intros oc Ho He. destruct E.
      rewrite <-He. by apply list_elem_of_fmap_2. }
  assert (∀ c, c ∈ CheckList nv → key (wanted nv c) ∈ key <$> ds → c ∈ ChecksChanged (diffVIP ov nv)) as Hkey.
  { intros c Hc (e & He & (c' & Hc' & ->)%Hds)%list_elem_of_fmap. injection He as He.
    rewrite (wanted_key nv c c'); [done|done|done|by apply Hch|done]. }
  split.
  - intros (c & Hc & ->). destruct (decide (wanted nv c ∈ ds)) as [?|Hno]; [by left|]. right.
    assert (c ∉ ChecksChanged (diffVIP ov nv)) as Hnc by (intros ?; apply Hno, Hds; by exists c).
    destruct (Hkept c Hc Hnc) as (oc & Ho & He & Hw). split; [split|].
    + by exists oc.
    + intros (rc & Hrc & [_ Hno']%Hrm)%list_elem_of_fmap. cbn in Hrc. apply Hno'. rewrite <-Hrc. by apply list_elem_of_fmap_2.
    + by intros ?%(Hkey c Hc).
  - intros [(c & Hc & ->)%Hds|[[(oc & Ho & ->) Hnr] Hnk]]; [exists c; split; [by apply Hch|done]|].
    destruct (decide (EffectiveName oc ∈ checkNames nv)) as [Hin|Hout].
    2:{ destruct Hnr. cbn. apply list_elem_of_fmap. exists oc. split; [done|]. by apply Hrm. }
    apply list_elem_of_fmap in Hin as (c & Hec & Hc). exists c. split; [done|].
    destruct (decide (wanted nv c ∈ ds)) as [Hin|Hno].
    { destruct Hnk. apply list_elem_of_fmap. exists (wanted nv c). split; [|done]. unfold key. cbn. congruence. }
    destruct (Hkept c Hc) as (oc' & Ho' & He' & Hw); [intros ?; apply Hno, Hds; by exists c|].
    rewrite (NoDup_fmap_elem_of EffectiveName (CheckList ov) oc oc' (proj1 Hgo) Ho Ho'); [done|congruence].
Qed.

(** ** What is staged *)

(** A staging is the difference between the definition that governs the VIP
    and the one that will. *)
Record staged_as (h : gmap ptr Sched) (st : stagedVIP) : Prop := mkStagedAs {
  sa_name : VIP_Name (st_old st) = VIP_Name (st_cfg st);
  sa_good : goodVIP (st_old st) ∧ goodVIP (st_cfg st);
  sa_removed : st_removed st = EffectiveName <$> ChecksRemoved (diffVIP (st_old st) (st_cfg st));
  sa_shadow k p : st_shadows st !! k = Some p → ∃ c, c ∈ ChecksChanged (diffVIP (st_old st) (st_cfg st)) ∧
    EffectiveName c = k ∧ settingsOf h p = Some (wanted (st_cfg st) c);
  sa_all c : c ∈ ChecksChanged (diffVIP (st_old st) (st_cfg st)) → is_Some (st_shadows st !! EffectiveName c) }.

Lemma staged_as_heap h h' st :
  (∀ p, p ∈ shadowsOf st → settingsOf h' p = settingsOf h p) → staged_as h st → staged_as h' st.
Proof.
  intros Hh [H1 H2 H3 H4 H5]. constructor; try done. intros k p Hp. rewrite Hh by (apply shadowsOf_elem; by exists k).
  by apply H4.
Qed.

(** A shadow has one check. *)
Lemma shadow_key h st k k' p :
  staged_as h st → st_shadows st !! k = Some p → st_shadows st !! k' = Some p → k = k'.
Proof.
  intros Hst (c & _ & <- & Hc)%(sa_shadow _ _ Hst) (c' & _ & <- & Hc')%(sa_shadow _ _ Hst). by simplify_eq.
Qed.

Lemma shadows_NoDup h st : staged_as h st → NoDup (shadowsOf st).
Proof.
  intros Hst. apply NoDup_fmap_2_strong; [|apply NoDup_map_to_list].
  intros [k p] [k' p'] Hk%elem_of_map_to_list Hk'%elem_of_map_to_list. cbn in *. intros ->.
  by rewrite (shadow_key _ _ _ _ _ Hst Hk Hk').
Qed.

Lemma Forall2_choice {A B} (R : A → B → Prop) l : (∀ a, a ∈ l → ∃ b, R a b) → ∃ k, Forall2 R l k.
Proof.
  induction l as [|a l IH]; intros Hl; [by exists []|].
  destruct (Hl a) as [b Hb]; [by left|]. destruct IH as [k Hk]; [intros; apply Hl; by right|]. exists (b :: k). by constructor.
Qed.

(** The settings of the shadows are those of the changed checks. *)
Lemma shadows_settings h st :
  staged_as h st →
  ∃ ds, Forall2 (λ p d, settingsOf h p = Some d) (shadowsOf st) ds ∧ NoDup (key <$> ds) ∧
    ∀ d, d ∈ ds ↔ ∃ c, c ∈ ChecksChanged (diffVIP (st_old st) (st_cfg st)) ∧ d = wanted (st_cfg st) c.
Proof.
  intros Hst. pose proof (shadows_NoDup h st Hst) as Hnd.
  destruct (Forall2_choice (λ p d, settingsOf h p = Some d) (shadowsOf st)) as [ds Hds].
  { intros p [k Hk]%shadowsOf_elem. destruct (sa_shadow _ _ Hst _ _ Hk) as (c & _ & _ & Hc). by eexists. }
  exists ds. split; [done|]. apply Forall2_same_length_lookup in Hds as [Hlen Hds].
  assert (∀ i d, ds !! i = Some d → ∃ p k c, shadowsOf st !! i = Some p ∧ st_shadows st !! k = Some p ∧
    c ∈ ChecksChanged (diffVIP (st_old st) (st_cfg st)) ∧ EffectiveName c = k ∧ d = wanted (st_cfg st) c) as Hof.
  { intros i d Hd. destruct (lookup_lt_is_Some_2 (shadowsOf st) i) as [p Hp]; [rewrite Hlen; by eapply lookup_lt_Some|].
    pose proof (list_elem_of_lookup_2 _ _ _ Hp) as [k Hk]%shadowsOf_elem.
    destruct (sa_shadow _ _ Hst _ _ Hk) as (c & Hc & <- & Hs). specialize (Hds i p d Hp Hd).
    exists p, (EffectiveName c), c. split_and!; try done. congruence. }
  split.
  - apply NoDup_alt. intros i j x Hi Hj. rewrite list_lookup_fmap in Hi, Hj.
    apply fmap_Some in Hi as (d & Hi & ->), Hj as (e & Hj & He).
    destruct (Hof _ _ Hi) as (p & k & c & Hp & Hk & _ & Ec & ->), (Hof _ _ Hj) as (p' & k' & c' & Hp' & Hk' & _ & Ec' & ->).
    injection He as He. assert (p = p') as <- by congruence. by eapply NoDup_lookup.
  - intros d. split.
    + intros [i Hi]%list_elem_of_lookup. destruct (Hof _ _ Hi) as (p & k & c & _ & _ & Hc & _ & ->). by exists c.
    + intros (c & Hc & ->). destruct (sa_all _ _ Hst c Hc) as [p Hp].
      destruct (sa_shadow _ _ Hst _ _ Hp) as (c' & Hc' & He & Hs).
      assert (p ∈ shadowsOf st) as [i Hi]%list_elem_of_lookup by (apply shadowsOf_elem; by eexists).
      destruct (lookup_lt_is_Some_2 ds i) as [d Hd]; [rewrite <-Hlen; by eapply lookup_lt_Some|].
      specialize (Hds i p d Hi Hd). apply (list_elem_of_lookup_2 _ i).
      destruct (diffVIP_checks (st_old st) (st_cfg st)) as [Hch _]; [apply (sa_good _ _ Hst)|].
      rewrite (wanted_key (st_cfg st) c c'); [congruence|apply (sa_good _ _ Hst)|by apply Hch..|by cbn].
Qed.

(** ** The invariant *)

Section Governed.
Context {P : Type} `{Policy P} {Hash : Type}.
Local Notation Reloader := (Reload.Reloader (P := P) (Hash := Hash)).
Implicit Types (r : Reloader) (p : ptr) (d : Settings).

Definition curVIPs r : list VIPConfig := elems (Cfg_VIPs (rl_cur r)).
Definition staged r p : Prop := ∃ vip st k, rl_staging r !! vip = Some st ∧ st_shadows st !! k = Some p.

Record governed r : Prop := mkGoverned {
  gv_config : goodVIPs (curVIPs r);
  gv_staged vip st : rl_staging r !! vip = Some st →
    VIP_Name (st_cfg st) = vip ∧ st_cfg st ∈ curVIPs r ∧ staged_as (rl_heap r) st;
  gv_mid : ∃ S : gset ptr, (∀ p, p ∈ S ↔ staged r p) ∧ mid ∅ S (wants (effectiveVIPsLocked r)) r }.

(** The definition that governs a VIP of the config. *)
Definition governor r (v : VIPConfig) : VIPConfig :=
  match rl_staging r !! VIP_Name v with Some st => st_old st | None => v end.

Lemma effective_wants r d :
  (∀ vip st, rl_staging r !! vip = Some st → VIP_Name (st_old st) = vip) →
  wants (effectiveVIPsLocked r) d ↔ ∃ v, v ∈ curVIPs r ∧ VIP_Name v = set_vip d ∧ wantedBy (governor r v) d.
Proof.
  intros Hn. change (effectiveVIPsLocked r) with (governor r <$> curVIPs r). split.
  - intros (g & (v & -> & Hv)%list_elem_of_fmap & Hw). exists v. split; [done|]. split; [|done].
    rewrite (wantedBy_vip _ _ Hw). unfold governor. destruct (rl_staging r !! VIP_Name v) as [st|] eqn:E; [|done].
    symmetry. by apply Hn.
  - intros (v & Hv & _ & Hw). exists (governor r v). split; [by apply list_elem_of_fmap_2|done].
Qed.

Lemma governed_names r vip st : governed r → rl_staging r !! vip = Some st → VIP_Name (st_old st) = vip.
Proof. intros Hg (<- & _ & Hst)%(gv_staged _ Hg). apply Hst. Qed.

Lemma staged_vip r vip st k p :
  governed r → rl_staging r !! vip = Some st → st_shadows st !! k = Some p → vipOf (rl_heap r) p = vip.
Proof.
  intros Hg (<- & _ & Hst)%(gv_staged _ Hg) (c & _ & _ & Hs)%(sa_shadow _ _ Hst). by apply settings_names in Hs as [-> _].
Qed.

(** *** Steps that only run schedulers *)
Lemma governed_same r r' : same r r' → governed r → governed r'.
Proof.
  intros Hsm [Hc Hst (S & HS & Hm)]. pose proof Hsm as [_ _ _ Hh Hs Hcur].
  assert (curVIPs r' = curVIPs r) as Hvips by (unfold curVIPs; by rewrite Hcur). constructor.
  - by rewrite Hvips.
  - intros vip st. rewrite Hs, Hvips. intros (? & ? & ?)%Hst. split_and!; try done.
    eapply staged_as_heap; [|done]. intros p _. apply Hh.
  - exists S. split; [intros p; unfold staged; rewrite Hs; apply HS|].
    eapply mid_same; [done|]. replace (effectiveVIPsLocked r') with (effectiveVIPsLocked r); [done|].
    unfold effectiveVIPsLocked. by rewrite Hs, Hcur.
Qed.

(** More verdicts of a staging change nothing. *)
Lemma governed_verdicts r vip st vs :
  rl_staging r !! vip = Some st → governed r →
  governed (setStaging r (<[vip := mkStagedVIP (st_cfg st) (st_old st) (st_shadows st) vs (st_removed st) (st_deadline st)]>
    (rl_staging r))).
Proof.
  intros Hst [Hc Hs (S & HS & Hm)]. set (st1 := mkStagedVIP _ _ _ _ _ _). destruct (Hs _ _ Hst) as (Hn & Hin & Has).
  constructor; [done| |].
  - intros vip' st'. cbn. intros [[<- <-]|[_ Hst']]%lookup_insert_Some; [|by apply Hs].
    split_and!; [done..|]. by destruct Has.
  - exists S. split.
    + intros p. rewrite HS. unfold staged. cbn. split.
      * intros (vip' & st' & k & Hst' & Hk). destruct (decide (vip' = vip)) as [->|Hne].
        -- exists vip, st1, k. rewrite lookup_insert_eq. by simplify_eq.
        -- exists vip', st', k. by rewrite lookup_insert_ne.
      * intros (vip' & st' & k & [[<- <-]|[_ Hst']]%lookup_insert_Some & Hk); [by exists vip, st, k|by exists vip', st', k].
    + eapply mid_iff; [|exact Hm]. intros d. unfold effectiveVIPsLocked, wants. cbn.
      replace ((λ v, match _ with Some st => st_old st | None => v end) <$> elems (Cfg_VIPs (rl_cur r)))
        with ((λ v, match <[vip:=st1]> (rl_staging r) !! VIP_Name v with Some st => st_old st | None => v end)
                <$> elems (Cfg_VIPs (rl_cur r))); [done|].
      apply list_fmap_ext. intros i v _. destruct (decide (VIP_Name v = vip)) as [->|Hne].
      * by rewrite lookup_insert_eq, Hst.
      * by rewrite lookup_insert_ne by done.
Qed.

Lemma cur_frame c : frame (λ r, rl_cur r = c).
Proof. by constructor. Qed.

Lemma commitLocked_settings now between st r p :
  settingsOf (rl_heap (commitLocked now between st r)) p = settingsOf (rl_heap r) p.
Proof.
  apply (commitLocked_heap (λ h, settingsOf h p = settingsOf (rl_heap r) p)); [| |done].
  - intros s res r' _ <-. apply schedResult_same.
  - intros s r' _ <-. apply (callbacks_same _ _ s r').
Qed.

(** *** A commit *)

(** The definitions that govern after a commit: that of its VIP is the new
    one. *)
Lemma commit_effective r st (ds : list Settings) d :
  goodVIPs (curVIPs r) → st_cfg st ∈ curVIPs r → staged_as (rl_heap r) st → rl_staging r !! VIP_Name (st_cfg st) = Some st →
  (∀ e, e ∈ ds ↔ ∃ c, c ∈ ChecksChanged (diffVIP (st_old st) (st_cfg st)) ∧ e = wanted (st_cfg st) c) →
  d ∈ ds ∨
    ((∃ v, v ∈ curVIPs r ∧ VIP_Name v = set_vip d ∧ wantedBy (governor r v) d) ∧
     (set_vip d = VIP_Name (st_cfg st) → set_check d ∉ st_removed st)) ∧ key d ∉ key <$> ds ↔
  ∃ v, v ∈ curVIPs r ∧ VIP_Name v = set_vip d ∧
       wantedBy (if decide (VIP_Name v = VIP_Name (st_cfg st)) then v else governor r v) d.
Proof.
  intros [Hnd _] Hin Has Hst Hel. destruct (decide (set_vip d = VIP_Name (st_cfg st))) as [E|E].
  - assert (∀ v, v ∈ curVIPs r → VIP_Name v = VIP_Name (st_cfg st) → v = st_cfg st) as Hone
      by (intros v Hv Hn; by eapply NoDup_fmap_elem_of).
    assert (governor r (st_cfg st) = st_old st) as Hold by (unfold governor; by rewrite Hst).
    transitivity (wantedBy (st_cfg st) d); [|split].
    + rewrite (commit_wants (st_old st) (st_cfg st) ds d); [|apply Has..|exact Hel]. rewrite <-(sa_removed _ _ Has).
      assert ((∃ v, v ∈ curVIPs r ∧ VIP_Name v = set_vip d ∧ wantedBy (governor r v) d) ↔ wantedBy (st_old st) d) as ->; [|tauto].
      split; [|by intros Hw; exists (st_cfg st); rewrite Hold].
      intros (v & Hv & Hvn & Hw). rewrite (Hone v Hv) in Hw by congruence. by rewrite Hold in Hw.
    + intros Hw. exists (st_cfg st). by rewrite decide_True.
    + intros (v & Hv & Hvn & Hw). rewrite (Hone v Hv) in Hw by congruence. by rewrite decide_True in Hw.
  - assert (key d ∉ key <$> ds) as Hkd.
    { intros (e & He & (c & _ & ->)%Hel)%list_elem_of_fmap. by injection He. }
    split.
    + intros [?|[[(v & Hv & Hvn & Hw) _] _]]; [destruct Hkd; by apply list_elem_of_fmap_2|].
      exists v. rewrite decide_False by congruence. done.
    + intros (v & Hv & Hvn & Hw). rewrite decide_False in Hw by congruence. right. split; [|done]. split; [by exists v|done].
Qed.

Lemma commitLocked_governed now between st r :
  rl_staging r !! VIP_Name (st_cfg st) = Some st → governed r → governed (commitLocked now between st r).
Proof.
  intros Hst Hg. pose proof Hg as [Hc Hs (S & HS & Hm)]. destruct (Hs _ _ Hst) as (_ & Hin & Has).
  pose proof (commitLocked_staging now between st r) as Hdel.
  pose proof (commitLocked_frame _ (cur_frame (rl_cur r)) now between st r eq_refl) as Hcur.
  assert (curVIPs (commitLocked now between st r) = curVIPs r) as Hvips by (unfold curVIPs; by rewrite Hcur).
  destruct (shadows_settings _ _ Has) as (ds & Hds & Hk & Hel).
  constructor.
  - by rewrite Hvips.
  - intros vip st'. rewrite Hdel, Hvips. intros [_ (? & ? & ?)%Hs]%lookup_delete_Some. split_and!; try done.
    eapply staged_as_heap; [|done]. intros p _. apply commitLocked_settings.
  - exists (S ∖ list_to_set (shadowsOf st)). split.
    + intros p. rewrite elem_of_difference, elem_of_list_to_set, HS. unfold staged. rewrite Hdel. split.
      * intros [(vip & st' & k & Hst' & Hp) Hno]. exists vip, st', k. split; [|done]. apply lookup_delete_Some.
        split; [|done]. intros <-. rewrite Hst in Hst'. injection Hst' as <-. apply Hno, shadowsOf_elem. by exists k.
      * intros (vip & st' & k & [Hne Hst']%lookup_delete_Some & Hp). split; [by exists vip, st', k|].
        intros [k' Hk']%shadowsOf_elem. apply Hne.
        by rewrite <-(staged_vip _ _ _ _ _ Hg Hst' Hp), (staged_vip _ _ _ _ _ Hg Hst Hk').
    + eapply mid_iff; [|apply (commitLocked_mid ∅ S (wants (effectiveVIPsLocked r)) now between st r ds); [|by eapply shadows_NoDup|done|exact Hm]].
      2:{ apply Forall2_same_length_lookup. apply Forall2_same_length_lookup in Hds as [Hlen Hds]. split; [done|].
          intros i p d Hp Hd. split; [|by apply (Hds i)]. apply list_elem_of_lookup_2, shadowsOf_elem in Hp as [k Hp].
          apply HS. by exists (VIP_Name (st_cfg st)), st, k. }
      intros d. rewrite !effective_wants; [|intros ? ? ?; by eapply governed_names|
        intros ? ?; rewrite Hdel; intros [_ ?]%lookup_delete_Some; by eapply governed_names].
      rewrite (commit_effective r st ds d Hc Hin Has Hst Hel), Hvips. unfold governor. rewrite Hdel.
      apply exist_proper. intros v. case_decide as E; [by rewrite E, lookup_delete_eq|by rewrite lookup_delete_ne].
Qed.

(** *** The loop of the reloader *)
Lemma readyOne_governed now between acc s : governed acc.1 → governed (readyOne now between acc s).1.
Proof.
  destruct acc as [r changed]. cbn. intros Hg.
  destruct (rl_staging r !! vipOf (rl_heap r) s) as [st|] eqn:Est; [|done]. cbv zeta. case_decide; [|done].
  pose proof (governed_verdicts r _ st ({[checkOf (rl_heap r) s]} ∪ st_verdicts st) Est Hg) as Hg1.
  destruct (gv_staged _ Hg _ _ Est) as (Hn & _ & _). case_decide; [exact Hg1|].
  apply commitLocked_governed; [|exact Hg1]. cbn. rewrite Hn. apply lookup_insert_eq.
Qed.

Lemma commitReady_governed now between r : governed r → governed (commitReady now between r).
Proof.
  intros Hg. unfold commitReady. cbv zeta. destruct (foldl _ _ _) as [r' changed] eqn:E.
  enough (governed r') as Hr' by (case_match; by apply (governed_same r')). change r' with (r', changed).1. rewrite <-E.
  apply (foldl_ind (λ acc, governed acc.1)); [intros acc s; apply readyOne_governed|]. by apply (governed_same r).
Qed.

Lemma expire_governed now between (l : list stagedVIP) r b :
  NoDup ((VIP_Name ∘ st_cfg) <$> l) → (∀ st, st ∈ l → rl_staging r !! VIP_Name (st_cfg st) = Some st) →
  governed r → governed (foldl (expireOne now between) (r, b) l).1.
Proof.
  revert r b. induction l as [|st l IH]; intros r b; cbn [foldl]; [done|].
  intros [Hn Hnd]%NoDup_cons Hl Hg. unfold expireOne at 2.
  assert (∀ st', st' ∈ l → rl_staging r !! VIP_Name (st_cfg st') = Some st') as Hl' by (intros; apply Hl; by right).
  case_decide; apply IH; try done.
  - intros st' Hst'. rewrite commitLocked_staging, lookup_delete_ne; [by apply Hl'|].
    intros Heq. apply Hn. cbn. rewrite Heq. by apply (list_elem_of_fmap_2 (VIP_Name ∘ st_cfg)).
  - apply commitLocked_governed; [apply Hl; by left|done].
Qed.

Lemma expireStaged_governed now between r : governed r → governed (expireStaged now between r).
Proof.
  intros Hg. unfold expireStaged. destruct (foldl _ _ _) as [r' changed] eqn:E.
  enough (governed r') as Hr' by (case_match; by apply (governed_same r')). change r' with (r', changed).1. rewrite <-E.
  assert (∀ k st, (k, st) ∈ map_to_list (rl_staging r) → VIP_Name (st_cfg st) = k) as Hk
    by (intros k st ?%elem_of_map_to_list; by apply (gv_staged _ Hg)).
  apply expire_governed; [| |done].
  - rewrite <-list_fmap_compose.
    replace (_ <$> map_to_list (rl_staging r)) with (map_to_list (rl_staging r)).*1; [apply NoDup_fst_map_to_list|].
    apply list_fmap_ext. intros i [k st] Hi%list_elem_of_lookup_2. symmetry. by apply Hk.
  - intros st ([k st'] & -> & Hst)%list_elem_of_fmap. cbn. rewrite (Hk _ _ Hst). by apply elem_of_map_to_list in Hst.
Qed.
End Governed.
End ReloadGoverns.
