(* ===== verification/ReloadApply.v ===== *)
(** * Applying a diff keeps the governing definitions

    The schedulers a reload builds, the loops over the added and the changed
    VIPs, and their composition: a reload of a config with distinct names
    keeps [governed], so that it holds in every reachable state. *)

From S2P Require Import Prelude GoStrings NetIP Config Model Metrics Scheduler Registry Diff.
From S2P Require Import PolicyManager PolicyProofs Logging Reload ReloadProofs ReloadStaging ReloadOutcome ReloadFrame ReloadOwns.
From S2P Require Import ReloadSync ReloadGoverns.

Module ReloadApply.
Import Logging Reload ReloadProofs ReloadStaging ReloadOutcome ReloadFrame ReloadOwns ReloadSync ReloadGoverns.

(** ** Building *)

Section Build.
Context {P : Type} `{Policy P} {Hash : Type} (newChecker : CheckConfig → result error string).
Local Notation Reloader := (Reload.Reloader (P := P) (Hash := Hash)).
Implicit Types (r : Reloader) (p s : ptr) (d : Settings).

(** The scheduler at [s] was built between [r] and [r'], for [c] of [v]. *)
Definition builtFor r r' (v : VIPConfig) s (c : CheckConfig) : Prop :=
  fresh_for r r' s ∧ settingsOf (rl_heap r') s = Some (wanted v c).

Lemma allocated_settings r r' p :
  allocated r r' → (p < rl_nextPtr r)%nat → settingsOf (rl_heap r') p = settingsOf (rl_heap r) p.
Proof. intros (h & n & -> & _ & Hh) Hp. unfold settingsOf. cbn. by rewrite Hh. Qed.

Lemma builtFor_later r r1 r' v s c : allocated r1 r' → builtFor r r1 v s c → builtFor r r' v s c.
Proof.
  intros Ha [Hf Hs]. split; [by eapply fresh_for_mono|]. rewrite (allocated_settings r1); [done|done|]. apply Hf.
Qed.

Lemma builtFor_earlier r r1 r' v s c : allocated r r1 → builtFor r1 r' v s c → builtFor r r' v s c.
Proof. intros Ha [Hf Hs]. split; [by eapply fresh_for_le|done]. Qed.

Lemma NewSchedulers_builds v l r r' scheds :
  NewSchedulers newChecker v l r = (r', Ok scheds) → EmptyString ∉ EffectiveName <$> l →
  allocated r r' ∧ NoDup scheds ∧ Forall2 (builtFor r r' v) scheds l.
Proof.
  intros E He. destruct (NewSchedulers_spec _ _ _ _ _ _ E) as [Ha Hf]. split; [done|]. revert E Hf.
  unfold NewSchedulers. destruct (newGuard v); [done|].
  destruct (newSchedulersLoop _ _ _ _ _ _) as [[h n] res] eqn:E. intros [= <- ->] Hf.
  apply newSchedulersLoop_builds in E as (-> & -> & _ & Hnew). cbn [app] in *. split; [apply NoDup_seq|].
  apply Forall2_same_length_lookup. split; [by rewrite length_seq|]. intros i s c Hs Hc.
  pose proof (list_elem_of_lookup_2 _ _ _ Hs) as Hin. apply lookup_seq in Hs as [-> Hi].
  split; [by apply Hf|]. destruct (Hnew i c Hc) as (typ & _ & Hx). unfold settingsOf. cbn. rewrite Hx. cbn.
  unfold settings, wanted. cbn. rewrite decide_False; [done|]. intros Heq. apply He. rewrite <-Heq.
  by eapply list_elem_of_fmap_2, list_elem_of_lookup_2.
Qed.

Lemma buildAdded_builds l r added r' added' :
  buildAdded newChecker l r added = (r', added', None) → NoDup (VIP_Name <$> l) → (∀ v, v ∈ l → goodVIP v) →
  allocated r r' ∧ (∀ k, k ∉ VIP_Name <$> l → added' !! k = added !! k) ∧
  ∀ v, v ∈ l → ∃ scheds, added' !! VIP_Name v = Some scheds ∧ NoDup scheds ∧ Forall2 (builtFor r r' v) scheds (CheckList v).
Proof.
  revert r added. induction l as [|v l IH]; intros r added; cbn.
  { intros [= <- <-] _ _. split; [apply allocated_refl|]. split; [done|]. by intros v ?%not_elem_of_nil. }
  destruct (NewSchedulers newChecker v (CheckList v) r) as [r1 [scheds|e]] eqn:E; [|done].
  intros Hl [Hv Hnd]%NoDup_cons Hg.
  destruct (NewSchedulers_builds _ _ _ _ _ E) as (Ha1 & Hnd1 & Hb1); [apply Hg; by left|].
  destruct (IH _ _ Hl Hnd) as (Ha & Hk & Hb); [intros; apply Hg; by right|].
  split; [by eapply allocated_trans|]. split.
  - intros k [Hkv Hkl]%not_elem_of_cons. by rewrite Hk, lookup_insert_ne.
  - intros w [->|Hw]%elem_of_cons.
    + exists scheds. rewrite Hk, lookup_insert_eq by done. split_and!; try done.
      eapply Forall2_impl; [done|]. intros s c. by apply builtFor_later.
    + destruct (Hb w Hw) as (sw & ? & ? & Hf). exists sw. split_and!; try done.
      eapply Forall2_impl; [done|]. intros s c. by apply builtFor_earlier.
Qed.

Lemma shadows_has (h : gmap ptr Sched) (scheds : list ptr) s :
  s ∈ scheds → is_Some (foldl (λ m s, <[checkOf h s := s]> m) (∅ : gmap string ptr) scheds !! checkOf h s).
Proof.
  induction scheds as [|x l IH] using rev_ind; [by intros ?%not_elem_of_nil|]. rewrite foldl_app. cbn.
  destruct (decide (checkOf h x = checkOf h s)) as [->|Hne]; [by rewrite lookup_insert_eq; eexists|].
  rewrite lookup_insert_ne by done. intros [Hs|Hs%list_elem_of_singleton]%elem_of_app; [by apply IH|by subst].
Qed.

(** A change as [DiffVIPs] makes it, of definitions with good names. *)
Definition goodChange (ch : VIPChange) : Prop :=
  ch = diffVIP (VC_Old ch) (VC_New ch) ∧ VIP_Name (VC_Old ch) = VIP_Name (VC_New ch) ∧
  goodVIP (VC_Old ch) ∧ goodVIP (VC_New ch).

Lemma stageFor_as at_ ch r r' scheds :
  goodChange ch → Forall2 (builtFor r r' (VC_New ch)) scheds (ChecksChanged ch) →
  staged_as (rl_heap r') (stageFor at_ ch (rl_heap r') scheds).
Proof.
  intros (Hd & Hn & Ho & Hg) Hb. apply Forall2_same_length_lookup in Hb as [Hlen Hb].
  constructor; cbn [stageFor st_cfg st_old st_removed st_shadows]; rewrite <-?Hd; try done.
  - intros k p Hk. pose proof (shadows_keyed _ _ _ _ Hk) as Hc. apply shadows_elem, list_elem_of_lookup in Hk as [i Hi].
    destruct (lookup_lt_is_Some_2 (ChecksChanged ch) i) as [c Hci]; [rewrite <-Hlen; by eapply lookup_lt_Some|].
    destruct (Hb i p c Hi Hci) as [_ Hs]. exists c. split; [by eapply list_elem_of_lookup_2|]. split; [|done].
    apply settings_names in Hs as [_ Hcs]. rewrite <-Hc, Hcs. done.
  - intros c [i Hi]%list_elem_of_lookup.
    destruct (lookup_lt_is_Some_2 scheds i) as [p Hp]; [rewrite Hlen; by eapply lookup_lt_Some|].
    destruct (Hb i p c Hp Hi) as [_ Hs]. apply settings_names in Hs as [_ Hcs]. cbn in Hcs. rewrite <-Hcs.
    by eapply shadows_has, list_elem_of_lookup_2.
Qed.

(** What is staged for a change. *)
Definition stagedFor r r' (ch : VIPChange) (o : option stagedVIP) : Prop :=
  match o with
  | None => ChecksChanged ch = []
  | Some st => st_cfg st = VC_New ch ∧ st_old st = VC_Old ch ∧ staged_as (rl_heap r') st ∧
               ∀ p, p ∈ shadowsOf st → fresh_for r r' p
  end.

Lemma stagedFor_later r r1 r' ch o : allocated r1 r' → stagedFor r r1 ch o → stagedFor r r' ch o.
Proof.
  intros Ha. destruct o as [st|]; [|done]. intros (? & ? & Hst & Hf). split_and!; try done.
  - eapply staged_as_heap; [|done]. intros p Hp. by apply (allocated_settings r1), Hf.
  - intros p Hp. by eapply fresh_for_mono, Hf.
Qed.
Lemma stagedFor_earlier r r1 r' ch o : allocated r r1 → stagedFor r1 r' ch o → stagedFor r r' ch o.
Proof.
  intros Ha. destruct o as [st|]; [|done]. intros (? & ? & Hst & Hf). split_and!; try done.
  intros p Hp. by eapply fresh_for_le, Hf.
Qed.

Lemma buildStaged_builds at_ l r staged r' staged' :
  buildStaged newChecker at_ l r staged = (r', staged', None) →
  NoDup ((VIP_Name ∘ VC_New) <$> l) → (∀ ch, ch ∈ l → goodChange ch ∧ staged !! VIP_Name (VC_New ch) = None) →
  allocated r r' ∧ (∀ k, k ∉ (VIP_Name ∘ VC_New) <$> l → staged' !! k = staged !! k) ∧
  ∀ ch, ch ∈ l → stagedFor r r' ch (staged' !! VIP_Name (VC_New ch)).
Proof.
  revert r staged. induction l as [|ch l IH]; intros r staged; cbn.
  { intros [= <- <-] _ _. split; [apply allocated_refl|]. split; [done|]. by intros v ?%not_elem_of_nil. }
  intros Hl [Hv Hnd]%NoDup_cons Hg. destruct (Hg ch) as [Hch Hns]; [by left|].
  destruct (ChecksChanged ch) as [|c cl] eqn:Ec.
  - destruct (IH _ _ Hl Hnd) as (Ha & Hk & Hb); [intros; apply Hg; by right|]. split; [done|]. split.
    + intros k [_ Hkl]%not_elem_of_cons. by apply Hk.
    + intros w [->|Hw]%elem_of_cons; [|by apply Hb]. cbn in Hv. rewrite (Hk _ Hv), Hns. done.
  - destruct (NewSchedulers newChecker (VC_New ch) (c :: cl) r) as [r1 [scheds|e]] eqn:E; [|done].
    rewrite <-Ec in *. assert (EmptyString ∉ EffectiveName <$> ChecksChanged ch) as Hne.
    { destruct Hch as (Hd & _ & Hgo & [_ Hgn]). intros (x & Hx & Hin)%list_elem_of_fmap. apply Hgn. rewrite Hx.
      apply list_elem_of_fmap_2. rewrite Hd in Hin. by apply (diffVIP_checks _ _ (proj1 Hgo)) in Hin as [? _]. }
    destruct (NewSchedulers_builds _ _ _ _ _ E Hne) as (Ha1 & Hnd1 & Hb1).
    destruct (IH _ _ Hl Hnd) as (Ha & Hk & Hb).
    { intros w Hw. destruct (Hg w) as [? ?]; [by right|]. split; [done|]. rewrite lookup_insert_ne; [done|].
      intros Heq. apply Hv. cbn. rewrite Heq. by apply (list_elem_of_fmap_2 (VIP_Name ∘ VC_New)). }
    split; [by eapply allocated_trans|]. split.
    + intros k [Hkv Hkl]%not_elem_of_cons. rewrite Hk by done. by rewrite lookup_insert_ne by (by symmetry).
    + intros w [->|Hw]%elem_of_cons; [|by eapply stagedFor_earlier, Hb].
      cbn in Hv. rewrite (Hk _ Hv), lookup_insert_eq. eapply stagedFor_later; [exact Ha|]. split_and!; try done.
      * by eapply stageFor_as.
      * intros p [k Hp%shadows_elem]%shadowsOf_elem. apply Forall2_same_length_lookup in Hb1 as [Hlen Hb1].
        apply list_elem_of_lookup in Hp as [i Hi].
        destruct (lookup_lt_is_Some_2 (ChecksChanged ch) i) as [c' Hci]; [rewrite <-Hlen; by eapply lookup_lt_Some|].
        by apply (Hb1 i p c').
Qed.
End Build.

(** ** The loops over the added and the changed VIPs *)

Section Loops.
Context {P : Type} `{Policy P} {Hash : Type}.
Local Notation Reloader := (Reload.Reloader (P := P) (Hash := Hash)).
Implicit Types (r : Reloader) (p s : ptr) (d : Settings) (U S T : gset ptr) (G : Settings → Prop).

Lemma addScheds_settings l r p : settingsOf (rl_heap (foldl addSched r l)) p = settingsOf (rl_heap r) p.
Proof. apply (foldl_keeps (λ r, settingsOf (rl_heap r) p)). intros r' s. apply (callbacks_same _ _ s r'). Qed.

Lemma addOne_settings now failed built acc v p :
  settingsOf (rl_heap (addOne now failed built acc v).1) p = settingsOf (rl_heap (acc.1 : Reloader)) p.
Proof.
  destruct acc as [r names]. unfold addOne. destruct (failed !! _); [done|]. cbn.
  exact (addScheds_settings (default [] (built !! VIP_Name v)) (setPol r (pol_AddVIP now v (rl_pol r))) p).
Qed.

(** The schedulers built for a VIP, unused so far; [T] are kept apart. *)
Definition readyFor U T r (v : VIPConfig) (o : option (list ptr)) : Prop :=
  ∃ scheds, o = Some scheds ∧ NoDup scheds ∧
    Forall2 (λ s c, (s ∈ U ∧ s ∉ T) ∧ settingsOf (rl_heap r) s = Some (wanted v c)) scheds (CheckList v).

Lemma readyFor_less U T r r' v o scheds' w :
  VIP_Name v ≠ VIP_Name w → (∀ s, s ∈ scheds' → ∃ c, settingsOf (rl_heap r) s = Some (wanted v c)) →
  (∀ p, settingsOf (rl_heap r') p = settingsOf (rl_heap r) p) →
  readyFor U T r w o → readyFor (U ∖ list_to_set scheds') T r' w o.
Proof.
  intros Hne Hs Hh (scheds & -> & Hnd & Hf). exists scheds. split_and!; try done.
  eapply Forall2_impl; [done|]. intros s c [[HU HT] Hsc]. rewrite Hh. split; [|done]. split; [|done].
  apply elem_of_difference. split; [done|]. rewrite elem_of_list_to_set. intros [c' Hc']%Hs.
  rewrite Hsc in Hc'. apply Hne. by injection Hc'.
Qed.

Lemma wanted_keys v : goodVIP v → NoDup (key <$> (wanted v <$> CheckList v)).
Proof.
  intros [Hnd _]. rewrite <-list_fmap_compose. apply (NoDup_fmap_1 snd). by rewrite <-list_fmap_compose.
Qed.

Lemma wantedBy_list v d : d ∈ wanted v <$> CheckList v ↔ wantedBy v d.
Proof. rewrite list_elem_of_fmap. unfold wantedBy. naive_solver. Qed.

Lemma addOne_mid U S T G now failed built v r names :
  goodVIP v → readyFor U T r v (built !! VIP_Name v) → T ⊆ U →
  (∀ d, G d → set_vip d = VIP_Name v → is_Some (failed !! VIP_Name v)) → mid U S G r →
  ∃ scheds, built !! VIP_Name v = Some scheds ∧ T ⊆ U ∖ list_to_set scheds ∧
  mid (U ∖ list_to_set scheds) S (λ d, G d ∨ failed !! VIP_Name v = None ∧ wantedBy v d) (addOne now failed built (r, names) v).1.
Proof.
  intros Hg (scheds & Hb & Hnd & Hf) HT Hnew Hm. exists scheds. split; [done|]. split.
  { intros p Hp. apply elem_of_difference. split; [by apply HT|]. rewrite elem_of_list_to_set.
    intros [i Hi]%list_elem_of_lookup. destruct (Forall2_lookup_l _ _ _ _ _ Hf Hi) as (c & _ & [[_ ?] _]). done. }
  unfold addOne. rewrite Hb. cbn. destruct (failed !! VIP_Name v) as [fv|] eqn:E; cbn.
  - destruct Hm as [Ho Hs]. split; cbn.
    + apply owns_close; [done|]. intros p. rewrite elem_of_list_to_set. intros [i Hi]%list_elem_of_lookup.
      destruct (Forall2_lookup_l _ _ _ _ _ Hf Hi) as (c & _ & [[? _] _]). done.
    + intros d. rewrite <-Hs. split; [by left|]. by intros [?|[? _]].
  - change (λ r s, setReg (setCallbacks _ _ s r) _) with (addSched (P := P) (Hash := Hash)).
    eapply mid_iff; [|apply (adds_mid U S scheds G (setPol r _) (wanted v <$> CheckList v)); [|done|by apply wanted_keys| |exact Hm]].
    + intros d. cbn. rewrite wantedBy_list. naive_solver.
    + apply Forall2_fmap_r. eapply Forall2_impl; [done|]. cbn. by intros s c [[? _] ?].
    + intros d Hd (e & He & (c & _ & ->)%wantedBy_list)%list_elem_of_fmap. injection He as He _.
      destruct (Hnew d Hd He) as [? ?]. done.
Qed.

Lemma addAll_mid S T now failed built l U G r names :
  NoDup (VIP_Name <$> l) → (∀ v, v ∈ l → goodVIP v ∧ readyFor U T r v (built !! VIP_Name v)) → T ⊆ U →
  (∀ d, G d → set_vip d ∈ VIP_Name <$> l → is_Some (failed !! set_vip d)) → mid U S G r →
  ∃ U', T ⊆ U' ∧ mid U' S (λ d, G d ∨ ∃ v, v ∈ l ∧ failed !! VIP_Name v = None ∧ wantedBy v d)
                   (foldl (addOne now failed built) (r, names) l).1.
Proof.
  revert U G r names. induction l as [|v l IH]; intros U G r names.
  { intros _ _ HT _ Hm. exists U. split; [done|]. eapply mid_iff; [|exact Hm]. intros d. split; [by left|].
    intros [?|(v & ?%not_elem_of_nil & _)]; done. }
  rewrite fmap_cons. intros [Hv Hnd]%NoDup_cons Hl HT Hnew Hm. cbn [foldl]. destruct (Hl v) as [Hg Hr]; [by left|].
  destruct (addOne_mid U S T G now failed built v r names Hg Hr HT) as (scheds & Hb & HT' & Hm'); [|done|].
  { intros d Hd Hdv. rewrite <-Hdv. apply Hnew; [done|]. rewrite Hdv. by left. }
  assert (∀ s, s ∈ scheds → ∃ c, settingsOf (rl_heap r) s = Some (wanted v c)) as Hsc.
  { destruct Hr as (sc & Hsc & _ & Hf). rewrite Hb in Hsc. injection Hsc as <-. intros s [i Hi]%list_elem_of_lookup.
    destruct (Forall2_lookup_l _ _ _ _ _ Hf Hi) as (c & _ & [_ ?]). by exists c. }
  pose proof (λ p, addOne_settings now failed built (r, names) v p) as Hh. cbn [fst] in Hh.
  destruct (addOne now failed built (r, names) v) as [r1 names1] eqn:E1. cbn [fst] in *.
  destruct (IH (U ∖ list_to_set scheds) (λ d, G d ∨ failed !! VIP_Name v = None ∧ wantedBy v d) r1 names1 Hnd)
    as (U' & HT'' & Hm''); [|done| |exact Hm'|].
  - intros w Hw. destruct (Hl w) as [? Hrw]; [by right|]. split; [done|]. eapply readyFor_less; [|exact Hsc|done|done].
    intros Heq. apply Hv. rewrite Heq. by apply list_elem_of_fmap_2.
  - intros d [Hd|[Hf Hw]] Hdl; [apply Hnew; [done|by right]|]. apply wantedBy_vip in Hw. rewrite Hw in Hdl. done.
  - exists U'. split; [done|]. eapply mid_iff; [|exact Hm'']. intros d. setoid_rewrite elem_of_cons. naive_solver.
Qed.

(** What a change meets: its VIP runs the old definition, and its shadows are
    built. *)
Definition changing U G r (ch : VIPChange) (o : option stagedVIP) : Prop :=
  goodChange ch ∧ (∀ d, set_vip d = VIP_Name (VC_New ch) → G d ↔ wantedBy (VC_Old ch) d) ∧
  match o with
  | None => ChecksChanged ch = []
  | Some st => st_cfg st = VC_New ch ∧ staged_as (rl_heap r) st ∧ ∀ p, p ∈ shadowsOf st → p ∈ U
  end.

Definition atOnce (staged : gmap string stagedVIP) (ch : VIPChange) : Prop :=
  staged !! VIP_Name (VC_New ch) = None.

Lemma changeOne_settings now staged acc ch p :
  settingsOf (rl_heap (changeOne now staged acc ch).1.1) p = settingsOf (rl_heap (acc.1.1 : Reloader)) p.
Proof.
  destruct acc as [[r errs] pending]. cbn. destruct (staged !! _) as [st|]; cbn.
  - rewrite (foldl_keeps (λ r, settingsOf (rl_heap r) p)); [done|]. intros r' s. apply (callbacks_same _ _ s r').
  - destruct (pol_CommitVIP _ _ _ _) as [pol err]. cbn.
    by rewrite (foldl_keeps rl_heap) by (intros; apply removeCheck_heap).
Qed.

(** One change: committed at once, or staged. *)
Lemma changeOne_none U S G now staged r errs pending ch :
  staged !! VIP_Name (VC_New ch) = None → changing U G r ch None → mid U S G r →
  let r' := (changeOne now staged (r, errs, pending) ch).1.1 in
  rl_staging r' = rl_staging r ∧
  mid U S (λ d, wantedBy (VC_New ch) d ∨ G d ∧ set_vip d ≠ VIP_Name (VC_New ch)) r'.
Proof.
  intros Hst (Hch & Hold & Hno) Hm. cbv zeta. cbn [changeOne]. rewrite Hst.
  set (r1 := foldl (removeCheck _) r _).
  assert (mid U S _ r1) as Hm1 by exact (removeChecks_mid U S G _ _ r Hm).
  assert (rl_staging r1 = rl_staging r) as Hs1
    by (unfold r1; rewrite (foldl_keeps rl_staging) by (intros; apply removeCheck_staging); done).
  clearbody r1. destruct (pol_CommitVIP _ _ _ _) as [pol err]. cbn [fst]. split; [done|].
  eapply mid_iff; [|exact Hm1]. intros d. destruct Hch as (Hd & Hn & Hgo & Hgn).
  assert (∀ e : Settings, e ∈ ([] : list Settings) ↔ ∃ c, c ∈ ChecksChanged (diffVIP (VC_Old ch) (VC_New ch)) ∧ e = wanted (VC_New ch) c) as Hds.
  { intros e. rewrite <-Hd, Hno. split; [by intros ?%not_elem_of_nil|by intros (c & ?%not_elem_of_nil & _)]. }
  pose proof (commit_wants _ _ [] d Hgo Hgn Hn Hds) as Hw. rewrite <-Hd in Hw. cbn in Hw. rewrite !elem_of_nil in Hw.
  destruct (decide (set_vip d = VIP_Name (VC_New ch))) as [E|E].
  - rewrite (Hold d E), Hw. tauto.
  - split; [intros [? _]; by right|]. intros [?%wantedBy_vip|[? _]]; [done|]. split; [done|]. by intros ?.
Qed.

Lemma changeOne_some U S G now staged r errs pending ch st :
  staged !! VIP_Name (VC_New ch) = Some st → changing U G r ch (Some st) → mid U S G r →
  let r' := (changeOne now staged (r, errs, pending) ch).1.1 in
  rl_staging r' = <[VIP_Name (VC_New ch) := st]> (rl_staging r) ∧
  mid (U ∖ list_to_set (shadowsOf st)) (list_to_set (shadowsOf st) ∪ S) G r'.
Proof.
  intros Hst (Hch & _ & _ & Has & HU) Hm. cbv zeta. cbn [changeOne]. rewrite Hst. cbn [fst].
  change (λ r s, setReg (watchShadow s r) _) with (launchShadow (P := P) (Hash := Hash)).
  change ((map_to_list (st_shadows st)).*2) with (shadowsOf st). split; [by rewrite (proj1 (launch_fixed _ _))|].
  apply launches_mid; [by eapply shadows_NoDup|done|exact Hm].
Qed.

Lemma changing_next U U' G G' r r' ch ch' o :
  VIP_Name (VC_New ch) ≠ VIP_Name (VC_New ch') →
  (∀ d, set_vip d ≠ VIP_Name (VC_New ch) → G' d ↔ G d) →
  (∀ p, settingsOf (rl_heap r') p = settingsOf (rl_heap r) p) →
  (∀ p, p ∈ U → vipOf (rl_heap r) p ≠ VIP_Name (VC_New ch) → p ∈ U') →
  changing U G r ch' o → changing U' G' r' ch' o.
Proof.
  intros Hne HG Hh HU (Hch & Hold & Ho). split; [done|]. split.
  - intros d Hd. rewrite HG by congruence. by apply Hold.
  - destruct o as [st|]; [|done]. destruct Ho as (Hc & Has & Hp). split; [done|].
    split; [eapply staged_as_heap; [intros; apply Hh|done]|].
    intros p Hin. apply HU; [by apply Hp|]. apply shadowsOf_elem in Hin as [k Hk].
    destruct (sa_shadow _ _ Has _ _ Hk) as (c & _ & _ & Hs). apply settings_names in Hs as [-> _]. cbn. by rewrite Hc.
Qed.

(** What one change leaves of the settings. *)
Definition afterChange (staged : gmap string stagedVIP) (ch : VIPChange) G d : Prop :=
  atOnce staged ch ∧ wantedBy (VC_New ch) d ∨ G d ∧ (atOnce staged ch → set_vip d ≠ VIP_Name (VC_New ch)).

Lemma changeOne_mid U S G now staged r errs pending ch :
  changing U G r ch (staged !! VIP_Name (VC_New ch)) → rl_staging r !! VIP_Name (VC_New ch) = None →
  mid U S G r → (∀ p, p ∈ S ↔ ReloadGoverns.staged r p) →
  let r' := (changeOne now staged (r, errs, pending) ch).1.1 in
  (∀ k, rl_staging r' !! k = if decide (k = VIP_Name (VC_New ch)) then staged !! k else rl_staging r !! k) ∧
  ∃ U' S', (∀ p, p ∈ U → vipOf (rl_heap r) p ≠ VIP_Name (VC_New ch) → p ∈ U') ∧
    (∀ p, p ∈ S' ↔ ReloadGoverns.staged r' p) ∧ mid U' S' (afterChange staged ch G) r'.
Proof.
  intros Hch Hns Hm HS. cbv zeta. unfold afterChange, atOnce.
  destruct (staged !! VIP_Name (VC_New ch)) as [st|] eqn:Est.
  - destruct (changeOne_some U S G now staged r errs pending ch st Est Hch Hm) as [Hs1 Hm1]. cbv zeta in *. rewrite Hs1.
    destruct Hch as (_ & _ & Hcfg & Has & _). split; [intros k; case_decide as Hk; [subst; by rewrite lookup_insert_eq|by rewrite lookup_insert_ne]|].
    exists (U ∖ list_to_set (shadowsOf st)), (list_to_set (shadowsOf st) ∪ S). split; [|split].
    + intros p Hp Hv. apply elem_of_difference. split; [done|]. rewrite elem_of_list_to_set. intros [k Hk]%shadowsOf_elem.
      destruct (sa_shadow _ _ Has _ _ Hk) as (c & _ & _ & Hs). apply settings_names in Hs as [Hvp _]. cbn in Hvp. congruence.
    + intros p. rewrite elem_of_union, elem_of_list_to_set, HS, shadowsOf_elem. unfold ReloadGoverns.staged. rewrite Hs1. split.
      * intros [[k Hp]|(v & st' & k & Hst' & Hp)]; [eexists _, st, k; by rewrite lookup_insert_eq|].
        exists v, st', k. rewrite lookup_insert_ne; [done|]. intros <-. congruence.
      * intros (v & st' & k & [[<- <-]|[_ Hst']]%lookup_insert_Some & Hp); [left; by exists k|right; by exists v, st', k].
    + eapply mid_iff; [|exact Hm1]. intros d. split; [by auto|]. by intros [[? _]|[? _]].
  - destruct (changeOne_none U S G now staged r errs pending ch Est Hch Hm) as [Hs1 Hm1]. cbv zeta in *. rewrite Hs1.
    split; [intros k; case_decide as Hk; [subst; congruence|done]|]. exists U, S. split; [done|]. split.
    + intros p. unfold ReloadGoverns.staged. rewrite Hs1. apply HS.
    + eapply mid_iff; [|exact Hm1]. intros d. naive_solver.
Qed.

Lemma changeAll_mid now staged l : ∀ U S G r errs pending,
  NoDup ((VIP_Name ∘ VC_New) <$> l) →
  (∀ ch, ch ∈ l → changing U G r ch (staged !! VIP_Name (VC_New ch)) ∧ rl_staging r !! VIP_Name (VC_New ch) = None) →
  mid U S G r → (∀ p, p ∈ S ↔ ReloadGoverns.staged r p) →
  let r' := (foldl (changeOne now staged) (r, errs, pending) l).1.1 in
  ∃ U' S', (∀ p, p ∈ S' ↔ ReloadGoverns.staged r' p) ∧
    (∀ k, rl_staging r' !! k = if decide (k ∈ (VIP_Name ∘ VC_New) <$> l) then staged !! k else rl_staging r !! k) ∧
    mid U' S' (λ d, (∃ ch, ch ∈ l ∧ atOnce staged ch ∧ wantedBy (VC_New ch) d) ∨
                    G d ∧ ∀ ch, ch ∈ l → atOnce staged ch → set_vip d ≠ VIP_Name (VC_New ch)) r'.
Proof.
  induction l as [|ch l IH]; intros U S G r errs pending.
  { intros _ _ Hm HS. exists U, S. split; [done|]. split; [intros k; by rewrite decide_False by apply not_elem_of_nil|].
    eapply mid_iff; [|exact Hm]. intros d. split; [|by intros [(ch & ?%not_elem_of_nil & _)|[? _]]].
    intros ?. right. split; [done|]. by intros ch ?%not_elem_of_nil. }
  rewrite fmap_cons. intros [Hv Hnd]%NoDup_cons Hl Hm HS. cbn [foldl]. destruct (Hl ch) as [Hch Hns]; [by left|].
  assert (∀ w, w ∈ l → VIP_Name (VC_New ch) ≠ VIP_Name (VC_New w)) as Hne.
  { intros w Hw Heq. apply Hv. cbn. rewrite Heq. by apply (list_elem_of_fmap_2 (VIP_Name ∘ VC_New)). }
  pose proof (λ p, changeOne_settings now staged (r, errs, pending) ch p) as Hh. cbn [fst] in Hh.
  destruct (changeOne_mid U S G now staged r errs pending ch Hch Hns Hm HS) as (Hk1 & U1 & S1 & HU1 & HS1 & Hm1).
  destruct (changeOne now staged (r, errs, pending) ch) as [[r1 errs1] pending1]. cbv zeta in *. cbn [fst] in *.
  destruct (IH U1 S1 (afterChange staged ch G) r1 errs1 pending1 Hnd) as (U' & S' & HS' & Hk & Hm'); [|exact Hm1|exact HS1|].
  - intros w Hw. destruct (Hl w) as [Hcw Hnw]; [by right|]. split.
    + eapply changing_next; [by apply Hne| |exact Hh|exact HU1|exact Hcw]. intros d Hd. unfold afterChange.
      split; [intros [[_ ?%wantedBy_vip]|[? _]]; done|auto].
    + rewrite Hk1, decide_False; [done|]. intros He. by apply (Hne w).
  - exists U', S'. split; [done|]. split.
    + intros k. rewrite Hk, Hk1. repeat case_decide; try done; set_solver.
    + eapply mid_iff; [|exact Hm']. intros d. setoid_rewrite elem_of_cons. unfold afterChange. split.
      * intros [(w & ? & ? & ?)|[[[? ?]|[? Hn]] Hno]]; [left; exists w; auto|left; exists ch; auto|].
        right. split; [done|]. intros w [->|?] ?; auto.
      * intros [(w & [->|Hw] & ? & Hwd)|[? Hn]]; [|left; by exists w|right; split; [right; split; [done|]|]; auto].
        right. split; [by left|]. intros w Hw _. rewrite (wantedBy_vip _ _ Hwd). by apply Hne.
Qed.
End Loops.

(** ** The config that is kept *)

Lemma keepOld_elem (vips : list VIPConfig) old v :
  NoDup (VIP_Name <$> vips) → v ∈ keepOld vips old ↔ v = old ∨ v ∈ vips ∧ VIP_Name v ≠ VIP_Name old.
Proof.
  intros Hnd. unfold keepOld. destruct (list_find _ _) as [[i x]|] eqn:E.
  - apply list_find_Some in E as (Hi & Hx & _). pose proof (lookup_lt_Some _ _ _ Hi) as Hlt.
    rewrite !list_elem_of_lookup. split.
    + intros [j Hj]. apply list_lookup_insert_Some in Hj as [(_ & -> & _)|[Hne Hj]]; [by left|]. right.
      split; [by exists j|]. intros Heq. apply Hne. eapply (NoDup_fmap_lookup VIP_Name vips); [done..|congruence].
    + intros [->|[[j Hj] Hne]]; [exists i; by apply list_lookup_insert_eq|]. exists j.
      rewrite list_lookup_insert_ne; [done|]. intros ->. congruence.
  - apply list_find_None in E. rewrite Forall_forall in E. rewrite elem_of_app, list_elem_of_singleton.
    split; [|naive_solver]. intros [Hv|?]; [right; split; [done|by apply E]|by left].
Qed.

Lemma keepOld_NoDup (vips : list VIPConfig) old : NoDup (VIP_Name <$> vips) → NoDup (VIP_Name <$> keepOld vips old).
Proof.
  intros Hnd. unfold keepOld. destruct (list_find _ _) as [[i x]|] eqn:E.
  - apply list_find_Some in E as (Hi & Hx & _). rewrite list_fmap_insert, list_insert_id; [done|].
    rewrite list_lookup_fmap, Hi. cbn. by rewrite Hx.
  - apply list_find_None in E. rewrite Forall_forall in E. rewrite fmap_app. apply NoDup_app. split; [done|].
    split; [|apply NoDup_singleton]. intros n (v & -> & Hv)%list_elem_of_fmap ?%list_elem_of_singleton. by apply (E v Hv).
Qed.

Lemma keepOlds_elem (l vips : list VIPConfig) :
  NoDup (VIP_Name <$> vips) → NoDup (VIP_Name <$> l) →
  NoDup (VIP_Name <$> foldl keepOld vips l) ∧
  ∀ v, v ∈ foldl keepOld vips l ↔ v ∈ l ∨ v ∈ vips ∧ VIP_Name v ∉ VIP_Name <$> l.
Proof.
  revert vips. induction l as [|x l IH]; intros vips Hnd; cbn [foldl fmap list_fmap].
  { intros _. split; [done|]. intros v. rewrite !elem_of_nil. tauto. }
  intros [Hx Hl]%NoDup_cons. destruct (IH (keepOld vips x)) as [H1 H2]; [by apply keepOld_NoDup|done|].
  split; [done|]. intros v. rewrite H2, keepOld_elem, !elem_of_cons by done. split.
  - intros [?|[[->|[? ?]] ?]]; [by auto..|]. right. split; [done|]. by intros [?|?].
  - intros [[->|?]|[? Hn]]; [right; split; [by left|done]|by left|]. right.
    split; [right; split; [done|]|]; intros ?; apply Hn; auto.
Qed.

(** The running config after a reload: the new one, with the VIPs whose
    removal failed as they were. *)
Lemma kept_vips cfg (failed : gmap string VIPConfig) :
  NoDup (VIP_Name <$> elems (Cfg_VIPs cfg)) → map_Forall (λ k v, VIP_Name v = k) failed →
  let cur := elems (Cfg_VIPs (setVIPs cfg (foldl keepOld (elems (Cfg_VIPs cfg)) (map_to_list failed).*2))) in
  NoDup (VIP_Name <$> cur) ∧
  ∀ v, v ∈ cur ↔ failed !! VIP_Name v = Some v ∨ v ∈ elems (Cfg_VIPs cfg) ∧ failed !! VIP_Name v = None.
Proof.
  intros Hnd Hk. cbv zeta. set (fs := (map_to_list failed).*2).
  assert (VIP_Name <$> fs = (map_to_list failed).*1) as Hfs.
  { unfold fs. rewrite <-list_fmap_compose. apply list_fmap_ext. intros i [k v] Hi%list_elem_of_lookup_2.
    cbn. by apply Hk, elem_of_map_to_list. }
  assert (∀ v, v ∈ fs ↔ failed !! VIP_Name v = Some v) as Hin.
  { intros v. unfold fs. rewrite list_elem_of_fmap. split.
    - intros ([k w] & -> & Hw%elem_of_map_to_list). cbn. by rewrite (Hk _ _ Hw).
    - intros Hv. exists (VIP_Name v, v). split; [done|by apply elem_of_map_to_list]. }
  assert (∀ k, k ∈ VIP_Name <$> fs ↔ is_Some (failed !! k)) as Hkeys.
  { intros k. rewrite Hfs, list_elem_of_fmap. split.
    - intros ([k' v] & -> & Hv%elem_of_map_to_list). by eexists.
    - intros [v Hv]. exists (k, v). split; [done|by apply elem_of_map_to_list]. }
  destruct (keepOlds_elem fs (elems (Cfg_VIPs cfg))) as [H1 H2]; [done|rewrite Hfs; apply NoDup_fst_map_to_list|].
  set (l := foldl keepOld _ fs) in *.
  assert (elems (Cfg_VIPs (setVIPs cfg l)) = l) as ->.
  { destruct l as [|x l'] eqn:El; [|done]. change (elems (Cfg_VIPs cfg) = []).
    destruct (elems (Cfg_VIPs cfg)) as [|v vs] eqn:Ev; [done|]. exfalso.
    destruct (decide (VIP_Name v ∈ VIP_Name <$> fs)) as [(w & _ & Hw)%list_elem_of_fmap|Hno].
    - by eapply not_elem_of_nil, H2; left.
    - eapply not_elem_of_nil, (H2 v). right. split; [by left|done]. }
  split; [done|]. intros v. rewrite H2, Hin, Hkeys, <-eq_None_not_Some. done.
Qed.

(** ** The difference, put together *)

Section Difference.
Context (eff new : list VIPConfig) (Heff : goodVIPs eff) (Hnew : goodVIPs new).
Local Notation D := (DiffVIPs eff new).
Implicit Types (v : VIPConfig) (d : Settings).

Lemma eff_one ov ov' : ov ∈ eff → ov' ∈ eff → VIP_Name ov = VIP_Name ov' → ov = ov'.
Proof. by apply same_running, Heff. Qed.
Lemma new_one nv nv' : nv ∈ new → nv' ∈ new → VIP_Name nv = VIP_Name nv' → nv = nv'.
Proof. by apply same_candidate, Hnew. Qed.

Lemma diff_NoDup :
  NoDup (VIP_Name <$> Added D) ∧ NoDup (VIP_Name <$> Removed D) ∧ NoDup ((VIP_Name ∘ VC_New) <$> Changed D).
Proof.
  destruct (DiffVIPs_accounts eff new (proj1 Heff) (proj1 Hnew)) as [Hc Hr].
  pose proof (proj1 Hnew) as H1. rewrite <-Hc in H1. pose proof (proj1 Heff) as H2. rewrite <-Hr in H2.
  apply NoDup_app in H1 as (? & _ & (? & _)%NoDup_app). by apply NoDup_app in H2 as (? & _).
Qed.

(** A VIP of the running config is removed, changed or unchanged, and only
    one of these. *)
Lemma removed_name ov nv : ov ∈ Removed D → nv ∈ new → VIP_Name ov = VIP_Name nv → VIP_Prefix ov ≠ VIP_Prefix nv.
Proof.
  destruct (DiffVIPs_verdicts eff new (proj1 Heff) (proj1 Hnew)) as (_ & Hr & _). intros [_ Ho]%Hr Hn He. by apply Ho.
Qed.
Lemma added_new nv : nv ∈ Added D → nv ∈ new ∧ ∀ ov, ov ∈ eff → VIP_Name ov = VIP_Name nv → ov ∈ Removed D.
Proof.
  destruct (DiffVIPs_verdicts eff new (proj1 Heff) (proj1 Hnew)) as (Ha & Hr & _). intros [Hn Hp]%Ha. split; [done|].
  intros ov Ho He. apply Hr. split; [done|]. intros nv' Hn' He'. rewrite (new_one nv' nv) by congruence. by apply Hp.
Qed.
Lemma changed_both ch : ch ∈ Changed D →
  goodChange ch ∧ VC_Old ch ∈ eff ∧ VC_New ch ∈ new ∧
  VIP_Name (VC_New ch) ∉ VIP_Name <$> Removed D ∧ VIP_Name (VC_New ch) ∉ VIP_Name <$> Added D.
Proof.
  destruct (DiffVIPs_verdicts eff new (proj1 Heff) (proj1 Hnew)) as (Ha & Hr & Hc & _).
  intros (ov & nv & -> & Ho & Hn & He & Hp & _)%Hc. split; [|split; [done|split; [done|split]]].
  - split_and!; [done..|by apply Heff|by apply Hnew].
  - intros (v & Hv & Hin)%list_elem_of_fmap. cbn in Hv. apply (removed_name v nv Hin Hn); [done|].
    rewrite (eff_one v ov); [done| |done|congruence]. by apply Hr.
  - intros (v & Hv & Hin)%list_elem_of_fmap. cbn in Hv. apply Ha in Hin as [Hin Hpf].
    rewrite (new_one v nv) in Hpf by congruence. by apply (Hpf ov).
Qed.

(** What the removed, the added and the changed VIPs leave is what the
    definitions of the kept config and of the staged VIPs ask for. *)
Context (gone : list string) (failed : gmap string VIPConfig) (staged : gmap string stagedVIP).
Context (Hrem : ∀ v, v ∈ Removed D → VIP_Name v ∈ gone ∧ failed !! VIP_Name v = None ∨
                                      VIP_Name v ∉ gone ∧ failed !! VIP_Name v = Some v).
Context (Hout : ∀ k, k ∉ VIP_Name <$> Removed D → k ∉ gone ∧ failed !! k = None).
Context (Hst : ∀ k st, staged !! k = Some st → ∃ ch, ch ∈ Changed D ∧ VIP_Name (VC_New ch) = k ∧ st_old st = VC_Old ch).

Definition leftAfterRemoval d : Prop := wants eff d ∧ set_vip d ∉ gone.
Definition leftAfterAdding d : Prop :=
  leftAfterRemoval d ∨ ∃ v, v ∈ Added D ∧ failed !! VIP_Name v = None ∧ wantedBy v d.
Definition leftAfterChanges d : Prop :=
  (∃ ch, ch ∈ Changed D ∧ atOnce staged ch ∧ wantedBy (VC_New ch) d) ∨
  leftAfterAdding d ∧ ∀ ch, ch ∈ Changed D → atOnce staged ch → set_vip d ≠ VIP_Name (VC_New ch).

Lemma failed_removed k v : failed !! k = Some v → v ∈ Removed D ∧ VIP_Name v = k ∧ k ∉ gone.
Proof.
  intros Hf. destruct (decide (k ∈ VIP_Name <$> Removed D)) as [Hin|Hno].
  - apply list_elem_of_fmap in Hin as (w & -> & Hw). destruct (Hrem w Hw) as [[_ ?]|[? Hfw]]; [congruence|].
    rewrite Hfw in Hf. by injection Hf as <-.
  - destruct (Hout k Hno). congruence.
Qed.

Lemma wants_eff v d : v ∈ eff → set_vip d = VIP_Name v → wants eff d ↔ wantedBy v d.
Proof.
  intros Hv He. split; [|by exists v]. intros (w & Hw & Hwd). pose proof (wantedBy_vip _ _ Hwd).
  by rewrite (eff_one v w) by (done || congruence).
Qed.

Lemma left_removed d : leftAfterRemoval d → ∃ v, v ∈ eff ∧ set_vip d = VIP_Name v ∧ wantedBy v d ∧
  (v ∉ Removed D ∨ failed !! set_vip d = Some v).
Proof.
  intros [(v & Hv & Hw) Hg]. pose proof (wantedBy_vip _ _ Hw) as He. exists v. split_and!; try done.
  destruct (failed !! set_vip d) as [w|] eqn:Ef.
  - right. destruct (failed_removed _ _ Ef) as (Hr & Hn & _).
    destruct (DiffVIPs_verdicts eff new (proj1 Heff) (proj1 Hnew)) as (_ & HR & _). apply HR in Hr as [Hwe _].
    by rewrite (eff_one w v) by (done || congruence).
  - left. intros Hr. destruct (Hrem v Hr) as [[Hin _]|[_ Hf]]; congruence.
Qed.

Lemma changes_old ch d :
  ch ∈ Changed D → set_vip d = VIP_Name (VC_New ch) → leftAfterAdding d ↔ wantedBy (VC_Old ch) d.
Proof.
  intros Hch He. destruct (changed_both ch Hch) as ((_ & Hn & _) & Ho & _ & Hr & Ha). destruct (Hout _ Hr) as [Hg _].
  rewrite <-(wants_eff (VC_Old ch) d) by congruence. unfold leftAfterAdding, leftAfterRemoval. rewrite He. split.
  - intros [[? _]|(v & Hv & _ & Hw)]; [done|]. destruct Ha. rewrite <-He, (wantedBy_vip _ _ Hw). by apply list_elem_of_fmap_2.
  - auto.
Qed.

Lemma unchanged_name n : n ∈ Unchanged D →
  ∃ ov nv, ov ∈ eff ∧ nv ∈ new ∧ VIP_Name ov = n ∧ VIP_Name nv = n ∧ deepEqual ov nv = true ∧
    (∀ ch, ch ∈ Changed D → n ≠ VIP_Name (VC_New ch)) ∧ n ∉ VIP_Name <$> Removed D.
Proof.
  destruct (DiffVIPs_verdicts eff new (proj1 Heff) (proj1 Hnew)) as (_ & Hr & Hc & Hu).
  intros (ov & nv & Ho & Hn & E1 & E2 & Hp & Hd)%Hu. exists ov, nv. split_and!; try done.
  - intros ch (ov' & nv' & -> & Ho' & Hn' & E' & _ & Hd')%Hc Hne. cbn in Hne.
    rewrite (eff_one ov' ov), (new_one nv' nv) in Hd' by congruence. congruence.
  - intros (v & Hv & Hin)%list_elem_of_fmap. pose proof (proj1 (Hr v) Hin) as [Hve _].
    apply (removed_name v nv Hin Hn); [congruence|]. by rewrite (eff_one v ov) by congruence.
Qed.

Lemma not_staged n : (∀ ch, ch ∈ Changed D → n ≠ VIP_Name (VC_New ch)) → staged !! n = None.
Proof. intros Hno. destruct (staged !! n) as [st|] eqn:E; [|done]. destruct (Hst n st E) as (ch & Hch & <- & _). by destruct (Hno ch Hch). Qed.

Lemma staged_old ch st : ch ∈ Changed D → staged !! VIP_Name (VC_New ch) = Some st → st_old st = VC_Old ch.
Proof.
  intros Hch E. destruct (Hst _ _ E) as (ch' & Hch' & Hn & ->).
  destruct (changed_both ch Hch) as ((_ & E1 & _) & Ho & _), (changed_both ch' Hch') as ((_ & E2 & _) & Ho' & _).
  by apply eff_one; [..|congruence].
Qed.

Definition governorIn (v : VIPConfig) : VIPConfig :=
  match staged !! VIP_Name v with Some st => st_old st | None => v end.

Lemma applied_failed d fv : failed !! set_vip d = Some fv → leftAfterChanges d ↔ wantedBy fv d.
Proof.
  intros Ef. destruct (failed_removed _ _ Ef) as (Hr & Hn & Hg).
  destruct (DiffVIPs_verdicts eff new (proj1 Heff) (proj1 Hnew)) as (_ & HR & _). pose proof (proj1 (HR fv) Hr) as [Hfe _].
  assert (∀ ch, ch ∈ Changed D → set_vip d ≠ VIP_Name (VC_New ch)) as Hno.
  { intros ch Hch He. destruct (changed_both ch Hch) as (_ & _ & _ & Hnr & _). apply Hnr. rewrite <-He, <-Hn. by apply list_elem_of_fmap_2. }
  split.
  - intros [(ch & Hch & _ & Hw)|[[Hl|(v & Hv & Hf & Hw)] _]].
    + by destruct (Hno ch Hch (wantedBy_vip _ _ Hw)).
    + destruct (left_removed d Hl) as (v & Hv & He & Hw & _). by rewrite (eff_one fv v) by (done || congruence).
    + rewrite <-(wantedBy_vip _ _ Hw) in Hf. congruence.
  - intros Hw. right. split; [left; split; [by exists fv|done]|by intros ch Hch _; apply Hno].
Qed.

Lemma applied_kept d v :
  failed !! set_vip d = None → v ∈ new → VIP_Name v = set_vip d → wantedBy (governorIn v) d → leftAfterChanges d.
Proof.
  intros Ef Hv Hn Hw. destruct (DiffVIPs_accounts eff new (proj1 Heff) (proj1 Hnew)) as [Hp _].
  assert (VIP_Name v ∈ VIP_Name <$> new) as Hin by (by apply list_elem_of_fmap_2). rewrite <-Hp, !elem_of_app in Hin.
  unfold governorIn in Hw. destruct Hin as [(w & Ew & Ha)%list_elem_of_fmap|[(ch & Ew & Hch)%list_elem_of_fmap|Hu]].
  - assert (∀ ch, ch ∈ Changed D → VIP_Name v ≠ VIP_Name (VC_New ch)) as Hno.
    { intros ch Hch He. destruct (changed_both ch Hch) as (_ & _ & _ & _ & Hna). apply Hna. rewrite <-He, Ew. by apply list_elem_of_fmap_2. }
    rewrite (not_staged _ Hno) in Hw. right. split; [|intros ch Hch _; rewrite <-Hn; by apply Hno]. right. exists v.
    destruct (added_new w Ha) as [Hwn _]. rewrite (new_one w v Hwn Hv) in Ha by done. by rewrite Hn.
  - cbn in Ew. destruct (changed_both ch Hch) as (_ & _ & Hcn & _). rewrite Ew in Hw.
    destruct (staged !! VIP_Name (VC_New ch)) as [st|] eqn:E.
    + right. split; [apply (changes_old ch d Hch); [congruence|]; by rewrite <-(staged_old ch st Hch E)|].
      intros ch' _ Hat He. unfold atOnce in Hat. rewrite <-He, <-Hn, Ew in Hat. congruence.
    + left. exists ch. rewrite (new_one v (VC_New ch) Hv Hcn Ew) in Hw. done.
  - destruct (unchanged_name _ Hu) as (ov & nv & Ho & Hnv & E1 & E2 & Hd & Hno & Hnr). rewrite (not_staged _ Hno) in Hw.
    rewrite (new_one nv v Hnv Hv E2) in Hd. destruct (Hout _ Hnr) as [Hg _]. right.
    split; [|intros ch Hch _; rewrite <-Hn; by apply Hno]. left. split; [|by rewrite <-Hn].
    exists ov. split; [done|]. by apply (wantedBy_same ov v d Hd).
Qed.

Lemma applied_left d :
  failed !! set_vip d = None → leftAfterChanges d → ∃ v, v ∈ new ∧ VIP_Name v = set_vip d ∧ wantedBy (governorIn v) d.
Proof.
  intros Ef [(ch & Hch & Hat & Hw)|[[Hl|(v & Hv & _ & Hw)] Hno]].
  - destruct (changed_both ch Hch) as (_ & _ & Hcn & _). exists (VC_New ch). unfold governorIn. rewrite Hat.
    by rewrite (wantedBy_vip _ _ Hw).
  - destruct (left_removed d Hl) as (v & Hv & He & Hw & [Hnr|?]); [|congruence].
    destruct (DiffVIPs_accounts eff new (proj1 Heff) (proj1 Hnew)) as [_ Hp].
    assert (VIP_Name v ∈ VIP_Name <$> eff) as Hin by (by apply list_elem_of_fmap_2). rewrite <-Hp, !elem_of_app in Hin.
    destruct Hin as [(w & Ew & Hr)%list_elem_of_fmap|[(ch & Ew & Hch)%list_elem_of_fmap|Hu]].
    + destruct (DiffVIPs_verdicts eff new (proj1 Heff) (proj1 Hnew)) as (_ & HR & _). pose proof (proj1 (HR w) Hr) as [Hwe _].
      by rewrite (eff_one w v Hwe Hv) in Hr by done.
    + cbn in Ew. destruct (changed_both ch Hch) as ((_ & En & _) & Hco & Hcn & _). exists (VC_New ch).
      split; [done|]. split; [congruence|]. unfold governorIn. destruct (staged !! VIP_Name (VC_New ch)) as [st|] eqn:E.
      * rewrite (staged_old ch st Hch E). by rewrite (eff_one (VC_Old ch) v Hco Hv) by congruence.
      * destruct (Hno ch Hch E). congruence.
    + destruct (unchanged_name _ Hu) as (ov & nv & Ho & Hnv & E1 & E2 & Hd & Hnc & _). exists nv.
      split; [done|]. split; [congruence|]. unfold governorIn. rewrite E2, (not_staged _ Hnc).
      rewrite (eff_one ov v Ho Hv E1) in Hd. by apply (wantedBy_same v nv d Hd).
  - destruct (added_new v Hv) as [Hvn _]. exists v. split; [done|]. split; [by rewrite (wantedBy_vip _ _ Hw)|].
    unfold governorIn. rewrite not_staged; [done|]. intros ch Hch He.
    destruct (changed_both ch Hch) as (_ & _ & _ & _ & Hna). apply Hna. rewrite <-He. by apply list_elem_of_fmap_2.
Qed.

Lemma applied_wants (cur : list VIPConfig) d :
  (∀ v, v ∈ cur ↔ failed !! VIP_Name v = Some v ∨ v ∈ new ∧ failed !! VIP_Name v = None) →
  leftAfterChanges d ↔ ∃ v, v ∈ cur ∧ VIP_Name v = set_vip d ∧ wantedBy (governorIn v) d.
Proof.
  intros Hcur. destruct (failed !! set_vip d) as [fv|] eqn:Ef.
  - rewrite (applied_failed d fv Ef). destruct (failed_removed _ _ Ef) as (Hr & Hn & _).
    assert (staged !! VIP_Name fv = None) as Hns.
    { apply not_staged. intros ch Hch He. destruct (changed_both ch Hch) as (_ & _ & _ & Hnr & _). apply Hnr.
      rewrite <-He. by apply list_elem_of_fmap_2. }
    split.
    + intros Hw. exists fv. unfold governorIn. rewrite Hns. split; [|done]. apply Hcur. left. by rewrite Hn.
    + intros (v & Hv & Hvn & Hw). apply Hcur in Hv. rewrite Hvn, Ef in Hv. destruct Hv as [[= ->]|[_ ?]]; [|done].
      unfold governorIn in Hw. by rewrite Hns in Hw.
  - split.
    + intros (v & Hv & Hn & Hw)%applied_left; [|done]. exists v. split; [|done]. apply Hcur. right. by rewrite Hn.
    + intros (v & Hv & Hn & Hw). apply Hcur in Hv. rewrite Hn, Ef in Hv. destruct Hv as [?|[Hv _]]; [done|].
      by eapply applied_kept.
Qed.
End Difference.
End ReloadApply.
