(* ===== verification/ReloadRun.v ===== *)
(** * Every run of the reloader keeps its schedulers in line with the config

    [governed] is kept by a reload, hence by every step: from a daemon that
    was started with a config whose names are distinct, and over any
    interleaving of check results, commits, expiries, polls and reloads of
    such configs, the listed schedulers are those of the definitions that
    govern the VIPs, a goroutine runs exactly for those and for the shadows,
    and no scheduler that is in use was closed. *)

From S2P Require Import Prelude GoStrings NetIP Config Model Metrics Scheduler Registry Diff.
From S2P Require Import PolicyManager PolicyProofs Logging Reload ReloadProofs ReloadStaging ReloadOutcome ReloadFrame ReloadOwns.
From S2P Require Import ReloadSync ReloadGoverns ReloadApply.

Module ReloadRun.
Import Logging Reload ReloadProofs ReloadStaging ReloadOutcome ReloadFrame ReloadOwns ReloadSync ReloadGoverns ReloadApply.

Section Run.
Context {P : Type} `{Policy P} {Hash : Type} `{EqDecision Hash} (zeroHash : Hash) (Sum256 : string → Hash).
Context (newChecker : CheckConfig → result error string).
Local Notation Reloader := (Reload.Reloader (P := P) (Hash := Hash)).
Local Notation Reload := (Reload.Reload zeroHash Sum256 newChecker).
Local Notation rl_step := (rl_step zeroHash Sum256 newChecker).
Implicit Types (r : Reloader) (p : ptr) (d : Settings).

(** The schedulers a reload builds are unused until it applies the diff. *)
Definition unused r r' : gset ptr :=
  filter (λ p, (rl_nextPtr r ≤ p < rl_nextPtr r')%nat) (dom (rl_heap r')).

Lemma elem_of_unused r r' p : p ∈ unused r r' ↔ fresh_for r r' p ∧ is_Some (settingsOf (rl_heap r') p).
Proof. unfold unused. rewrite elem_of_filter, elem_of_dom. unfold settingsOf. by rewrite fmap_is_Some. Qed.

Lemma built_mid r r' S G : allocated r r' → mid ∅ S G r → mid (unused r r') S G r'.
Proof.
  intros Ha [Ho Hs]. pose proof (λ p, allocated_settings r r' p Ha) as Hh. pose proof (allocated_next _ _ Ha) as Hn.
  destruct Ha as (h & n & -> & _). cbn in *. split; cbn.
  - rewrite <-(union_empty_r_L (unused _ _)). eapply owns_alloc; [exact Ho|done|done|].
    intros p [Hf Hd]%elem_of_unused. by split.
  - intros d. rewrite <-Hs. unfold shows. split; intros (s & Hl & Hd); exists s; (split; [done|]).
    + rewrite <-Hh; [done|]. apply (ow_held _ _ _ _ _ _ Ho). by left.
    + rewrite Hh; [done|]. apply (ow_held _ _ _ _ _ _ Ho). by left.
Qed.

(** *** The shadows of an earlier staging *)
Definition shadowList r : list ptr := (map_to_list (rl_staging r)).*2 ≫= (λ st, (map_to_list (st_shadows st)).*2).

Lemma shadowList_elem r p : p ∈ shadowList r ↔ staged r p.
Proof.
  unfold shadowList. rewrite list_elem_of_bind. unfold staged. split.
  - intros (st & [k Hk]%shadowsOf_elem & ([vip st'] & -> & Hst%elem_of_map_to_list)%list_elem_of_fmap). by exists vip, st', k.
  - intros (vip & st & k & Hst & Hk). exists st. split; [apply shadowsOf_elem; by exists k|].
    apply list_elem_of_fmap. exists (vip, st). split; [done|by apply elem_of_map_to_list].
Qed.

Lemma shadowList_NoDup r : governed r → NoDup (shadowList r).
Proof.
  intros Hg. assert (∀ st, st ∈ (map_to_list (rl_staging r)).*2 → ∃ vip, rl_staging r !! vip = Some st) as Hof.
  { intros st ([vip st'] & -> & Hst%elem_of_map_to_list)%list_elem_of_fmap. by exists vip. }
  apply NoDup_bind.
  - intros st st' p Hst Hst' [k Hk]%shadowsOf_elem [k' Hk']%shadowsOf_elem.
    apply Hof in Hst as [vip Hst], Hst' as [vip' Hst'].
    pose proof (staged_vip _ _ _ _ _ Hg Hst Hk) as E. rewrite (staged_vip _ _ _ _ _ Hg Hst' Hk') in E. congruence.
  - intros st [vip Hst]%Hof. eapply shadows_NoDup. by apply (gv_staged _ Hg vip).
  - apply NoDup_fmap_2_strong; [|apply NoDup_map_to_list]. intros [k st] [k' st'] Hk%elem_of_map_to_list Hk'%elem_of_map_to_list.
    cbn. intros <-. destruct (gv_staged _ Hg _ _ Hk) as [<- _], (gv_staged _ Hg _ _ Hk') as [<- _]. done.
Qed.

Lemma dropStaging_mid r r' U S G :
  governed r → rl_staging r' = rl_staging r → (∀ p, p ∈ S ↔ staged r p) → mid U S G r' → mid U ∅ G (dropStagingLocked r').
Proof.
  intros Hg Hs HS Hm. change (mid U ∅ G (foldl dropShadow r' (shadowList r'))).
  replace (shadowList r') with (shadowList r) by (unfold shadowList; by rewrite Hs).
  replace ∅ with (S ∖ list_to_set (shadowList r)).
  - apply dropShadows_mid; [by apply shadowList_NoDup| |done]. intros p Hp. by apply HS, shadowList_elem.
  - apply set_eq. intros p. rewrite elem_of_difference, elem_of_list_to_set, shadowList_elem, HS. set_solver.
Qed.

Lemma applyLogLevel_same level r : same r (applyLogLevel level r).1.
Proof. unfold applyLogLevel. destruct (_ && _); [|done]. by destruct (SetLevel _ _) as [? []]. Qed.

(** *** The governing definitions have good names *)
Lemma effective_good r : governed r → goodVIPs (effectiveVIPsLocked r).
Proof.
  intros Hg. change (effectiveVIPsLocked r) with (governor r <$> curVIPs r). destruct (gv_config _ Hg) as [Hnd Hv]. split.
  - replace (VIP_Name <$> (governor r <$> curVIPs r)) with (VIP_Name <$> curVIPs r); [done|].
    rewrite <-list_fmap_compose. apply list_fmap_ext. intros i v _. cbn. unfold governor.
    destruct (rl_staging r !! VIP_Name v) as [st|] eqn:E; [|done]. symmetry. by eapply governed_names.
  - intros w (v & -> & Hin)%list_elem_of_fmap. unfold governor. destruct (rl_staging r !! VIP_Name v) as [st|] eqn:E; [|by apply Hv].
    apply (gv_staged _ Hg _ _ E).
Qed.

(** *** One reload *)
Section Apply.
Context (now : Z) (cfg : Config) (r r1 r2 : Reloader) (added : gmap string (list ptr)) (staged : gmap string stagedVIP).
Local Notation new := (elems (Cfg_VIPs cfg)).
Local Notation eff := (effectiveVIPsLocked r).
Local Notation D := (DiffVIPs eff new).
Context (Hg : governed r) (Hnew : goodVIPs new).
Context (Ea : buildAdded newChecker (Added D) r ∅ = (r1, added, None)).
Context (Eb : buildStaged newChecker now (Changed D) r1 ∅ = (r2, staged, None)).

Lemma built_facts :
  allocated r r1 ∧ allocated r1 r2 ∧
  (∀ v, v ∈ Added D → ∃ scheds, added !! VIP_Name v = Some scheds ∧ NoDup scheds ∧ Forall2 (builtFor r r1 v) scheds (CheckList v)) ∧
  (∀ ch, ch ∈ Changed D → stagedFor r1 r2 ch (staged !! VIP_Name (VC_New ch))) ∧
  (∀ k, k ∉ (VIP_Name ∘ VC_New) <$> Changed D → staged !! k = None).
Proof.
  pose proof (effective_good r Hg) as Heff. destruct (diff_NoDup eff new Heff Hnew) as (Na & _ & Nc).
  destruct (buildAdded_builds newChecker _ _ _ _ _ Ea Na) as (A1 & _ & A2).
  { intros v Hv. apply Hnew. by apply (added_new eff new Heff Hnew) in Hv as [? _]. }
  destruct (buildStaged_builds newChecker _ _ _ _ _ _ Eb Nc) as (B1 & B2 & B3).
  { intros ch Hch. split; [by apply (changed_both eff new Heff Hnew ch Hch)|apply lookup_empty]. }
  split; [done|]. split; [done|]. split; [done|]. split; [done|]. intros k Hk. rewrite B2 by done. apply lookup_empty.
Qed.

Lemma staged_changed k st :
  staged !! k = Some st → ∃ ch, ch ∈ Changed D ∧ VIP_Name (VC_New ch) = k ∧ st_old st = VC_Old ch ∧ st_cfg st = VC_New ch ∧
    staged_as (rl_heap r2) st ∧ ∀ p, p ∈ shadowsOf st → fresh_for r1 r2 p.
Proof.
  destruct built_facts as (_ & _ & _ & Hs & Hn). intros Hst.
  destruct (decide (k ∈ (VIP_Name ∘ VC_New) <$> Changed D)) as [(ch & -> & Hch)%list_elem_of_fmap|Hno]; [|by rewrite Hn in Hst].
  specialize (Hs ch Hch). cbn in Hst. rewrite Hst in Hs. destruct Hs as (? & ? & ? & ?). by exists ch.
Qed.

(** The shadows, kept apart from the schedulers of the added VIPs. *)
Definition laterBuilt : gset ptr := filter (λ p, (rl_nextPtr r1 ≤ p)%nat) (unused r r2).

Lemma added_ready (ra : Reloader) v :
  (∀ p, settingsOf (rl_heap ra) p = settingsOf (rl_heap r2) p) → v ∈ Added D →
  readyFor (unused r r2) laterBuilt ra v (added !! VIP_Name v).
Proof.
  destruct built_facts as (A1 & A2 & Ha & _). intros Hh Hv. destruct (Ha v Hv) as (scheds & Hs & Hnd & Hf).
  exists scheds. split_and!; try done. eapply Forall2_impl; [done|]. intros s c Hb. pose proof Hb as [Hfr _].
  apply (builtFor_later r r1 r2) in Hb as [Hfr2 Hset]; [|done]. rewrite Hh. split; [|done]. split.
  - apply elem_of_unused. split; [done|by eexists].
  - unfold laterBuilt. rewrite elem_of_filter. intros [Hle _]. destruct Hfr. lia.
Qed.

Lemma staged_ready (ra : Reloader) ch G U' :
  (∀ p, settingsOf (rl_heap ra) p = settingsOf (rl_heap r2) p) → laterBuilt ⊆ U' → ch ∈ Changed D →
  (∀ d, set_vip d = VIP_Name (VC_New ch) → G d ↔ wantedBy (VC_Old ch) d) →
  changing U' G ra ch (staged !! VIP_Name (VC_New ch)).
Proof.
  destruct built_facts as (A1 & A2 & _ & Hs & _). pose proof (effective_good r Hg) as Heff. intros Hh HT Hch HG.
  split; [by apply (changed_both eff new Heff Hnew ch Hch)|]. split; [done|]. specialize (Hs ch Hch).
  destruct (staged !! VIP_Name (VC_New ch)) as [st|]; [|done]. destruct Hs as (Hc & _ & Has & Hf). split; [done|].
  split; [eapply staged_as_heap; [intros; apply Hh|done]|]. intros p Hp. apply HT. unfold laterBuilt.
  rewrite elem_of_filter, elem_of_unused. pose proof (Hf p Hp) as Hfp. split; [apply Hfp|].
  split; [by eapply fresh_for_le|]. apply shadowsOf_elem in Hp as [k Hk]. destruct (sa_shadow _ _ Has _ _ Hk) as (c & _ & _ & ->). by eexists.
Qed.

(** The removals, the additions and the changes, one after the other. *)
Lemma apply_phases failed errs removed (r3 : Reloader) :
  removeVIPs (Removed D) (dropStagingLocked r2) ∅ [] [] = Ret (r3, failed, errs, removed) →
  let r4 := (foldl (addOne now failed added) (r3, []) (Added D)).1 in
  let r5 := (foldl (changeOne now staged) (r4, errs, []) (Changed D)).1.1 in
  ∃ gone U' S',
    (∀ v, v ∈ Removed D → VIP_Name v ∈ gone ∧ failed !! VIP_Name v = None ∨ VIP_Name v ∉ gone ∧ failed !! VIP_Name v = Some v) ∧
    (∀ k, k ∉ VIP_Name <$> Removed D → k ∉ gone ∧ failed !! k = None) ∧
    rl_staging r5 = staged ∧ (∀ p, settingsOf (rl_heap r5) p = settingsOf (rl_heap r2) p) ∧
    (∀ p, p ∈ S' ↔ ReloadGoverns.staged r5 p) ∧ mid U' S' (leftAfterChanges eff new gone failed staged) r5.
Proof.
  intros E1. cbv zeta. pose proof (effective_good r Hg) as Heff. destruct built_facts as (A1 & A2 & _ & _ & Hnone).
  destruct (diff_NoDup eff new Heff Hnew) as (Na & Nr & Nc). pose proof Hg as [_ _ (S & HS & Hm)].
  assert (allocated r r2) as A by (by eapply allocated_trans).
  assert (rl_staging r2 = rl_staging r) as Hst2 by (by destruct A as (h & n & -> & _)).
  pose proof (dropStaging_mid r r2 _ S _ Hg Hst2 HS (built_mid r r2 S _ A Hm)) as Hm0.
  destruct (dropStaging_fixed r2) as (Dh & _ & Ds). destruct (removeVIPs_fixed _ _ _ _ _ _ _ _ _ E1) as (Rh & _ & Rs).
  destruct (removeVIPs_mid (unused r r2) ∅ _ (wants eff) _ _ _ _ _ _ _ _ E1 Nr) as (gone & Hm1 & Hrem & Hout);
    [intros; apply lookup_empty|done|].
  assert (∀ k, k ∉ VIP_Name <$> Removed D → k ∉ gone ∧ failed !! k = None) as Hout'.
  { intros k Hk. destruct (Hout k Hk) as [? ->]. split; [done|apply lookup_empty]. }
  assert (∀ p, settingsOf (rl_heap r3) p = settingsOf (rl_heap r2) p) as Hh3 by (intros p; by rewrite Rh, Dh).
  destruct (addAll_mid ∅ laterBuilt now failed added (Added D) (unused r r2) (leftAfterRemoval eff gone) r3 [] Na)
    as (U' & HT & Hm2).
  { intros v Hv. split; [apply Hnew; by apply (added_new eff new Heff Hnew) in Hv as [? _]|by apply added_ready]. }
  { intros p. unfold laterBuilt. rewrite elem_of_filter. tauto. }
  { intros d Hd (v & Hdv & [Hvn Hvr]%(added_new eff new Heff Hnew))%list_elem_of_fmap.
    destruct (left_removed eff new Heff Hnew gone failed Hrem Hout' d Hd) as (w & Hw & He & _ & [Hnr|Hf]); [|by eexists].
    destruct Hnr. apply Hvr; [done|congruence]. }
  { exact Hm1. }
  set (r4 := (foldl (addOne now failed added) (r3, []) (Added D)).1) in *.
  assert (∀ p, settingsOf (rl_heap r4) p = settingsOf (rl_heap r2) p) as Hh4.
  { intros p. unfold r4. rewrite (foldl_keeps (λ acc : Reloader * list string, settingsOf (rl_heap acc.1) p)); [apply Hh3|].
    intros acc v. apply addOne_settings. }
  assert (rl_staging r4 = ∅) as Hs4.
  { unfold r4. rewrite (foldl_keeps (λ acc : Reloader * list string, rl_staging acc.1)); [by cbn; rewrite Rs|].
    intros acc v. apply addOne_fixed. }
  destruct (changeAll_mid now staged (Changed D) U' ∅ (leftAfterAdding eff new gone failed) r4 errs [] Nc)
    as (U'' & S' & HS' & Hk & Hm3).
  { intros ch Hch. split; [|rewrite Hs4; apply lookup_empty]. apply staged_ready; try done.
    intros d Hd. by apply changes_old. }
  { exact Hm2. }
  { intros p. unfold ReloadGoverns.staged. rewrite Hs4. split; [set_solver|]. intros (? & ? & ? & Hl & _). by rewrite lookup_empty in Hl. }
  exists gone, U'', S'. split_and!; try done.
  - apply map_eq. intros k. rewrite Hk. case_decide as Hc; [done|]. by rewrite Hs4, Hnone.
  - intros p. rewrite (foldl_keeps (λ acc : Reloader * list error * list string, settingsOf (rl_heap acc.1.1) p)); [apply Hh4|].
    intros acc ch. apply changeOne_settings.
Qed.

Lemma applyDiff_governed hash r' res :
  applyDiff zeroHash now cfg hash D added staged r2 = Ret (r', res) → governed r'.
Proof.
  unfold applyDiff. destruct (removeVIPs _ _ _ _ _) as [[[[r3 failed] errs] removed]|] eqn:E1; [|done].
  destruct (apply_phases failed errs removed r3 E1) as (gone & U' & S' & Hrem & Hout & Hst & Hh & HS & Hm).
  destruct (foldl (addOne _ _ _) _ _) as [r4 names]. cbn [fst] in *.
  destruct (foldl (changeOne _ _) _ _) as [[r5 errs5] pending]. cbn [fst] in *.
  pose proof (applyLogLevel_same (Logging_Level (Cfg_Logging cfg)) r5) as Hsm.
  destruct (applyLogLevel _ _) as [r6 logErrs]. cbn [fst] in Hsm. intros [= <- _].
  pose proof (effective_good r Hg) as Heff. pose proof (mid_same _ _ _ _ _ Hsm Hm) as Hm6. destruct Hsm as [_ _ _ Hh6 Hs6 _].
  assert (map_Forall (λ k v, VIP_Name v = k) failed) as Hk.
  { intros k v Hv. by destruct (failed_removed eff new gone failed Hrem Hout _ _ Hv) as (_ & ? & _). }
  destruct (kept_vips cfg failed (proj1 Hnew) Hk) as [Hnd Hcur].
  set (cfg' := setVIPs cfg _) in *. set (r' := setCur r6 cfg' _ _ _).
  assert (∀ k st, rl_staging r' !! k = Some st → VIP_Name (st_cfg st) = k ∧ st_cfg st ∈ curVIPs r' ∧ staged_as (rl_heap r') st) as Hstaged.
  { intros k st. change (rl_staging r') with (rl_staging r6). rewrite Hs6, Hst.
    intros (ch & Hch & <- & _ & Hc & Has & _)%staged_changed. destruct (changed_both eff new Heff Hnew ch Hch) as (_ & _ & Hcn & Hnr & _).
    rewrite Hc. split; [done|]. split; [apply Hcur; right; split; [done|by apply Hout]|].
    eapply staged_as_heap; [|exact Has]. intros p _. change (rl_heap r') with (rl_heap r6). by rewrite Hh6, Hh. }
  constructor; [|exact Hstaged|].
  - split; [exact Hnd|]. intros v [Hv|[Hv _]]%Hcur; [|by apply Hnew]. apply Heff.
    destruct (failed_removed eff new gone failed Hrem Hout _ _ Hv) as (Hr & _).
    by apply (DiffVIPs_verdicts eff new (proj1 Heff) (proj1 Hnew)) in Hr as [? _].
  - exists S'. split; [intros p; rewrite HS; unfold ReloadGoverns.staged; change (rl_staging r') with (rl_staging r6); by rewrite Hs6|].
    destruct Hm6 as [Ho Hs]. split; [eapply owns_less; [exact Ho|set_solver]|]. intros d.
    change (shows (rl_heap r6) (rl_reg r6) d ↔ wants (effectiveVIPsLocked r') d). rewrite Hs.
    rewrite effective_wants by (intros k st (<- & _ & Has)%Hstaged; apply Has).
    rewrite (applied_wants eff new Heff Hnew gone failed staged Hrem Hout) with (cur := curVIPs r'); [|intros k st (ch & ? & ? & ? & _)%staged_changed; by exists ch|exact Hcur].
    unfold governorIn, governor. change (rl_staging r') with (rl_staging r6). by rewrite Hs6, Hst.
Qed.
End Apply.

Lemma untouched_governed r r' : untouched r r' → governed r → governed r'.
Proof.
  intros [Hcur _ _ _ Hst Hreg _ _ _ Hn Hh Hc] [Gc Gs (S & HS & Ho & Hsh)].
  assert (∀ p, (p < rl_nextPtr r)%nat → settingsOf (rl_heap r') p = settingsOf (rl_heap r) p) as Hset
    by (intros p Hp; unfold settingsOf; by rewrite Hh).
  assert (curVIPs r' = curVIPs r) as Hv by (unfold curVIPs; by rewrite Hcur).
  assert (∀ p, listed (rl_reg r) p ∨ p ∈ S ∨ p ∈ (∅ : gset ptr) → (p < rl_nextPtr r)%nat) as Hlt by (intros p Hp; by apply Ho).
  constructor.
  - by rewrite Hv.
  - intros vip st. rewrite Hst, Hv. intros Hs. destruct (Gs _ _ Hs) as (? & ? & ?). split_and!; try done.
    eapply staged_as_heap; [|done]. intros p [k Hp]%shadowsOf_elem. apply Hset, Hlt. right. left. apply HS. by exists vip, st, k.
  - exists S. split; [intros p; unfold ReloadGoverns.staged; rewrite Hst; apply HS|]. unfold mid. rewrite Hreg. split.
    + destruct (owns_alloc _ _ _ _ _ _ Ho ∅ (rl_heap r') (rl_nextPtr r')) as [O1 O2 O3 O4 O5 O6 O7]; [done|done|set_solver|].
      rewrite union_empty_l_L in *. constructor; try done.
      * intros p Hp. destruct (O3 p Hp) as (? & Hnc & ?). split_and!; try done.
        intros [?|[Hge _]]%Hc; [done|]. pose proof (Hlt p Hp). lia.
      * intros p [?|[_ ?]]%Hc; [by apply O4|done].
    + intros d. replace (effectiveVIPsLocked r') with (effectiveVIPsLocked r) by (unfold effectiveVIPsLocked; by rewrite Hst, Hcur).
      rewrite <-Hsh. unfold shows. split; intros (s & Hl & Hd); exists s; (split; [done|]);
        [rewrite <-Hset|rewrite Hset]; try done; apply Hlt; by left.
Qed.

(** A loaded config has distinct names of VIPs and of the checks of a VIP. *)
Definition goodLoad (loaded : result error (Config * string)) : Prop :=
  match loaded with Ok (cfg, _) => goodVIPs (elems (Cfg_VIPs cfg)) | Err _ => True end.

Lemma Reload_governed now loaded r r' res :
  Reload now loaded r = Ret (r', res) → goodLoad loaded → governed r → governed r'.
Proof.
  unfold Reload.Reload. destruct (reloadLocked _ _ _ _ _ _) as [[ra res']|] eqn:E; [|done].
  intros [= <- <-] Hl Hg. enough (governed ra) as Ha by (by apply (governed_same ra)).
  destruct (reloadLocked_cases _ _ _ _ _ _ _ _ E) as [[U _]|(cfg & raw & r1 & r2 & added & staged & -> & _ & _ & E1 & E2 & E3)].
  - by eapply untouched_governed.
  - by eapply applyDiff_governed.
Qed.

(** ** Every reachable state *)

(** A step of the reloader in which a reload reads a config that loads. *)
Inductive run_step : Reloader → Reloader → Prop :=
| run_other r r' : rl_step r r' → rl_generation r' = rl_generation r → run_step r r'
| run_reload now loaded r r' res : goodLoad loaded → Reload now loaded r = Ret (r', res) → run_step r r'.

Lemma step_governed r r' : rl_step r r' → rl_generation r' = rl_generation r → governed r → governed r'.
Proof.
  intros [] Hgen Hg.
  - eapply governed_same; [apply schedResult_same|done].
  - by apply commitReady_governed.
  - by apply expireStaged_governed.
  - apply (governed_same r0); [|done]. unfold pollFile. cbv zeta. by case_match.
  - by apply (governed_same r0).
  - match goal with E : Reload _ _ _ = _ |- _ => destruct (Reload_generation _ _ _ _ _ _ _ _ E) as [U|Hn] end;
      [by eapply untouched_governed|lia].
Qed.

Lemma run_governed r r' : rtc run_step r r' → governed r → governed r'.
Proof. induction 1 as [|r1 r2 r3 [] _ IH]; [done|..]; eauto using step_governed, Reload_governed. Qed.

(** What the invariant says of the lists of the registry. *)
Lemma governed_lists r v :
  governed r → v ∈ effectiveVIPsLocked r →
  settingsOf (rl_heap r) <$> visibleOf (rl_reg r) (VIP_Name v) ≡ₚ (Some ∘ wanted v) <$> CheckList v.
Proof.
  intros Hg Hv. pose proof (effective_good r Hg) as [Hnd Hgood]. destruct (gv_mid _ Hg) as (S & _ & Ho & Hs).
  pose proof (ow_reg _ _ _ _ _ _ Ho) as Hok. pose proof Hok as (Hl & _).
  destruct (lists_ok_visibleOf _ _ _ (VIP_Name v) Hl) as [Hnames Hvip].
  assert (∀ s, s ∈ visibleOf (rl_reg r) (VIP_Name v) → listed (rl_reg r) s) as Hlist by (intros s ?; by eexists).
  apply NoDup_Permutation.
  - apply NoDup_fmap_2_strong; [|by apply NoDup_fmap_1 in Hnames]. intros s x Hs1 Hx He.
    destruct (owned_settings _ _ _ s Ho) as [d Hd]; [left; auto|]. rewrite Hd in He.
    eapply (shown_key _ _ s x d d); eauto.
  - rewrite list_fmap_compose. apply (NoDup_fmap_2 Some), (NoDup_fmap_1 key), wanted_keys, Hgood, Hv.
  - intros o. rewrite !list_elem_of_fmap. split.
    + intros (s & -> & Hin). destruct (owned_settings _ _ _ s Ho) as [d Hd]; [left; auto|].
      assert (wants (effectiveVIPsLocked r) d) as Hw by (apply Hs; exists s; auto).
      destruct Hw as (w & Hw & Hwd). pose proof (wantedBy_vip _ _ Hwd) as Hn.
      rewrite <-(proj1 (settings_names _ _ _ Hd)), (Hvip s Hin) in Hn.
      rewrite <-(NoDup_fmap_elem_of VIP_Name _ v w Hnd Hv Hw Hn) in Hwd. destruct Hwd as (c & Hc & ->). exists c. by rewrite Hd.
    + intros (c & -> & Hc). assert (wants (effectiveVIPsLocked r) (wanted v c)) as (s & Hls & Hd)%Hs by (exists v; split; [done|by exists c]).
      exists s. split; [done|]. apply (listed_under _ _ _ _ Hok) in Hls. by rewrite (proj1 (settings_names _ _ _ Hd)) in Hls.
Qed.

Lemma governed_only r name : governed r → name ∉ VIP_Name <$> curVIPs r → visibleOf (rl_reg r) name = [].
Proof.
  intros Hg Hn. destruct (gv_mid _ Hg) as (S & _ & Ho & Hs). pose proof (ow_reg _ _ _ _ _ _ Ho) as (Hl & _).
  destruct (visibleOf (rl_reg r) name) as [|s l] eqn:E; [done|]. exfalso. apply Hn.
  assert (s ∈ visibleOf (rl_reg r) name) as Hin by (rewrite E; by left).
  destruct (owned_settings _ _ _ s Ho) as [d Hd]; [left; by eexists|].
  assert (shows (rl_heap r) (rl_reg r) d) as Hw by (exists s; split; [by eexists|done]). apply Hs in Hw.
  rewrite effective_wants in Hw by (intros; by eapply governed_names). destruct Hw as (v & Hv & Hvn & _).
  destruct (lists_ok_visibleOf _ _ _ name Hl) as [_ Hvip].
  rewrite <-(Hvip s Hin), (proj1 (settings_names _ _ _ Hd)), <-Hvn. by apply list_elem_of_fmap_2.
Qed.

Lemma governed_in_use r p :
  governed r →
  (launched (rl_reg r) p ↔ listed (rl_reg r) p ∨ staged r p) ∧ (listed (rl_reg r) p ∨ staged r p → p ∉ rl_closed r).
Proof.
  intros Hg. destruct (gv_mid _ Hg) as (S & HS & Ho & _). rewrite <-HS. split; [apply Ho|].
  intros Hp. apply (ow_held _ _ _ _ _ _ Ho). tauto.
Qed.
End Run.
End ReloadRun.
