(* ===== verification/ReloadWitness.v ===== *)
(** * The reload theorems at work

    The policy manager as the reloader's [Policy], with the reference BGP
    speaker, and a VIP whose check is replaced, removed, and removed while BGP
    does not answer. *)

From S2P Require Import Prelude GoStrings NetIP Config Model Metrics ChecksPolicy Engine.
From S2P Require Import Scheduler Registry Diff PolicyManager PolicyProofs PolicyWitness.
From S2P Require Import Reload ReloadProofs ReloadStaging ReloadOutcome.

Module ReloadWitness.
Import PolicyWitness Reload ReloadProofs ReloadStaging ReloadOutcome.

(** The policy manager implements the interface. *)
#[export] Instance manager_policy : Policy (Manager (B := RefBGP)) := {|
  pol_AddVIP now v m := PolicyManager.AddVIP pw_stat now v m;
  pol_RemoveVIP name m := PolicyManager.RemoveVIP name m;
  pol_CommitVIP now v seeds m := PolicyManager.CommitVIP pw_stat now v seeds m;
  pol_OnHealthTransition now t m := PolicyManager.OnHealthTransition pw_stat now t m;
  pol_OnCheckResult now vip check res m := PolicyManager.OnCheckResult pw_stat now vip check res m |}.

Definition rw_hash (raw : string) : string := raw.
Definition rw_checker (c : CheckConfig) : result error string :=
  if decide (Check_Type c = "bad") then Err (External "unsupported check type") else Ok (Check_Type c).
Local Abbreviation rw_Reload := (Reload.Reload EmptyString rw_hash rw_checker).

Definition rw_vip (typ : string) : VIPConfig := pw_vip [pw_check "a" typ].
Definition rw_cfg (vips : list VIPConfig) : Config :=
  mkConfig (Cfg_Schema zeroConfig) (Cfg_Router zeroConfig) (Cfg_API zeroConfig) (Cfg_Logging zeroConfig)
    (Cfg_OTel zeroConfig) (Cfg_Paths zeroConfig) (Cfg_BGP zeroConfig) (Some vips).

(** The daemon runs one VIP with one check, which is up. *)
Definition rw_sched : Sched :=
  SetCallbacks (Some PolicyTransition) (Some PolicyResult) (newSchedulerFor (rw_vip "tcp") (pw_check "a" "tcp") "tcp").
Definition rw_heap : gmap ptr Sched := {[0%nat := rw_sched]}.
Definition rw_reg : Registry := Registry.Start (Registry.Add (vipOf rw_heap) 0%nat NewRegistry).
Definition rw_pol : Manager :=
  exec (NewManager pw_stat 0 [rw_vip "tcp"] ∅ (Some (mkRefBGP true ∅))) (pw_rise "a").
Definition rw_new (pol : Manager) : Reloader (P := Manager (B := RefBGP)) (Hash := string) :=
  Reload.New rw_hash 0 "pathosd.yaml" (rw_cfg [rw_vip "tcp"]) "v1" pol rw_reg rw_heap 1%nat ∅ true.
Definition rw_start := rw_new rw_pol.

Lemma rw_initial pol : initial rw_hash (rw_new pol).
Proof. by repeat eexists. Qed.

(** The state and the result of a call that returned. *)
Definition returned {A} (o : outcome A) : bool := match o with Ret _ => true | Panic => false end.
Definition ofRet {A} (o : outcome A) (d : A) : A := match o with Ret a => a | Panic => d end.
Lemma ofRet_eq {A B} (o : outcome (A * B)) d : returned o = true → o = Ret ((ofRet o d).1, (ofRet o d).2).
Proof. by destruct o as [[]|]. Qed.

Definition noStatus : ReloadStatus := mkReloadStatus 0 ReloadUnchanged None [] [] [] [] [].

(** The check is replaced: the new one is staged in shadow, at pointer 1. *)
Definition rw_change := rw_Reload 100 (Ok (rw_cfg [rw_vip "udp"], "v2")) rw_start.
Definition rw_staged := (ofRet rw_change (rw_start, noStatus)).1.
Definition rw_st : stagedVIP :=
  mkStagedVIP (rw_vip "udp") (rw_vip "tcp") {["a" := 1%nat]} ∅ [] (100 + 4 * 3000000000).

Lemma rw_change_returns : rw_change = Ret (rw_staged, (ofRet rw_change (rw_start, noStatus)).2).
Proof. apply (ofRet_eq rw_change (rw_start, noStatus)). by vm_compute. Qed.

Lemma rw_staged_reachable : rtc (rl_step EmptyString rw_hash rw_checker) rw_start rw_staged.
Proof. eapply rtc_once, step_reload, rw_change_returns. Qed.

Lemma rw_staged_lookup : rl_staging rw_staged !! "web" = Some rw_st.
Proof. by vm_compute. Qed.

Definition rw_ok : Result := mkResult true EmptyString 5 None false None.

(** The shadow passes once, which is its [rise]. *)
Definition rw_verdict := schedResult 200 1%nat rw_ok rw_staged.

Lemma rw_verdict_reachable : rtc (rl_step EmptyString rw_hash rw_checker) rw_start rw_verdict.
Proof. eapply rtc_r; [exact rw_staged_reachable|]. apply step_result. Qed.

Definition nothing (_ : ptr) : list Result := [].

Lemma rw_shadows c s : st_shadows rw_st !! c = Some s → c = "a" ∧ s = 1%nat.
Proof. cbn. by intros [<- <-]%lookup_singleton_Some. Qed.

(** ** Witnesses *)

Lemma staged_shadow_isolated_witness :
  rl_pol rw_verdict = rl_pol rw_staged ∧ rl_verdicts rw_verdict = [1%nat] ∧ rl_wake rw_verdict = true.
Proof.
  destruct (staged_shadow_isolated EmptyString rw_hash rw_checker rw_start rw_staged "web" rw_st "a" 1%nat 200 rw_ok
    (rw_initial _) rw_staged_reachable rw_staged_lookup eq_refl) as (Hp & _ & _ & _).
  split; [exact Hp|]. by vm_compute.
Defined.


Lemma expireStaged_bounded_witness :
  rl_staging (expireStaged 101 nothing rw_staged) !! "web" = Some rw_st ∧
  rl_staging (expireStaged (200 + 4 * 3000000000) nothing rw_staged) !! "web" = None.
Proof.
  pose proof (λ now between, expireStaged_bounded EmptyString rw_hash rw_checker rw_start rw_staged now between "web" rw_st
    (rw_initial _) rw_staged_reachable) as Hb.
  split; [|by vm_compute]. apply Hb. split; [apply rw_staged_lookup|by vm_compute].
Defined.

(** A file whose check cannot be built. *)
Lemma Reload_rejected_untouched_witness :
  ∃ r' res, rw_Reload 100 (Ok (rw_cfg [rw_vip "bad"], "v2")) rw_start = Ret (r', res) ∧
            RS_Outcome res = ReloadRejected ∧ untouched rw_start r'.
Proof.
  set (o := rw_Reload 100 (Ok (rw_cfg [rw_vip "bad"], "v2")) rw_start).
  exists (ofRet o (rw_start, noStatus)).1, (ofRet o (rw_start, noStatus)).2.
  assert (o = Ret ((ofRet o (rw_start, noStatus)).1, (ofRet o (rw_start, noStatus)).2)) as Ho.
  { apply (ofRet_eq o (rw_start, noStatus)). by vm_compute. }
  split; [exact Ho|]. split; [by vm_compute|].
  apply (Reload_rejected_untouched EmptyString rw_hash rw_checker 100 _ _ _ _ Ho). left. by vm_compute.
Defined.

(** The VIP is removed from the file. *)
Definition rw_remove (pol : Manager) := rw_Reload 100 (Ok (rw_cfg [], "v3")) (rw_new pol).
Definition rw_gone (pol : Manager) := ofRet (rw_remove pol) (rw_start, noStatus).

Lemma rw_remove_returns pol :
  returned (rw_remove pol) = true → rw_remove pol = Ret ((rw_gone pol).1, (rw_gone pol).2).
Proof. apply (ofRet_eq (rw_remove pol)). Qed.

Lemma rw_unique pol : NoDup (VIP_Name <$> effectiveVIPsLocked (rw_new pol)).
Proof. apply NoDup_singleton. Qed.

Lemma Reload_applied_idempotent_witness :
  RS_Removed (rw_gone rw_pol).2 = ["web"] ∧ rl_cur (rw_gone rw_pol).1 = rw_cfg [] ∧
  ribOf (rl_pol (rw_gone rw_pol).1) = Some ∅.
Proof.
  split; [by vm_compute|]. split; [|by vm_compute].
  apply (Reload_applied_idempotent EmptyString rw_hash rw_checker 100 (rw_cfg []) "v3" (rw_new rw_pol) _ (rw_gone rw_pol).2
    0 (rw_cfg [])); [by apply rw_remove_returns; vm_compute|by vm_compute|apply rw_unique|constructor].
Defined.

(** The same while BGP does not answer. *)
Definition rw_down : Manager :=
  setNotifier rw_pol (Some (mkRefBGP false {["10.0.0.1/32" := mkRouteAttrs 2 ["65000:1"]]})).


Lemma rw_listed pol vip s :
  s ∈ visibleOf (rl_reg (rw_new pol)) vip →
  vipOf (rl_heap (rw_new pol)) s = vip ∧ (s < rl_nextPtr (rw_new pol))%nat.
Proof.
  change (rl_reg (rw_new pol)) with rw_reg. unfold visibleOf.
  replace (reg_visible rw_reg) with ({["web" := [0%nat]]} : gmap string (list ptr)) by (by vm_compute).
  destruct (decide (vip = "web")) as [->|Hne].
  - rewrite lookup_singleton_eq. cbn. intros ->%list_elem_of_singleton. split; [by vm_compute|cbn; lia].
  - rewrite lookup_singleton_ne by done. by intros ?%not_elem_of_nil.
Qed.


Lemma stagingDeadline_bounds_witness :
  stagingDeadline 7 [rw_sched] = 7 + 4 * 3000000000.
Proof.
  rewrite (proj1 (stagingDeadline_bounds 7 [rw_sched] ltac:(intros s ->%list_elem_of_singleton; by_compute))).
  by vm_compute.
Defined.

(** ** Checks policies *)

Definition cw_expr : ChecksEvaluator := mkChecksEvaluator (H := ref_expr) "a" ["a"; "b"] (Some "a").

Lemma Eval_builtin_witness :
  Eval (mkChecksEvaluator (H := ref_expr) "any" ["a"; "b"] None) {["b" := true]} = true.
Proof.
  apply (proj2 (Eval_builtin (H := ref_expr) "any" ["a"; "b"] {["b" := true]} _ eq_refl)); [done|].
  exists "b". split; by_compute.
Defined.

Lemma Eval_expression_witness : Eval cw_expr {["a" := true]} = true.
Proof.
  apply (proj2 (Eval_expression cw_expr "a" {["a" := true]} eq_refl)). by vm_compute.
Defined.

End ReloadWitness.
