(* ===== verification/DefaultsProofs.v ===== *)
(** * The defaults: idempotence, completeness, and agreement with the consumers

    Filling in a config a second time changes nothing; after it every check
    has its timing, its thresholds and the block of its type; and the code that
    consumes a config falls back to the same values on its own. *)

From S2P Require Import Prelude GoStrings NetIP Net Config Defaults Model Engine Scheduler.
From S2P Require Import BGPManager Reload.
From Stdlib Require Import Ascii.

Module DefaultsProofs.

(** ** Filling in twice *)

Lemma orString_orString x d : orString (orString x d) d = orString x d.
Proof. unfold orString. by repeat case_decide. Qed.
Lemma orString_set x d d' : d ≠ EmptyString → orString (orString x d) d' = orString x d.
Proof. unfold orString. intros. by repeat case_decide. Qed.
Lemma orZ_orZ x d : orZ (orZ x d) d = orZ x d.
Proof. unfold orZ. by repeat case_decide. Qed.
Lemma orZ_set x d d' : d ≠ 0 → orZ (orZ x d) d' = orZ x d.
Proof. unfold orZ. intros. by repeat case_decide. Qed.
Lemma orString_nonempty x d : d ≠ EmptyString → orString x d ≠ EmptyString.
Proof. unfold orString. by case_decide. Qed.

#[local] Hint Rewrite orString_orString orZ_orZ : idem.

Lemma upper_upper a : upper_ascii (upper_ascii a) = upper_ascii a.
Proof. by destruct a as [[] [] [] [] [] [] [] []]. Qed.
Lemma lower_lower a : lower_ascii (lower_ascii a) = lower_ascii a.
Proof. by destruct a as [[] [] [] [] [] [] [] []]. Qed.
Lemma valid_upper a : validHeaderFieldByte (upper_ascii a) = validHeaderFieldByte a.
Proof. by destruct a as [[] [] [] [] [] [] [] []]. Qed.
Lemma valid_lower a : validHeaderFieldByte (lower_ascii a) = validHeaderFieldByte a.
Proof. by destruct a as [[] [] [] [] [] [] [] []]. Qed.

Lemma ToUpper_ToUpper s : ToUpper (ToUpper s) = ToUpper s.
Proof. unfold ToUpper. induction s as [|a s IH]; cbn; [done|]. by rewrite upper_upper, IH. Qed.

Lemma canonicalKey_valid u s :
  all_chars validHeaderFieldByte (canonicalKey u s) = all_chars validHeaderFieldByte s.
Proof.
  revert u. induction s as [|a s IH]; intros u; cbn; [done|].
  rewrite IH. f_equal. destruct u; [apply valid_upper|apply valid_lower].
Qed.

Lemma canonicalKey_idem u s : canonicalKey u (canonicalKey u s) = canonicalKey u s.
Proof.
  revert u. induction s as [|a s IH]; intros [] ; cbn; [done..| |];
    rewrite ?upper_upper, ?lower_lower, IH; done.
Qed.

Lemma CanonicalHeaderKey_idem s : CanonicalHeaderKey (CanonicalHeaderKey s) = CanonicalHeaderKey s.
Proof.
  unfold CanonicalHeaderKey. destruct (all_chars validHeaderFieldByte s) eqn:E; [|by rewrite E].
  by rewrite canonicalKey_valid, E, canonicalKey_idem.
Qed.

(** ** Headers *)

(** All the names of a header map are canonical. *)
Definition canonicalNames (h : gmap string string) : Prop :=
  ∀ k v, h !! k = Some v → CanonicalHeaderKey k = k.

Lemma foldl_insert_keys (l : list (string * string)) (m : gmap string string) :
  canonicalNames m →
  canonicalNames (foldl (λ m e, <[CanonicalHeaderKey e.1 := e.2]> m) m l).
Proof.
  revert m. induction l as [|e l IH]; intros m Hm; cbn; [done|]. apply IH.
  intros k v [[<- _]|[_ Hk]]%lookup_insert_Some; [apply CanonicalHeaderKey_idem|by eapply Hm].
Qed.

Lemma canonicalHeaders_names h : canonicalNames (canonicalHeaders h).
Proof. by apply foldl_insert_keys. Qed.

Lemma foldl_insert_same (l : list (string * string)) (m : gmap string string) :
  (∀ e, e ∈ l → CanonicalHeaderKey e.1 = e.1) → NoDup l.*1 → (∀ e, e ∈ l → m !! e.1 = None) →
  foldl (λ m e, <[CanonicalHeaderKey e.1 := e.2]> m) m l = list_to_map l ∪ m.
Proof.
  revert m. induction l as [|[k v] l IH]; intros m Hc Hnd Hm; cbn; [by rewrite (left_id_L ∅ (∪))|].
  cbn in Hnd. apply NoDup_cons in Hnd as [Hk Hnd].
  pose proof (Hc (k, v) ltac:(set_solver)) as Hkv. cbn in Hkv. rewrite Hkv, IH; [|set_solver|done|].
  - rewrite <-insert_union_l, insert_union_r; [done|]. by apply not_elem_of_list_to_map_1.
  - intros e He. rewrite lookup_insert_ne; [apply Hm; set_solver|].
    intros ->. apply Hk. by apply list_elem_of_fmap_2.
Qed.

Lemma canonicalHeaders_id h : canonicalNames h → canonicalHeaders h = h.
Proof.
  intros Hh. unfold canonicalHeaders. rewrite foldl_insert_same.
  - by rewrite (right_id_L ∅ (∪)), list_to_map_to_list.
  - intros [k v] He. apply elem_of_map_to_list in He. by eapply Hh.
  - apply NoDup_fst_map_to_list.
  - intros e _. apply lookup_empty.
Qed.

Lemma orHeader_names k v h :
  CanonicalHeaderKey k = k → canonicalNames h → canonicalNames (orHeader k v h).
Proof.
  intros Hk Hh. unfold orHeader. destruct (h !! k); [done|].
  intros k' v' [[<- _]|[_ H']]%lookup_insert_Some; [done|by eapply Hh].
Qed.

Lemma orHeader_set k v h : is_Some (h !! k) → orHeader k v h = h.
Proof. unfold orHeader. by intros [? ->]. Qed.
Lemma orHeader_is_set k v h : is_Some (orHeader k v h !! k).
Proof. unfold orHeader. destruct (h !! k) eqn:E; rewrite ?E; [by eauto|]. by rewrite lookup_insert_eq. Qed.
Lemma orHeader_keeps k k' v h : is_Some (h !! k') → is_Some (orHeader k v h !! k').
Proof.
  unfold orHeader. intros Hk. destruct (h !! k) eqn:E; [done|].
  rewrite lookup_insert_ne; [done|]. intros ->. rewrite E in Hk. by destruct Hk.
Qed.

(** ** HTTP checks *)

Section Idempotence.
Context `{GoStd}.

(** The path left of a full URL is not a full URL again.  An opaque URL such
    as [http:a:b] does not have this: its request URI [a:b] parses with the
    scheme [a]. *)
Definition urlStable (url : string) : Prop :=
  ∀ u, urlParse (orString url "/") = Some u → URL_Scheme u ≠ EmptyString →
  ∀ u', urlParse (orString (URL_RequestURI u) "/") = Some u' → URL_Scheme u' = EmptyString.

(** The first pass leaves a URL without a scheme, a proto, a port, and the
    headers in canonical form. *)
Lemma fromURL_spec h url headers proto port headers' hn url' :
  urlStable url → canonicalNames headers →
  fromURL h (orString url "/") headers = (proto, port, headers', hn, url') →
  canonicalNames headers' ∧ url' ≠ EmptyString ∧
  (∀ u, urlParse url' = Some u → URL_Scheme u = EmptyString).
Proof.
  unfold fromURL, urlStable. intros Hst Hn. 
  assert (orString url "/" ≠ EmptyString) by by apply orString_nonempty.
  destruct (urlParse (orString url "/")) as [u|] eqn:Eu; [case_decide|];
    intros [= <- <- <- <- <-]; [naive_solver| |naive_solver].
  split_and!; [|by apply orString_nonempty|by eapply Hst].
  case_decide; [done|]. by apply orHeader_names.
Qed.

Lemma fromURL_path h url headers :
  (∀ u, urlParse url = Some u → URL_Scheme u = EmptyString) →
  fromURL h url headers = (HTTP_Proto h, HTTP_Port h, headers, EmptyString, url).
Proof.
  unfold fromURL. intros Hu. destruct (urlParse url) as [u|]; [|done].
  by rewrite decide_True by auto.
Qed.

Lemma applyHTTPDefaults_idem h prefix :
  urlStable (HTTP_URL h) →
  applyHTTPDefaults (applyHTTPDefaults h prefix) prefix = applyHTTPDefaults h prefix.
Proof.
  intros Hst. unfold applyHTTPDefaults at 2 3.
  destruct (fromURL h _ _) as [[[[proto port] headers] hn] url] eqn:E.
  destruct (fromURL_spec _ _ _ _ _ _ _ _ Hst (canonicalHeaders_names _) E) as (Hn & Hu & Hs).
  set (hd := orHeader "User-Agent" _ _).
  set (hd' := if decide (HTTP_ResponseJQ h = EmptyString) then hd else _).
  assert (canonicalNames hd) as Hhd by by apply orHeader_names.
  assert (canonicalNames hd') as Hhd' by (unfold hd'; case_decide; [done|by apply orHeader_names]).
  unfold applyHTTPDefaults. cbn -[CanonicalHeaderKey]. rewrite canonicalHeaders_id by done.
  replace (orString url "/") with url by (unfold orString; by rewrite decide_False).
  rewrite fromURL_path by done. cbn -[orHeader].
  f_equal.
  - apply orString_orString.
  - rewrite decide_False by naive_solver. apply orString_orString.
  - rewrite orString_orString. apply orZ_set. by case_decide.
  - apply orString_orString.
  - destruct (elems (HTTP_ResponseCodes h)) eqn:Ec; [done|]. unfold elems in Ec. by rewrite Ec.
  - by rewrite decide_False by naive_solver.
  - f_equal. rewrite orHeader_set.
    + unfold hd'. case_decide; [done|]. apply orHeader_set, orHeader_is_set.
    + unfold hd'. case_decide; [|apply orHeader_keeps]; apply orHeader_is_set.
Qed.

(** ** The other checks *)

Lemma applySQLDefaults_idem s prefix :
  applySQLDefaults (applySQLDefaults s prefix) prefix = applySQLDefaults s prefix.
Proof.
  unfold applySQLDefaults. cbn. f_equal; try apply orString_orString; try apply orZ_orZ.
  destruct (elems (SQL_Queries s)) eqn:Ec; [done|]. unfold elems in Ec. by rewrite Ec.
Qed.

Lemma applyDNSDefaults_idem d prefix :
  applyDNSDefaults (applyDNSDefaults d prefix) prefix = applyDNSDefaults d prefix.
Proof.
  unfold applyDNSDefaults. cbn. f_equal; try apply orString_orString; try apply orZ_orZ.
  unfold orString. destruct (decide (ToUpper (DNS_QueryType d) = EmptyString)) as [E|E]; [done|].
  by rewrite ToUpper_ToUpper, decide_False.
Qed.

(** Filling in a block of the check's own type, or leaving it alone, twice. *)
Lemma block_idem {A} typ c c' (zero : A) f b prefix :
  Check_Type c' = Check_Type c →
  (∀ x, f (f (default zero b) x) x = f (default zero b) x) →
  block typ c' zero f (block typ c zero f b prefix) prefix = block typ c zero f b prefix.
Proof.
  intros Ht Hf. unfold block. rewrite Ht. case_decide; cbn; [by rewrite Hf|done].
Qed.

Definition checkStable (c : CheckConfig) : Prop :=
  Check_Type c = CheckTypeHTTP → urlStable (HTTP_URL (default zeroHTTP (Check_HTTP c))).

Lemma applyCheckDefaults_idem c procfs prefix :
  checkStable c →
  let fill c := listenProcfs procfs (applyCheckDefaults c prefix) in
  fill (fill c) = fill c.
Proof.
  intros Hst. unfold listenProcfs, applyCheckDefaults. cbn. f_equal;
    try (apply block_idem; [done|]; intros x; first
      [apply applySQLDefaults_idem | apply applyDNSDefaults_idem
      |unfold applyPingDefaults, applyUDPDefaults, applyTCPDefaults, applyGRPCDefaults,
         applyKafkaDefaults; cbn; by rewrite ?orString_orString, ?orZ_orZ]).
  - unfold block. cbn. case_decide; cbn; [|done]. by rewrite applyHTTPDefaults_idem by auto.
  - unfold block. cbn. case_decide; cbn; [by rewrite !orString_orString|].
    destruct (Check_Listen c); cbn; [|done]. by rewrite orString_orString.
Qed.

(** ** The whole config *)

Lemma applyPolicyDefaults_idem p : applyPolicyDefaults (applyPolicyDefaults p) = applyPolicyDefaults p.
Proof. unfold applyPolicyDefaults. cbn. by rewrite orString_orString. Qed.

Lemma applyVIPDefaults_idem procfs v :
  Forall checkStable (CheckList v) →
  applyVIPDefaults procfs (applyVIPDefaults procfs v) = applyVIPDefaults procfs v.
Proof.
  unfold CheckList. intros Hst. unfold applyVIPDefaults at 2 3.
  destruct (elems (VIP_Checks v)) as [|c l] eqn:Ec; [case_decide as Et|]; unfold applyVIPDefaults.
  - by rewrite Ec, decide_True.
  - cbn -[elems applyCheckDefaults listenProcfs]. rewrite Ec. rewrite decide_False by done.
    apply Forall_cons in Hst as [Hst _].
    by rewrite applyCheckDefaults_idem, applyPolicyDefaults_idem, orString_orString.
  - cbn -[applyCheckDefaults listenProcfs]. rewrite applyPolicyDefaults_idem, orString_orString.
    do 2 f_equal. apply Forall_cons in Hst as [Hc Hl]. f_equal; [by apply applyCheckDefaults_idem|].
    rewrite <-list_fmap_compose. apply list_fmap_ext. intros i x Hx. cbn.
    apply applyCheckDefaults_idem. by eapply Forall_lookup_1.
Qed.

Lemma slice_map_idem {A} (f : A → A) s :
  (∀ x, x ∈ elems s → f (f x) = f x) → slice_map f (slice_map f s) = slice_map f s.
Proof.
  destruct s as [l|]; cbn; [|done]. intros Hf. f_equal. rewrite map_map.
  apply map_ext_in. intros x Hx. by apply Hf, list_elem_of_In.
Qed.

(** No HTTP check of the config has an opaque URL. *)
Definition urlsStable (cfg : Config) : Prop :=
  ∀ v c, v ∈ elems (Cfg_VIPs cfg) → c ∈ CheckList v → checkStable c.

(** Filling in the defaults twice is filling them in once: a config that
    was loaded (and dumped) can be loaded again without change. *)
Theorem ApplyDefaults_idempotent cfg :
  urlsStable cfg → ApplyDefaults (ApplyDefaults cfg) = ApplyDefaults cfg.
Proof.
  intros Hst. unfold ApplyDefaults at 1. cbn -[slice_map applyVIPDefaults]. unfold ApplyDefaults.
  f_equal.
  - unfold applyAPIDefaults. cbn. by rewrite orString_orString.
  - unfold applyLoggingDefaults. cbn. by rewrite !orString_orString.
  - unfold applyOTelDefaults. cbn. by rewrite orString_orString.
  - unfold applyPathsDefaults. cbn. by rewrite orString_orString.
  - unfold applyBGPDefaults. cbn -[slice_map]. rewrite orZ_orZ. f_equal.
    + destruct (GoBGPAPI_Enabled _); cbn; by rewrite ?orString_orString.
    + apply slice_map_idem. intros n _. unfold applyNeighborDefaults. cbn. by rewrite orZ_orZ.
  - unfold applyPathsDefaults. cbn -[slice_map applyVIPDefaults]. rewrite orString_orString.
    apply slice_map_idem. intros v Hv. apply applyVIPDefaults_idem, Forall_forall.
    intros c Hc. by eapply Hst.
Qed.

(** ** Completeness *)

(** The block of the check's type is there. *)
Definition hasBlock (c : CheckConfig) : Prop :=
  (Check_Type c = CheckTypeHTTP → is_Some (Check_HTTP c)) ∧
  (Check_Type c = CheckTypeDNS → is_Some (Check_DNS c)) ∧
  (Check_Type c = CheckTypePing → is_Some (Check_Ping c)) ∧
  (Check_Type c = CheckTypeUDP → is_Some (Check_UDP c)) ∧
  (Check_Type c = CheckTypeTCP → is_Some (Check_TCP c)) ∧
  (Check_Type c = CheckTypeListen → is_Some (Check_Listen c)) ∧
  (Check_Type c = CheckTypeSQL → is_Some (Check_SQL c)) ∧
  (Check_Type c = CheckTypeKafka → is_Some (Check_Kafka c)) ∧
  (Check_Type c = CheckTypeGRPC → is_Some (Check_GRPC c)).

(** [y] is [x] where [x] is set, and set in any case. *)
Definition filled {A} (x y : option A) : Prop := is_Some y ∧ (is_Some x → y = x).

(** A check after the defaults: timing and thresholds are set, to the file's
    values where it has them; the block of its type is there; its identity
    is the file's. *)
Definition checkFilled (c c' : CheckConfig) : Prop :=
  Check_Name c' = Check_Name c ∧ Check_Type c' = Check_Type c ∧
  filled (Check_Interval c) (Check_Interval c') ∧ filled (Check_Timeout c) (Check_Timeout c') ∧
  filled (Check_Rise c) (Check_Rise c') ∧ filled (Check_Fall c) (Check_Fall c') ∧ hasBlock c'.

Lemma orNil_filled {A} (x : option A) d : filled x (orNil x d).
Proof. split; [by eexists|]. by intros [? ->]. Qed.

Lemma block_set {A} typ c (zero : A) f b prefix :
  Check_Type c = typ → is_Some (block typ c zero f b prefix).
Proof. intros Ht. unfold block. rewrite decide_True by done. by eexists. Qed.

Lemma fill_filled procfs prefix c : checkFilled c (listenProcfs procfs (applyCheckDefaults c prefix)).
Proof.
  unfold checkFilled, hasBlock. cbn -[filled block].
  split_and!; try done; try apply orNil_filled; try (by apply block_set).
  intros Ht. apply fmap_is_Some. by apply block_set.
Qed.

(** The VIP has a check, so the defaults do not skip it. *)
Definition hasCheck (v : VIPConfig) : Prop :=
  elems (VIP_Checks v) ≠ [] ∨ Check_Type (VIP_Check v) ≠ EmptyString.

Lemma elems_slice_map {A} (f : A → A) s : elems (slice_map f s) = f <$> elems s.
Proof. by destruct s. Qed.

Lemma fill_name procfs prefix c :
  EffectiveName (listenProcfs procfs (applyCheckDefaults c prefix)) = EffectiveName c.
Proof. done. Qed.

Lemma applyVIPDefaults_checks procfs v :
  hasCheck v →
  CheckList (applyVIPDefaults procfs v) =
    (λ c, listenProcfs procfs (applyCheckDefaults c (VIP_Prefix v))) <$> CheckList v.
Proof.
  intros Hc. unfold CheckList, applyVIPDefaults, hasCheck in *.
  destruct (elems (VIP_Checks v)) as [|c l] eqn:Ec; [|done].
  rewrite decide_False by naive_solver. cbn [VIP_Checks]. by rewrite Ec.
Qed.

Lemma applyVIPDefaults_cases procfs v : hasCheck v ∨ applyVIPDefaults procfs v = v.
Proof.
  unfold hasCheck, applyVIPDefaults. destruct (elems _); [case_decide|]; auto.
Qed.

Lemma applyVIPDefaults_policy procfs v :
  hasCheck v → VIP_Policy (applyVIPDefaults procfs v) = applyPolicyDefaults (VIP_Policy v).
Proof.
  intros Hc. unfold applyVIPDefaults, hasCheck in *. destruct (elems _); [|done].
  by rewrite decide_False by naive_solver.
Qed.

Lemma applyVIPDefaults_checksPolicy procfs v :
  hasCheck v →
  VIP_ChecksPolicy (applyVIPDefaults procfs v) = orString (VIP_ChecksPolicy v) ChecksPolicyAll.
Proof.
  intros Hc. unfold applyVIPDefaults, hasCheck in *. destruct (elems _); [|done].
  by rewrite decide_False by naive_solver.
Qed.

Lemma applyVIPDefaults_keys procfs v :
  VIP_Name (applyVIPDefaults procfs v) = VIP_Name v ∧
  VIP_Prefix (applyVIPDefaults procfs v) = VIP_Prefix v.
Proof. unfold applyVIPDefaults. destruct (elems _); [case_decide|]; done. Qed.

(** After the defaults every check of a VIP has its interval, timeout,
    thresholds and the block of its type, nothing the file set is
    overwritten, and both blocks of the route policy are there with their
    prepends. *)
Theorem ApplyDefaults_complete cfg :
  length (elems (Cfg_VIPs (ApplyDefaults cfg))) = length (elems (Cfg_VIPs cfg)) ∧
  ∀ i v, elems (Cfg_VIPs cfg) !! i = Some v → hasCheck v →
  ∃ v', elems (Cfg_VIPs (ApplyDefaults cfg)) !! i = Some v' ∧
    VIP_Name v' = VIP_Name v ∧ VIP_Prefix v' = VIP_Prefix v ∧
    Forall2 checkFilled (CheckList v) (CheckList v') ∧
    checkNames v' = checkNames v ∧
    Policy_FailAction (VIP_Policy v') ≠ EmptyString ∧
    (∃ a, Policy_Announce (VIP_Policy v') = Some a ∧ is_Some (Announce_ASPathPrepend a)) ∧
    (∃ l, Policy_LowerPriority (VIP_Policy v') = Some l ∧ is_Some (LowerPriority_ASPathPrepend l)).
Proof.
  cbn -[elems slice_map applyVIPDefaults]. rewrite elems_slice_map. split; [by rewrite length_fmap|].
  intros i v Hv Hc. eexists. rewrite list_lookup_fmap, Hv. split; [done|].
  destruct (applyVIPDefaults_keys (orString (Paths_Procfs (Cfg_Paths cfg)) "/proc") v) as [-> ->].
  rewrite applyVIPDefaults_policy by done. unfold checkNames.
  rewrite applyVIPDefaults_checks by done. split_and!; try done.
  - rewrite Forall2_fmap_r. apply Forall_Forall2_diag, Forall_forall. intros c _. apply fill_filled.
  - rewrite <-list_fmap_compose. by apply list_fmap_ext.
  - by apply orString_nonempty.
  - eexists. split; [done|]. by eexists.
  - eexists. split; [done|]. by eexists.
Qed.
End Idempotence.

(** ** The consumers' own fallbacks *)

Section Agreement.
Context `{GoStd}.

Lemma RouteAttrsFor_defaults p state : RouteAttrsFor (applyPolicyDefaults p) state = RouteAttrsFor p state.
Proof.
  destruct p as [action file [[[] comms]|] [[[] lcomms]|]], state; done.
Qed.

Lemma peerStatus_defaults cfg report : BGPManager.peerStatus (ApplyDefaults cfg) report = BGPManager.peerStatus cfg report.
Proof.
  unfold BGPManager.peerStatus. cbn -[elems slice_map]. rewrite elems_slice_map.
  destruct (default _ (BGPManager.Report_Conf report)) as [[name addr] asn].
  set (l := elems (BGP_Neighbors (Cfg_BGP cfg))).
  assert (∀ k, list_find (λ n, Neighbor_Address n = addr) (applyNeighborDefaults <$> k) =
    prod_map id applyNeighborDefaults <$> list_find (λ n, Neighbor_Address n = addr) k) as ->.
  { intros k. induction k as [|n k IH]; cbn; [done|]. case_decide; [done|]. rewrite IH.
    by destruct (list_find _ k). }
  by destruct (list_find _ l) as [[i n]|].
Qed.

(** C29: what the consumers of a config assume for a field that is not set is
    what [ApplyDefaults] would have put there: the route attributes of
    every state, the speaker's global config, the peers' statuses, the
    schedulers, the checks policy and the signals of the telemetry are the
    same for a raw config and for the filled-in one. *)
Theorem defaults_agree cfg :
  let cfg' := ApplyDefaults cfg in
  BGPManager.buildGlobalConfig cfg' = BGPManager.buildGlobalConfig cfg ∧
  (∀ report, BGPManager.peerStatus cfg' report = BGPManager.peerStatus cfg report) ∧
  OTel_IsEnabled (Cfg_OTel cfg') = OTel_IsEnabled (Cfg_OTel cfg) ∧
  (∀ sig, sig ∈ [OTel_Traces; OTel_Metrics; OTel_Logs] →
     IsEnabled (sig (Cfg_OTel cfg')) = IsEnabled (sig (Cfg_OTel cfg))) ∧
  ∀ i v v', elems (Cfg_VIPs cfg) !! i = Some v → elems (Cfg_VIPs cfg') !! i = Some v' →
    EffectiveChecksPolicy v' = EffectiveChecksPolicy v ∧ checkNames v' = checkNames v ∧
    (∀ state, RouteAttrsFor (VIP_Policy v') state = RouteAttrsFor (VIP_Policy v) state) ∧
    (∀ j c c' typ, CheckList v !! j = Some c → CheckList v' !! j = Some c' →
       Reload.newSchedulerFor v' c' typ = Reload.newSchedulerFor v c typ).
Proof.
  split_and!; [|apply peerStatus_defaults|by destruct cfg as [????[[]]]| |].
  - unfold BGPManager.buildGlobalConfig. cbn. unfold orZ. by repeat case_decide.
  - intros sig Hs. set_unfold in Hs. destruct Hs as [->|[->|[->|[]]]]; unfold IsEnabled; cbn;
      by destruct (Sig_Enabled _).
  - intros i v v' Hv. cbn -[elems slice_map applyVIPDefaults]. rewrite elems_slice_map, list_lookup_fmap, Hv.
    intros [= <-]. destruct (applyVIPDefaults_cases (orString (Paths_Procfs (Cfg_Paths cfg)) "/proc") v)
      as [Hc| ->]; [|split_and!; [done..|]; intros j c c' typ ->; congruence].
    set (procfs := orString _ _). split_and!.
    + unfold EffectiveChecksPolicy. rewrite applyVIPDefaults_checksPolicy by done. unfold orString.
      by destruct (decide (VIP_ChecksPolicy v = EmptyString)); [|rewrite decide_False].
    + unfold checkNames. rewrite applyVIPDefaults_checks by done. rewrite <-list_fmap_compose.
      by apply list_fmap_ext.
    + intros state. rewrite applyVIPDefaults_policy by done. apply RouteAttrsFor_defaults.
    + intros j c c' typ Hj. rewrite applyVIPDefaults_checks, list_lookup_fmap, Hj by done.
      intros [= <-]. unfold Reload.newSchedulerFor. by rewrite (proj1 (applyVIPDefaults_keys procfs v)).
Qed.
End Agreement.

(** ** The theorems applied *)

(** A URL parser for hierarchical https URLs and paths. *)
Definition refURL (s : string) : option URL :=
  match CutPrefix s "https://" with
  | Some rest =>
      match Cut rest "/"%char with
      | Some (host, path) => Some (mkURL "https" host host EmptyString (String "/" path))
      | None => Some (mkURL "https" rest rest EmptyString "/")
      end
  | None => Some (mkURL EmptyString EmptyString EmptyString EmptyString s)
  end.

Definition refStd : GoStd :=
  {| urlParse := refURL; LookupPort s := ParseUint s 16; regexpCompiles _ := true; jqParses _ := true |}.

Definition fd_http : HTTPCheckConfig :=
  mkHTTPCheckConfig "https://example.com/readyz" EmptyString EmptyString 0 EmptyString None EmptyString
    EmptyString EmptyString false EmptyString EmptyString EmptyString (Some {[ "x-token" := "t" ]}) false.
Definition fd_check : CheckConfig :=
  mkCheckConfig "ready" "http" false None None None (Some 5) (Some fd_http)
    None None None None None None None None.
Definition fd_vip : VIPConfig :=
  mkVIPConfig "web" "10.0.0.1/32" fd_check None EmptyString zeroPolicy false EmptyString.
Definition fd_cfg : Config :=
  mkConfig "v1" (mkRouterConfig 65000 "10.0.0.9" EmptyString EmptyString)
    (mkAPIConfig EmptyString None None None None)
    (mkLoggingConfig EmptyString EmptyString EmptyString None) zeroOTel
    (mkPathsConfig EmptyString) zeroBGP (Some [fd_vip]).

(** A full URL is taken apart: the check connects to the VIP and asks for the
    hostname. *)
Example fd_http_filled :
  let h := @applyHTTPDefaults refStd fd_http "10.0.0.1/32" in
  (HTTP_URL h, HTTP_Proto h, HTTP_Host h, HTTP_Port h, HTTP_TLSServerName h,
   entries (HTTP_Headers h) !! "Host", entries (HTTP_Headers h) !! "X-Token") =
  ("/readyz", "https", "10.0.0.1", 443, "example.com", Some "example.com", Some "t").
Proof. by vm_compute. Qed.

Lemma fd_stable : @urlsStable refStd fd_cfg.
Proof.
  intros v c Hv Hc. cbn in Hv. apply list_elem_of_singleton in Hv as ->.
  cbn in Hc. apply list_elem_of_singleton in Hc as ->.
  intros _ u Hu _ u' Hu'. vm_compute in Hu. injection Hu as <-. vm_compute in Hu'. by injection Hu' as <-.
Defined.

Lemma ApplyDefaults_idempotent_witness :
  @ApplyDefaults refStd (@ApplyDefaults refStd fd_cfg) = @ApplyDefaults refStd fd_cfg.
Proof. apply (@ApplyDefaults_idempotent refStd fd_cfg), fd_stable. Defined.

Lemma ApplyDefaults_complete_witness :
  length (elems (Cfg_VIPs (@ApplyDefaults refStd fd_cfg))) = 1%nat ∧
  ∃ v', elems (Cfg_VIPs (@ApplyDefaults refStd fd_cfg)) !! 0%nat = Some v' ∧
        Forall2 checkFilled (CheckList fd_vip) (CheckList v').
Proof.
  destruct (@ApplyDefaults_complete refStd fd_cfg) as [Hl Hv]. split; [exact Hl|].
  destruct (Hv 0%nat fd_vip eq_refl) as (v' & H1 & _ & _ & H2 & _); [|by exists v'].
  right. by_compute.
Defined.

Lemma defaults_agree_witness :
  RouteAttrsFor (VIP_Policy (@applyVIPDefaults refStd "/proc" fd_vip)) StatePessimized =
    mkRouteAttrs 6 [].
Proof.
  destruct (@defaults_agree refStd fd_cfg) as (_ & _ & _ & _ & Hv).
  destruct (Hv 0%nat fd_vip (@applyVIPDefaults refStd "/proc" fd_vip) eq_refl eq_refl) as (_ & _ & H & _).
  rewrite (H StatePessimized). by vm_compute.
Defined.

End DefaultsProofs.
Export DefaultsProofs.
