(* ===== verification/ValidateProofs.v ===== *)
(** * What validation accepts

    [ValidConfig] says in declarative terms which configs are accepted, and
    [Validate_spec] that [Validate] returns no error exactly for those.  The
    loops with state are handled once, in [scan_spec]: what they remember is a
    set of keys, and they report nothing exactly when every item is right and
    no key occurs twice. *)

From S2P Require Import Prelude GoStrings NetIP Net Config Model ChecksPolicy Defaults Validate.
From Stdlib Require Import Ascii SpecFloat.

Module ValidateProofs.

(** ** Error lists *)

Lemma add_nil path msg args : add path msg args = [] ↔ False.
Proof. done. Qed.
Lemma addErr_nil path e : addErr path e = [] ↔ False.
Proof. done. Qed.
Lemma when_nil b e : when b e = [] ↔ (b = true → e = []).
Proof. destruct b; naive_solver. Qed.
Lemma isEmpty_true s : isEmpty s = true ↔ s = EmptyString.
Proof. apply bool_decide_eq_true. Qed.
Lemma isEmpty_false s : isEmpty s = false ↔ s ≠ EmptyString.
Proof. apply bool_decide_eq_false. Qed.
Lemma isSet_true s : isSet s = true ↔ s ≠ EmptyString.
Proof. unfold isSet. by rewrite negb_true_iff, isEmpty_false. Qed.
Lemma isSet_false s : isSet s = false ↔ s = EmptyString.
Proof. unfold isSet. by rewrite negb_false_iff, isEmpty_true. Qed.
Lemma isNil_true {A} (x : option A) : isNil x = true ↔ x = None.
Proof. by destruct x. Qed.
Lemma isNil_false {A} (x : option A) : isNil x = false ↔ is_Some x.
Proof. rewrite <-not_eq_None_Some. by destruct x. Qed.
Lemma validIP_true s : validIP s = true ↔ is_Some (ParseIP s).
Proof. apply bool_decide_eq_true. Qed.
Lemma validIP_false s : validIP s = false ↔ ¬ is_Some (ParseIP s).
Proof. apply bool_decide_eq_false. Qed.

Lemma when_add b path msg args : when b (add path msg args) = [] ↔ b = false.
Proof. by destruct b. Qed.
Lemma iff_False (P : Prop) : (P → False) ↔ ¬ P.
Proof. done. Qed.

#[export] Hint Rewrite @app_nil add_nil addErr_nil when_add : errs_list.
#[export] Hint Rewrite when_nil : errs_when.
#[export] Hint Rewrite andb_true_iff orb_true_iff negb_true_iff andb_false_iff orb_false_iff negb_false_iff
  isEmpty_true isEmpty_false isSet_true isSet_false @isNil_true @isNil_false validIP_true validIP_false
  Z.ltb_lt Z.leb_le Z.eqb_eq Z.eqb_neq Z.ltb_ge Z.leb_gt @mem_true @mem_false
  bool_decide_eq_true bool_decide_eq_false : errs_bool.

(** Reads "no errors" as a proposition on the fields. *)
Ltac errs :=
  autorewrite with errs_list; autorewrite with errs_when; autorewrite with errs_list;
  autorewrite with errs_bool.

(** What holds of a field if it is set. *)
Definition ifSet {A} (x : option A) (P : A → Prop) : Prop :=
  match x with Some a => P a | None => True end.

Lemma ifSet_match {A} (x : option A) (f : A → list error) (P : A → Prop) :
  (∀ a, f a = [] ↔ P a) → match x with Some a => f a | None => [] end = [] ↔ ifSet x P.
Proof. intros Hf. by destruct x; cbn. Qed.

(** ** The loops *)

Section Scan.
Context {A S K : Type} (step : nat → A → S → S * list error).
Context (keys : nat → A → list K) (ok : nat → A → Prop) (seen : S → K → Prop).
Context (step_nil : ∀ i a s,
  (step i a s).2 = [] ↔ ok i a ∧ NoDup (keys i a) ∧ ∀ k, k ∈ keys i a → ¬ seen s k).
Context (step_seen : ∀ i a s k,
  (step i a s).2 = [] → (seen (step i a s).1 k ↔ seen s k ∨ k ∈ keys i a)).

(** The keys of a list whose first item has index [i]. *)
Fixpoint keysFrom (i : nat) (l : list A) : list K :=
  match l with [] => [] | a :: l' => keys i a ++ keysFrom (Datatypes.S i) l' end.

Fixpoint okFrom (i : nat) (l : list A) : Prop :=
  match l with [] => True | a :: l' => ok i a ∧ okFrom (Datatypes.S i) l' end.

Lemma scan_cons i a l s :
  scan step i (a :: l) s =
    ((scan step (Datatypes.S i) l (step i a s).1).1,
     (step i a s).2 ++ (scan step (Datatypes.S i) l (step i a s).1).2).
Proof. cbn. destruct (step i a s). cbn. by destruct (scan step _ l _). Qed.

Lemma scan_spec i l s :
  (scan step i l s).2 = [] ↔
    okFrom i l ∧ NoDup (keysFrom i l) ∧ ∀ k, k ∈ keysFrom i l → ¬ seen s k.
Proof.
  revert i s. induction l as [|a l IH]; intros i s.
  { split; [|done]. intros _. split_and!; [done|constructor|set_solver]. }
  rewrite scan_cons. cbn [snd okFrom keysFrom]. rewrite app_nil, IH, NoDup_app. setoid_rewrite elem_of_app.
  split.
  - intros (Hs & Hok & Hnd & Hl).
    assert (Hse := λ k, step_seen i a s k Hs). rewrite step_nil in Hs. naive_solver.
  - intros ((Ha & Hok) & (Hn & Hx & Hnd) & Hk).
    assert ((step i a s).2 = []) as Hs by (rewrite step_nil; naive_solver).
    assert (Hse := λ k, step_seen i a s k Hs). naive_solver.
Qed.

Lemma scan_seen i l s k :
  (scan step i l s).2 = [] → (seen (scan step i l s).1 k ↔ seen s k ∨ k ∈ keysFrom i l).
Proof.
  revert i s. induction l as [|a l IH]; intros i s; [set_solver|].
  rewrite scan_cons. cbn [fst snd keysFrom]. intros [Hs Hl]%app_nil.
  rewrite (IH _ _ Hl), (step_seen _ _ _ _ Hs), elem_of_app. tauto.
Qed.

End Scan.

(** Without a use of the index. *)
Lemma okFrom_Forall {A} (ok : A → Prop) i l : okFrom (λ _, ok) i l ↔ Forall ok l.
Proof. revert i. induction l as [|a l IH]; intros i; cbn; [done|]. by rewrite Forall_cons, IH. Qed.
Lemma keysFrom_fmap {A K} (key : A → K) i l : keysFrom (λ _ a, [key a]) i l = key <$> l.
Proof. revert i. induction l as [|a l IH]; intros i; cbn; [done|]. by rewrite IH. Qed.
Lemma keysFrom_imap {A K} (key : nat → A → K) i l :
  keysFrom (λ i a, [key i a]) i l = imap (λ j, key (i + j)%nat) l.
Proof.
  revert i. induction l as [|a l IH]; intros i; cbn; [done|]. rewrite IH, Nat.add_0_r. f_equal.
  apply imap_ext. intros j x _. cbn. f_equal. lia.
Qed.

Lemma concat_nil {A} (l : list (list A)) : concat l = [] ↔ Forall (λ x, x = []) l.
Proof. induction l as [|x l IH]; cbn; [done|]. by rewrite app_nil, Forall_cons, IH. Qed.

(** A mandatory name that was not seen before. *)
Lemma fresh_name (n : string) (names names' : gset string) e p1 m1 a1 p2 m2 a2 :
  (if isEmpty n then (names, add p1 m1 a1)
   else if decide (n ∈ names) then (names, add p2 m2 a2)
   else ({[n]} ∪ names, [])) = (names', e) →
  (e = [] ↔ n ≠ EmptyString ∧ n ∉ names) ∧ (e = [] → names' = {[n]} ∪ names).
Proof.
  unfold isEmpty. case_bool_decide; [|case_decide]; intros [= <- <-]; rewrite ?add_nil; naive_solver.
Qed.

(** ** Check types *)

Definition ValidHost (host prefix : string) : Prop := host ≠ EmptyString ∨ isSingleHost prefix = true.

(** TLS options need TLS, and a CA is pointless without verification. *)
Definition ValidTLS (tls insecure : bool) (ca server : string) : Prop :=
  (tls = false → insecure = false ∧ ca = EmptyString ∧ server = EmptyString) ∧
  (insecure = false ∨ ca = EmptyString).

Definition ValidKafka (k : KafkaCheckConfig) (prefix : string) : Prop :=
  ValidHost (Kafka_Host k) prefix ∧ 0 ≤ Kafka_MinBrokers k ∧
  ValidTLS (Kafka_TLS k) (Kafka_TLSInsecure k) (Kafka_TLSCACert k) (Kafka_TLSServerName k) ∧
  ifSet (Kafka_SASL k) (λ s,
    SASL_Mechanism s ∈ [KafkaSASLPlain; KafkaSASLScramSHA256; KafkaSASLScramSHA512] ∧
    SASL_User s ≠ EmptyString ∧ SASL_Password s ≠ EmptyString).

(** A mandatory choice: one of [l], with one message when it is missing and
    another when it is wrong. *)
Lemma choice_nil (x : string) l (b : bool) p1 m1 a1 p2 m2 a2 :
  (if mem x l then [] else if b then add p1 m1 a1 else add p2 m2 a2) = [] ↔ x ∈ l.
Proof. rewrite <-mem_true. destruct (mem x l), b; naive_solver. Qed.

Lemma validateKafkaCheck_spec path k prefix :
  validateKafkaCheck path k prefix = [] ↔ ValidKafka k prefix.
Proof.
  unfold validateKafkaCheck, ValidKafka, ValidHost, ValidTLS. destruct (Kafka_SASL k) as [s|]; cbn [ifSet];
    rewrite ?app_nil, ?choice_nil; errs; tauto.
Qed.

Section Checks.
Context `{GoStd}.

Definition ValidQueries (l : list SQLQueryConfig) : Prop :=
  Forall (λ q, blank (Query_SQL q) = false ∧
               (Query_ResultJQ q = EmptyString ∨ jqParses (Query_ResultJQ q) = true)) l ∧
  NoDup (imap (λ i q, Query_EffectiveName q (Z.of_nat i)) l).

Definition ValidSQL (s : SQLCheckConfig) (prefix : string) : Prop :=
  SQL_Driver s ∈ [SQLDriverMySQL; SQLDriverPostgres] ∧ SQL_User s ≠ EmptyString ∧
  ValidHost (SQL_Host s) prefix ∧ 0 ≤ SQL_MaxRows s ∧
  ValidTLS (SQL_TLS s) (SQL_TLSInsecure s) (SQL_TLSCACert s) (SQL_TLSServerName s) ∧
  ValidQueries (elems (SQL_Queries s)).

Lemma validateQuery_nil path i q names :
  (validateQuery path i q names).2 = [] ↔
    (blank (Query_SQL q) = false ∧
     (Query_ResultJQ q = EmptyString ∨ jqParses (Query_ResultJQ q) = true)) ∧
    NoDup [Query_EffectiveName q (Z.of_nat i)] ∧
    ∀ k, k ∈ [Query_EffectiveName q (Z.of_nat i)] → ¬ is_Some (names !! k).
Proof.
  unfold validateQuery. setoid_rewrite list_elem_of_singleton.
  assert (NoDup [Query_EffectiveName q (Z.of_nat i)]) by apply NoDup_singleton.
  destruct (names !! _) eqn:E; cbn [snd]; errs.
  - split; [tauto|]. intros (_ & _ & Hk). destruct (Hk _ eq_refl). by rewrite E.
  - split; [|tauto]. intros (H1 & _ & H3). split_and!; [done|tauto|done|].
    intros k ->. rewrite E. by intros [].
Qed.

Lemma validateQuery_seen path i q names k :
  (validateQuery path i q names).2 = [] →
  (is_Some ((validateQuery path i q names).1 !! k) ↔
   is_Some (names !! k) ∨ k ∈ [Query_EffectiveName q (Z.of_nat i)]).
Proof.
  unfold validateQuery. rewrite list_elem_of_singleton. destruct (names !! _) eqn:E; cbn [fst snd]; errs; [tauto|].
  intros _. rewrite lookup_insert_is_Some. destruct (decide (k = Query_EffectiveName q (Z.of_nat i))); naive_solver.
Qed.

Lemma validateQueries_spec path l : (scan (validateQuery path) 0 l ∅).2 = [] ↔ ValidQueries l.
Proof.
  rewrite (scan_spec _ (λ i q, [Query_EffectiveName q (Z.of_nat i)]) _ _
    (validateQuery_nil path) (validateQuery_seen path)).
  rewrite (okFrom_Forall _ 0 l), keysFrom_imap. unfold ValidQueries. setoid_rewrite lookup_empty.
  split; [tauto|]. intros [? ?]. split_and!; [done..|]. by intros k _ [].
Qed.

Lemma validateSQLCheck_spec path s prefix : validateSQLCheck path s prefix = [] ↔ ValidSQL s prefix.
Proof.
  unfold validateSQLCheck, ValidSQL, ValidHost, ValidTLS.
  rewrite !app_nil, choice_nil, validateQueries_spec. errs. tauto.
Qed.

(** HTTP: HEAD has no body to match; a proxy needs a hostname to fetch. *)
Definition ValidHTTP (h : HTTPCheckConfig) (prefix : string) : Prop :=
  (HTTP_Proto h = EmptyString ∨ HTTP_Proto h ∈ ["http"; "https"]) ∧
  (HTTP_Method h = "GET" ∨
   HTTP_Method h = "HEAD" ∧ HTTP_ResponseText h = EmptyString ∧ HTTP_ResponseRegex h = EmptyString ∧
   HTTP_ResponseJQ h = EmptyString) ∧
  ValidHost (HTTP_Host h) prefix ∧
  (HTTP_ResponseRegex h = EmptyString ∨ regexpCompiles (HTTP_ResponseRegex h) = true) ∧
  (HTTP_TLSCACert h = EmptyString ∨ HTTP_TLSInsecure h = false) ∧
  (HTTP_Proxy h ≠ EmptyString →
   (∃ u, urlParse (HTTP_Proxy h) = Some u ∧ URL_Scheme u ∈ ["http"; "https"] ∧ URL_Host u ≠ EmptyString) ∧
   HTTP_Host h ≠ EmptyString ∧ ParseIP (HTTP_Host h) = None).

Lemma validateHTTPCheck_spec path h prefix : validateHTTPCheck path h prefix = [] ↔ ValidHTTP h prefix.
Proof.
  unfold validateHTTPCheck, ValidHTTP, ValidHost. rewrite !app_nil.
  assert (∀ p m a p', (when (match urlParse (HTTP_Proxy h) with
           | None => true
           | Some u => negb (mem (URL_Scheme u) ["http"; "https"]) || isEmpty (URL_Host u)
           end) (add p m a) ++ when (isEmpty (HTTP_Host h) || validIP (HTTP_Host h)) (add p p' [])) = [] ↔
    (∃ u, urlParse (HTTP_Proxy h) = Some u ∧ URL_Scheme u ∈ ["http"; "https"] ∧ URL_Host u ≠ EmptyString) ∧
    HTTP_Host h ≠ EmptyString ∧ ParseIP (HTTP_Host h) = None) as Hproxy.
  { intros p m a p'. rewrite eq_None_not_Some. destruct (urlParse (HTTP_Proxy h)); errs; naive_solver. }
  rewrite (when_nil (isSet (HTTP_Proxy h))), Hproxy.
  destruct (decide (HTTP_Method h = "GET")) as [HG|HG];
    [|destruct (decide (HTTP_Method h = "HEAD")) as [HH|HH]]; errs; try tauto.
Qed.

Definition ValidGRPC (g : GRPCCheckConfig) (prefix : string) : Prop :=
  GRPC_Port g ≠ 0 ∧ ValidHost (GRPC_Host g) prefix ∧
  ValidTLS (GRPC_TLS g) (GRPC_TLSInsecure g) (GRPC_TLSCACert g) (GRPC_TLSServerName g) ∧
  Forall (λ name, ToLower (dropChar "_"%char name) ∈ validGRPCCodeNames) (elems (GRPC_OKCodes g)).

Lemma validateGRPCCheck_spec path g prefix : validateGRPCCheck path g prefix = [] ↔ ValidGRPC g prefix.
Proof.
  unfold validateGRPCCheck, ValidGRPC, ValidHost, ValidTLS. rewrite !app_nil, concat_nil, Forall_fmap.
  unfold compose. setoid_rewrite when_add. setoid_rewrite negb_false_iff. setoid_rewrite mem_true.
  destruct (GRPC_TLS g); cbn [negb]; errs; destruct (GRPC_TLSInsecure g); naive_solver.
Qed.

(** The ratio is a number in [[0, 1)]; NaN passes as well. *)
Definition ValidPing (p : PingCheckConfig) (prefix : string) : Prop :=
  (if decide (Ping_DstIP p = EmptyString) then isSingleHost prefix = true else is_Some (ParseIP (Ping_DstIP p))) ∧
  (Ping_SrcIP p = EmptyString ∨ is_Some (ParseIP (Ping_SrcIP p))) ∧
  1 ≤ Ping_Count p ≤ 60 ∧
  SFltb (Ping_MaxLossRatio p) float_zero = false ∧ SFleb float_one (Ping_MaxLossRatio p) = false.

Lemma validatePing_spec path p prefix : validatePing path p prefix = [] ↔ ValidPing p prefix.
Proof.
  unfold validatePing, ValidPing, isEmpty.
  destruct (decide (Ping_DstIP p = EmptyString)) as [E|E];
    [rewrite (bool_decide_eq_true_2 (Ping_DstIP p = _) E)|rewrite (bool_decide_eq_false_2 (Ping_DstIP p = _) E)];
    errs; tauto.
Qed.

Definition ValidDNS (d : DNSCheckConfig) : Prop :=
  elems (DNS_Names d) ≠ [] ∧ ToUpper (DNS_QueryType d) ∈ validQTypes.
Definition ValidUDP (u : UDPCheckConfig) (prefix : string) : Prop :=
  UDP_Port u ≠ 0 ∧ ValidHost (UDP_Host u) prefix.
Definition ValidTCP (t : TCPCheckConfig) (prefix : string) : Prop :=
  TCP_Port t ≠ 0 ∧ ValidHost (TCP_Host t) prefix.
Definition ValidListen (l : ListenCheckConfig) (prefix : string) : Prop :=
  Listen_Proto l ∈ ["tcp"; "udp"] ∧ Listen_Port l ≠ 0 ∧ ValidHost (Listen_Host l) prefix ∧
  (Listen_Host l = EmptyString ∨ is_Some (ParseAddr (Listen_Host l))) ∧ 0 ≤ Listen_NetnsPID l.

Lemma validateDNS_spec path d : validateDNS path d = [] ↔ ValidDNS d.
Proof. unfold validateDNS, ValidDNS. errs. tauto. Qed.
Lemma validateUDP_spec path u prefix : validateUDP path u prefix = [] ↔ ValidUDP u prefix.
Proof. unfold validateUDP, ValidUDP, ValidHost. errs. tauto. Qed.
Lemma validateTCP_spec path t prefix : validateTCP path t prefix = [] ↔ ValidTCP t prefix.
Proof. unfold validateTCP, ValidTCP, ValidHost. errs. tauto. Qed.
Lemma validateListen_spec path l prefix : validateListen path l prefix = [] ↔ ValidListen l prefix.
Proof. unfold validateListen, ValidListen, ValidHost. errs. tauto. Qed.

(** The block of the type of a check is there and right. *)
Definition valid {A} (b : option A) (P : A → Prop) : Prop := ∃ x, b = Some x ∧ P x.

Inductive ValidBlock (c : CheckConfig) (prefix : string) : Prop :=
| VB_HTTP : Check_Type c = CheckTypeHTTP → valid (Check_HTTP c) (λ h, ValidHTTP h prefix) → ValidBlock c prefix
| VB_DNS : Check_Type c = CheckTypeDNS → valid (Check_DNS c) ValidDNS → ValidBlock c prefix
| VB_Ping : Check_Type c = CheckTypePing → valid (Check_Ping c) (λ p, ValidPing p prefix) → ValidBlock c prefix
| VB_UDP : Check_Type c = CheckTypeUDP → valid (Check_UDP c) (λ u, ValidUDP u prefix) → ValidBlock c prefix
| VB_Listen : Check_Type c = CheckTypeListen → valid (Check_Listen c) (λ l, ValidListen l prefix) → ValidBlock c prefix
| VB_TCP : Check_Type c = CheckTypeTCP → valid (Check_TCP c) (λ t, ValidTCP t prefix) → ValidBlock c prefix
| VB_SQL : Check_Type c = CheckTypeSQL → valid (Check_SQL c) (λ s, ValidSQL s prefix) → ValidBlock c prefix
| VB_Kafka : Check_Type c = CheckTypeKafka → valid (Check_Kafka c) (λ k, ValidKafka k prefix) → ValidBlock c prefix
| VB_GRPC : Check_Type c = CheckTypeGRPC → valid (Check_GRPC c) (λ g, ValidGRPC g prefix) → ValidBlock c prefix.

Lemma withBlock_nil {A} path typ (b : option A) f P :
  (∀ x, f x = [] ↔ P x) → withBlock path typ b f = [] ↔ valid b P.
Proof. intros Hf. unfold withBlock, valid. destruct b as [x|]; [rewrite Hf|]; naive_solver. Qed.

Lemma validateCheck_spec path c prefix : validateCheck path c prefix = [] ↔ ValidBlock c prefix.
Proof.
  unfold validateCheck.
  repeat (match goal with |- context [decide ?P] => destruct (decide P) as [Ht|] end; [
    etrans; [first [apply add_nil|apply withBlock_nil; intros x; first
      [apply validateHTTPCheck_spec|apply validateDNS_spec|apply validatePing_spec|apply validateUDP_spec
      |apply validateListen_spec|apply validateTCP_spec|apply validateSQLCheck_spec
      |apply validateKafkaCheck_spec|apply validateGRPCCheck_spec]]|];
    (split; [intros Hb; first [done|by eauto using ValidBlock]
            |intros [E Hb|E Hb|E Hb|E Hb|E Hb|E Hb|E Hb|E Hb|E Hb];
             first [exact Hb|by rewrite Ht in E]])|]).
  rewrite add_nil. split; [done|]. by intros [].
Qed.

End Checks.

(** ** The route policy *)

(** "ASN:value", both halves 16 bits wide. *)
Definition ValidCommunity (c : string) : Prop :=
  ∃ a b v w, SplitN2 c ":"%char = [a; b] ∧ ParseUint a 16 = Some v ∧ ParseUint b 16 = Some w.

Definition ValidPolicy (p : PolicyConfig) : Prop :=
  Policy_FailAction p ∈ ["withdraw"; "lower_priority"] ∧
  ifSet (Policy_LowerPriority p) (λ lp,
    ifSet (LowerPriority_ASPathPrepend lp) (λ v, 1 ≤ v ≤ 16) ∧
    Forall ValidCommunity (elems (LowerPriority_Communities lp))) ∧
  ifSet (Policy_Announce p) (λ a,
    ifSet (Announce_ASPathPrepend a) (λ v, 0 ≤ v ≤ 16) ∧
    Forall ValidCommunity (elems (Announce_Communities a))).

Lemma concat_imap_nil {A B} (f : nat → A → list B) (P : A → Prop) l :
  (∀ i a, f i a = [] ↔ P a) → concat (imap f l) = [] ↔ Forall P l.
Proof.
  intros Hf. rewrite concat_nil. revert f Hf. induction l as [|a l IH]; intros f Hf; cbn; [done|].
  rewrite !Forall_cons, Hf, IH by (intros; apply Hf). done.
Qed.

Lemma validateCommunities_spec path l : validateCommunities path l = [] ↔ Forall ValidCommunity l.
Proof.
  apply concat_imap_nil. intros i c. unfold ValidCommunity.
  destruct (SplitN2 c ":"%char) as [|a [|b [|d l']]]; try naive_solver.
  rewrite when_nil, orb_true_iff, !isNil_true.
  destruct (ParseUint a 16) eqn:Ea, (ParseUint b 16) eqn:Eb; naive_solver.
Qed.

Lemma validatePolicy_spec path p : validatePolicy path p = [] ↔ ValidPolicy p.
Proof.
  unfold validatePolicy, ValidPolicy. rewrite !app_nil, choice_nil.
  destruct (Policy_LowerPriority p) as [[[] ?]|], (Policy_Announce p) as [[[] ?]|];
    cbn [ifSet LowerPriority_ASPathPrepend LowerPriority_Communities Announce_ASPathPrepend
         Announce_Communities];
    rewrite ?app_nil, ?validateCommunities_spec; errs; tauto.
Qed.

(** ** A VIP *)

Section VIP.
Context `{GoStd} `{ExprLang}.

(** A check: a usable name, the timeout below the interval, thresholds of at
    least 1, and the block of its type. *)
Record ValidCheck (prefix : string) (c : CheckConfig) : Prop := {
  vc_name : Check_Name c = EmptyString ∨ ValidateCheckName (Check_Name c) = None;
  vc_timeout : ifSet (Check_Interval c) (λ interval,
                 ifSet (Check_Timeout c) (λ timeout, timeout < interval));
  vc_rise : ifSet (Check_Rise c) (λ rise, 1 ≤ rise);
  vc_fall : ifSet (Check_Fall c) (λ fall, 1 ≤ fall);
  vc_block : ValidBlock c prefix }.

Definition builtinPolicy (p : string) : Prop := p ∈ [EmptyString; ChecksPolicyAll; ChecksPolicyAny].

Record ValidVIP (v : VIPConfig) : Prop := {
  vv_name : VIP_Name v ≠ EmptyString;
  vv_prefix : is_Some (ParseCIDR (VIP_Prefix v));
  vv_interface : VIP_LocalInterface v = EmptyString ∨ VIP_RequireLocalAddress v = true;
  vv_one : single v = true ↔ elems (VIP_Checks v) = [];
  vv_checks : Forall (ValidCheck (VIP_Prefix v)) (CheckList v);
  vv_checkNames : NoDup (checkNames v);
  vv_policy : builtinPolicy (VIP_ChecksPolicy v) ∨
    elems (VIP_Checks v) ≠ [] ∧ ∃ e, CompileChecksPolicy (VIP_ChecksPolicy v) (checkNames v) = Ok e;
  vv_routes : ValidPolicy (VIP_Policy v) }.

(** The network a prefix denotes, in canonical text. *)
Definition canonicalPrefix (s : string) : string :=
  match ParseCIDR s with Some (_, ipNet) => IPNet_String ipNet | None => EmptyString end.

Lemma validateOneCheck_nil path v i c names :
  (validateOneCheck path v i c names).2 = [] ↔
    ValidCheck (VIP_Prefix v) c ∧ NoDup [EffectiveName c] ∧
    ∀ k, k ∈ [EffectiveName c] → ¬ is_Some (names !! k).
Proof.
  unfold validateOneCheck. setoid_rewrite list_elem_of_singleton.
  assert (ValidCheck (VIP_Prefix v) c ↔
    (Check_Name c = EmptyString ∨ ValidateCheckName (Check_Name c) = None) ∧
    ifSet (Check_Interval c) (λ interval, ifSet (Check_Timeout c) (λ timeout, timeout < interval)) ∧
    ifSet (Check_Rise c) (λ rise, 1 ≤ rise) ∧ ifSet (Check_Fall c) (λ fall, 1 ≤ fall) ∧
    ValidBlock c (VIP_Prefix v)) as ->.
  { split; [by intros []|]. intros (?&?&?&?&?). by split. }
  assert (NoDup [EffectiveName c] ∧ (∀ k, k = EffectiveName c → ¬ is_Some (names !! k)) ↔
    names !! EffectiveName c = None) as ->.
  { rewrite eq_None_not_Some. split; [naive_solver|]. intros. split; [apply NoDup_singleton|naive_solver]. }
  assert ((if isSet (Check_Name c) then
              match ValidateCheckName (Check_Name c) with
              | Some err => addErr (checkPath path v i +:+ ".name") err
              | None => []
              end else []) = [] ↔ Check_Name c = EmptyString ∨ ValidateCheckName (Check_Name c) = None) as Hn.
  { destruct (isSet (Check_Name c)) eqn:E; autorewrite with errs_bool in E;
      destruct (ValidateCheckName _) eqn:E'; naive_solver. }
  destruct (names !! EffectiveName c) as [j|] eqn:E; cbn [snd].
  - rewrite !app_nil. destruct (isEmpty (Check_Name c)); rewrite add_nil; split; try tauto; naive_solver.
  - rewrite !app_nil, Hn, validateCheck_spec.
    destruct (Check_Interval c), (Check_Timeout c), (Check_Rise c), (Check_Fall c);
      cbn [ifSet]; errs; tauto.
Qed.

Lemma validateOneCheck_seen path v i c names k :
  (validateOneCheck path v i c names).2 = [] →
  (is_Some ((validateOneCheck path v i c names).1 !! k) ↔ is_Some (names !! k) ∨ k ∈ [EffectiveName c]).
Proof.
  unfold validateOneCheck. rewrite list_elem_of_singleton.
  destruct (names !! EffectiveName c) as [j|] eqn:E; cbn [fst snd].
  - rewrite !app_nil. destruct (isEmpty (Check_Name c)); rewrite add_nil; tauto.
  - intros _. rewrite lookup_insert_is_Some. destruct (decide (k = EffectiveName c)); naive_solver.
Qed.

Lemma validateChecks_spec path v l :
  (scan (validateOneCheck path v) 0 l ∅).2 = [] ↔
    Forall (ValidCheck (VIP_Prefix v)) l ∧ NoDup (EffectiveName <$> l).
Proof.
  rewrite (scan_spec _ (λ _ c, [EffectiveName c]) _ _ (validateOneCheck_nil path v) (validateOneCheck_seen path v)).
  rewrite (okFrom_Forall _ 0 l), keysFrom_fmap. setoid_rewrite lookup_empty.
  split; [tauto|]. intros [? ?]. split_and!; [done..|]. by intros k _ [].
Qed.

(** After a loop without errors the map holds exactly the names. *)
Lemma validateChecks_names path v l :
  (scan (validateOneCheck path v) 0 l ∅).2 = [] →
  (map_to_list (scan (validateOneCheck path v) 0 l ∅).1).*1 ≡ₚ EffectiveName <$> l.
Proof.
  intros Hnil. assert (Hs := λ k, scan_seen _ (λ _ c, [EffectiveName c]) _ _
    (validateOneCheck_nil path v) (validateOneCheck_seen path v) 0 l ∅ k Hnil).
  apply validateChecks_spec in Hnil as [_ Hnd].
  apply NoDup_Permutation; [apply NoDup_fst_map_to_list|done|].
  intros k. specialize (Hs k). rewrite keysFrom_fmap, lookup_empty in Hs. split.
  - intros ([k' i] & -> & Hk%elem_of_map_to_list)%list_elem_of_fmap_1. cbn in *.
    destruct (proj1 Hs) as [Hk'|Hk']; [by eexists|by destruct Hk'|done].
  - intros Hk. destruct (proj2 Hs (or_intror Hk)) as [i Hi].
    apply (list_elem_of_fmap_2' _ _ (k, i)); [|done]. by apply elem_of_map_to_list.
Qed.

(** Whether an expression compiles depends on the set of names only. *)
Lemma CompileChecksPolicy_perm policy names names' :
  (∀ n, n ∈ names ↔ n ∈ names') →
  (∃ e, CompileChecksPolicy policy names = Ok e) ↔ (∃ e, CompileChecksPolicy policy names' = Ok e).
Proof.
  intros Hn. unfold CompileChecksPolicy. destruct (decide (_ ∨ _)); [naive_solver|].
  rewrite (compileEnv_perm _ _ Hn). destruct (exprCompile _ _); naive_solver.
Qed.

(** The checks of a VIP, with [check] or [checks] given, and the policy that
    combines them. *)
Lemma validateVIP_checks_spec path v m errs p1 m1 p2 :
  (single v = true ↔ elems (VIP_Checks v) = []) →
  scan (validateOneCheck path v) 0 (CheckList v) ∅ = (m, errs) →
  errs = [] →
  (if mem (VIP_ChecksPolicy v) [EmptyString; ChecksPolicyAll; ChecksPolicyAny] then []
   else if bool_decide (elems (VIP_Checks v) = []) then add p1 m1 []
   else if decide (size m = length (elems (VIP_Checks v))) then
     match CompileChecksPolicy (VIP_ChecksPolicy v) (map_to_list m).*1 with
     | Err err => addErr p2 err
     | Ok _ => []
     end
   else []) = [] ↔
  (builtinPolicy (VIP_ChecksPolicy v) ∨
   elems (VIP_Checks v) ≠ [] ∧ ∃ e, CompileChecksPolicy (VIP_ChecksPolicy v) (checkNames v) = Ok e).
Proof.
  intros Hone Hscan ->. assert (Hnames := validateChecks_names path v (CheckList v)).
  rewrite Hscan in Hnames. specialize (Hnames eq_refl). cbn [fst] in Hnames.
  unfold builtinPolicy. destruct (mem _ _) eqn:Em; rewrite ?mem_true, ?mem_false in Em; [naive_solver|].
  case_bool_decide as Hc; [rewrite add_nil; naive_solver|].
  assert (CheckList v = elems (VIP_Checks v)) as Hl by (unfold CheckList; by destruct (elems _)).
  rewrite decide_True; last first.
  { rewrite <-length_map_to_list, <-(length_fmap fst), Hnames, length_fmap. by rewrite Hl. }
  assert (Hp := CompileChecksPolicy_perm (VIP_ChecksPolicy v) (map_to_list m).*1 (checkNames v)
    ltac:(intros n; by rewrite Hnames)).
  destruct (CompileChecksPolicy _ (map_to_list m).*1) eqn:E; rewrite ?addErr_nil; naive_solver.
Qed.

(** A valid prefix whose network was not seen before. *)
Lemma fresh_prefix (s : string) (prefixes prefixes' : gset string) e p1 m1 a1 p2 m2 a2 p3 m3 a3 :
  (if isEmpty s then (prefixes, add p1 m1 a1)
   else match ParseCIDR s with
        | None => (prefixes, add p2 m2 a2)
        | Some (_, ipNet) =>
            if decide (IPNet_String ipNet ∈ prefixes) then (prefixes, add p3 m3 a3)
            else ({[IPNet_String ipNet]} ∪ prefixes, [])
        end) = (prefixes', e) →
  (e = [] ↔ is_Some (ParseCIDR s) ∧ canonicalPrefix s ∉ prefixes) ∧
  (e = [] → prefixes' = {[canonicalPrefix s]} ∪ prefixes).
Proof.
  unfold isEmpty, canonicalPrefix. case_bool_decide as Hs.
  { subst s. intros [= <- <-]. rewrite add_nil. split; [|done]. split; [done|]. by intros [[] _]. }
  destruct (ParseCIDR s) as [[ip ipNet]|]; [case_decide|]; intros [= <- <-]; rewrite ?add_nil; cbn;
    split; naive_solver.
Qed.

Definition vipSeen (st : gset string * gset string) (k : string + string) : Prop :=
  match k with inl n => n ∈ st.1 | inr p => p ∈ st.2 end.

Definition vipKeys (v : VIPConfig) : list (string + string) :=
  [inl (VIP_Name v); inr (canonicalPrefix (VIP_Prefix v))].

Lemma vipKeys_fresh v st :
  NoDup (vipKeys v) ∧ (∀ k, k ∈ vipKeys v → ¬ vipSeen st k) ↔
  VIP_Name v ∉ st.1 ∧ canonicalPrefix (VIP_Prefix v) ∉ st.2.
Proof.
  unfold vipKeys. rewrite <-!Forall_forall, !Forall_cons, NoDup_cons, list_elem_of_singleton.
  assert (NoDup [inr (A := string) (canonicalPrefix (VIP_Prefix v))]) by apply NoDup_singleton.
  cbn. rewrite Forall_nil. naive_solver.
Qed.

Lemma ValidVIP_iff v :
  ValidVIP v ↔
  VIP_Name v ≠ EmptyString ∧ is_Some (ParseCIDR (VIP_Prefix v)) ∧
  (VIP_LocalInterface v = EmptyString ∨ VIP_RequireLocalAddress v = true) ∧
  (single v = true ↔ elems (VIP_Checks v) = []) ∧
  (Forall (ValidCheck (VIP_Prefix v)) (CheckList v) ∧ NoDup (checkNames v)) ∧
  (builtinPolicy (VIP_ChecksPolicy v) ∨
   elems (VIP_Checks v) ≠ [] ∧ ∃ e, CompileChecksPolicy (VIP_ChecksPolicy v) (checkNames v) = Ok e) ∧
  ValidPolicy (VIP_Policy v).
Proof. split; [intros []; tauto|]. intros (?&?&?&?&[]&?&?). by split. Qed.

(** Exactly one of [check] and [checks]. *)
Lemma one_nil (s n : bool) (P : Prop) p1 m1 p2 m2 :
  (n = true ↔ P) →
  (if s && negb n then add p1 m1 [] else if negb s && n then add p2 m2 [] else []) = [] ↔ (s = true ↔ P).
Proof. intros <-. destruct s, n; rewrite ?add_nil; naive_solver. Qed.

Lemma validateVIP_nil path v st :
  (validateVIP path v st).2 = [] ↔
  ValidVIP v ∧ NoDup (vipKeys v) ∧ ∀ k, k ∈ vipKeys v → ¬ vipSeen st k.
Proof.
  destruct st as [names prefixes]. rewrite vipKeys_fresh, ValidVIP_iff. unfold validateVIP.
  destruct (if isEmpty (VIP_Name v) then _ else _) as [names' e1] eqn:E1. apply fresh_name in E1 as [E1 _].
  destruct (if isEmpty (VIP_Prefix v) then _ else _) as [prefixes' e2] eqn:E2.
  apply fresh_prefix in E2 as [E2 _].
  assert (Hc := bool_decide_eq_true (elems (VIP_Checks v) = [])).
  destruct (if negb (single v) && _ then _ else _) as [m e5] eqn:E5. cbn [snd].
  rewrite !app_nil, E1, E2, validatePolicy_spec, (one_nil _ _ _ _ _ _ _ Hc), when_add.
  rewrite andb_false_iff, isSet_false, negb_false_iff. cbn [fst snd].
  destruct (decide (single v = true ↔ elems (VIP_Checks v) = [])) as [Hone|]; [|tauto].
  rewrite (proj2 (andb_false_iff _ _)) in E5; last first.
  { rewrite negb_false_iff, bool_decide_eq_false. destruct (single v); [by left|right]. naive_solver. }
  assert (e5 = [] ↔ Forall (ValidCheck (VIP_Prefix v)) (CheckList v) ∧ NoDup (checkNames v)) as <-.
  { unfold checkNames. rewrite <-(validateChecks_spec path), E5. done. }
  assert (Hp := validateVIP_checks_spec path v m e5 (path +:+ ".checks_policy")
    "an expression needs checks (several checks); with a single check it must be omitted"
    (path +:+ ".checks_policy") Hone E5).
  clear -Hp Hone. naive_solver.
Qed.

Lemma validateVIP_seen path v st k :
  (validateVIP path v st).2 = [] →
  (vipSeen (validateVIP path v st).1 k ↔ vipSeen st k ∨ k ∈ vipKeys v).
Proof.
  destruct st as [names prefixes]. unfold validateVIP, vipKeys.
  destruct (if isEmpty (VIP_Name v) then _ else _) as [names' e1] eqn:E1. apply fresh_name in E1 as [_ E1].
  destruct (if isEmpty (VIP_Prefix v) then _ else _) as [prefixes' e2] eqn:E2.
  apply fresh_prefix in E2 as [_ E2].
  destruct (if negb (single v) && _ then _ else _) as [m e5]. cbn [fst snd].
  rewrite !app_nil. intros (H1 & H2 & _). rewrite (E1 H1), (E2 H2).
  destruct k as [n|p]; cbn; set_solver.
Qed.

(** Two lists of keys in one. *)
Lemma keysFrom_vipKeys i l :
  NoDup (keysFrom (λ _, vipKeys) i l) ↔
  NoDup (VIP_Name <$> l) ∧ NoDup (canonicalPrefix ∘ VIP_Prefix <$> l).
Proof.
  assert (∀ i l k, k ∈ keysFrom (λ _, vipKeys) i l ↔
    match k with inl n => n ∈ VIP_Name <$> l | inr p => p ∈ canonicalPrefix ∘ VIP_Prefix <$> l end) as Hin.
  { clear. intros i l k. revert i. induction l as [|v l IH]; intros i; cbn; [destruct k; set_solver|].
    rewrite !elem_of_cons, IH. destruct k; rewrite elem_of_cons; cbn; naive_solver. }
  revert i. induction l as [|v l IH]; intros i; cbn.
  { split; [split; constructor|constructor]. }
  rewrite !NoDup_cons, elem_of_cons, IH, !Hin. naive_solver.
Qed.

(** ** The config *)

Record ValidNeighbor (n : NeighborConfig) : Prop := {
  vn_name : Neighbor_Name n ≠ EmptyString;
  vn_address : is_Some (ParseIP (Neighbor_Address n));
  vn_local : Neighbor_LocalAddress n = EmptyString ∨ is_Some (ParseIP (Neighbor_LocalAddress n));
  vn_asn : Neighbor_PeerASN n ≠ 0;
  vn_key : Z.of_nat (String.length (Neighbor_AuthPassword n)) ≤ maxTCPMD5KeyLen;
  vn_ttl : Neighbor_MultihopTTL n = 0 ∨
           Neighbor_EnableMultihop n = true ∧ 2 ≤ Neighbor_MultihopTTL n;
  vn_bfd : ifSet (Neighbor_BFD n) (λ b, BFD_Enabled b = true →
             Neighbor_EnableMultihop n = false ∧ (BFD_Port b = 0 ∨ 1 ≤ BFD_Port b ≤ 65535) ∧
             BFD_DetectionMultiplier b ≠ 1) }.

Lemma ParseIP_empty : ParseIP EmptyString = None.
Proof. done. Qed.

(** A mandatory address. *)
Lemma address_nil s p1 m1 p2 m2 a2 :
  (if isEmpty s then add p1 m1 [] else when (negb (validIP s)) (add p2 m2 a2)) = [] ↔ is_Some (ParseIP s).
Proof.
  unfold isEmpty. case_bool_decide as Hs; [subst; rewrite ParseIP_empty, add_nil; split; [done|by intros []]|].
  errs. done.
Qed.

Lemma validateNeighbor_nil i n names :
  (validateNeighbor i n names).2 = [] ↔
  ValidNeighbor n ∧ NoDup [Neighbor_Name n] ∧ ∀ k, k ∈ [Neighbor_Name n] → ¬ k ∈ names.
Proof.
  assert (NoDup [Neighbor_Name n] ∧ (∀ k, k ∈ [Neighbor_Name n] → ¬ k ∈ names) ↔ Neighbor_Name n ∉ names) as ->.
  { setoid_rewrite list_elem_of_singleton. split; [naive_solver|].
    intros. split; [apply NoDup_singleton|naive_solver]. }
  assert (ValidNeighbor n ↔ Neighbor_Name n ≠ EmptyString ∧ is_Some (ParseIP (Neighbor_Address n)) ∧
    (Neighbor_LocalAddress n = EmptyString ∨ is_Some (ParseIP (Neighbor_LocalAddress n))) ∧
    Neighbor_PeerASN n ≠ 0 ∧ Z.of_nat (String.length (Neighbor_AuthPassword n)) ≤ maxTCPMD5KeyLen ∧
    (Neighbor_MultihopTTL n = 0 ∨ Neighbor_EnableMultihop n = true ∧ 2 ≤ Neighbor_MultihopTTL n) ∧
    ifSet (Neighbor_BFD n) (λ b, BFD_Enabled b = true →
      Neighbor_EnableMultihop n = false ∧ (BFD_Port b = 0 ∨ 1 ≤ BFD_Port b ≤ 65535) ∧
      BFD_DetectionMultiplier b ≠ 1)) as ->.
  { split; [by intros []|]. intros (?&?&?&?&?&?&?). by split. }
  unfold validateNeighbor.
  destruct (if isEmpty (Neighbor_Name n) then _ else _) as [names' e1] eqn:E1.
  apply fresh_name in E1 as [E1 _]. cbn [snd].
  rewrite !app_nil, E1, address_nil. set (nm := Neighbor_Name n ∉ names).
  destruct (Neighbor_BFD n) as [b|]; cbn [ifSet]; errs; destruct (Neighbor_EnableMultihop n);
    destruct (decide (Neighbor_MultihopTTL n = 0)) as [E|E]; intuition (try congruence; try lia).
Qed.

Lemma validateNeighbor_seen i n names k :
  (validateNeighbor i n names).2 = [] →
  (k ∈ (validateNeighbor i n names).1 ↔ k ∈ names ∨ k ∈ [Neighbor_Name n]).
Proof.
  unfold validateNeighbor. destruct (if isEmpty (Neighbor_Name n) then _ else _) as [names' e1] eqn:E1.
  apply fresh_name in E1 as [_ E1]. cbn [fst snd]. intros [H1 _]%app_nil. rewrite (E1 H1). set_solver.
Qed.

Definition ValidRouter (cfg : Config) : Prop :=
  let r := Cfg_Router cfg in
  Router_ASN r ≠ 0 ∧ (∃ ip v, ParseIP (Router_RouterID r) = Some ip ∧ To4 ip = Some v) ∧
  (Router_LocalAddress r = EmptyString ∨ is_Some (ParseIP (Router_LocalAddress r))) ∧
  (Router_LocalAddressIPv6 r = EmptyString ∧ hasIPv6VIP cfg = false ∨
   ∃ ip, ParseIP (Router_LocalAddressIPv6 r) = Some ip ∧ To4 ip = None).

Definition ValidAPI (a : APIConfig) : Prop :=
  API_Listen a ≠ EmptyString ∧
  Forall (λ tmo, ifSet tmo (λ d, 0 ≤ d))
    [API_ReadHeaderTimeout a; API_ReadTimeout a; API_WriteTimeout a; API_IdleTimeout a].

Definition ValidLogging (l : LoggingConfig) : Prop :=
  Logging_Level l ∈ logLevels ∧ Logging_Format l ∈ ["text"; "json"] ∧
  Logging_OTelLevel l ∈ EmptyString :: logLevels.

Definition ValidBGP (b : BGPConfig) : Prop :=
  (BGP_ListenAddress b = EmptyString ∨ is_Some (ParseIP (BGP_ListenAddress b))) ∧
  -1 ≤ BGP_ListenPort b ≤ 65535 ∧
  (let listen := GoBGPAPI_Listen (BGP_GoBGPAPI b) in
   if GoBGPAPI_Enabled (BGP_GoBGPAPI b)
   then listen ≠ EmptyString ∧ validateGoBGPAPIListen listen = None else listen = EmptyString) ∧
  elems (BGP_Neighbors b) ≠ [] ∧ Forall ValidNeighbor (elems (BGP_Neighbors b)) ∧
  NoDup (Neighbor_Name <$> elems (BGP_Neighbors b)).

Definition ValidOTel (o : OTelConfig) : Prop :=
  OTel_Endpoint o = EmptyString ∨
  is_Some (ParseOTelEndpoint (OTel_Endpoint o)) ∧
  Forall (λ s, Sig_Endpoint s = EmptyString ∨ is_Some (ParseOTelEndpoint (Sig_Endpoint s)))
    [OTel_Traces o; OTel_Metrics o; OTel_Logs o] ∧
  OTel_ServiceName o ≠ EmptyString.

(** A config the daemon accepts. *)
Record ValidConfig (cfg : Config) : Prop := {
  valid_schema : Cfg_Schema cfg = "v1";
  valid_router : ValidRouter cfg;
  valid_api : ValidAPI (Cfg_API cfg);
  valid_logging : ValidLogging (Cfg_Logging cfg);
  valid_bgp : ValidBGP (Cfg_BGP cfg);
  valid_someVIP : elems (Cfg_VIPs cfg) ≠ [];
  valid_vips : Forall ValidVIP (elems (Cfg_VIPs cfg));
  valid_names : NoDup (VIP_Name <$> elems (Cfg_VIPs cfg));
  valid_prefixes : NoDup (canonicalPrefix ∘ VIP_Prefix <$> elems (Cfg_VIPs cfg));
  valid_otel : ValidOTel (Cfg_OTel cfg) }.

Lemma validateRouter_spec cfg : validateRouter cfg = [] ↔ ValidRouter cfg.
Proof.
  unfold validateRouter, ValidRouter. rewrite !app_nil.
  assert (∀ s p1 m1 p2 m2, (if isEmpty s then add p1 m1 [] else
    when (match ParseIP s with Some ip => isNil (To4 ip) | None => true end) (add p2 m2 [s])) = [] ↔
    ∃ ip v, ParseIP s = Some ip ∧ To4 ip = Some v) as ->.
  { intros s p1 m1 p2 m2. unfold isEmpty.
    case_bool_decide; [subst; rewrite ParseIP_empty, add_nil; naive_solver|].
    destruct (ParseIP s) as [ip|]; errs; [|naive_solver]. unfold is_Some. naive_solver. }
  assert (∀ s p m q n, (when (isSet s && match ParseIP s with Some ip => negb (isNil (To4 ip)) | None => true end)
    (add p m [s]) = [] ∧ when (hasIPv6VIP cfg && isEmpty s) (add q n []) = []) ↔
    (s = EmptyString ∧ hasIPv6VIP cfg = false ∨ ∃ ip, ParseIP s = Some ip ∧ To4 ip = None)) as ->.
  { intros s p m q n. destruct (decide (s = EmptyString)) as [->|Hs].
    - rewrite ParseIP_empty. errs. naive_solver.
    - destruct (ParseIP s) as [ip|]; errs; naive_solver. }
  errs. tauto.
Qed.

Lemma validateAPI_spec a : validateAPI a = [] ↔ ValidAPI a.
Proof.
  unfold validateAPI, ValidAPI. cbn [fmap list_fmap concat fst snd]. rewrite !Forall_cons, Forall_nil.
  destruct (API_ReadHeaderTimeout a), (API_ReadTimeout a), (API_WriteTimeout a), (API_IdleTimeout a);
    cbn [ifSet]; errs; tauto.
Qed.

Lemma validateLogging_spec l : validateLogging l = [] ↔ ValidLogging l.
Proof. unfold validateLogging, ValidLogging. errs. tauto. Qed.

Lemma validateNeighbors_spec l :
  (scan validateNeighbor 0 l ∅).2 = [] ↔ Forall ValidNeighbor l ∧ NoDup (Neighbor_Name <$> l).
Proof.
  rewrite (scan_spec _ (λ _ n, [Neighbor_Name n]) _ (λ (s : gset string) k, k ∈ s)
    validateNeighbor_nil validateNeighbor_seen).
  rewrite (okFrom_Forall _ 0 l), keysFrom_fmap. set_solver.
Qed.

Lemma validateBGP_spec b : validateBGP b = [] ↔ ValidBGP b.
Proof.
  unfold validateBGP, ValidBGP. rewrite !app_nil, validateNeighbors_spec.
  assert (-1 ≤ BGP_ListenPort b ≤ 65535 ↔ BGP_ListenPort b = 0 ∨ BGP_ListenPort b = -1 ∨
    1 ≤ BGP_ListenPort b ≤ 65535) as -> by lia.
  destruct (GoBGPAPI_Enabled _);
    [unfold isEmpty; case_bool_decide; [|destruct (validateGoBGPAPIListen _) eqn:E]|];
    errs; try tauto; naive_solver.
Qed.

Lemma badEndpoint_nil path ep : badEndpoint path ep = [] ↔ is_Some (ParseOTelEndpoint ep).
Proof. unfold badEndpoint. destruct (ParseOTelEndpoint ep); rewrite ?addErr_nil; naive_solver. Qed.

Lemma validateOTel_spec o : validateOTel o = [] ↔ ValidOTel o.
Proof.
  unfold validateOTel, ValidOTel, isEmpty at 1. case_bool_decide; [naive_solver|].
  cbn [fmap list_fmap concat fst snd]. rewrite !Forall_cons, Forall_nil, !app_nil, !badEndpoint_nil.
  rewrite !(when_nil (isSet _)), !badEndpoint_nil. errs.
  destruct (decide (Sig_Endpoint (OTel_Traces o) = EmptyString)),
    (decide (Sig_Endpoint (OTel_Metrics o) = EmptyString)),
    (decide (Sig_Endpoint (OTel_Logs o) = EmptyString)); tauto.
Qed.

Lemma Validate_nil cfg : Validate cfg = [] ↔ ValidConfig cfg.
Proof.
  unfold Validate, validateVIPs. rewrite !app_nil.
  rewrite validateRouter_spec, validateAPI_spec, validateLogging_spec, validateBGP_spec, validateOTel_spec.
  rewrite (scan_spec _ (λ _, vipKeys) (λ _, ValidVIP) vipSeen
    (λ i, validateVIP_nil (at_ "vips" i)) (λ i, validateVIP_seen (at_ "vips" i))).
  rewrite okFrom_Forall, keysFrom_vipKeys, when_add, bool_decide_eq_false.
  assert ((if isEmpty (Cfg_Schema cfg) then add "schema" "required" []
    else when (negb (bool_decide (Cfg_Schema cfg = "v1")))
      (add "schema" ("unsupported version %q (expected " +:+ inQuotes "v1" +:+ ")") [Cfg_Schema cfg])) = [] ↔ Cfg_Schema cfg = "v1") as ->.
  { unfold isEmpty. case_bool_decide as E; [rewrite E, add_nil; naive_solver|]. errs. done. }
  split.
  - intros (?&?&?&?&?&(?&?&[]&_)&?). by split.
  - intros []. split_and!; try done. intros [n|p] _; cbn; set_solver.
Qed.

(** C14: validation accepts exactly the configs that are right: no error is
    reported if and only if the config is valid, in particular all names
    are unique, no two VIPs denote the same network, every check has its
    block, thresholds of at least 1 and a timeout below its interval, and
    every expression policy compiles. *)
Theorem Validate_spec cfg : Validate cfg = [] ↔ ValidConfig cfg.
Proof. apply Validate_nil. Qed.

End VIP.

End ValidateProofs.
Export ValidateProofs.
