(* ===== verification/LoadProofs.v ===== *)
(** * Loading: the placeholders and what a loaded config guarantees *)

From S2P Require Import Prelude GoStrings NetIP Net Config Model ChecksPolicy Defaults Validate.
From S2P Require Import ValidateProofs Loader.
From Stdlib Require Import Ascii.

Module LoadProofs.

(** ** Strings *)

Lemma sapp_assoc (a b c : string) : (a +:+ b) +:+ c = a +:+ b +:+ c.
Proof. induction a as [|x a IH]; [done|]. by rewrite !app_cons, IH. Qed.
Lemma sapp_nil (a : string) : a +:+ EmptyString = a.
Proof. induction a as [|x a IH]; [done|]. by rewrite app_cons, IH. Qed.
Lemma length_sapp (a b : string) : String.length (a +:+ b) = (String.length a + String.length b)%nat.
Proof. induction a as [|x a IH]; [done|]. rewrite app_cons. cbn. by rewrite IH. Qed.

Definition free (c : ascii) (s : string) : Prop := all_chars (λ a, negb (bool_decide (a = c))) s = true.

Lemma free_app c a b : free c (a +:+ b) ↔ free c a ∧ free c b.
Proof.
  unfold free. induction a as [|x a IH]; [rewrite app_empty; naive_solver|].
  rewrite app_cons. cbn. rewrite !andb_true_iff, IH. tauto.
Qed.
Lemma free_cons c a s : free c (String a s) ↔ a ≠ c ∧ free c s.
Proof. unfold free. cbn. by rewrite andb_true_iff, negb_true_iff, bool_decide_eq_false. Qed.

Lemma HasPrefix_true s p : HasPrefix s p = true ↔ ∃ r, s = p +:+ r.
Proof.
  unfold HasPrefix. rewrite bool_decide_eq_true. split.
  - intros [r Hr%CutPrefix_Some]. by exists r.
  - intros [r ->]. by rewrite CutPrefix_app.
Qed.

Lemma HasPrefix_cons_ne a s b p : a ≠ b → HasPrefix (String a s) (String b p) = false.
Proof.
  intros Hab. apply not_true_iff_false. rewrite HasPrefix_true. intros [r Hr].
  rewrite app_cons in Hr. by simplify_eq.
Qed.

(** ** The replacement passes *)

Lemma replaceFrom_skip old new u s :
  replaceFrom old new (String.length u) (u +:+ s) = replaceFrom old new 0 s.
Proof. induction u as [|a u IH]; [done|]. rewrite app_cons. cbn. apply IH. Qed.

Lemma ReplaceAll_hit c old new s :
  ReplaceAll (String c old +:+ s) (String c old) new = new +:+ ReplaceAll s (String c old) new.
Proof.
  unfold ReplaceAll. rewrite app_cons. cbn [replaceFrom]. rewrite <-app_cons.
  rewrite (proj2 (HasPrefix_true _ _)) by by exists s. cbn [String.length Nat.pred].
  by rewrite replaceFrom_skip.
Qed.

Lemma ReplaceAll_miss a s old new :
  HasPrefix (String a s) old = false → ReplaceAll (String a s) old new = String a (ReplaceAll s old new).
Proof. intros Hp. unfold ReplaceAll. cbn [replaceFrom]. by rewrite Hp. Qed.

Lemma ReplaceAll_free c old new u s :
  free c u → ReplaceAll (u +:+ s) (String c old) new = u +:+ ReplaceAll s (String c old) new.
Proof.
  induction u as [|a u IH]; [done|]. rewrite free_cons. intros [Ha Hu].
  rewrite !app_cons, ReplaceAll_miss by by apply HasPrefix_cons_ne. by rewrite IH.
Qed.

(** ** Placeholders *)

Lemma nameRun_app s n r : nameRun s = (n, r) → s = n +:+ r ∧ all_chars name_char n = true.
Proof.
  revert n r. induction s as [|a s IH]; cbn; intros n r Hs; [by simplify_eq|].
  destruct (name_char a) eqn:Ea; [|by simplify_eq].
  destruct (nameRun s) as [n' r'] eqn:E. simplify_eq. destruct (IH _ _ eq_refl) as [-> Hn].
  cbn. by rewrite Ea, Hn.
Qed.

Lemma nameRun_name n a r :
  all_chars name_char n = true → name_char a = false → nameRun (n +:+ String a r) = (n, String a r).
Proof.
  induction n as [|b n IH]; intros Hn Ha; [rewrite app_empty; cbn [nameRun]; by rewrite Ha|].
  cbn in Hn. apply andb_true_iff in Hn as [Hb Hn]. rewrite app_cons. cbn [nameRun]. by rewrite Hb, IH.
Qed.

Lemma checkNameRe_chars n : checkNameRe n = true → all_chars name_char n = true.
Proof.
  destruct n as [|a n]; [done|]. cbn. rewrite !andb_true_iff. unfold name_char at 2. intros [-> ->]. done.
Qed.

Lemma matchPlaceholder_Some s name :
  matchPlaceholder s = Some name ↔ checkNameRe name = true ∧ ∃ r, s = "%{" +:+ name +:+ "}" +:+ r.
Proof.
  unfold matchPlaceholder. split.
  - destruct (CutPrefix s "%{") as [rest|] eqn:E; [|done]. apply CutPrefix_Some in E as ->.
    destruct (nameRun rest) as [n after] eqn:En. apply nameRun_app in En as [-> Hn].
    destruct (checkNameRe n && _) eqn:Eb; [|done]. intros [= ->].
    apply andb_true_iff in Eb as [Hc [r ->]%HasPrefix_true]. split; [done|]. by exists r.
  - intros [Hc [r ->]]. rewrite CutPrefix_app. rewrite (app_cons "}"), app_empty.
    rewrite nameRun_name by (by rewrite ?checkNameRe_chars). rewrite Hc. cbn [andb].
    rewrite (proj2 (HasPrefix_true _ _)); [done|]. by exists r.
Qed.

Lemma all_chars_free c f n : f c = false → all_chars f n = true → free c n.
Proof.
  intros Hc. unfold free. induction n as [|a n IH]; [done|]. cbn.
  rewrite !andb_true_iff, negb_true_iff, bool_decide_eq_false. intros [Ha Hn].
  split; [|by apply IH]. intros ->. congruence.
Qed.

Lemma placeholder_tail name s :
  String "{" (name +:+ "}") +:+ s = String "{" (name +:+ "}" +:+ s).
Proof. by rewrite app_cons, sapp_assoc. Qed.

Section Expand.
Context (LookupEnv : string → option string).

Lemma substFrom_skip u s : substFrom LookupEnv (String.length u) (u +:+ s) = substFrom LookupEnv 0 s.
Proof. induction u as [|a u IH]; [done|]. rewrite app_cons. cbn. apply IH. Qed.
Lemma tokensFrom_skip u s : tokensFrom (String.length u) (u +:+ s) = tokensFrom 0 s.
Proof. induction u as [|a u IH]; [done|]. rewrite app_cons. cbn. apply IH. Qed.

Lemma subst_miss a s :
  matchPlaceholder (String a s) = None →
  substFrom LookupEnv 0 (String a s) =
    (String a (substFrom LookupEnv 0 s).1, (substFrom LookupEnv 0 s).2).
Proof. intros Hm. cbn [substFrom]. rewrite Hm. by destruct (substFrom LookupEnv 0 s). Qed.

Lemma subst_match a s name :
  matchPlaceholder (String a s) = Some name →
  substFrom LookupEnv 0 (String a s) =
    let '(out, missing) := substFrom LookupEnv (String.length name + 2) s in
    match LookupEnv name with
    | Some value => (value +:+ out, missing)
    | None => ("%{" +:+ name +:+ "}" +:+ out, {[name]} ∪ missing)
    end.
Proof. intros Hm. cbn [substFrom]. by rewrite Hm. Qed.

Lemma tokens_match a s name :
  HasPrefix (String a s) "%%{" = false → matchPlaceholder (String a s) = Some name →
  tokensFrom 0 (String a s) = Var name :: tokensFrom (String.length name + 2) s.
Proof. intros Hp Hm. cbn [tokensFrom]. by rewrite Hp, Hm. Qed.

Lemma subst_free u s :
  free "%"%char u →
  substFrom LookupEnv 0 (u +:+ s) =
    (u +:+ (substFrom LookupEnv 0 s).1, (substFrom LookupEnv 0 s).2).
Proof.
  induction u as [|a u IH]; [rewrite !app_empty; by destruct (substFrom LookupEnv 0 s)|].
  rewrite free_cons. intros [Ha Hu]. rewrite !app_cons, subst_miss; [by rewrite (IH Hu)|].
  destruct (matchPlaceholder _) as [n|] eqn:E; [|done].
  apply matchPlaceholder_Some in E as (_ & r & Hr). rewrite app_cons in Hr. by simplify_eq.
Qed.

(** The text a placeholder becomes. *)
Definition varText (name : string) : string := default ("%{" +:+ name +:+ "}") (LookupEnv name).
Definition varMissing (name : string) : gset string :=
  match LookupEnv name with None => {[name]} | Some _ => ∅ end.

Lemma subst_hit name s :
  checkNameRe name = true →
  substFrom LookupEnv 0 ("%{" +:+ name +:+ "}" +:+ s) =
    (varText name +:+ (substFrom LookupEnv 0 s).1, varMissing name ∪ (substFrom LookupEnv 0 s).2).
Proof.
  intros Hc. assert (matchPlaceholder ("%{" +:+ name +:+ "}" +:+ s) = Some name) as Hm.
  { apply matchPlaceholder_Some. split; [done|]. by exists s. }
  change ("%{" +:+ name +:+ "}" +:+ s) with (String "%" (String "{" (name +:+ "}" +:+ s))) in *.
  rewrite (subst_match _ _ _ Hm).
  replace (String.length name + 2)%nat with (String.length (String "{" (name +:+ "}")))
    by (cbn; rewrite length_sapp; cbn; lia).
  rewrite <-(placeholder_tail name s), substFrom_skip.
  unfold varText, varMissing. destruct (substFrom LookupEnv 0 s) as [out missing].
  destruct (LookupEnv name); cbn [default fst snd]; [by rewrite (left_id_L ∅ (∪))|].
  by rewrite !sapp_assoc.
Qed.

(** ** One pass *)

Lemma tokens_escape s : tokens ("%%{" +:+ s) = Escape :: tokens s.
Proof.
  assert (HasPrefix ("%%{" +:+ s) "%%{" = true) as Hp by (apply HasPrefix_true; by exists s).
  unfold tokens. rewrite app_cons in *. cbn [tokensFrom]. by rewrite Hp.
Qed.

Lemma tokens_var name s :
  checkNameRe name = true → tokens ("%{" +:+ name +:+ "}" +:+ s) = Var name :: tokens s.
Proof.
  intros Hc. assert (matchPlaceholder ("%{" +:+ name +:+ "}" +:+ s) = Some name) as Hm.
  { apply matchPlaceholder_Some. split; [done|]. by exists s. }
  unfold tokens.
  change ("%{" +:+ name +:+ "}" +:+ s) with (String "%" (String "{" (name +:+ "}" +:+ s))) in *.
  rewrite (λ Hp, tokens_match _ _ _ Hp Hm) by done.
  replace (String.length name + 2)%nat with (String.length (String "{" (name +:+ "}")))
    by (cbn; rewrite length_sapp; cbn; lia).
  by rewrite <-(placeholder_tail name s), tokensFrom_skip.
Qed.

Lemma tokens_lit a s :
  HasPrefix (String a s) "%%{" = false → matchPlaceholder (String a s) = None →
  tokens (String a s) = Lit a :: tokens s.
Proof. intros Hp Hm. unfold tokens. cbn [tokensFrom]. by rewrite Hp, Hm. Qed.

(** A file is an escape, a placeholder or a byte, followed by a file. *)
Lemma file_ind (P : string → Prop) :
  P EmptyString →
  (∀ s, P s → P ("%%{" +:+ s)) →
  (∀ name s, checkNameRe name = true → P s → P ("%{" +:+ name +:+ "}" +:+ s)) →
  (∀ a s, HasPrefix (String a s) "%%{" = false → matchPlaceholder (String a s) = None →
     P s → P (String a s)) →
  ∀ s, P s.
Proof.
  intros Hnil Hesc Hvar Hlit s.
  remember (String.length s) as n eqn:Hn. revert s Hn.
  induction (lt_wf n) as [n _ IH]. intros s ->.
  destruct s as [|a s]; [done|].
  destruct (HasPrefix (String a s) "%%{") eqn:Ep.
  { apply HasPrefix_true in Ep as [r Hr]. rewrite Hr in *. apply Hesc, (IH (String.length r)); [|done].
    rewrite length_sapp. cbn. lia. }
  destruct (matchPlaceholder (String a s)) as [name|] eqn:Em.
  { apply matchPlaceholder_Some in Em as (Hc & r & Hr). rewrite Hr in *.
    apply Hvar, (IH (String.length r)); [done| |done]. rewrite !length_sapp. cbn. lia. }
  apply Hlit, (IH (String.length s)); [done..|cbn; lia|done].
Qed.

(** ** Two passes against one *)

Abbreviation hide d := (ReplaceAll d "%%{" escapedPrefixSentinel).
Abbreviation unhide d := (ReplaceAll d escapedPrefixSentinel "%{").
Abbreviation NUL := ("000"%char).

Lemma unhide_hit s : unhide (escapedPrefixSentinel +:+ s) = "%{" +:+ unhide s.
Proof. apply (ReplaceAll_hit NUL). Qed.
Lemma unhide_free u s : free NUL u → unhide (u +:+ s) = u +:+ unhide s.
Proof. apply (ReplaceAll_free NUL). Qed.

Lemma hide_var name s :
  checkNameRe name = true → hide ("%{" +:+ name +:+ "}" +:+ s) = "%{" +:+ name +:+ "}" +:+ hide s.
Proof.
  intros Hc%checkNameRe_chars.
  assert (free "%"%char (String "{" (name +:+ "}"))) as Hf.
  { rewrite free_cons, free_app. split_and!; [done| |done]. by apply (all_chars_free _ name_char). }
  change ("%{" +:+ name +:+ "}" +:+ s) with (String "%" (String "{" (name +:+ "}" +:+ s))).
  rewrite ReplaceAll_miss, <-(placeholder_tail name s), ReplaceAll_free by done. by rewrite placeholder_tail.
Qed.

(** Bytes other than NUL come through the first pass unchanged, and only from
    the same bytes. *)
Lemma hide_prefix u d t :
  free NUL u → hide d = u +:+ t → ∃ d', d = u +:+ d' ∧ t = hide d'.
Proof.
  revert d. induction u as [|a u IH]; intros d Hu Hd; [by exists d|].
  apply free_cons in Hu as [Ha Hu]. destruct d as [|b d]; [done|].
  destruct (HasPrefix (String b d) "%%{") eqn:Ep.
  - apply HasPrefix_true in Ep as [r Hr]. rewrite Hr in Hd. rewrite ReplaceAll_hit in Hd.
    rewrite app_cons in Hd. by injection Hd as <-.
  - rewrite ReplaceAll_miss, app_cons in Hd by done. injection Hd as -> Hd.
    destruct (IH d Hu Hd) as (d' & -> & ->). exists d'. by rewrite app_cons.
Qed.

Lemma hide_lit a s :
  HasPrefix (String a s) "%%{" = false → matchPlaceholder (String a s) = None →
  matchPlaceholder (String a (hide s)) = None.
Proof.
  intros Hp Hm. destruct (matchPlaceholder (String a (hide s))) as [n|] eqn:E; [|done].
  apply matchPlaceholder_Some in E as (Hc & r & Hr). rewrite app_cons in Hr. injection Hr as -> Hr.
  rewrite app_cons, app_empty, <-placeholder_tail in Hr. apply hide_prefix in Hr as (d' & -> & _).
  - exfalso. assert (matchPlaceholder ("%{" +:+ n +:+ "}" +:+ d') = Some n) as Hm'.
    { apply matchPlaceholder_Some. split; [done|]. by exists d'. }
    rewrite placeholder_tail in Hm. change (matchPlaceholder ("%{" +:+ n +:+ "}" +:+ d') = None) in Hm.
    congruence.
  - rewrite free_cons, free_app. split_and!; [done| |done].
    apply (all_chars_free _ name_char); [done|]. by apply checkNameRe_chars.
Qed.

Context (env_no_nul : ∀ name v, LookupEnv name = Some v → free NUL v).

Lemma varText_no_nul name : checkNameRe name = true → free NUL (varText name).
Proof.
  intros Hc%checkNameRe_chars. unfold varText. destruct (LookupEnv name) eqn:E; cbn [default]; [by eapply env_no_nul|].
  rewrite !free_app. split_and!; [done| |done]. by apply (all_chars_free _ name_char).
Qed.

Lemma expand_passes s :
  free NUL s →
  unhide (substFrom LookupEnv 0 (hide s)).1 = text LookupEnv (tokens s) ∧
  (substFrom LookupEnv 0 (hide s)).2 = missingVars LookupEnv (tokens s).
Proof.
  induction s as [|s IH|name s Hc IH|a s Hp Hm IH] using file_ind; intros Hf; [done|..].
  - rewrite free_app in Hf. destruct (IH (proj2 Hf)) as [IH1 IH2].
    rewrite ReplaceAll_hit, subst_free, tokens_escape by done. cbn [fst snd]. split; [|done].
    by rewrite unhide_hit, IH1.
  - rewrite !free_app in Hf. destruct (IH (proj2 (proj2 (proj2 Hf)))) as [IH1 IH2].
    rewrite hide_var, subst_hit, tokens_var by done. cbn [fst snd]. split.
    + rewrite unhide_free by by apply varText_no_nul. by rewrite IH1.
    + rewrite IH2. unfold varMissing, missingVars. cbn. destruct (LookupEnv name); cbn; set_solver.
  - apply free_cons in Hf as [Ha Hf]. destruct (IH Hf) as [IH1 IH2].
    rewrite ReplaceAll_miss, subst_miss, tokens_lit by (done || by apply hide_lit). cbn [fst snd]. split; [|done].
    change (String a ?s) with (String a EmptyString +:+ s). rewrite unhide_free by by apply free_cons.
    by rewrite IH1.
Qed.

(** C17: the three passes of the code implement the one-pass reading of a file:
    every placeholder becomes the value of its variable, every escaped
    [%%{] a literal [%{], everything else stays; if variables are missing
    the error names exactly those, sorted.  For files and environments
    without NUL bytes. *)
Theorem expand_equiv data :
  free NUL data → expandEnvPlaceholders LookupEnv data = expandSpec LookupEnv data.
Proof.
  intros Hf. destruct (expand_passes data Hf) as [H1 H2]. unfold expandEnvPlaceholders, expandSpec.
  destruct (substFrom LookupEnv 0 _) as [output missing]. cbn [fst snd] in H1, H2. subst missing.
  case_decide; [|done]. by rewrite H1.
Qed.
(** ** Escaping *)

(** What a user does to keep a text literal. *)
Definition escape (s : string) : string := ReplaceAll s "%{" "%%{".

(** The first byte of an escaped text, unless it is [%], is the text's. *)
Lemma escape_brace s t : escape s = "{" +:+ t → ∃ s', s = "{" +:+ s'.
Proof.
  destruct s as [|a s]; [done|]. unfold escape. destruct (HasPrefix (String a s) "%{") eqn:Ep.
  - apply HasPrefix_true in Ep as [r Hr]. rewrite Hr, ReplaceAll_hit. done.
  - rewrite ReplaceAll_miss by done. rewrite app_cons. intros [= -> _]. by exists s.
Qed.

Lemma escape_no_percent s : HasPrefix (escape s) "%{" = false.
Proof.
  apply not_true_iff_false. rewrite HasPrefix_true. intros [t Ht].
  destruct s as [|a s]; [done|]. unfold escape in Ht. destruct (HasPrefix (String a s) "%{") eqn:Ep.
  - apply HasPrefix_true in Ep as [r Hr]. rewrite Hr, ReplaceAll_hit in Ht. done.
  - rewrite ReplaceAll_miss in Ht by done. rewrite app_cons in Ht. injection Ht as -> Ht.
    apply escape_brace in Ht as [s' ->]. apply not_true_iff_false in Ep. apply Ep, HasPrefix_true.
    by exists s'.
Qed.

Lemma tokens_escape_lit a s :
  HasPrefix (String a s) "%{" = false → tokens (String a (escape s)) = Lit a :: tokens (escape s).
Proof.
  intros Hp. apply tokens_lit.
  - apply not_true_iff_false. rewrite HasPrefix_true. intros [t Ht]. rewrite app_cons in Ht.
    injection Ht as -> Ht. apply (proj2 (not_true_iff_false _) (escape_no_percent s)), HasPrefix_true. by exists t.
  - destruct (matchPlaceholder _) as [n|] eqn:E; [|done].
    apply matchPlaceholder_Some in E as (_ & t & Ht). rewrite app_cons in Ht. injection Ht as -> Ht.
    apply escape_brace in Ht as [s' ->]. apply not_true_iff_false in Hp. destruct Hp.
    apply HasPrefix_true. by exists s'.
Qed.

Lemma escape_tokens s :
  text LookupEnv (tokens (escape s)) = s ∧ missingVars LookupEnv (tokens (escape s)) = ∅.
Proof.
  remember (String.length s) as n eqn:Hn. revert s Hn. induction (lt_wf n) as [n _ IH]. intros s ->.
  destruct s as [|a s]; [done|]. unfold escape. destruct (HasPrefix (String a s) "%{") eqn:Ep.
  - apply HasPrefix_true in Ep as [r Hr]. rewrite Hr in *. rewrite ReplaceAll_hit, tokens_escape.
    destruct (IH (String.length r)) with r as [H1 H2]; [rewrite length_sapp; cbn; lia|done|].
    cbn [text tokenText]. unfold escape in *. split; [by rewrite H1|done].
  - rewrite ReplaceAll_miss by done. destruct (IH (String.length s)) with s as [H1 H2]; [cbn; lia|done|].
    fold (escape s). rewrite tokens_escape_lit by done. cbn [text tokenText]. split; [by rewrite H1|done].
Qed.

Lemma escape_free s : free NUL s → free NUL (escape s).
Proof.
  remember (String.length s) as n eqn:Hn. revert s Hn. induction (lt_wf n) as [n _ IH]. intros s -> Hf.
  destruct s as [|a s]; [done|]. unfold escape. destruct (HasPrefix (String a s) "%{") eqn:Ep.
  - apply HasPrefix_true in Ep as [r Hr]. rewrite Hr in *. apply free_app in Hf as [_ Hf].
    rewrite ReplaceAll_hit, free_app. split; [done|].
    apply (IH (String.length r)); [rewrite length_sapp; cbn; lia|done..].
  - apply free_cons in Hf as [Ha Hf]. rewrite ReplaceAll_miss by done. apply free_cons. split; [done|].
    apply (IH (String.length s)); [cbn; lia|done..].
Qed.

(** A text in which every [%{] is written [%%{] comes out of the expansion
    as it was, whatever the environment holds: any text without NUL can be
    put in a config file. *)
Theorem escape_roundtrip s :
  free NUL s → expandEnvPlaceholders LookupEnv (escape s) = Ok s.
Proof.
  intros Hf. destruct (expand_passes (escape s) (escape_free s Hf)) as [H1 H2].
  destruct (escape_tokens s) as [H3 H4]. unfold expandEnvPlaceholders.
  destruct (substFrom LookupEnv 0 _) as [output missing]. cbn [fst snd] in H1, H2. subst missing.
  by rewrite decide_True, H1, H3.
Qed.

End Expand.

(** ** Loading *)

Section Load.
Context `{GoStd} `{ExprLang} `{Decoders} (LookupEnv : string → option string).

(** A load succeeds exactly when the placeholders expand, the file parses
    in the format its extension names, and the parsed config is valid after
    the defaults; the result is that config, and nothing else is ever
    returned. *)
Theorem loadBytes_spec data path cfg :
  loadBytes LookupEnv data path = Ok cfg ↔
  ∃ data' raw, expandEnvPlaceholders LookupEnv data = Ok data' ∧
    Parse data' (detectFormat path) = Ok raw ∧ cfg = ApplyDefaults raw ∧ ValidConfig cfg.
Proof.
  unfold loadBytes. split.
  - destruct (expandEnvPlaceholders LookupEnv data) as [data'|] eqn:E1; [|done].
    destruct (Parse data' (detectFormat path)) as [raw|] eqn:E2; [|done].
    destruct (Validate (ApplyDefaults raw)) eqn:E3; [|done]. intros [= <-].
    exists data', raw. split_and!; [done..|]. by apply Validate_nil.
  - intros (data' & raw & -> & -> & -> & Hv). apply Validate_nil in Hv. by rewrite Hv.
Qed.

End Load.
End LoadProofs.
Export LoadProofs.
