(* ===== verification/LocalAddr.v ===== *)
(** * The local address guard: internal/checks/localaddr.go

    A guard fails every check of its VIP while the VIP's address is not
    configured on the host.  What the kernel reports about interfaces is an
    argument of each run; the callback [onState] comes back as a list of
    calls.  The last part puts guarded checks under a scheduler. *)

From S2P Require Import Prelude GoStrings NetIP Net Config Model Scheduler.
From Stdlib Require Import Ascii.

Module LocalAddr.

Record LocalAddress := mkLocalAddress {
  LA_Interface : string;
  LA_Addr : Addr }.

(** [netip.Addr.Unmap]. *)
Definition Unmap (a : Addr) : Addr :=
  match a with
  | Addr4 _ => a
  | Addr6 v _ => match To4 v with Some v4 => Addr4 v4 | None => a end
  end.

(** A [net.IP] by its length, and [netip.AddrFromSlice]. *)
Inductive IPBytes := Bytes4 (v : Z) | Bytes16 (v : Z) | BytesOther.

Definition AddrFromSlice (ip : IPBytes) : option Addr :=
  match ip with
  | Bytes4 v => Some (Addr4 v)
  | Bytes16 v => Some (Addr6 v EmptyString)
  | BytesOther => None
  end.

(** The dynamic types of a [net.Addr]. *)
Inductive NetAddr := NetIPNet (ip : IPBytes) | NetIPAddr (ip : IPBytes) | NetOther.

(** One address of an interface. *)
Definition localAddress (iface : string) (a : NetAddr) : list LocalAddress :=
  match a with
  | NetIPNet ip | NetIPAddr ip =>
      match AddrFromSlice ip with
      | Some addr => [mkLocalAddress iface (Unmap addr)]
      | None => []
      end
  | NetOther => []
  end.

(** The loop over the interfaces, each with what [iface.Addrs] returns. *)
Fixpoint listLoop (ifaces : list (string * result error (list NetAddr))) (out : list LocalAddress)
    : result error (list LocalAddress) :=
  match ifaces with
  | [] => Ok out
  | (name, Err e) :: _ => Err (Wrapf "interface %s: %w" [name] e)
  | (name, Ok addrs) :: rest => listLoop rest (out ++ concat (localAddress name <$> addrs))
  end.

(** [ListLocalAddresses]. *)
Definition ListLocalAddresses (ifaces : result error (list (string * result error (list NetAddr))))
    : result error (list LocalAddress) :=
  match ifaces with
  | Err e => Err e
  | Ok l => listLoop l []
  end.

(** [LocalAddressGuard]; [lg_hasOnState] is whether [onState] is set. *)
Record LocalAddressGuard := mkGuard {
  lg_vipName : string;
  lg_prefix : string;
  lg_addr : Addr;
  lg_iface : string;
  lg_hasOnState : bool;
  lg_known : bool;
  lg_assigned : bool }.

(** [NewLocalAddressGuard]. *)
Definition NewLocalAddressGuard (vipName prefix iface : string) (hasOnState : bool)
    : result error LocalAddressGuard :=
  match ParsePrefix prefix with
  | None => Err (Wrapf "invalid prefix %q: %w" [prefix] (External "netip.ParsePrefix"))
  | Some p => Ok (mkGuard vipName prefix (Unmap (Prefix_Addr p)) iface hasOnState false false)
  end.

(** [netip.Addr.String] of an address that is not IPv4-mapped. *)
Definition Addr_String (a : Addr) : string :=
  match a with
  | Addr4 v => dotted v
  | Addr6 v zone => text6 v +:+ (if decide (zone = EmptyString) then EmptyString else "%" +:+ zone)
  end.

(** [missingDetail]. *)
Definition missingDetail (g : LocalAddressGuard) : string :=
  if decide (lg_iface g = EmptyString)
  then "VIP address " +:+ Addr_String (lg_addr g) +:+ " is not configured on any interface"
  else "VIP address " +:+ Addr_String (lg_addr g) +:+ " is not configured on interface " +:+ lg_iface g.

(** [observe]: the guard and the calls of [onState]. *)
Definition observe (g : LocalAddressGuard) (assigned : bool) : LocalAddressGuard * list bool :=
  let changed := negb (lg_known g) || negb (Bool.eqb (lg_assigned g) assigned) in
  (mkGuard (lg_vipName g) (lg_prefix g) (lg_addr g) (lg_iface g) (lg_hasOnState g) true assigned,
   if changed && lg_hasOnState g then [assigned] else []).

(** The address is on the host, on the guard's interface if it has one. *)
Definition matches (g : LocalAddressGuard) (a : LocalAddress) : bool :=
  bool_decide (LA_Addr a = lg_addr g) &&
  (bool_decide (lg_iface g = EmptyString) || bool_decide (LA_Interface a = lg_iface g)).

Section Guard.
(** [err.Error()]. *)
Context (errText : error → string).

(** [check]: the result when the inner check must not run, [None] when it may. *)
Definition guard_check (g : LocalAddressGuard) (listed : result error (list LocalAddress)) (elapsed : Z)
    : LocalAddressGuard * list bool * option Result :=
  match listed with
  | Err err =>
      (g, [], Some (mkResult false ("listing local addresses: " +:+ errText err) elapsed (Some err) false None))
  | Ok addrs =>
      let assigned := existsb (matches g) addrs in
      let '(g', calls) := observe g assigned in
      if assigned then (g', calls, None)
      else
        let detail := missingDetail g' in
        (g', calls, Some (mkResult false detail elapsed (Some (Errorf detail [])) false None))
  end.

(** [guardedChecker.Check]; [inner] is what the inner check returns if it runs. *)
Definition guardedCheck (g : LocalAddressGuard) (listed : result error (list LocalAddress)) (elapsed : Z)
    (inner : Result) : LocalAddressGuard * list bool * Result :=
  let '(g', calls, r) := guard_check g listed elapsed in
  (g', calls, default inner r).

(** One run of a guarded check: the addresses, the time the listing took, and
    the inner result. *)
Record round := mkRound {
  rd_list : result error (list LocalAddress);
  rd_elapsed : Z;
  rd_inner : Result }.

Fixpoint guardedRun (g : LocalAddressGuard) (rounds : list round)
    : LocalAddressGuard * list bool * list Result :=
  match rounds with
  | [] => (g, [], [])
  | rd :: rounds' =>
      let '(g1, c1, r) := guardedCheck g (rd_list rd) (rd_elapsed rd) (rd_inner rd) in
      let '(g2, c2, rs) := guardedRun g1 rounds' in
      (g2, c1 ++ c2, r :: rs)
  end.

(** ** What a round shows about the address *)

(** [None]: the listing failed. *)
Definition seenAddr (g : LocalAddressGuard) (rd : round) : option bool :=
  match rd_list rd with Ok addrs => Some (existsb (matches g) addrs) | Err _ => None end.

Definition assignedIn (g : LocalAddressGuard) (rd : round) : Prop :=
  ∃ addrs a, rd_list rd = Ok addrs ∧ a ∈ addrs ∧ LA_Addr a = lg_addr g ∧
             (lg_iface g = EmptyString ∨ LA_Interface a = lg_iface g).

Lemma assignedIn_seen g rd : seenAddr g rd = Some true ↔ assignedIn g rd.
Proof.
  unfold seenAddr, assignedIn. destruct (rd_list rd) as [addrs|]; [|naive_solver].
  rewrite (inj_iff Some), existsb_exists. setoid_rewrite <-list_elem_of_In. unfold matches.
  setoid_rewrite andb_true_iff. setoid_rewrite orb_true_iff. setoid_rewrite bool_decide_eq_true.
  naive_solver.
Qed.

(** Guards that look for the same thing. *)
Definition sameTarget (g g' : LocalAddressGuard) : Prop :=
  lg_addr g' = lg_addr g ∧ lg_iface g' = lg_iface g ∧ lg_hasOnState g' = lg_hasOnState g.

Lemma matches_same g g' a : sameTarget g g' → matches g' a = matches g a.
Proof. intros (H1 & H2 & _). unfold matches. by rewrite H1, H2. Qed.

Lemma seenAddr_same g g' rd : sameTarget g g' → seenAddr g' rd = seenAddr g rd.
Proof.
  intros Hs. unfold seenAddr. destruct (rd_list rd) as [l|]; [|done]. f_equal.
  induction l as [|a l IH]; cbn; [done|]. by rewrite IH, (matches_same g).
Qed.

(** One run: what the result is, and what the guard remembers. *)
Lemma guardedCheck_spec g rd :
  let '(g', calls, r) := guardedCheck g (rd_list rd) (rd_elapsed rd) (rd_inner rd) in
  sameTarget g g' ∧
  match seenAddr g rd with
  | Some true => r = rd_inner rd
  | _ => Success r = false
  end ∧
  match seenAddr g rd with
  | Some b => lg_known g' = true ∧ lg_assigned g' = b ∧
              calls = if lg_hasOnState g && (negb (lg_known g) || negb (Bool.eqb (lg_assigned g) b))
                      then [b] else []
  | None => g' = g ∧ calls = []
  end.
Proof.
  unfold guardedCheck, guard_check, seenAddr. destruct (rd_list rd) as [l|e]; [|done].
  unfold observe. destruct (existsb (matches g) l); cbn; split_and!; try done;
    by destruct (lg_hasOnState g), (lg_known g), (lg_assigned g).
Qed.

(** ** The calls of [onState] *)

(** The observations without repetitions of the previous one. *)
Fixpoint changes (prev : option bool) (l : list bool) : list bool :=
  match l with
  | [] => []
  | b :: l' => if decide (prev = Some b) then changes prev l' else b :: changes (Some b) l'
  end.

Lemma guardedRun_calls g rounds :
  lg_hasOnState g = true →
  (guardedRun g rounds).1.2 =
    changes (if lg_known g then Some (lg_assigned g) else None) (omap (seenAddr g) rounds).
Proof.
  revert g. induction rounds as [|rd rounds IH]; intros g Hon; cbn [guardedRun omap list_omap]; [done|].
  pose proof (guardedCheck_spec g rd) as Hs.
  destruct (guardedCheck g _ _ _) as [[g' calls] r]. destruct Hs as (Hsame & _ & Hc).
  specialize (IH g'). destruct (guardedRun g' rounds) as [[g2 c2] rs]. cbn [fst snd] in *.
  assert (omap (seenAddr g') rounds = omap (seenAddr g) rounds) as Hom.
  { clear -Hsame. induction rounds as [|x l IH]; cbn; [done|]. by rewrite (seenAddr_same g), IH. }
  rewrite Hom in IH. rewrite IH by (by destruct Hsame as (_ & _ & ->)).
  destruct (seenAddr g rd) as [b|].
  - destruct Hc as (-> & -> & ->). rewrite Hon. cbn.
    destruct (lg_known g); cbn; [|done].
    destruct (lg_assigned g), b; done.
  - destruct Hc as [-> ->]. done.
Qed.

Lemma guardedRun_results g rounds i r :
  (guardedRun g rounds).2 !! i = Some r → ∃ rd, rounds !! i = Some rd ∧
    (Success r = true → assignedIn g rd ∧ r = rd_inner rd) ∧
    (assignedIn g rd → r = rd_inner rd).
Proof.
  revert g i. induction rounds as [|rd rounds IH]; intros g i; cbn [guardedRun]; [done|].
  pose proof (guardedCheck_spec g rd) as Hs.
  destruct (guardedCheck g _ _ _) as [[g' calls] r0]. destruct Hs as (Hsame & Hr & _).
  specialize (IH g'). destruct (guardedRun g' rounds) as [[g2 c2] rs]. cbn [snd] in *.
  destruct i as [|i]; cbn.
  - intros [= <-]. exists rd. rewrite <-assignedIn_seen. split; [done|].
    destruct (seenAddr g rd) as [[]|]; (split; [intros Hs; split; congruence|congruence]).
  - intros Hi. destruct (IH i Hi) as (rd' & Hl & H). exists rd'.
    rewrite <-!assignedIn_seen, (seenAddr_same g) in * by done. done.
Qed.

Lemma guardedRun_length g rounds : length (guardedRun g rounds).2 = length rounds.
Proof.
  revert g. induction rounds as [|rd rounds IH]; intros g; cbn [guardedRun]; [done|].
  destruct (guardedCheck g _ _ _) as [[g' calls] r0]. specialize (IH g').
  destruct (guardedRun g' rounds) as [[g2 c2] rs]. cbn in *. by rewrite IH.
Qed.

(** ** Under a scheduler *)

Lemma window_lookup n b hist m : window n b hist → (m < Z.to_nat n)%nat → hist !! m = Some b.
Proof.
  unfold window. intros Hw Hm. rewrite <-(lookup_take_lt hist (Z.to_nat n)) by done. rewrite Hw.
  by apply lookup_replicate_2.
Qed.

Lemma history_lookup results m b :
  history results !! m = Some b →
  ∃ r, (m < length results)%nat ∧ results !! (length results - S m)%nat = Some r ∧ Success r = b.
Proof.
  unfold history. intros Hm. pose proof (lookup_lt_Some _ _ _ Hm) as Hl.
  rewrite length_reverse, length_fmap in Hl.
  rewrite reverse_lookup, length_fmap in Hm by (by rewrite length_fmap).
  rewrite list_lookup_fmap in Hm. destruct (results !! _) as [r|] eqn:E; [|done]. naive_solver.
Qed.

(** Results that all failed at the end. *)
Lemma history_tail_fail pre post :
  Forall (λ r, Success r = false) post →
  ∃ hist, history (pre ++ post) = replicate (length post) false ++ hist.
Proof.
  intros Hall. exists (history pre). rewrite <-(history_same _ _ Hall). unfold history.
  by rewrite fmap_app, reverse_app.
Qed.

(** Rounds that did not find the address failed. *)
Lemma guardedRun_tail_fail g pre post :
  Forall (λ rd, ¬ assignedIn g rd) post →
  Forall (λ r, Success r = false) (drop (length pre) (guardedRun g (pre ++ post)).2).
Proof.
  intros Hpost. apply Forall_lookup. intros i r Hi. rewrite lookup_drop in Hi.
  apply guardedRun_results in Hi as (rd & Hrd & H1 & _).
  rewrite lookup_app_r in Hrd by lia. replace (length pre + i - length pre)%nat with i in Hrd by lia.
  rewrite Forall_lookup in Hpost. specialize (Hpost i rd Hrd). destruct (Success r); [|done].
  by destruct (H1 eq_refl).
Qed.

(** C15: a guarded check under a scheduler is healthy only if at some point the
    VIP's address was on the host, on the configured interface, for [rise]
    runs in a row in which the inner check succeeded too; and it is not
    healthy once the address was missing, or could not be listed, in the
    last [fall] runs, whatever the inner check would have said. *)
Theorem guard_gates {TCb RCb} (cfg : SchedulerConfig (TCb := TCb) (RCb := RCb)) g rounds :
  1 ≤ scfg_Rise cfg → 1 ≤ scfg_Fall cfg →
  let s := (Run (NewScheduler cfg) (guardedRun g rounds).2).1 in
  (sc_healthy s = true →
     ∃ i, ∀ j, (i ≤ j < i + Z.to_nat (scfg_Rise cfg))%nat →
       ∃ rd, rounds !! j = Some rd ∧ assignedIn g rd ∧ Success (rd_inner rd) = true) ∧
  (∀ pre post, rounds = pre ++ post → scfg_Fall cfg ≤ len post →
     Forall (λ rd, ¬ assignedIn g rd) post → sc_healthy s = false).
Proof.
  intros Hr Hf s. set (results := (guardedRun g rounds).2) in *.
  assert (Hwf := NewScheduler_wf cfg Hr Hf).
  pose proof (Run_tracks _ results [] Hwf (NewScheduler_tracks cfg Hr Hf)) as (Hok & Hfail & Hh).
  rewrite app_nil_r in *. fold s in Hok, Hfail, Hh.
  destruct (Run_thresholds (NewScheduler cfg) results) as [Er Ef]. cbn in Er, Ef. fold s in Er, Ef.
  rewrite Er, Ef in *. assert (length results = length rounds) as Hlen by apply guardedRun_length.
  split.
  - intros (k & Hw & _)%Hh. exists (length results - k - Z.to_nat (scfg_Rise cfg))%nat. intros j Hj.
    destruct (history_lookup results (k + (Z.to_nat (scfg_Rise cfg) - 1))%nat true) as (_ & Hk & _).
    { rewrite <-lookup_drop. apply (window_lookup _ _ _ _ Hw). lia. }
    destruct (history_lookup results (length results - S j)%nat true) as (r & _ & Hres & Hs).
    { replace (length results - S j)%nat with (k + (length results - S j - k))%nat by lia.
      rewrite <-lookup_drop. apply (window_lookup _ _ _ _ Hw). lia. }
    replace (length results - S (length results - S j))%nat with j in Hres by lia.
    apply guardedRun_results in Hres as (rd & Hrd & H1 & _). exists rd.
    destruct (H1 Hs) as [Ha ->]. done.
  - intros pre post -> Hlp Hpost. apply wf_verdict_fail; [by apply Run_wf|].
    apply (guardedRun_tail_fail g pre) in Hpost. fold results in Hpost.
    rewrite length_app in Hlen. unfold len in Hlp. rewrite Hfail, Ef.
    destruct (history_tail_fail (take (length pre) results) _ Hpost) as [hist Hh'].
    rewrite take_drop, length_drop, Hlen in Hh'. rewrite Hh'.
    pose proof (runLen_replicate false (length pre + length post - length pre)%nat hist). lia.
Qed.

(** [onState] is called exactly on the first observation and on every
    change: the calls are the observations without repetitions, and runs in
    which the addresses could not be listed are no observations. *)
Theorem onState_exact g rounds :
  lg_known g = false → lg_hasOnState g = true →
  (guardedRun g rounds).1.2 = changes None (omap (seenAddr g) rounds).
Proof. intros Hk Hon. rewrite guardedRun_calls by done. by rewrite Hk. Qed.


End Guard.

(** ** The theorems applied *)

Definition lw_errText (e : error) : string := "boom".
Definition lw_guard : LocalAddressGuard := mkGuard "web" "10.0.0.1/32" (Addr4 0x0a000001) "lo" true false false.
Definition lw_ok : Result := mkResult true "ok" 5 None false None.
Definition lw_round (l : result error (list LocalAddress)) : round := mkRound l 1 lw_ok.
Definition lw_on : round :=
  lw_round (ListLocalAddresses (Ok [("lo", Ok [NetIPNet (Bytes16 0xffff0a000001)])])).
Definition lw_elsewhere : round := lw_round (ListLocalAddresses (Ok [("eth0", Ok [NetIPNet (Bytes4 0x0a000001)])])).
Definition lw_broken : round := lw_round (ListLocalAddresses (Err (External "netlink"))).
Definition lw_cfg : SchedulerConfig (TCb := unit) (RCb := unit) :=
  {| scfg_VIPName := "web"; scfg_CheckName := "c"; scfg_CheckerType := Some "tcp"; scfg_Interval := 1;
     scfg_Timeout := 1; scfg_Rise := 1; scfg_Fall := 2; scfg_OnTransition := None; scfg_OnCheckResult := None |}.

Lemma guard_gates_witness :
  let s l := (Run (NewScheduler lw_cfg) (guardedRun lw_errText lw_guard l).2).1 in
  sc_healthy (s [lw_on; lw_broken]) = true ∧ sc_healthy (s [lw_on; lw_broken; lw_elsewhere]) = false.
Proof.
  split; [by vm_compute|].
  destruct (guard_gates lw_errText lw_cfg lw_guard [lw_on; lw_broken; lw_elsewhere]) as [_ H]; [by_compute..|].
  apply (H [lw_on] [lw_broken; lw_elsewhere] eq_refl); [by_compute|].
  apply Forall_cons_2; [|apply Forall_cons_2; [|apply Forall_nil_2]];
    rewrite <-(assignedIn_seen lw_errText); vm_compute; intros [=].
Defined.

Lemma onState_exact_witness :
  (guardedRun lw_errText lw_guard [lw_elsewhere; lw_elsewhere; lw_broken; lw_on; lw_broken; lw_on; lw_elsewhere]).1.2
  = [false; true; false].
Proof.
  rewrite (onState_exact lw_errText lw_guard) by done. by vm_compute.
Defined.

End LocalAddr.
Export LocalAddr.
