(* ===== verification/Loaded.v ===== *)
(** * What a loaded config guarantees to the rest of the daemon

    Validation and the components that consume a config, put together: the
    assumptions the other files make about VIPs, thresholds and communities
    hold for every config the loader returns, so that their theorems hold for
    the daemon as it starts. *)

From S2P Require Import Prelude GoStrings NetIP Net Config Model Metrics ChecksPolicy Engine.
From S2P Require Import Scheduler Defaults Validate ValidateProofs Loader LoadProofs DefaultsProofs.
From S2P Require Import PolicyManager PolicyProofs BGPManager BGPProofs System Daemon Logging Reload.
From Stdlib Require Import Ascii.

Module Loaded.
Import BGPManager BGPProofs System Daemon Logging Reload.

(** ** Prefixes *)

Lemma parse_digits_no_slash s acc v : parse_digits s acc = Some v → free "/"%char s.
Proof.
  revert acc. induction s as [|a s IH]; intros acc; [done|]. cbn. destruct (digit a) as [d|] eqn:E; [|done].
  intros Hs. apply free_cons. split; [|by eapply IH]. by intros ->.
Qed.

(** In a string with one slash both cuts agree. *)
Lemma CutLast_Cut s a m : Cut s "/"%char = Some (a, m) → free "/"%char m → CutLast s "/"%char = Some (a, m).
Proof.
  revert a. induction s as [|c s IH]; intros a; cbn; [done|].
  assert (∀ m, free "/"%char m → CutLast m "/"%char = None) as Hnone.
  { clear. intros m. induction m as [|c m IH]; [done|]. rewrite free_cons. intros [Hc Hm]. cbn.
    rewrite (IH Hm). by rewrite decide_False. }
  destruct (decide (c = "/"%char)) as [->|Hc].
  - intros [= <- ->] Hm. rewrite Hnone by done. done.
  - destruct (Cut s "/"%char) as [[b r]|] eqn:E; [|done]. intros [= <- ->] Hm. by rewrite (IH b).
Qed.

Lemma parseBits_value s n : parseBits s = Some n → parse_digits s 0 = Some n.
Proof.
  assert (∀ s, ParseUint s 62 = Some n → parse_digits s 0 = Some n) as Hp.
  { clear. intros s. unfold ParseUint. destruct s; [done|]. destruct (parse_digits _ _); [|done].
    case_decide; [|done]. by intros [= ->]. }
  unfold parseBits. destruct s as [|a [|b s]]; try apply Hp. case_decide; [done|]. apply Hp.
Qed.

(** The two parsers agree on the network where both accept. *)
Lemma ParseCIDR_ParsePrefix s ip net pf :
  ParseCIDR s = Some (ip, net) → ParsePrefix s = Some pf →
  net = mkIPNet (Prefix_Addr (Masked pf)) (Prefix_Bits (Masked pf)) ∧ ip = As16 (Prefix_Addr pf).
Proof.
  unfold ParseCIDR, ParsePrefix. destruct (Cut s "/"%char) as [[a m]|] eqn:Ec; [|done].
  destruct (ParseAddr a) as [addr|] eqn:Ea; [|done]. case_decide as Hz; [|done].
  unfold parseMaskLen. destruct m as [|c m]; [done|].
  destruct (parse_digits (String c m) 0) as [n|] eqn:En; [|done]. case_decide; [|done]. intros [= <- <-].
  rewrite (CutLast_Cut s a (String c m)) by (done || by eapply parse_digits_no_slash). rewrite Ea.
  assert (match parseBits (String c m) with
          | Some bits => if decide (bits ≤ BitLen addr) then Some (mkPrefix addr bits) else None
          | None => None end = Some pf →
    mkIPNet (Prefix_Addr (Masked (mkPrefix addr n))) n =
      mkIPNet (Prefix_Addr (Masked pf)) (Prefix_Bits (Masked pf)) ∧ As16 addr = As16 (Prefix_Addr pf)) as Hgen.
  { destruct (parseBits (String c m)) as [bits|] eqn:Eb; [|done]. apply parseBits_value in Eb.
    case_decide; [|done]. intros [= <-]. rewrite En in Eb. injection Eb as <-. done. }
  destruct addr as [v|v [|z zone]]; [apply Hgen|apply Hgen|done].
Qed.

Lemma canonicalPrefix_same p q :
  is_Some (ParseCIDR p) → is_Some (ParseCIDR q) → bm_same p q → canonicalPrefix p = canonicalPrefix q.
Proof.
  intros [[ip net] Hp] [[iq net'] Hq] (a & b & Ha & Hb & Hab). unfold canonicalPrefix. rewrite Hp, Hq.
  apply (ParseCIDR_ParsePrefix _ _ _ _ Hp) in Ha as [-> _].
  apply (ParseCIDR_ParsePrefix _ _ _ _ Hq) in Hb as [-> _]. by rewrite Hab.
Qed.

(** ** Addresses *)

Definition octets (l : list Z) : Prop := Forall (λ d, 0 ≤ d ≤ 255) l.

Lemma parseIPv4Fields_octets s fields val n l :
  octets fields → 0 ≤ val ≤ 255 → parseIPv4Fields s fields val n = Some l → octets l ∧ length l = 4%nat.
Proof.
  revert fields val n. induction s as [|c s IH]; intros fields val n Hf Hv; cbn.
  { case_decide; [|done]. intros [= <-]. unfold octets in *. rewrite Forall_app, length_app, Forall_singleton.
    split; [done|cbn; lia]. }
  destruct (digit c) as [d|] eqn:Ed.
  - apply digit_range in Ed. case_decide; [done|]. case_decide; [done|]. apply IH; [done|lia].
  - case_decide; [|done]. case_decide; [done|]. case_decide; [done|]. apply IH; [|lia].
    unfold octets in *. by rewrite Forall_app, Forall_singleton.
Qed.

Lemma parseIPv6_is6 s a : parseIPv6 s = Some a → Is6 a = true.
Proof.
  unfold parseIPv6. destruct (match Cut s _ with Some _ => _ | None => _ end) as [s' zone].
  case_decide; [done|]. destruct (CutPrefix s' "::") as [[|c r]|]; [by intros [= <-]|..];
    (destruct (ipv6Loop 8 _ [] _) as [[[g e] [|]]|]; [|done..]; destruct (expand g e); [|done]; by intros [= <-]).
Qed.

Lemma ParseAddr_v4_range s v : ParseAddr s = Some (Addr4 v) → 0 ≤ v < 2 ^ 32.
Proof.
  unfold ParseAddr. destruct (addrKind s) as [c|]; [|done]. case_decide.
  - unfold parseIPv4. destruct (parseIPv4Fields s [] 0 0) as [l|] eqn:E; [|done]. intros [= <-].
    apply parseIPv4Fields_octets in E as [Ho Hl]; [|constructor|lia].
    destruct l as [|a [|b [|c' [|d [|]]]]]; try done. unfold octets in Ho.
    rewrite !Forall_cons in Ho. unfold fromDigits. cbn [foldl].
    change (2 ^ 8) with 256. change (2 ^ 32) with 4294967296. lia.
  - case_decide; [|done]. by intros Ha%parseIPv6_is6.
Qed.

(** An IPv4 address is IPv4-mapped as a [net.IP]. *)
Lemma To4_As16_v4 v : 0 ≤ v < 2 ^ 32 → To4 (As16 (Addr4 v)) = Some v.
Proof.
  intros Hv. unfold To4, As16. rewrite Z.shiftr_div_pow2 by lia.
  assert ((0xffff * 2 ^ 32 + v) / 2 ^ 32 = 0xffff) as ->.
  { rewrite Z.div_add_l by lia. rewrite Z.div_small by lia. lia. }
  rewrite decide_True by done. f_equal. rewrite Z.land_ones by lia.
  rewrite Z.add_comm, Z.mod_add by lia. by apply Z.mod_small.
Qed.

(** [net.ParseIP] of a text that is no IPv4 address. *)
Lemma ParseIP_v6 s ip : ParseIP s = Some ip → To4 ip = None → ∃ a, ParseAddr s = Some a ∧ Is6 a = true.
Proof.
  unfold ParseIP. destruct (ParseAddr s) as [a|] eqn:E; [|done]. case_decide; [|done]. intros [= <-] H4.
  exists a. split; [done|]. destruct a as [v|]; [|done].
  rewrite To4_As16_v4 in H4 by by eapply ParseAddr_v4_range. done.
Qed.

Lemma ParseIP_ParseAddr s : is_Some (ParseIP s) → is_Some (ParseAddr s).
Proof. unfold ParseIP. by destruct (ParseAddr s); [|intros []]. Qed.

Section Valid.
Context `{GoStd} `{ExprLang} (cfg : Config) (Hvalid : ValidConfig cfg).

Lemma valid_vip v : v ∈ elems (Cfg_VIPs cfg) → ValidVIP v.
Proof. intros Hv. pose proof (valid_vips _ Hvalid) as Hall. rewrite Forall_forall in Hall. by apply Hall. Qed.

(** No two VIPs share a route. *)
Lemma valid_distinct i j v w :
  elems (Cfg_VIPs cfg) !! i = Some v → elems (Cfg_VIPs cfg) !! j = Some w →
  bm_same (VIP_Prefix v) (VIP_Prefix w) → i = j.
Proof.
  intros Hi Hj Hs. eapply (NoDup_fmap_lookup (canonicalPrefix ∘ VIP_Prefix)); [apply (valid_prefixes _ Hvalid)|done..|].
  apply canonicalPrefix_same; [| |done]; apply vv_prefix, valid_vip; by eapply list_elem_of_lookup_2.
Qed.

(** ** Checks *)

(** The thresholds of a check by its name, as [newSchedulerFor] reads them. *)
Definition checkOfName (v : VIPConfig) (n : string) : option CheckConfig :=
  snd <$> list_find (λ c, EffectiveName c = n) (CheckList v).
Definition riseOf (v : VIPConfig) (n : string) : Z :=
  match checkOfName v n with Some c => default 1 (Check_Rise c) | None => 1 end.
Definition fallOf (v : VIPConfig) (n : string) : Z :=
  match checkOfName v n with Some c => default 3 (Check_Fall c) | None => 3 end.

Lemma checkOfName_Some v n c : checkOfName v n = Some c → c ∈ CheckList v ∧ EffectiveName c = n.
Proof.
  unfold checkOfName. intros ([i c'] & Hf & [= ->])%fmap_Some.
  apply list_find_Some in Hf as (Hi & Hn & _). split; [by eapply list_elem_of_lookup_2|done].
Qed.

Lemma valid_check v c : v ∈ elems (Cfg_VIPs cfg) → c ∈ CheckList v → ValidCheck (VIP_Prefix v) c.
Proof.
  intros Hv Hc. pose proof (vv_checks _ (valid_vip v Hv)) as Hall. rewrite Forall_forall in Hall. by apply Hall.
Qed.

Lemma valid_thresholds v n : v ∈ elems (Cfg_VIPs cfg) → 1 ≤ riseOf v n ∧ 1 ≤ fallOf v n.
Proof.
  intros Hv. unfold riseOf, fallOf. destruct (checkOfName v n) as [c|] eqn:E; [|lia].
  apply checkOfName_Some in E as [Hc _]. destruct (valid_check v c Hv Hc) as [_ _ Hr Hf _].
  destruct (Check_Rise c), (Check_Fall c); cbn in *; lia.
Qed.

Lemma ValidBlock_type c prefix : ValidBlock c prefix → Check_Type c ≠ EmptyString.
Proof. by intros [Ht _|Ht _|Ht _|Ht _|Ht _|Ht _|Ht _|Ht _|Ht _]; rewrite Ht. Qed.

Lemma valid_named v n : v ∈ elems (Cfg_VIPs cfg) → n ∈ checkNames v → n ≠ EmptyString.
Proof.
  intros Hv (c & -> & Hc)%list_elem_of_fmap. destruct (valid_check v c Hv Hc) as [_ _ _ _ Hb].
  apply ValidBlock_type in Hb. unfold EffectiveName. by case_decide.
Qed.

(** The scheduler of a check has the thresholds the theorem below speaks of. *)
Lemma newSchedulerFor_thresholds v c typ :
  v ∈ elems (Cfg_VIPs cfg) → c ∈ CheckList v →
  sc_rise (newSchedulerFor v c typ) = riseOf v (EffectiveName c) ∧
  sc_fall (newSchedulerFor v c typ) = fallOf v (EffectiveName c).
Proof.
  intros Hv Hc. assert (checkOfName v (EffectiveName c) = Some c) as Hn.
  { unfold checkOfName. pose proof (vv_checkNames _ (valid_vip v Hv)) as Hnd.
    destruct (list_find (λ c', EffectiveName c' = EffectiveName c) (CheckList v)) as [[i c']|] eqn:E.
    - apply list_find_Some in E as (Hi & Hn & _). cbn. f_equal.
      eapply (NoDup_fmap_elem_of EffectiveName); [done|by eapply list_elem_of_lookup_2|done|done].
    - exfalso. rewrite list_find_None, Forall_forall in E. by apply (E c). }
  unfold riseOf, fallOf. by rewrite Hn.
Qed.

(** ** Route policies *)

Lemma ValidCommunity_parse c : ValidCommunity c ↔ ∃ z, parseCommunity c = Ok z.
Proof.
  unfold ValidCommunity, parseCommunity. destruct (SplitN2 c ":"%char) as [|a [|b [|d l]]]; try naive_solver.
  destruct (ParseUint a 16) eqn:Ea, (ParseUint b 16) eqn:Eb; (split; [intros (a' & b' & v & w & [= <- <-] & Hv & Hw)
    |intros [comm Hcomm]]); try congruence; eauto 10.
Qed.

Lemma parseCommunities_Ok l : (∃ zs, parseCommunities l = Ok zs) ↔ Forall ValidCommunity l.
Proof.
  induction l as [|c l IH]; cbn [parseCommunities]; [split; [constructor|by eexists]|].
  rewrite Forall_cons, <-IH, ValidCommunity_parse.
  destruct (parseCommunity c), (parseCommunities l); naive_solver.
Qed.

Lemma ValidPolicy_prepends p : ValidPolicy p → prependsValid p.
Proof.
  intros (_ & Hl & Ha). split.
  - intros a n Ea En. rewrite Ea in Ha. cbn in Ha. rewrite En in Ha. apply Ha.
  - intros lp n El En. rewrite El in Hl. cbn in Hl. rewrite En in Hl. apply Hl.
Qed.

Lemma ValidPolicy_communities p state :
  ValidPolicy p → Forall ValidCommunity (Communities (RouteAttrsFor p state)).
Proof.
  intros (_ & Hl & Ha).
  assert (Forall ValidCommunity (Communities (BaseRouteAttrs p))) as Hb.
  { unfold BaseRouteAttrs. destruct (Policy_Announce p) as [a|]; [apply Ha|constructor]. }
  destruct state; [constructor|done|]. cbn. rewrite mergeCommunities_eq.
  apply Forall_forall. intros c [Hc _]%firstSeen_elem. apply elem_of_app in Hc as [Hc|Hc].
  - rewrite Forall_forall in Hb. by apply Hb.
  - destruct (Policy_LowerPriority p) as [lp|]; [|by apply elem_of_nil in Hc].
    destruct Hl as [_ Hl]. rewrite Forall_forall in Hl. by apply Hl.
Qed.

(** ** Paths *)

(** The prefix is an IPv4-mapped IPv6 prefix. *)
Definition mapped (p : Prefix) : Prop := Is6 (Prefix_Addr p) = true ∧ is_Some (To4 (NetIP.value (Prefix_Addr p))).

Lemma valid_nextHop4 family :
  family ≠ RF_IPv6_UC → ∃ a, nextHopFor cfg family = Ok a.
Proof.
  intros Hf. destruct (valid_router _ Hvalid) as (_ & (ip & _ & Hid & _) & _).
  assert (is_Some (ParseAddr (Router_RouterID (Cfg_Router cfg)))) as [r Hr].
  { apply ParseIP_ParseAddr. by rewrite Hid. }
  unfold nextHopFor. destruct family; [|done|].
  all: destruct (ParseAddr (Router_LocalAddress _)) as [a|] eqn:Ea; [destruct (Is4 a)|];
    rewrite ?Ea, ?Hr; eauto.
Qed.

Lemma valid_nextHop6 v pf :
  v ∈ elems (Cfg_VIPs cfg) → ParsePrefix (VIP_Prefix v) = Some pf → Is6 (Prefix_Addr pf) = true → ¬ mapped pf →
  ∃ a, nextHopFor cfg RF_IPv6_UC = Ok a.
Proof.
  intros Hv Hp H6 Hm. destruct (valid_router _ Hvalid) as (_ & _ & _ & [[He Hno]|(ip & Hip & H4)]).
  - exfalso. apply Hm. split; [done|]. destruct (vv_prefix _ (valid_vip v Hv)) as [[ip net] Hc].
    destruct (ParseCIDR_ParsePrefix _ _ _ _ Hc Hp) as [_ ->].
    apply not_true_iff_false in Hno. rewrite <-not_eq_None_Some. intros Hnone. apply Hno.
    apply existsb_exists. exists v. rewrite <-list_elem_of_In, Hc. split; [done|].
    destruct (Prefix_Addr pf) as [|w z]; [done|]. cbn in *. by rewrite Hnone.
  - apply ParseIP_v6 in Hip as (a & Ha & Ha6); [|done]. unfold nextHopFor.
    rewrite decide_False by (intros E; by rewrite E in Ha). rewrite Ha, Ha6. by eauto.
Qed.

End Valid.

(** ** The properties *)

Section Properties.
Context `{GoStd} `{ExprLang} `{Decoders} (LookupEnv : string → option string).

Lemma loaded_valid data path cfg : loadBytes LookupEnv data path = Ok cfg → ValidConfig cfg.
Proof.
  unfold loadBytes. destruct (expandEnvPlaceholders LookupEnv data); [|done].
  destruct (Parse _ _); [|done]. destruct (Validate _) eqn:E; [|done]. intros [= <-]. by apply Validate_nil.
Qed.

(** Validation accepts a list of communities exactly when the BGP manager
    can encode it. *)
Theorem communities_equiv path l :
  validateCommunities path l = [] ↔ ∃ comms, parseCommunities l = Ok comms.
Proof. by rewrite validateCommunities_spec, parseCommunities_Ok. Qed.


End Properties.

Section Routes.
Context `{GoStd} `{ExprLang} `{Decoders} (LookupEnv : string → option string).
Context {S UUID : Type} `{GoBGPLaws S UUID}.

(** A VIP of a loaded config can be announced in every state: GoBGP's
    constructors accepting their arguments, the path is built, unless the
    prefix is one that [net.ParseCIDR] accepts and [netip.ParsePrefix]
    does not (a leading zero in the length), or IPv4-mapped without a local
    IPv6 address. *)
Theorem loaded_announceable data path cfg v pf state :
  loadBytes LookupEnv data path = Ok cfg → v ∈ elems (Cfg_VIPs cfg) →
  ParsePrefix (VIP_Prefix v) = Some pf → ¬ mapped pf →
  newIPAddrPrefix (Masked pf) = None → (∀ a, newPathAttributeNextHop a = None) →
  ∃ p, buildPath cfg (VIP_Prefix v) (RouteAttrsFor (VIP_Policy v) state) = Ok p.
Proof.
  intros Hl Hv Hp Hm Hn Hh. pose proof (loaded_valid LookupEnv _ _ _ Hl) as Hc.
  pose proof (vv_routes _ (valid_vip cfg Hc v Hv)) as Hpol.
  unfold buildPath. rewrite Hp, Hn.
  assert (∃ a, nextHopFor cfg (if Is6 (Prefix_Addr pf) then RF_IPv6_UC else RF_IPv4_UC) = Ok a) as [a Ha].
  { destruct (Is6 (Prefix_Addr pf)) eqn:E; [by eapply valid_nextHop6|by apply valid_nextHop4]. }
  rewrite Ha, Hh. destruct (proj2 (parseCommunities_Ok _) (ValidPolicy_communities _ state Hpol)) as [comms Hcs].
  destruct (Communities _) as [|c l]; [by eauto|]. rewrite Hcs. by eauto.
Qed.

(** From the file to the route: a VIP of a loaded config with checks_policy
    all and fail_action withdraw is announced exactly while every check
    passes the rise and fall hysteresis the file sets, and withdrawn
    otherwise, however the results of its checks interleave; the server has
    its route exactly then, unless an operation is pending. *)
Theorem loaded_announced_iff_checks_pass data path cfg stat now v x m0 trace :
  loadBytes LookupEnv data path = Ok cfg → v ∈ elems (Cfg_VIPs cfg) →
  Policy_LowerPriorityFile (VIP_Policy v) = EmptyString →
  VIP_ChecksPolicy v = EmptyString ∨ VIP_ChecksPolicy v = ChecksPolicyAll →
  Policy_FailAction (VIP_Policy v) = "withdraw" →
  freshManager m0 →
  (∀ p, p ∈ trace → p.1 ∈ checkNames v) →
  let m := (foldl (feed (H0 := bgp_notifier cfg) stat now)
              (newSched v (riseOf v) (fallOf v),
               NewManager stat now (elems (Cfg_VIPs cfg)) x (Some m0)) trace).2 in
  ∃ e, mg_vips m !! VIP_Name v = Some e ∧
    (allHealthy v (riseOf v) (fallOf v) trace → vs_state (ve_state e) = StateAnnounced) ∧
    (¬ allHealthy v (riseOf v) (fallOf v) trace → vs_state (ve_state e) = StateWithdrawn) ∧
    (∀ b, mg_notifier m = Some b → vs_bgpPending (ve_state e) = false →
       bm_installed b (VIP_Prefix v) =
         if decide (vs_state (ve_state e) = StateAnnounced)
         then pathFor cfg (VIP_Prefix v) (BaseRouteAttrs (VIP_Policy v)) else None).
Proof.
  intros Hl Hv Hfile Hpol Hfa Hf Htr m. pose proof (loaded_valid LookupEnv _ _ _ Hl) as Hc.
  destruct (announced_iff (H0 := bgp_notifier cfg) (H1 := bgp_laws cfg) stat now v
    (riseOf v) (fallOf v) (elems (Cfg_VIPs cfg)) x (Some m0) trace) as (e & He & Hup & Hdown & Hroute); try done.
  - intros n _. by eapply valid_thresholds.
  - intros n. by eapply valid_named.
  - apply (valid_names _ Hc).
  - by apply freshManager_noRoutes.
  - intros i j v' w'. by apply valid_distinct.
  - exists e. split_and!; [done..|]. intros b Hb Hp. specialize (Hroute b Hb Hp). cbn in Hroute.
    case_decide; destruct (bm_installed b (VIP_Prefix v)); cbn in Hroute; congruence.
Qed.

End Routes.
End Loaded.
Export Loaded.
