(* ===== verification/LoadedWitness.v ===== *)
(** * The theorems on loading, applied

    A config file with one VIP and two checks, decoded by a concrete decoder,
    loaded, and run on the reference BGP server; and the configs that pass
    validation although the daemon cannot serve them. *)

From S2P Require Import Prelude GoStrings NetIP Net Config Model Metrics ChecksPolicy Engine.
From S2P Require Import Scheduler Defaults Validate ValidateProofs Loader LoadProofs DefaultsProofs.
From S2P Require Import PolicyManager PolicyProofs BGPManager BGPProofs PolicyWitness System Daemon.
From S2P Require Import Reload Loaded.
From Stdlib Require Import Ascii SpecFloat.

Module LoadedWitness.
Import BGPManager BGPProofs PolicyWitness System Daemon Reload.
#[local] Existing Instance refStd.

(** ** The file *)

Definition vw_check (name : string) (rise : option Z) : CheckConfig :=
  mkCheckConfig name "tcp" false None None rise None None None None None
    (Some (mkTCPCheckConfig EmptyString 80)) None None None None.
Definition vw_vip (prefix : string) : VIPConfig :=
  mkVIPConfig "web" prefix zeroCheck (Some [vw_check "a" (Some 2); vw_check "b" None]) EmptyString
    (mkPolicyConfig "withdraw" EmptyString None None) false EmptyString.
Definition vw_neighbor : NeighborConfig :=
  mkNeighborConfig "tor" "192.0.2.254" 65001 None 0 EmptyString false false 0 None EmptyString.
Definition vw_raw (prefix : string) : Config :=
  mkConfig "v1" (mkRouterConfig 65000 "192.0.2.1" "192.0.2.1" EmptyString)
    (Cfg_API zeroConfig) (Cfg_Logging zeroConfig) zeroOTel (Cfg_Paths zeroConfig)
    (mkBGPConfig None None None EmptyString 0 (mkGoBGPAPIConfig false EmptyString) (Some [vw_neighbor]))
    (Some [vw_vip prefix]).

(** A decoder that reads a file of one line, the prefix. *)
#[local] Instance vw_decoders : Decoders :=
  {| yamlUnmarshal s := Ok (vw_raw s); tomlUnmarshal _ := Err (External "toml") |}.

Definition vw_env (n : string) : option string := if decide (n = "VIP") then Some "10.0.0.1" else None.
Definition vw_file : string := "%{VIP}/32".
Definition vw_cfg : Config := ApplyDefaults (vw_raw "10.0.0.1/32").

Lemma vw_loaded : loadBytes vw_env vw_file "/etc/pathosd.yaml" = Ok vw_cfg.
Proof. by vm_compute. Defined.

Definition vw_web : VIPConfig := applyVIPDefaults "/proc" (vw_vip "10.0.0.1/32").

Lemma vw_in : vw_web ∈ elems (Cfg_VIPs vw_cfg).
Proof. by left. Defined.

Lemma vw_env_ok name v : vw_env name = Some v → free "000"%char v.
Proof. unfold vw_env. case_decide; [|done]. by intros [= <-]. Defined.

Lemma expand_equiv_witness :
  expandEnvPlaceholders vw_env "addr: %{VIP} # %%{VIP}" = Ok "addr: 10.0.0.1 # %{VIP}".
Proof. rewrite (expand_equiv vw_env vw_env_ok) by (by vm_compute). by vm_compute. Defined.

Lemma escape_roundtrip_witness :
  escape "a%{VIP} %%{b 100%" = "a%%{VIP} %%%{b 100%" ∧
  expandEnvPlaceholders vw_env (escape "a%{VIP} %%{b 100%") = Ok "a%{VIP} %%{b 100%".
Proof. split; [by vm_compute|]. apply (escape_roundtrip vw_env vw_env_ok). by vm_compute. Defined.


Lemma loaded_announceable_witness :
  ∃ p, buildPath vw_cfg "10.0.0.1/32" (RouteAttrsFor (VIP_Policy vw_web) StatePessimized) = Ok p.
Proof.
  apply (loaded_announceable vw_env vw_file "/etc/pathosd.yaml" vw_cfg vw_web (mkPrefix (Addr4 0x0a000001) 32)
    StatePessimized vw_loaded vw_in); [by vm_compute|by intros [? _]|done|done].
Defined.

Definition vw_trace : list (string * Result) :=
  [("a", dw_result true); ("b", dw_result true); ("a", dw_result true)].

Lemma loaded_announced_iff_checks_pass_witness :
  ∃ e, mg_vips (foldl (feed (H0 := bgp_notifier vw_cfg) pw_stat 0) (newSched vw_web (riseOf vw_web) (fallOf vw_web),
         NewManager pw_stat 0 (elems (Cfg_VIPs vw_cfg)) ∅ (Some dw_bgp)) vw_trace).2 !! "web" = Some e ∧
       vs_state (ve_state e) = StateAnnounced.
Proof.
  destruct (loaded_announced_iff_checks_pass vw_env vw_file "/etc/pathosd.yaml" vw_cfg pw_stat 0 vw_web ∅
    dw_bgp vw_trace) as (e & He & Ha & _);
    [apply vw_loaded|apply vw_in|done|by right|done|apply dw_fresh| |].
  - intros p Hp. change (p ∈ [("a", dw_result true); ("b", dw_result true); ("a", dw_result true)]) in Hp.
    rewrite !elem_of_cons, elem_of_nil in Hp. destruct Hp as [->|[->|[->|[]]]]; by_compute.
  - exists e. split; [exact He|]. apply Ha. intros n Hn. change (n ∈ ["a"; "b"]) in Hn.
    rewrite !elem_of_cons, elem_of_nil in Hn.
    destruct Hn as [->|[->|[]]]; exists 0%nat; (split; [by vm_compute|lia]).
Defined.

(** ** What validation lets through *)

(** A VIP that passes validation but that the BGP manager can never announce:
    its prefix has a leading zero in the length, which [net.ParseCIDR] takes
    and [netip.ParsePrefix] does not, or it is IPv4-mapped, which counts as
    IPv4 for the validation and as IPv6 for the manager. *)
Definition neverAnnounced (cfg : Config) : Prop :=
  ∃ v, v ∈ elems (Cfg_VIPs cfg) ∧
  ∀ attrs, ∃ e, buildPath (S := RefServer) (UUID := nat) cfg (VIP_Prefix v) attrs = Err e.



End LoadedWitness.
