(* ===== verification/Checkers.v ===== *)
(** * The checkers: internal/checks/{http,dns,ping,udp,tcp}.go

    A checker is modelled as the function from what the network, the kernel
    and the third-party clients answer to what it asks them, to the [Result] it
    returns; its constructor is the function from the config to the checker or
    an error.  [dur] is the time that has passed when the check returns.  An
    [error] is rendered by [errText]; [ctxErr] is whether the context of the
    check has ended by then, [late] whether by its deadline. *)

From S2P Require Import Prelude GoStrings NetIP Net Config Model Defaults Validate LocalAddr.
From Stdlib Require Import Ascii SpecFloat.

Module Checkers.

(** [net.JoinHostPort]. *)
Definition JoinHostPort (host : string) (port : string) : string :=
  if contains host ":"%char || contains host "%"%char then "[" +:+ host +:+ "]:" +:+ port
  else host +:+ ":" +:+ port.

(** What the code uses of jq: the first output of a program. *)
Inductive jqOutput := JQNone | JQError (e : error) | JQValue (isTrue : bool) (text : string).

(** The parts of the standard library and of third-party packages the checkers
    call: [regexp], [encoding/json] with gojq, reading a file, the system
    certificate pool and the certificates of a PEM text, and the clients'
    constructors. *)
Class CheckStd := {
  regexpMatch : string → string → bool;
  jsonUnmarshal : string → option error;
  jqRun : string → string → jqOutput;
  readFile : string → result error string;
  systemCertPoolErr : goerror;
  appendCertsFromPEM : string → bool;
  grpcNewClient : string → goerror;
  mysqlNewConnector : SQLCheckConfig → goerror;
  pgxParseConfig : goerror }.

(** [io.LimitReader]: the first [n] bytes. *)
Fixpoint limitBytes (n : Z) (s : string) : string :=
  match s with
  | String a s' => if decide (n ≤ 0) then EmptyString else String a (limitBytes (n - 1) s')
  | EmptyString => EmptyString
  end.

Definition maxBodyBytes : Z := 2 ^ 20.

(** [%q] of a text without special characters. *)
Definition quoted (s : string) : string := String "034" (s +:+ String "034" EmptyString).

Section Checkers.
Context `{GoStd} `{CheckStd} (errText : error → string).

Definition failed (dur : Z) (detail : string) : Result := mkResult false detail dur None false None.
Definition failedErr (dur : Z) (e : error) (detail : string) : Result :=
  mkResult false detail dur (Some e) false None.
Definition withDetails (r : Result) (d : CheckDetails) : Result :=
  mkResult (Success r) (Detail r) (Duration r) (Result_Err r) (TimedOut r) (Some d).

(** What the code sets of a [tls.Config]; the pool is the PEM text appended to
    the system's. *)
Record TLSConfig := mkTLSConfig {
  TLS_InsecureSkipVerify : bool;
  TLS_ServerName : string;
  TLS_RootCAs : option string }.

(** Reading [tls_ca_cert] into a pool.  The HTTP checker gives up when the
    system pool cannot be loaded; the others start from an empty one. *)
Definition loadCA (poolErr : goerror) (path : string) : result error (option string) :=
  if isEmpty path then Ok None
  else
    match readFile path with
    | Err e => Err (Wrapf "reading tls_ca_cert: %w" [] e)
    | Ok pem =>
        match poolErr with
        | Some e => Err (Wrapf "loading system cert pool: %w" [] e)
        | None =>
            if appendCertsFromPEM pem then Ok (Some pem)
            else Err (Errorf "parsing tls_ca_cert %q: no certificates found" [path])
        end
    end.

(** ** HTTP *)

(** What the code sets of an [http.Transport]; [Tr_ConnectTo] is the host the
    replaced [DialContext] connects to, whatever the URL says. *)
Record Transport := mkTransport {
  Tr_DisableKeepAlives : bool;
  Tr_Proxy : option URL;
  Tr_TLS : TLSConfig;
  Tr_ConnectTo : option string }.

Record HTTPChecker := mkHTTPChecker {
  hc_cfg : HTTPCheckConfig;
  hc_transport : Transport;
  hc_reBody : option string;
  hc_jqQuery : option string;
  hc_sniHost : string }.

(** The compiled form of an optional expression is its text. *)
Definition compiled (s : string) : option string := if isSet s then Some s else None.

(** [NewHTTPChecker]. *)
Definition NewHTTPChecker (cfg : HTTPCheckConfig) : result error HTTPChecker :=
  if HTTP_TLSInsecure cfg && isSet (HTTP_TLSCACert cfg)
  then Err (Errorf "tls_ca_cert cannot be set together with tls_insecure" [])
  else if isSet (HTTP_Proxy cfg) && isNil (urlParse (HTTP_Proxy cfg))
  then Err (Errorf "invalid proxy: %w" [])
  else
    try roots <- loadCA systemCertPoolErr (HTTP_TLSCACert cfg) ;
    let sni := isSet (HTTP_TLSServerName cfg) && isEmpty (HTTP_Proxy cfg) in
    let sniHost := if sni then HTTP_TLSServerName cfg else EmptyString in
    let transport :=
      mkTransport (negb (HTTP_KeepAlive cfg))
        (if isSet (HTTP_Proxy cfg) then urlParse (HTTP_Proxy cfg) else None)
        (mkTLSConfig (HTTP_TLSInsecure cfg) sniHost roots)
        (if sni then Some (HTTP_Host cfg) else None) in
    if isSet (HTTP_ResponseRegex cfg) && negb (regexpCompiles (HTTP_ResponseRegex cfg))
    then Err (Errorf "invalid response_regex: %w" [])
    else if isSet (HTTP_ResponseJQ cfg) && negb (jqParses (HTTP_ResponseJQ cfg))
    then Err (Errorf "invalid response_jq: %w" [])
    else Ok (mkHTTPChecker cfg transport (compiled (HTTP_ResponseRegex cfg)) (compiled (HTTP_ResponseJQ cfg))
               sniHost).

(** The URL of the request. *)
Definition requestURL (c : HTTPChecker) : string :=
  let urlHost := if isEmpty (hc_sniHost c) then HTTP_Host (hc_cfg c) else hc_sniHost c in
  let host := match ParseIP urlHost with
              | Some ip => if isNil (To4 ip) then "[" +:+ urlHost +:+ "]" else urlHost
              | None => urlHost
              end in
  HTTP_Proto (hc_cfg c) +:+ "://" +:+ host +:+ ":" +:+ Itoa (HTTP_Port (hc_cfg c)) +:+ HTTP_URL (hc_cfg c).

(** One configured header: [strings.EqualFold(k, "Host")] goes to the host. *)
Definition setHeader (st : gmap string string * option string) (kv : string * string)
    : gmap string string * option string :=
  if decide (ToLower kv.1 = "host") then (st.1, Some kv.2)
  else (<[CanonicalHeaderKey kv.1 := kv.2]> st.1, st.2).

Definition requestHeaders (userAgent : string) (cfg : HTTPCheckConfig)
    : gmap string string * option string :=
  foldl setHeader ({["User-Agent" := userAgent]}, None) (map_to_list (entries (HTTP_Headers cfg))).

(** The request the client sends; [Req_Host] is set by a Host header. *)
Record Request := mkRequest {
  Req_Method : string;
  Req_URL : string;
  Req_Header : gmap string string;
  Req_Host : option string }.

Definition requestOf (userAgent : string) (c : HTTPChecker) : Request :=
  let '(header, host) := requestHeaders userAgent (hc_cfg c) in
  mkRequest (HTTP_Method (hc_cfg c)) (requestURL c) header host.

(** A response: its code, the end of its certificate, and what reading the
    body gives. *)
Record Response := mkResponse {
  Resp_StatusCode : Z;
  Resp_NotAfter : option Z;
  Resp_Body : result error string }.

(** [%v] of a slice of ints. *)
Definition showCodes (l : list Z) : string := "[" +:+ Join (Itoa <$> l) " " +:+ "]".

(** The jq part of [evaluateResponse]; [None] when the body passes. *)
Definition evaluateJQ (query body : string) (dur : Z) : option Result :=
  match jsonUnmarshal body with
  | Some err => Some (failedErr dur err ("response is not valid JSON: " +:+ errText err))
  | None =>
      match jqRun query body with
      | JQNone => Some (failed dur "jq expression produced no output")
      | JQError err => Some (failedErr dur err ("jq error: " +:+ errText err))
      | JQValue true _ => None
      | JQValue false v => Some (failed dur ("jq expression is not true: " +:+ v))
      end
  end.

(** The body matchers, in order; [None] when all pass. *)
Definition evaluateBody (c : HTTPChecker) (body : string) (dur : Z) : option Result :=
  let text := HTTP_ResponseText (hc_cfg c) in
  if isSet text && negb (Contains body text) then Some (failed dur ("body missing " +:+ quoted text))
  else
    match hc_reBody c with
    | Some re =>
        if regexpMatch re body then
          match hc_jqQuery c with Some q => evaluateJQ q body dur | None => None end
        else Some (failed dur ("body does not match regex " +:+ quoted (HTTP_ResponseRegex (hc_cfg c))))
    | None => match hc_jqQuery c with Some q => evaluateJQ q body dur | None => None end
    end.

(** [evaluateResponse]. *)
Definition evaluateResponse (c : HTTPChecker) (resp : Response) (dur : Z) : Result :=
  let ok := mkResult true ("HTTP " +:+ Itoa (Resp_StatusCode resp) +:+ " OK") dur None false None in
  let codes := elems (HTTP_ResponseCodes (hc_cfg c)) in
  if negb (mem (Resp_StatusCode resp) codes) then
    failed dur ("unexpected status " +:+ Itoa (Resp_StatusCode resp) +:+ " (want " +:+ showCodes codes +:+ ")")
  else if isSet (HTTP_ResponseText (hc_cfg c)) || negb (isNil (hc_reBody c)) || negb (isNil (hc_jqQuery c)) then
    match Resp_Body resp with
    | Err err => failedErr dur err "error reading body"
    | Ok body => default ok (evaluateBody c (limitBytes maxBodyBytes body) dur)
    end
  else ok.

(** [userAgent]; [version] is set when the binary is linked. *)
Definition userAgent (version : string) : string :=
  "pathosd/" +:+ (if isEmpty version then "dev" else version).

(** [HTTPChecker.Check], from what [NewRequest] and [Do] return. *)
Definition HTTP_Check (userAgent : string) (c : HTTPChecker) (newRequest : string → string → goerror)
    (do_ : Transport → Request → result error Response) (late : bool) (dur : Z) : Result :=
  match newRequest (HTTP_Method (hc_cfg c)) (requestURL c) with
  | Some err => failedErr dur err (errText err)
  | None =>
      match do_ (hc_transport c) (requestOf userAgent c) with
      | Err err => mkResult false (errText err) dur (Some err) late None
      | Ok resp =>
          withDetails (evaluateResponse c resp dur)
            (DetailsHTTP (mkHTTPDetails (Resp_StatusCode resp) (default 0 (Resp_NotAfter resp))))
      end
  end.

(** ** DNS *)

(** [NewDNSChecker]. *)
Definition NewDNSChecker (cfg : DNSCheckConfig) : DNSCheckConfig :=
  mkDNSCheckConfig (DNS_Names cfg) (DNS_Resolver cfg) (DNS_Port cfg) (ToUpper (DNS_QueryType cfg)).

(** [dns.RcodeToString] and [dns.StringToType] are tables of miekg/dns. *)
Context (rcodeToString : Z → string) (stringToType : string → Z).

(** The loop of [Check]; [exchange] is the answer for a name, the rcode and
    the number of records. *)
Fixpoint dnsLoop (exchange : string → result error (Z * Z)) (late : bool) (dur : Z)
    (names : list string) (details : list DNSNameDetails) : list DNSNameDetails * option Result :=
  match names with
  | [] => (details, None)
  | name :: names' =>
      match exchange name with
      | Err err =>
          (details, Some (mkResult false ("query " +:+ name +:+ ": " +:+ errText err) dur (Some err)
                            late None))
      | Ok (rcode, answers) =>
          let details := details ++ [mkDNSNameDetails name rcode answers] in
          if decide (rcode ≠ 0) then
            (details, Some (failed dur ("query " +:+ name +:+ ": " +:+ rcodeToString rcode)))
          else if decide (answers = 0) then
            (details, Some (failed dur ("query " +:+ name +:+ ": no answers")))
          else dnsLoop exchange late dur names' details
      end
  end.

(** [DNSChecker.Check]; [exchange] asks a server for a name and a type, the
    name made fully qualified by the client library ([dns.Fqdn]) included. *)
Definition DNS_Check (cfg : DNSCheckConfig) (exchange : string → Z → string → result error (Z * Z))
    (late : bool) (dur : Z) : Result :=
  let server := JoinHostPort (DNS_Resolver cfg) (Itoa (DNS_Port cfg)) in
  let qtype := stringToType (DNS_QueryType cfg) in
  let '(details, r) := dnsLoop (exchange server qtype) late dur (elems (DNS_Names cfg)) [] in
  withDetails
    (default (mkResult true ("DNS OK: " +:+ Join (elems (DNS_Names cfg)) ", ") dur None false None) r)
    (DetailsDNS (mkDNSDetails details)).

(** ** Ping *)

(** [float64] division, and [%.1f]. *)
Definition float_div (a b : float64) : float64 := SFdiv 53 1024 a b.
Definition float_mul (a b : float64) : float64 := SFmul 53 1024 a b.
Definition float_100 : float64 := S754_finite false 7036874417766400 (-46).
Context (showFloat1 : float64 → string).

Record Pinger := mkPinger {
  Pinger_Addr : string;
  Pinger_Count : Z;
  Pinger_Privileged : bool;
  Pinger_Source : string;
  Pinger_Timeout : option Z;
  Pinger_Interval : option Z }.

(** [newConfiguredPinger]; the library's own defaults are [EmptyString] and
    [None]. *)
Definition newConfiguredPinger (newPinger : string → goerror) (cfg : PingCheckConfig)
    : result error Pinger :=
  if isEmpty (Ping_DstIP cfg) then Err (Errorf "dst_ip is required" [])
  else match newPinger (Ping_DstIP cfg) with
       | Some err => Err err
       | None => Ok (mkPinger (Ping_DstIP cfg) (Ping_Count cfg) (Ping_Privileged cfg) (Ping_SrcIP cfg)
                       (Ping_Timeout cfg) (Ping_Interval cfg))
       end.

Record PingStats := mkPingStats {
  Stats_PacketLoss : float64;
  Stats_Rtts : list Z;
  Stats_Sent : Z;
  Stats_Recv : Z }.

(** What happens first: the context ends, or the pinger returns. *)
Inductive pingEvent := PingCtxDone | PingRun (r : result error PingStats).

(** [PingChecker.Check]. *)
Definition Ping_Check (cfg : PingCheckConfig) (newPinger : string → goerror) (run : Pinger → pingEvent)
    (dur : Z) : Result :=
  match newConfiguredPinger newPinger cfg with
  | Err err => failedErr dur err (errText err)
  | Ok pinger =>
      match run pinger with
      | PingCtxDone => mkResult false "ping timed out" dur None true None
      | PingRun (Err err) => failedErr dur err (errText err)
      | PingRun (Ok stats) =>
          let lossRatio := float_div (Stats_PacketLoss stats) float_100 in
          let details := DetailsPing (mkPingDetails (Stats_Rtts stats) lossRatio (Stats_Sent stats)
                                        (Stats_Recv stats)) in
          if SFltb (Ping_MaxLossRatio cfg) lossRatio then
            withDetails (failed dur ("loss " +:+ showFloat1 (Stats_PacketLoss stats) +:+ "% > max " +:+
              showFloat1 (float_mul (Ping_MaxLossRatio cfg) float_100) +:+ "%")) details
          else
            withDetails (mkResult true ("ping OK " +:+ Itoa (Stats_Recv stats) +:+ "/" +:+
              Itoa (Stats_Sent stats) +:+ " loss=" +:+ showFloat1 (Stats_PacketLoss stats) +:+ "%")
              dur None false None) details
      end
  end.

(** ** TCP and UDP *)

(** The guards both share: host and port must be there. *)
Definition hostPortGuard (typ host : string) (port dur : Z) : option Result :=
  let required what :=
    let e := Errorf (typ +:+ " check: " +:+ what +:+ " is required") [] in
    Some (failedErr dur e (errText e)) in
  if isEmpty host then required "host" else if decide (port = 0) then required "port" else None.

(** [TCPChecker.Check]. *)
Definition TCP_Check (cfg : TCPCheckConfig) (dial : string → goerror) (ctxErr : bool) (dur : Z) : Result :=
  match hostPortGuard "tcp" (TCP_Host cfg) (TCP_Port cfg) dur with
  | Some r => r
  | None =>
      let addr := JoinHostPort (TCP_Host cfg) (Itoa (TCP_Port cfg)) in
      match dial addr with
      | Some err => mkResult false ("dial tcp " +:+ addr +:+ ": " +:+ errText err) dur (Some err) ctxErr None
      | None => mkResult true ("tcp " +:+ addr +:+ ": connection accepted") dur None false None
      end
  end.

(** What a read of the connected UDP socket returns. *)
Inductive udpRead := UDPData | UDPTimeout (e : error) | UDPRefused (e : error) | UDPError (e : error).

(** [isConnRefused], on the errno that [errors.As] finds in the chain of the
    error, and how [Check] tells the errors of a read apart. *)
Definition ECONNREFUSED : Z := 111.
Definition isConnRefused (errno : option Z) : bool := bool_decide (errno = Some ECONNREFUSED).
Definition udpReadError (timeout : bool) (errno : option Z) (e : error) : udpRead :=
  if timeout then UDPTimeout e else if isConnRefused errno then UDPRefused e else UDPError e.

(** The UDP socket as the checker uses it; each call may depend on what it is
    given.  [Udp_Remaining] is the time to the deadline of the context, if it
    has one. *)
Record UDPSocket := mkUDPSocket {
  Udp_Resolve : string → goerror;
  Udp_Dial : string → goerror;
  Udp_Remaining : option Z;
  Udp_SetDeadline : goerror;
  Udp_Write : string → goerror;
  Udp_SetReadDeadline : Z → goerror;
  Udp_Read : string → Z → udpRead }.

(** The time left to read: 500 ms or until the deadline. *)
Definition udpReadTimeout (remaining : option Z) : Z :=
  match remaining with
  | Some r => if decide (r < 500 * millisecond) then r else 500 * millisecond
  | None => 500 * millisecond
  end.

Definition udpPayload (cfg : UDPCheckConfig) : string :=
  if isEmpty (UDP_Payload cfg) then String "000" EmptyString else UDP_Payload cfg.

(** [UDPChecker.Check]. *)
Definition UDP_Check (cfg : UDPCheckConfig) (so : UDPSocket) (dur : Z) : Result :=
  let addr := JoinHostPort (UDP_Host cfg) (Itoa (UDP_Port cfg)) in
  let payload := udpPayload cfg in
  let readTimeout := udpReadTimeout (Udp_Remaining so) in
  let deadline := match Udp_Remaining so with Some _ => Udp_SetDeadline so | None => None end in
  match hostPortGuard "udp" (UDP_Host cfg) (UDP_Port cfg) dur with
  | Some r => r
  | None =>
  match Udp_Resolve so addr with
  | Some err => failedErr dur err ("resolve " +:+ addr +:+ ": " +:+ errText err)
  | None =>
  match Udp_Dial so addr with
  | Some err => failedErr dur err ("dial udp " +:+ addr +:+ ": " +:+ errText err)
  | None =>
  match deadline with
  | Some err => failedErr dur err (errText err)
  | None =>
  match Udp_Write so payload with
  | Some err => failedErr dur err ("write: " +:+ errText err)
  | None =>
  match Udp_SetReadDeadline so readTimeout with
  | Some err => failedErr dur err (errText err)
  | None =>
  match Udp_Read so payload readTimeout with
  | UDPData => mkResult true ("udp " +:+ addr +:+ ": received response") dur None false None
  | UDPTimeout _ =>
      mkResult true ("udp " +:+ addr +:+ ": no ICMP port-unreachable (port open)") dur None false None
  | UDPRefused _ => failed dur ("udp " +:+ addr +:+ ": ICMP port unreachable (port closed)")
  | UDPError err => failedErr dur err ("udp " +:+ addr +:+ ": " +:+ errText err)
  end end end end end end end.

End Checkers.
End Checkers.
Export Checkers.
