(* ===== verification/Backends.v ===== *)
(** * The checkers with richer answers: internal/checks/{listen,grpc,kafka}.go

    As in Checkers: every [Check] is a function of what the kernel's socket
    tables, the RPC server or the brokers answer. *)

From S2P Require Import Prelude GoStrings NetIP Net Config Model Defaults Validate LocalAddr Checkers.
From Stdlib Require Import Ascii SpecFloat.

Module Backends.

(** [path/filepath] of two elements: [Clean] keeps a stack of the elements. *)
Fixpoint pathElems (s : string) (cur : string) : list string :=
  match s with
  | EmptyString => [cur]
  | String "/" s' => cur :: pathElems s' EmptyString
  | String a s' => pathElems s' (cur +:+ String a EmptyString)
  end.

Definition cleanElem (rooted : bool) (stack : list string) (e : string) : list string :=
  if mem e [EmptyString; "."] then stack
  else if decide (e = "..") then
    match stack with
    | top :: rest => if decide (top = "..") then e :: stack else rest
    | [] => if rooted then [] else [e]
    end
  else e :: stack.

Definition filepathClean (path : string) : string :=
  let rooted := HasPrefix path "/" in
  let body := Join (rev (foldl (cleanElem rooted) [] (pathElems path EmptyString))) "/" in
  if rooted then "/" +:+ body else if isEmpty body then "." else body.

Definition filepathJoin (a b : string) : string :=
  match filter (λ e, e ≠ EmptyString) [a; b] with
  | [] => EmptyString
  | l => filepathClean (Join l "/")
  end.

Section Backends.
Context `{GoStd} `{CheckStd} (errText : error → string).

(** ** Listen *)

(** [NewListenChecker]. *)
Definition NewListenChecker (cfg : ListenCheckConfig) : ListenCheckConfig :=
  mkListenCheckConfig (Listen_Proto cfg) (Listen_Port cfg) (Listen_Host cfg) (Listen_NetnsPID cfg)
    (orString (Listen_Procfs cfg) "/proc").

(** [procRoot]. *)
Definition procRoot (cfg : ListenCheckConfig) : string :=
  if decide (0 < Listen_NetnsPID cfg) then filepathJoin (Listen_Procfs cfg) (Itoa (Listen_NetnsPID cfg))
  else Listen_Procfs cfg.

Definition tcpListen : Z := 0x0A.

(** A line of a socket table. *)
Record SocketLine := mkSocketLine {
  Line_LocalAddr : IPBytes;
  Line_LocalPort : Z;
  Line_St : Z }.

Definition IsUnspecified (a : Addr) : bool :=
  match a with Addr4 v => bool_decide (v = 0) | Addr6 v zone => bool_decide (v = 0 ∧ zone = EmptyString) end.

(** [netip.AddrPortFrom(addr, port).String()]. *)
Definition addrPort (a : Addr) (port : Z) : string :=
  match a with
  | Addr4 _ => Addr_String a +:+ ":" +:+ Itoa port
  | Addr6 _ _ => "[" +:+ Addr_String a +:+ "]:" +:+ Itoa port
  end.

(** One line against the port, the state and the host. *)
Definition matchLine (cfg : ListenCheckConfig) (tcp : bool) (host : option Addr) (l : option SocketLine)
    : list string :=
  match l with
  | None => []
  | Some l =>
      if negb (bool_decide (Line_LocalPort l = Listen_Port cfg)) then []
      else if tcp && negb (bool_decide (Line_St l = tcpListen)) then []
      else
        match AddrFromSlice (Line_LocalAddr l) with
        | None => []
        | Some addr =>
            let addr := Unmap addr in
            match host with
            | None => [addrPort addr (Listen_Port cfg)]
            | Some h =>
                if negb (IsUnspecified addr) && negb (bool_decide (addr = h)) then []
                else if Is6 h && IsUnspecified addr && Is4 addr then []
                else [addrPort addr (Listen_Port cfg)]
            end
        end
  end.

(** [match] over a table. *)
Definition matchSockets (cfg : ListenCheckConfig) (tcp : bool) (host : option Addr)
    (lines : list (option SocketLine)) : list string :=
  concat (matchLine cfg tcp host <$> lines).

(** Reading a table: it may be missing when the family is not enabled. *)
Inductive tableRead := TableMissing | TableErr (e : error) | TableLines (l : list (option SocketLine)).

Fixpoint tablesLoop (cfg : ListenCheckConfig) (tcp : bool) (host : option Addr) (tables : list tableRead)
    (sockets : list string) : result error (list string) :=
  match tables with
  | [] => Ok sockets
  | TableMissing :: rest => tablesLoop cfg tcp host rest sockets
  | TableErr e :: _ => Err e
  | TableLines l :: rest => tablesLoop cfg tcp host rest (sockets ++ matchSockets cfg tcp host l)
  end.

(** What procfs holds: whether it opens, and the two tables of a protocol. *)
Record ProcNet := mkProcNet {
  Proc_NewFS : goerror;
  Proc_Tables : string → list tableRead }.

(** The host to look for, if one is configured. *)
Definition listenHost (cfg : ListenCheckConfig) : result error (option Addr) :=
  if isEmpty (Listen_Host cfg) then Ok None
  else match ParseAddr (Listen_Host cfg) with
       | Some a => Ok (Some (Unmap a))
       | None => Err (External "netip.ParseAddr")
       end.

(** [ListenChecker.Check]; [proc] is what lies under a root. *)
Definition Listen_Check (cfg : ListenCheckConfig) (proc : string → ProcNet) (dur : Z) : Result :=
  let proto := Listen_Proto cfg in
  let reject e := failedErr dur e (errText e) in
  if decide (Listen_Port cfg = 0) then reject (Errorf "listen check: port is required" [])
  else if negb (mem proto ["tcp"; "udp"])
  then reject (Errorf "listen check: proto must be tcp or udp, got %q" [proto])
  else
    match listenHost cfg with
    | Err err => failedErr dur err ("listen check: host " +:+ quoted (Listen_Host cfg) +:+ ": " +:+ errText err)
    | Ok host =>
        match Proc_NewFS (proc (procRoot cfg)) with
        | Some err => failedErr dur err ("listen check: procfs " +:+ procRoot cfg +:+ ": " +:+ errText err)
        | None =>
            match tablesLoop cfg (bool_decide (proto = "tcp")) host (Proc_Tables (proc (procRoot cfg)) proto) [] with
            | Err err => failedErr dur err ("listen check: " +:+ errText err)
            | Ok sockets =>
                let target := (if isEmpty (Listen_Host cfg) then EmptyString else Listen_Host cfg +:+ ":")
                              +:+ Itoa (Listen_Port cfg) in
                let details := DetailsListen (mkListenDetails sockets) in
                match sockets with
                | [] =>
                    let detail := "listen " +:+ proto +:+ " " +:+ target +:+ ": no socket bound" in
                    withDetails (failedErr dur (Errorf detail []) detail) details
                | _ =>
                    withDetails (mkResult true ("listen " +:+ proto +:+ " " +:+ target +:+ ": bound on " +:+
                                   Join sockets ", ") dur None false None) details
                end
            end
        end
    end.

(** ** gRPC *)

(** [grpcCodesByName]. *)
Definition grpcCodesByName : list (string * Z) :=
  [("ok", 0); ("canceled", 1); ("unknown", 2); ("invalidargument", 3); ("deadlineexceeded", 4);
   ("notfound", 5); ("alreadyexists", 6); ("permissiondenied", 7); ("resourceexhausted", 8);
   ("failedprecondition", 9); ("aborted", 10); ("outofrange", 11); ("unimplemented", 12); ("internal", 13);
   ("unavailable", 14); ("dataloss", 15); ("unauthenticated", 16)].

(** [parseGRPCCode]. *)
Definition parseGRPCCode (name : string) : option Z :=
  match list_find (λ kv, kv.1 = ToLower (dropChar "_"%char name)) grpcCodesByName with
  | Some (_, (_, c)) => Some c
  | None => None
  end.

Record GRPCConn := mkGRPCConn { Conn_Addr : string; Conn_TLS : option TLSConfig }.

Record GRPCChecker := mkGRPCChecker {
  gc_cfg : GRPCCheckConfig;
  gc_conn : GRPCConn;
  gc_okCodes : gset Z;
  gc_method : string }.

Fixpoint parseOKCodes (names : list string) (codes : gset Z) : result error (gset Z) :=
  match names with
  | [] => Ok codes
  | name :: names' =>
      match parseGRPCCode name with
      | None => Err (Errorf "grpc: unknown status code %q in ok_codes" [name])
      | Some c => parseOKCodes names' ({[c]} ∪ codes)
      end
  end.

(** [NewGRPCChecker]; the connection is its target and its TLS config. *)
Definition NewGRPCChecker (cfg : GRPCCheckConfig) : result error GRPCChecker :=
  if GRPC_TLSInsecure cfg && isSet (GRPC_TLSCACert cfg)
  then Err (Errorf "tls_ca_cert cannot be set together with tls_insecure" [])
  else
    try creds <-
      (if GRPC_TLS cfg then
         try roots <- loadCA None (GRPC_TLSCACert cfg) ;
         Ok (Some (mkTLSConfig (GRPC_TLSInsecure cfg) (GRPC_TLSServerName cfg) roots))
       else Ok None) ;
    let addr := JoinHostPort (GRPC_Host cfg) (Itoa (GRPC_Port cfg)) in
    match grpcNewClient addr with
    | Some e => Err (Wrapf "grpc: creating client for %s: %w" [addr] e)
    | None =>
        try codes <- parseOKCodes (elems (GRPC_OKCodes cfg)) ∅ ;
        Ok (mkGRPCChecker cfg (mkGRPCConn addr creds) (if decide (codes = ∅) then {[0]} else codes)
              (if isSet (GRPC_Method cfg) && negb (HasPrefix (GRPC_Method cfg) "/")
               then "/" +:+ GRPC_Method cfg else GRPC_Method cfg))
    end.

(** A gRPC status: the code, its message, and the error of the call if it has
    one; [codeName] is [codes.Code.String]. *)
Record grpcStatus := mkGRPCStatus { St_Code : Z; St_Message : string; St_Err : goerror }.
Context (codeName : Z → string).

Definition grpcTarget (c : GRPCChecker) : string :=
  GRPC_Host (gc_cfg c) +:+ ":" +:+ Itoa (GRPC_Port (gc_cfg c)).

(** [checkStandardHealth]: a status on error, the serving status otherwise. *)
Definition checkStandardHealth (c : GRPCChecker) (resp : grpcStatus + string) (ctxErr : bool) (dur : Z)
    : Result :=
  let what := "grpc health check " +:+ grpcTarget c +:+ " service=" +:+ quoted (GRPC_Service (gc_cfg c)) +:+ ": " in
  match resp with
  | inl st =>
      withDetails (mkResult false (what +:+ St_Message st) dur (St_Err st) ctxErr None)
        (DetailsGRPC (mkGRPCDetails (St_Code st) EmptyString))
  | inr status =>
      let details := DetailsGRPC (mkGRPCDetails 0 status) in
      if decide (status = "SERVING") then
        withDetails (mkResult true (what +:+ "SERVING") dur None false None) details
      else
        withDetails (failedErr dur (Errorf "not serving: %s" [status])
                       (what +:+ "status=" +:+ status +:+ " (want SERVING)")) details
  end.

(** [checkCustomMethod]. *)
Definition checkCustomMethod (c : GRPCChecker) (st : grpcStatus) (ctxErr : bool) (dur : Z) : Result :=
  let what := "grpc " +:+ grpcTarget c +:+ gc_method c +:+ ": code=" +:+ codeName (St_Code st) in
  let details := DetailsGRPC (mkGRPCDetails (St_Code st) EmptyString) in
  if decide (St_Code st ∈ gc_okCodes c) then withDetails (mkResult true what dur None false None) details
  else
    withDetails
      (mkResult false (if isEmpty (St_Message st) then what else what +:+ ": " +:+ St_Message st) dur
         (Some (default (Errorf "unexpected status %s" [codeName (St_Code st)]) (St_Err st))) ctxErr None)
      details.

(** [GRPCChecker.Check]: the health service is asked for a service, or the
    method is called, on the connection and with the metadata. *)
Definition GRPC_Check (c : GRPCChecker)
    (health : GRPCConn → gmap string string → string → grpcStatus + string)
    (invoke : GRPCConn → gmap string string → string → grpcStatus) (ctxErr : bool) (dur : Z) : Result :=
  let md := entries (GRPC_Metadata (gc_cfg c)) in
  if isEmpty (gc_method c)
  then checkStandardHealth c (health (gc_conn c) md (GRPC_Service (gc_cfg c))) ctxErr dur
  else checkCustomMethod c (invoke (gc_conn c) md (gc_method c)) ctxErr dur.

(** ** Kafka *)

(** The options of the client that depend on the config. *)
Record KafkaOpts := mkKafkaOpts {
  Opt_SeedBroker : string;
  Opt_ClientID : string;
  Opt_TLS : option TLSConfig;
  Opt_SASL : option KafkaSASLConfig }.

Record KafkaChecker := mkKafkaChecker {
  kc_cfg : KafkaCheckConfig;
  kc_opts : KafkaOpts;
  kc_target : string }.

(** [kafkaTLSConfig] and [kafkaSASL]: a mechanism is the config it is made
    from. *)
Definition kafkaTLSConfig (cfg : KafkaCheckConfig) : result error TLSConfig :=
  try roots <- loadCA None (Kafka_TLSCACert cfg) ;
  Ok (mkTLSConfig (Kafka_TLSInsecure cfg) (orString (Kafka_TLSServerName cfg) (Kafka_Host cfg)) roots).

Definition kafkaSASL (s : KafkaSASLConfig) : result error KafkaSASLConfig :=
  if mem (SASL_Mechanism s) [KafkaSASLPlain; KafkaSASLScramSHA256; KafkaSASLScramSHA512] then Ok s
  else Err (Errorf "unsupported sasl mechanism %q" [SASL_Mechanism s]).

(** [NewKafkaChecker]. *)
Definition NewKafkaChecker (cfg : KafkaCheckConfig) : result error KafkaChecker :=
  let addr := JoinHostPort (Kafka_Host cfg) (Itoa (Kafka_Port cfg)) in
  let clientID := orString (Kafka_ClientID cfg) "pathosd" in
  try tls <- (if Kafka_TLS cfg then try tc <- kafkaTLSConfig cfg ; Ok (Some tc) else Ok None) ;
  try sasl <- (match Kafka_SASL cfg with Some s => try m <- kafkaSASL s ; Ok (Some m) | None => Ok None end) ;
  Ok (mkKafkaChecker cfg (mkKafkaOpts addr clientID tls sasl) ("kafka " +:+ addr)).

(** A partition and a topic of the metadata; the partitions come sorted. *)
Record Partition := mkPartition { Part_ID : Z; Part_Leader : Z; Part_Err : goerror }.
Record TopicDetail := mkTopicDetail { TD_Topic : string; TD_Err : goerror; TD_Partitions : list Partition }.

Definition noLeader (p : Partition) : bool := negb (isNil (Part_Err p)) || (Part_Leader p <? 0).
Definition partitionErr (p : Partition) : error :=
  match Part_Err p with
  | Some e => Wrapf "partition %d: %w" [Itoa (Part_ID p)] e
  | None => Errorf "partition %d has no leader" [Itoa (Part_ID p)]
  end.

(** The loop over the partitions: how many have no leader, and the first
    error. *)
Fixpoint leaderLoop (l : list Partition) (leaderless : Z) (firstErr : goerror) : Z * goerror :=
  match l with
  | [] => (leaderless, firstErr)
  | p :: l' =>
      if noLeader p
      then leaderLoop l' (leaderless + 1) (match firstErr with Some _ => firstErr | None => Some (partitionErr p) end)
      else leaderLoop l' leaderless firstErr
  end.

(** [evalKafkaTopic]: the partitions, those without a leader, the error. *)
Definition evalKafkaTopic (td : TopicDetail) : Z * Z * goerror :=
  match TD_Err td with
  | Some e => (0, 0, Some (Wrapf "topic %q: %w" [TD_Topic td] e))
  | None =>
      match TD_Partitions td with
      | [] => (0, 0, Some (Errorf "topic %q has no partitions" [TD_Topic td]))
      | l =>
          let '(leaderless, firstErr) := leaderLoop l 0 None in
          if decide (0 < leaderless) then
            (len l, leaderless,
             Some (Wrapf "topic %q: %d of %d partitions without leader (%w)"
                     [TD_Topic td; Itoa leaderless; Itoa (len l)] (default (External "nil") firstErr)))
          else (len l, 0, None)
      end
  end.

Record KafkaMeta := mkKafkaMeta {
  Meta_Cluster : string;
  Meta_Controller : Z;
  Meta_Brokers : Z;
  Meta_Topics : gmap string TopicDetail }.

(** [KafkaChecker.Check], from what the client and the brokers return;
    [metadata] is asked for a topic or, without one, for the brokers only. *)
Definition Kafka_Check (c : KafkaChecker) (newClient : KafkaOpts → goerror)
    (metadata : KafkaOpts → option string → result error KafkaMeta) (ctxErr : bool) (dur : Z) : Result :=
  let topic := Kafka_Topic (kc_cfg c) in
  let fail err detail details :=
    mkResult false (kc_target c +:+ ": " +:+ detail) dur (Some err) ctxErr (Some (DetailsKafka details)) in
  let none := mkKafkaDetails EmptyString 0 0 topic 0 0 in
  match newClient (kc_opts c) with
  | Some err => fail err ("client: " +:+ errText err) none
  | None =>
      match metadata (kc_opts c) (if isEmpty topic then None else Some topic) with
      | Err err => fail err ("metadata: " +:+ errText err) none
      | Ok meta =>
          let details p l := mkKafkaDetails (Meta_Cluster meta) (Meta_Controller meta) (Meta_Brokers meta)
                               topic p l in
          let minBrokers := if decide (Kafka_MinBrokers (kc_cfg c) ≤ 0) then 1 else Kafka_MinBrokers (kc_cfg c) in
          if decide (Meta_Brokers meta < minBrokers) then
            let err := Errorf "%d brokers in metadata, need %d" [Itoa (Meta_Brokers meta); Itoa minBrokers] in
            fail err (errText err) (details 0 0)
          else
            let ok := kc_target c +:+ ": " +:+ Itoa (Meta_Brokers meta) +:+ " brokers" in
            if isEmpty topic then mkResult true ok dur None false (Some (DetailsKafka (details 0 0)))
            else
              match Meta_Topics meta !! topic with
              | None =>
                  let err := Errorf "topic %q not in metadata" [topic] in
                  fail err (errText err) (details 0 0)
              | Some td =>
                  let '(partitions, leaderless, terr) := evalKafkaTopic td in
                  match terr with
                  | Some err => fail err (errText err) (details partitions leaderless)
                  | None =>
                      mkResult true (ok +:+ ", topic " +:+ topic +:+ ": " +:+ Itoa partitions +:+
                                     " partitions with leader") dur None false
                        (Some (DetailsKafka (details partitions leaderless)))
                  end
              end
      end
  end.

End Backends.
End Backends.
Export Backends.
