(* ===== verification/SQLBackend.v ===== *)
(** * The SQL checker and the checker factory: internal/checks/{sql,factory}.go

    A query is answered by rows of driver values, which are normalised to what
    jq understands; the check passes when every query runs and every
    [result_jq] gives true. *)

From S2P Require Import Prelude GoStrings NetIP Net Config Model Defaults Validate LocalAddr.
From S2P Require Import Checkers Backends.
From Stdlib Require Import Ascii SpecFloat.

Module SQLBackend.

(** Driver values by their dynamic type; a [float32] by its value as a
    [float64], and what the JSON round trip makes of any other type. *)
Inductive jvalue :=
| JNull
| JInt (z : Z)
| JFloat (f : float64)
| JString (s : string)
| JBool (b : bool)
| JOther (text : string).

Inductive SQLValue :=
| VNil
| VBytes (s : string)
| VString (s : string)
| VInt64 (z : Z)
| VInt32 (z : Z)
| VInt (z : Z)
| VFloat32 (f : float64)
| VFloat64 (f : float64)
| VBool (b : bool)
| VTime (t : Z)
| VOther (roundTrip : jvalue).

(** [strconv.ParseInt(s, 10, 0)] on a 64-bit machine. *)
Definition ParseInt (s : string) : option Z :=
  let '(neg, digits) :=
    match s with
    | String "-" s' => (true, s')
    | String "+" s' => (false, s')
    | _ => (false, s)
    end in
  match ParseUint digits 64 with
  | Some n =>
      if neg then if decide (n ≤ 2 ^ 63) then Some (- n) else None
      else if decide (n < 2 ^ 63) then Some n else None
  | None => None
  end.

Definition numericTypes : list string :=
  ["TINYINT"; "SMALLINT"; "MEDIUMINT"; "INT"; "INTEGER"; "BIGINT"; "DECIMAL"; "NUMERIC"; "FLOAT"; "DOUBLE";
   "REAL"; "INT2"; "INT4"; "INT8"; "FLOAT4"; "FLOAT8"; "OID"; "YEAR"].

(** [isNumericSQLType]. *)
Definition isNumericSQLType (name : string) : bool :=
  mem (ToUpper (default name (CutPrefix name "UNSIGNED "))) numericTypes.

(** What [strconv.ParseFloat], [time.Time.Format], a query and gojq on rows
    return. *)
Abbreviation sqlRow := (gmap string jvalue).
Class SQLStd := {
  ParseFloat : string → option float64;
  formatTime : Z → string;
  jqRunRows : string → list sqlRow → jqOutput }.

Section SQL.
Context `{GoStd} `{CheckStd} `{SQLStd} (errText : error → string).

(** [normalizeSQLString] and [normalizeSQLValue]. *)
Definition normalizeSQLString (s : string) (numeric : bool) : jvalue :=
  if numeric then
    match ParseInt s with
    | Some i => JInt i
    | None => match ParseFloat s with Some f => JFloat f | None => JString s end
    end
  else JString s.

Definition normalizeSQLValue (v : SQLValue) (numeric : bool) : jvalue :=
  match v with
  | VNil => JNull
  | VBytes s | VString s => normalizeSQLString s numeric
  | VInt64 z | VInt32 z | VInt z => JInt z
  | VFloat32 f | VFloat64 f => JFloat f
  | VBool b => JBool b
  | VTime t => JString (formatTime t)
  | VOther j => j
  end.

(** What a query gives: the columns with their types, the rows as they are
    scanned, and the error the iteration ends with. *)
Record Rows := mkRows {
  Rows_Columns : result error (list string);
  Rows_Types : result error (list string);
  Rows_Scan : list (result error (list SQLValue));
  Rows_Err : goerror }.

Definition rowOf (cols : list string) (numeric : list bool) (raw : list SQLValue) : sqlRow :=
  foldl (λ row e, <[e.1.1 := normalizeSQLValue e.2 e.1.2]> row) ∅ (zip (zip cols numeric) raw).

(** [for rows.Next() && len(out) < maxRows]. *)
Fixpoint fetch (cols : list string) (numeric : list bool) (maxRows : Z)
    (rows : list (result error (list SQLValue))) (out : list sqlRow) : result error (list sqlRow) :=
  match rows with
  | [] => Ok out
  | r :: rows' =>
      if decide (len out < maxRows) then
        try raw <- r ;
        fetch cols numeric maxRows rows' (out ++ [rowOf cols numeric raw])
      else Ok out
  end.

(** [numeric]: one flag per column. *)
Definition numericOf (cols types : list string) : list bool :=
  resize (length cols) false (isNumericSQLType <$> types).

(** [runQuery]: the rows and the error, both set when the iteration failed. *)
Definition runQuery (query : result error Rows) (maxRows : Z) : list sqlRow * goerror :=
  match query with
  | Err e => ([], Some e)
  | Ok rows =>
      match Rows_Columns rows, Rows_Types rows with
      | Err e, _ | Ok _, Err e => ([], Some e)
      | Ok cols, Ok types =>
          match fetch cols (numericOf cols types) maxRows (Rows_Scan rows) [] with
          | Err e => ([], Some e)
          | Ok out => (out, Rows_Err rows)
          end
      end
  end.

(** [evalJQ]. *)
Definition evalJQ (q : string) (rows : list sqlRow) : goerror :=
  match jqRunRows q rows with
  | JQNone => Some (Errorf "result_jq produced no output" [])
  | JQError e => Some (Wrapf "result_jq: %w" [] e)
  | JQValue true _ => None
  | JQValue false v => Some (Errorf "result_jq is not true: %v" [v])
  end.

Record sqlQuery := mkSqlQuery { sq_name : string; sq_sql : string; sq_jq : option string }.

(** What the code sets of a driver's config. *)
Record Connector := mkConnector {
  Cn_Driver : string;
  Cn_Host : string;
  Cn_Port : Z;
  Cn_User : string;
  Cn_Password : string;
  Cn_Database : string;
  Cn_TLS : option TLSConfig }.

(** The pool of connections: one open at most, and idle ones kept or not. *)
Record DB := mkDB { DB_Connector : Connector; DB_MaxOpenConns : Z; DB_MaxIdleConns : Z }.

Record SQLChecker := mkSQLChecker {
  sq_cfg : SQLCheckConfig;
  sq_db : DB;
  sq_queries : list sqlQuery;
  sq_target : string }.

(** [sqlTLSConfig] and [sqlConnector]: the connector and the target. *)
Definition sqlTLSConfig (cfg : SQLCheckConfig) : result error (option TLSConfig) :=
  if SQL_TLS cfg then
    try roots <- loadCA None (SQL_TLSCACert cfg) ;
    Ok (Some (mkTLSConfig (SQL_TLSInsecure cfg) (orString (SQL_TLSServerName cfg) (SQL_Host cfg)) roots))
  else Ok None.

Definition sqlConnector (cfg : SQLCheckConfig) : result error (Connector * string) :=
  try tlsCfg <- sqlTLSConfig cfg ;
  let addr := JoinHostPort (SQL_Host cfg) (Itoa (SQL_Port cfg)) in
  let connector :=
    mkConnector (SQL_Driver cfg) (SQL_Host cfg) (SQL_Port cfg) (SQL_User cfg) (SQL_Password cfg)
      (SQL_Database cfg) tlsCfg in
  if decide (SQL_Driver cfg = SQLDriverMySQL) then
    match mysqlNewConnector cfg with
    | Some e => Err (Wrapf "mysql connector: %w" [] e)
    | None => Ok (connector, "mysql " +:+ addr)
    end
  else if decide (SQL_Driver cfg = SQLDriverPostgres) then
    match pgxParseConfig with
    | Some e => Err (Wrapf "postgres config: %w" [] e)
    | None => Ok (connector, "postgres " +:+ addr)
    end
  else Err (Errorf "unsupported sql driver %q" [SQL_Driver cfg]).

(** The loop of [newSQLChecker] over the queries. *)
Fixpoint compileQueries (i : nat) (l : list SQLQueryConfig) : result error (list sqlQuery) :=
  match l with
  | [] => Ok []
  | q :: l' =>
      let name := Query_EffectiveName q (Z.of_nat i) in
      if isSet (Query_ResultJQ q) && negb (jqParses (Query_ResultJQ q))
      then Err (Errorf "query %s: invalid result_jq: %w" [name])
      else
        try rest <- compileQueries (S i) l' ;
        Ok (mkSqlQuery name (Query_SQL q)
              (if isSet (Query_ResultJQ q) then Some (Query_ResultJQ q) else None) :: rest)
  end.

(** [newSQLChecker] and [NewSQLChecker]. *)
Definition newSQLChecker (cfg : SQLCheckConfig) (connector : Connector) : result error SQLChecker :=
  let queries := match elems (SQL_Queries cfg) with
                 | [] => [mkSQLQueryConfig EmptyString "SELECT 1" EmptyString]
                 | l => l
                 end in
  try qs <- compileQueries 0 queries ;
  Ok (mkSQLChecker cfg (mkDB connector 1 (if SQL_KeepAlive cfg then 1 else 0)) qs EmptyString).

Definition NewSQLChecker (cfg : SQLCheckConfig) : result error SQLChecker :=
  try ct <- sqlConnector cfg ;
  try c <- newSQLChecker cfg ct.1 ;
  Ok (mkSQLChecker (sq_cfg c) (sq_db c) (sq_queries c) ct.2).

Definition sqlMaxRowsDefault : Z := 100.

(** The loop of [Check]: [answer] is what a statement returns and how long it
    took.  [None] when every query passes. *)
Fixpoint sqlLoop (answer : string → result error Rows * Z) (target : string) (maxRows : Z)
    (l : list sqlQuery) (details : list SQLQueryDetails)
    : list SQLQueryDetails * option (error * string) :=
  match l with
  | [] => (details, None)
  | q :: l' =>
      let '(res, qDur) := answer (sq_sql q) in
      let '(rows, err) := runQuery res maxRows in
      let qd passed := mkSQLQueryDetails (sq_name q) (len rows) qDur passed in
      let fail e := (details ++ [qd false],
                     Some (e, target +:+ ": query " +:+ sq_name q +:+ ": " +:+ errText e)) in
      match err with
      | Some e => fail e
      | None =>
          match (match sq_jq q with Some jq => evalJQ jq rows | None => None end) with
          | Some e => fail e
          | None => sqlLoop answer target maxRows l' (details ++ [qd true])
          end
      end
  end.

(** [SQLChecker.Check]. *)
Definition SQL_Check (c : SQLChecker) (conn : DB → goerror) (answer : string → result error Rows * Z)
    (ctxErr : bool) (dur : Z) : Result :=
  let result details r :=
    match r with
    | Some (e, detail) => mkResult false detail dur (Some e) ctxErr (Some (DetailsSQL (mkSQLDetails details)))
    | None => mkResult true (sq_target c +:+ ": " +:+ Itoa (len (sq_queries c)) +:+ " queries ok") dur None false
                (Some (DetailsSQL (mkSQLDetails details)))
    end in
  match conn (sq_db c) with
  | Some e => result [] (Some (e, sq_target c +:+ ": connect: " +:+ errText e))
  | None =>
      let maxRows := if decide (SQL_MaxRows (sq_cfg c) ≤ 0) then sqlMaxRowsDefault else SQL_MaxRows (sq_cfg c) in
      let '(details, r) := sqlLoop answer (sq_target c) maxRows (sq_queries c) [] in
      result details r
  end.

(** ** The factory *)

(** A checker and its [Type]. *)
Inductive Checker :=
| CheckerHTTP (c : HTTPChecker)
| CheckerDNS (c : DNSCheckConfig)
| CheckerPing (c : PingCheckConfig)
| CheckerUDP (c : UDPCheckConfig)
| CheckerTCP (c : TCPCheckConfig)
| CheckerListen (c : ListenCheckConfig)
| CheckerSQL (c : SQLChecker)
| CheckerKafka (c : KafkaChecker)
| CheckerGRPC (c : GRPCChecker).

Definition Checker_Type (c : Checker) : string :=
  match c with
  | CheckerHTTP _ => "http" | CheckerDNS _ => "dns" | CheckerPing _ => "ping" | CheckerUDP _ => "udp"
  | CheckerTCP _ => "tcp" | CheckerListen _ => "listen" | CheckerSQL _ => "sql" | CheckerKafka _ => "kafka"
  | CheckerGRPC _ => "grpc"
  end.

(** A block that must be there, and its constructor. *)
Definition fromBlock {A C} (typ : string) (b : option A) (make : A → result error C) (wrap : C → Checker)
    : result error Checker :=
  match b with
  | None => Err (Errorf (typ +:+ " check config is nil") [])
  | Some x => match make x with Ok c => Ok (wrap c) | Err e => Err e end
  end.

(** [NewChecker]. *)
Definition NewChecker (cfg : CheckConfig) : result error Checker :=
  if decide (Check_Type cfg = CheckTypeHTTP) then fromBlock "http" (Check_HTTP cfg) NewHTTPChecker CheckerHTTP
  else if decide (Check_Type cfg = CheckTypeDNS) then
    fromBlock "dns" (Check_DNS cfg) (λ d, Ok (NewDNSChecker d)) CheckerDNS
  else if decide (Check_Type cfg = CheckTypePing) then fromBlock "ping" (Check_Ping cfg) Ok CheckerPing
  else if decide (Check_Type cfg = CheckTypeUDP) then fromBlock "udp" (Check_UDP cfg) Ok CheckerUDP
  else if decide (Check_Type cfg = CheckTypeTCP) then fromBlock "tcp" (Check_TCP cfg) Ok CheckerTCP
  else if decide (Check_Type cfg = CheckTypeListen) then
    fromBlock "listen" (Check_Listen cfg) (λ l, Ok (NewListenChecker l)) CheckerListen
  else if decide (Check_Type cfg = CheckTypeSQL) then fromBlock "sql" (Check_SQL cfg) NewSQLChecker CheckerSQL
  else if decide (Check_Type cfg = CheckTypeKafka) then
    fromBlock "kafka" (Check_Kafka cfg) NewKafkaChecker CheckerKafka
  else if decide (Check_Type cfg = CheckTypeGRPC) then
    fromBlock "grpc" (Check_GRPC cfg) NewGRPCChecker CheckerGRPC
  else Err (Errorf "unsupported check type %q" [Check_Type cfg]).

End SQL.
End SQLBackend.
Export SQLBackend.
