(* ===== verification/Guarded.v ===== *)
(** * Checkers behind the guard, and closing them

    What a scheduler holds is a [Checker] of checks/check.go: one of the nine
    checkers, or one of them behind the local address guard (localaddr.go).
    Some are also an io.Closer: HTTP drops its idle connections, gRPC closes
    its connection and SQL its pool; what closing these two returns is an
    argument. *)

From S2P Require Import Prelude GoStrings NetIP Net Config Model Scheduler LocalAddr.
From S2P Require Import Checkers Backends SQLBackend.

Module Guarded.
Import LocalAddr.

(** [guardedChecker] and [Wrap]. *)
Record guardedChecker := mkGuarded { gd_guard : LocalAddressGuard; gd_inner : Checker }.

Inductive AnyChecker := Plain (c : Checker) | Behind (c : guardedChecker).
Definition Wrap (g : LocalAddressGuard) (inner : Checker) : AnyChecker := Behind (mkGuarded g inner).

Definition guarded_Type (c : guardedChecker) : string := Checker_Type (gd_inner c).
Definition AnyChecker_Type (c : AnyChecker) : string :=
  match c with Plain c => Checker_Type c | Behind c => guarded_Type c end.

Section Close.
(** Closing a gRPC connection and a pool of the database. *)
Context (connClose : GRPCConn → goerror) (dbClose : DB → goerror).

Definition HTTP_Close (c : HTTPChecker) : goerror := None.
Definition GRPC_Close (c : GRPCChecker) : goerror := connClose (gc_conn c).
Definition SQL_Close (c : SQLChecker) : goerror := dbClose (sq_db c).

(** [Close] of a checker that is an io.Closer. *)
Definition closer (c : Checker) : option goerror :=
  match c with
  | CheckerHTTP c => Some (HTTP_Close c)
  | CheckerGRPC c => Some (GRPC_Close c)
  | CheckerSQL c => Some (SQL_Close c)
  | _ => None
  end.
Definition guarded_Close (c : guardedChecker) : goerror :=
  match closer (gd_inner c) with Some err => err | None => None end.

(** [Scheduler.Close]. *)
Definition Scheduler_Close (c : AnyChecker) : goerror :=
  match c with
  | Plain c => match closer c with Some err => err | None => None end
  | Behind c => guarded_Close c
  end.

(** The guard is transparent to the type of a check and to its resources. *)
Lemma guard_transparent g c :
  AnyChecker_Type (Wrap g c) = Checker_Type c ∧ Scheduler_Close (Wrap g c) = Scheduler_Close (Plain c).
Proof. done. Qed.
End Close.
End Guarded.
