(* ===== verification/CheckersProofs.v ===== *)
(** * When a check passes

    For every checker the exact condition on the answers under which its
    [Check] succeeds, and what a validated config rules out. *)

From S2P Require Import Prelude GoStrings NetIP Net Config Model ChecksPolicy Defaults Validate.
From S2P Require Import ValidateProofs DefaultsProofs LocalAddr Checkers Backends SQLBackend.
From Stdlib Require Import Ascii SpecFloat.

Module CheckersProofs.

Section Proofs.
Context `{GoStd} `{CheckStd} `{SQLStd} (errText : error → string).

(** ** HTTP *)

(** The body satisfies every matcher that is set. *)
Definition bodyMatches (c : HTTPChecker) (body : string) : Prop :=
  (HTTP_ResponseText (hc_cfg c) = EmptyString ∨ Contains body (HTTP_ResponseText (hc_cfg c)) = true) ∧
  ifSet (hc_reBody c) (λ re, regexpMatch re body = true) ∧
  ifSet (hc_jqQuery c) (λ q, jsonUnmarshal body = None ∧ ∃ v, jqRun q body = JQValue true v).

Definition hasMatcher (c : HTTPChecker) : Prop :=
  HTTP_ResponseText (hc_cfg c) ≠ EmptyString ∨ is_Some (hc_reBody c) ∨ is_Some (hc_jqQuery c).

Lemma evaluateJQ_None q body dur :
  evaluateJQ errText q body dur = None ↔ jsonUnmarshal body = None ∧ ∃ v, jqRun q body = JQValue true v.
Proof.
  unfold evaluateJQ. destruct (jsonUnmarshal body); [naive_solver|].
  destruct (jqRun q body) as [| |[]]; naive_solver.
Qed.

Lemma evaluateJQ_fails q body dur r : evaluateJQ errText q body dur = Some r → Success r = false.
Proof. unfold evaluateJQ. repeat case_match; intros [=]; by subst. Qed.

Lemma evaluateBody_None c body dur : evaluateBody errText c body dur = None ↔ bodyMatches c body.
Proof.
  unfold evaluateBody, bodyMatches.
  destruct (isSet (HTTP_ResponseText (hc_cfg c)) && negb (Contains body (HTTP_ResponseText (hc_cfg c)))) eqn:E.
  - apply andb_true_iff in E as [Et Ec]. rewrite isSet_true in Et. rewrite negb_true_iff in Ec.
    split; [done|]. rewrite Ec. naive_solver.
  - apply andb_false_iff in E. rewrite isSet_false, negb_false_iff in E.
    destruct (hc_reBody c) as [re|], (hc_jqQuery c) as [q|]; cbn [ifSet];
      try destruct (regexpMatch re body); rewrite ?evaluateJQ_None; naive_solver.
Qed.

Lemma evaluateBody_fails c body dur r : evaluateBody errText c body dur = Some r → Success r = false.
Proof.
  unfold evaluateBody. repeat case_match; intros Hr; simplify_eq; try done; by eapply evaluateJQ_fails.
Qed.

Lemma evaluateResponse_success c resp dur :
  Success (evaluateResponse errText c resp dur) = true ↔
  Resp_StatusCode resp ∈ elems (HTTP_ResponseCodes (hc_cfg c)) ∧
  (hasMatcher c → ∃ body, Resp_Body resp = Ok body ∧ bodyMatches c (limitBytes maxBodyBytes body)).
Proof.
  unfold evaluateResponse. rewrite <-mem_true. destruct (mem _ _); cbn [negb]; [|naive_solver].
  assert ((isSet (HTTP_ResponseText (hc_cfg c)) || negb (isNil (hc_reBody c)) || negb (isNil (hc_jqQuery c)) = true)
    ↔ hasMatcher c) as Hm.
  { unfold hasMatcher. rewrite !orb_true_iff, isSet_true, !negb_true_iff, !isNil_false. tauto. }
  destruct (_ || _ || _); [|naive_solver]. destruct (Resp_Body resp) as [body|]; [|naive_solver].
  destruct (evaluateBody errText c _ dur) as [r|] eqn:E.
  - assert (¬ bodyMatches c (limitBytes maxBodyBytes body)) as Hn by (rewrite <-(evaluateBody_None c _ dur), E; done).
    apply evaluateBody_fails in E. cbn. rewrite E. naive_solver.
  - apply evaluateBody_None in E. naive_solver.
Qed.

(** C19: an HTTP check passes exactly when the request could be sent, the
    status code is one of response_codes, and, if any matcher is set, the
    first MiB of the body was read and satisfies every matcher. *)
Theorem HTTP_Check_passes userAgent c newRequest do_ late dur :
  Success (HTTP_Check errText userAgent c newRequest do_ late dur) = true ↔
  newRequest (HTTP_Method (hc_cfg c)) (requestURL c) = None ∧
  ∃ resp, do_ (hc_transport c) (requestOf userAgent c) = Ok resp ∧
    Resp_StatusCode resp ∈ elems (HTTP_ResponseCodes (hc_cfg c)) ∧
    (hasMatcher c → ∃ body, Resp_Body resp = Ok body ∧ bodyMatches c (limitBytes maxBodyBytes body)).
Proof.
  unfold HTTP_Check. destruct (newRequest _ _); [naive_solver|].
  destruct (do_ _ _) as [resp|]; [|naive_solver].
  cbn [withDetails Success]. rewrite evaluateResponse_success. naive_solver.
Qed.

(** The User-Agent of the checker is overwritten by a configured one. *)
Definition sameBut (st st' : gmap string string * option string) : Prop :=
  delete "User-Agent" st.1 = delete "User-Agent" st'.1 ∧ st.2 = st'.2.

Lemma setHeader_same st st' kv :
  sameBut st st' → sameBut (setHeader st kv) (setHeader st' kv) ∧
  (kv.1 = "User-Agent" → setHeader st kv = setHeader st' kv).
Proof.
  destruct st as [h o], st' as [h' o'], kv as [k v]. unfold sameBut, setHeader. cbn. intros [Hh <-].
  case_decide as Hk; cbn; (split; [split; [|done]|]).
  - done.
  - intros ->. by vm_compute in Hk.
  - destruct (decide (CanonicalHeaderKey k = "User-Agent")) as [->|Hc].
    + by rewrite !delete_insert_eq.
    + by rewrite !delete_insert_ne, Hh by congruence.
  - intros ->. change (CanonicalHeaderKey "User-Agent") with "User-Agent".
    by rewrite <-(insert_delete_eq h), <-(insert_delete_eq h'), Hh.
Qed.

Lemma headers_same l st st' v :
  sameBut st st' → ("User-Agent", v) ∈ l → foldl setHeader st l = foldl setHeader st' l.
Proof.
  revert st st'. induction l as [|kv l IH]; intros st st' Hs Hin; [by apply not_elem_of_nil in Hin|].
  destruct (setHeader_same st st' kv Hs) as [Hs' He]. cbn.
  apply elem_of_cons in Hin as [<-|Hin]; [by rewrite He|]. by apply IH.
Qed.

Lemma defaults_userAgent h prefix :
  ∃ v, entries (HTTP_Headers (applyHTTPDefaults h prefix)) !! "User-Agent" = Some v.
Proof.
  assert (∀ hs, is_Some (orHeader "User-Agent" "pathosd-check/1.0" hs !! "User-Agent")) as Hu.
  { intros hs. unfold orHeader. destruct (hs !! "User-Agent") eqn:E; [by rewrite E|]. by rewrite lookup_insert_eq. }
  unfold applyHTTPDefaults. destruct (fromURL _ _ _) as [[[[proto port] hs] host] url]. cbn.
  case_decide; [apply Hu|]. unfold orHeader at 1. destruct (_ !! "Accept"); [apply Hu|].
  rewrite lookup_insert_ne by done. apply Hu.
Qed.

(** The default User-Agent of the HTTP checker is never sent: defaults set
    that header in every config, so a request does not depend on it. *)
Theorem userAgent_unused ua ua' h prefix :
  requestHeaders ua (applyHTTPDefaults h prefix) = requestHeaders ua' (applyHTTPDefaults h prefix).
Proof.
  destruct (defaults_userAgent h prefix) as [v Hv]. unfold requestHeaders.
  apply (headers_same _ _ _ v); [|by apply elem_of_map_to_list].
  split; [|done]. cbn. unfold singletonM, map_singleton. by rewrite !delete_insert_eq.
Qed.

(** ** DNS *)

Definition answered (exchange : string → result error (Z * Z)) (name : string) : Prop :=
  ∃ n, exchange name = Ok (0, n) ∧ n ≠ 0.

Lemma dnsLoop_None rcodes exchange late dur names details :
  (dnsLoop errText rcodes exchange late dur names details).2 = None ↔ Forall (answered exchange) names.
Proof.
  revert details. induction names as [|name names IH]; intros details; cbn; [done|].
  rewrite Forall_cons. unfold answered at 1. destruct (exchange name) as [[rcode n]|]; [|naive_solver].
  case_decide; [naive_solver|]. case_decide; [naive_solver|]. rewrite IH. naive_solver.
Qed.

Lemma dnsLoop_fails rcodes exchange late dur names details r :
  (dnsLoop errText rcodes exchange late dur names details).2 = Some r → Success r = false.
Proof.
  revert details. induction names as [|name names IH]; intros details; cbn; [done|].
  destruct (exchange name) as [[rcode n]|]; [|by intros [= <-]].
  case_decide; [by intros [= <-]|]. case_decide; [by intros [= <-]|]. apply IH.
Qed.

(** A DNS check passes exactly when every name was answered with NOERROR and
    at least one record. *)
Theorem DNS_Check_passes rcodes types cfg exchange late dur :
  Success (DNS_Check errText rcodes types cfg exchange late dur) = true ↔
  Forall (answered (exchange (JoinHostPort (DNS_Resolver cfg) (Itoa (DNS_Port cfg)))
                             (types (DNS_QueryType cfg)))) (elems (DNS_Names cfg)).
Proof.
  unfold DNS_Check. set (ask := exchange _ _). rewrite <-(dnsLoop_None rcodes ask late dur _ []).
  pose proof (dnsLoop_fails rcodes ask late dur (elems (DNS_Names cfg)) []) as Hf.
  destruct (dnsLoop _ _ _ _ _ _ _) as [details [r|]]; cbn in *; [|done].
  rewrite (Hf r eq_refl). done.
Qed.

(** ** Ping *)

(** A ping check passes exactly when the pinger ran to its end and the loss
    ratio is not above the limit. *)
Lemma Ping_Check_iff show cfg newPinger run dur :
  Success (Ping_Check errText show cfg newPinger run dur) = true ↔
  ∃ pinger stats, newConfiguredPinger newPinger cfg = Ok pinger ∧ run pinger = PingRun (Ok stats) ∧
    SFltb (Ping_MaxLossRatio cfg) (float_div (Stats_PacketLoss stats) float_100) = false.
Proof.
  unfold Ping_Check. destruct (newConfiguredPinger newPinger cfg) as [pinger|]; [|by split; [|intros (?&?&?&?)]].
  destruct (run pinger) as [|[stats|]] eqn:Er; [split; [done|]; intros (?&?&?&?&?); congruence|
    |split; [done|]; intros (?&?&?&?&?); congruence].
  destruct (SFltb _ _) eqn:E; cbn [withDetails Success]; split; try done.
  - intros (p' & stats' & [= <-] & Hr & Hl). congruence.
  - intros _. by exists pinger, stats.
Qed.

(** A loss ratio that is not a number passes validation, and the check
    then passes whatever the loss is. *)
Theorem nan_ratio_always_passes show cfg prefix newPinger run pinger stats dur :
  Ping_MaxLossRatio cfg = S754_nan →
  newConfiguredPinger newPinger cfg = Ok pinger → run pinger = PingRun (Ok stats) →
  (ValidPing cfg prefix ↔
    (if decide (Ping_DstIP cfg = EmptyString) then isSingleHost prefix = true
     else is_Some (ParseIP (Ping_DstIP cfg))) ∧
    (Ping_SrcIP cfg = EmptyString ∨ is_Some (ParseIP (Ping_SrcIP cfg))) ∧ 1 ≤ Ping_Count cfg ≤ 60) ∧
  Success (Ping_Check errText show cfg newPinger run dur) = true.
Proof.
  intros Hn Hp Hr. split; [unfold ValidPing; rewrite Hn; cbn; tauto|].
  rewrite Ping_Check_iff. exists pinger, stats. by rewrite Hn.
Qed.

(** ** TCP and UDP *)

Lemma hostPortGuard_None typ host port dur :
  hostPortGuard errText typ host port dur = None ↔ host ≠ EmptyString ∧ port ≠ 0.
Proof.
  unfold hostPortGuard. rewrite <-isEmpty_false. destruct (isEmpty host); [naive_solver|]. case_decide; naive_solver.
Qed.
Lemma hostPortGuard_fails typ host port dur r :
  hostPortGuard errText typ host port dur = Some r → Success r = false.
Proof. unfold hostPortGuard. destruct (isEmpty host); [by intros [= <-]|]. case_decide; [by intros [= <-]|done]. Qed.

(** A UDP check passes exactly when the datagram was sent and what came back is
    data or silence, not an ICMP error. *)
Theorem UDP_Check_passes cfg so dur :
  let addr := JoinHostPort (UDP_Host cfg) (Itoa (UDP_Port cfg)) in
  let timeout := udpReadTimeout (Udp_Remaining so) in
  Success (UDP_Check errText cfg so dur) = true ↔
  UDP_Host cfg ≠ EmptyString ∧ UDP_Port cfg ≠ 0 ∧ Udp_Resolve so addr = None ∧ Udp_Dial so addr = None ∧
  (is_Some (Udp_Remaining so) → Udp_SetDeadline so = None) ∧ Udp_Write so (udpPayload cfg) = None ∧
  Udp_SetReadDeadline so timeout = None ∧
  (Udp_Read so (udpPayload cfg) timeout = UDPData ∨ ∃ e, Udp_Read so (udpPayload cfg) timeout = UDPTimeout e).
Proof.
  intros addr timeout. unfold UDP_Check. fold addr timeout.
  pose proof (hostPortGuard_None "udp" (UDP_Host cfg) (UDP_Port cfg) dur) as Hg.
  pose proof (hostPortGuard_fails "udp" (UDP_Host cfg) (UDP_Port cfg) dur) as Hf.
  destruct (hostPortGuard _ _ _ _ _) as [r|].
  { rewrite (Hf r eq_refl). naive_solver. }
  destruct Hg as [Hg _]. destruct (Hg eq_refl) as [Hh Hp].
  assert ((match Udp_Remaining so with Some _ => Udp_SetDeadline so | None => None end) = None ↔
    (is_Some (Udp_Remaining so) → Udp_SetDeadline so = None)) as <-
    by (destruct (Udp_Remaining so); naive_solver).
  destruct (Udp_Resolve so addr), (Udp_Dial so addr), (match Udp_Remaining so with Some _ => _ | None => _ end),
    (Udp_Write so _), (Udp_SetReadDeadline so _); try naive_solver.
  destruct (Udp_Read so _ _); naive_solver.
Qed.

(** ** Listen *)

(** A socket that serves the host: bound to its address or to a wildcard of a
    family that reaches it. *)
Definition serves (cfg : ListenCheckConfig) (host : option Addr) (l : SocketLine) : Prop :=
  Line_LocalPort l = Listen_Port cfg ∧ (Listen_Proto cfg = "tcp" → Line_St l = tcpListen) ∧
  ∃ addr, Unmap <$> AddrFromSlice (Line_LocalAddr l) = Some addr ∧
    ifSet host (λ h, addr = h ∨ IsUnspecified addr = true ∧ (Is6 h = true → Is6 addr = true)).

(** The address part of [matchLine]. *)
Lemma matchAddr_serves addr h port :
  (if negb (IsUnspecified addr) && negb (bool_decide (addr = h)) then []
   else if Is6 h && IsUnspecified addr && Is4 addr then []
   else [addrPort addr port]) ≠ [] ↔
  addr = h ∨ IsUnspecified addr = true ∧ (Is6 h = true → Is6 addr = true).
Proof.
  case_bool_decide as E; [subst h|]; destruct addr as [v|v z]; cbn [Is4 Is6];
    rewrite ?andb_false_r, ?andb_true_r; cbn [negb andb].
  1-2: split; [by left|done].
  all: destruct (IsUnspecified _) eqn:Eu; cbn [negb andb]; [|naive_solver].
  - destruct (Is6 h); cbn [andb]; split; try done.
    + intros [?|[_ H6]]; [done|]. by specialize (H6 eq_refl).
    + intros _. by right.
  - split; [|done]. intros _. by right.
Qed.

Lemma matchLine_serves cfg host l :
  matchLine cfg (bool_decide (Listen_Proto cfg = "tcp")) host (Some l) ≠ [] ↔ serves cfg host l.
Proof.
  unfold matchLine, serves. case_bool_decide as Hp; cbn [negb]; [|split; [done|by intros [? _]]].
  destruct (bool_decide (Listen_Proto cfg = "tcp") && negb (bool_decide (Line_St l = tcpListen))) eqn:E.
  - apply andb_true_iff in E as [Ht Hs]. rewrite bool_decide_eq_true in Ht.
    rewrite negb_true_iff, bool_decide_eq_false in Hs. split; [done|]. intros (_ & Hst & _). by apply Hst in Ht.
  - apply andb_false_iff in E. rewrite bool_decide_eq_false, negb_false_iff, bool_decide_eq_true in E.
    assert (Listen_Proto cfg = "tcp" → Line_St l = tcpListen) as Hst by (by destruct E).
    destruct (AddrFromSlice (Line_LocalAddr l)) as [a|]; cbn [fmap option_fmap option_map];
      [|split; [done|]; by intros (_ & _ & ? & ? & _)].
    destruct host as [h|]; [rewrite matchAddr_serves|]; cbn [ifSet].
    + split; [by intros; split_and!; [..|eexists]|]. by intros (_ & _ & ? & [= <-] & ?).
    + split; [|done]. intros _. split_and!; [done..|]. by exists (Unmap a).
Qed.

End Proofs.
End CheckersProofs.
Export CheckersProofs.
