(* ===== verification/BackendsProofs.v ===== *)
(** * When a check with a richer answer passes, and which checkers start

    The exact condition for the listen, gRPC, Kafka and SQL checks, and that a
    validated check is built unless something outside the config fails. *)

From S2P Require Import Prelude GoStrings NetIP Net Config Model ChecksPolicy Defaults Validate.
From S2P Require Import ValidateProofs LocalAddr Checkers Backends SQLBackend CheckersProofs.
From Stdlib Require Import Ascii SpecFloat.

Module BackendsProofs.

Section Proofs.
Context `{GoStd} `{CheckStd} `{SQLStd} (errText : error → string).

(** ** Listen *)

(** What [tablesLoop] adds for a table. *)
Definition tableSockets (cfg : ListenCheckConfig) (tcp : bool) (host : option Addr) (t : tableRead)
    : list string :=
  match t with TableLines l => matchSockets cfg tcp host l | _ => [] end.

Lemma tablesLoop_Ok cfg tcp host tables sockets out :
  tablesLoop cfg tcp host tables sockets = Ok out ↔
  (∀ e, TableErr e ∉ tables) ∧ out = sockets ++ concat (tableSockets cfg tcp host <$> tables).
Proof.
  revert sockets. induction tables as [|[|e|l] tables IH]; intros sockets; cbn.
  - rewrite app_nil_r. split; [intros [= <-]; split; [set_solver|done]|by intros [_ ->]].
  - rewrite IH. set_solver.
  - split; [done|]. intros [He _]. destruct (He e). set_solver.
  - rewrite IH, app_assoc. set_solver.
Qed.

Lemma concat_not_nil {A} (ls : list (list A)) : concat ls ≠ [] ↔ ∃ l, l ∈ ls ∧ l ≠ [].
Proof.
  induction ls as [|l ls IH]; cbn; [set_solver|]. rewrite app_nil. setoid_rewrite elem_of_cons.
  destruct l; [|naive_solver]. destruct (decide (concat ls = [])); naive_solver.
Qed.

(** Some socket of the tables serves the host. *)
Definition bound (cfg : ListenCheckConfig) (host : option Addr) (tables : list tableRead) : Prop :=
  ∃ lines l, TableLines lines ∈ tables ∧ Some l ∈ lines ∧ serves cfg host l.

Lemma sockets_bound cfg host tables :
  concat (tableSockets cfg (bool_decide (Listen_Proto cfg = "tcp")) host <$> tables) ≠ [] ↔
  bound cfg host tables.
Proof.
  rewrite concat_not_nil. unfold bound. split.
  - intros (out & (t & -> & Ht)%list_elem_of_fmap & Hout). destruct t as [| |lines]; try done. cbn in Hout.
    apply concat_not_nil in Hout as (m & (l & -> & Hl)%list_elem_of_fmap & Hm). destruct l as [l|]; [|done].
    exists lines, l. split_and!; [done..|]. by apply matchLine_serves.
  - intros (lines & l & Hlines & Hl & Hs). eexists. split; [by apply list_elem_of_fmap_2|]. cbn.
    apply concat_not_nil. eexists. split; [by apply list_elem_of_fmap_2|]. by apply matchLine_serves.
Qed.

(** A listen check passes exactly when the tables of the protocol can be read
    and one of their sockets serves the port and the host: a TCP socket that
    listens or a UDP socket, bound to the host or to a wildcard of a family
    that reaches it. *)
Theorem Listen_Check_passes cfg proc dur :
  let under := proc (procRoot cfg) in
  let tables := Proc_Tables under (Listen_Proto cfg) in
  Success (Listen_Check errText cfg proc dur) = true ↔
  Listen_Port cfg ≠ 0 ∧ Listen_Proto cfg ∈ ["tcp"; "udp"] ∧ Proc_NewFS under = None ∧
  (∀ e, TableErr e ∉ tables) ∧ ∃ host, listenHost cfg = Ok host ∧ bound cfg host tables.
Proof.
  intros under tables. unfold Listen_Check. fold under tables. rewrite <-mem_true.
  case_decide; [naive_solver|]. destruct (mem _ _); cbn [negb]; [|naive_solver].
  destruct (listenHost cfg) as [host|]; [|naive_solver]. destruct (Proc_NewFS under); [naive_solver|].
  destruct (tablesLoop _ _ _ _ _) as [out|] eqn:E.
  - apply tablesLoop_Ok in E as [He ->]. cbn [app].
    pose proof (sockets_bound cfg host tables) as Hb. destruct (concat _); cbn [withDetails Success failedErr].
    + split; [done|]. intros (_ & _ & _ & _ & h & [= <-] & Hbound). by apply Hb in Hbound.
    + split; [|done]. intros _. split_and!; try done. exists host. split; [done|]. by apply Hb.
  - split; [done|]. intros (_ & _ & _ & He & _). exfalso.
    assert (tablesLoop cfg (bool_decide (Listen_Proto cfg = "tcp")) host tables [] =
      Ok (concat (tableSockets cfg (bool_decide (Listen_Proto cfg = "tcp")) host <$> tables))) as Hok
      by (by apply tablesLoop_Ok).
    congruence.
Qed.

(** ** gRPC *)

Lemma parseGRPCCode_valid name :
  is_Some (parseGRPCCode name) ↔ ToLower (dropChar "_"%char name) ∈ validGRPCCodeNames.
Proof.
  unfold parseGRPCCode. change validGRPCCodeNames with (fst <$> grpcCodesByName).
  destruct (list_find _ grpcCodesByName) as [[i [k c]]|] eqn:E.
  - apply list_find_Some in E as (Hi & Hn & _). split; [|done]. intros _. rewrite <-Hn.
    by apply list_elem_of_fmap_2, (list_elem_of_lookup_2 _ i).
  - rewrite list_find_None, Forall_forall in E. split; [by intros []|].
    intros (kv & Hn & Hkv)%list_elem_of_fmap. by destruct (E kv Hkv).
Qed.

(** The codes of a list of names. *)
Lemma parseOKCodes_Ok names codes :
  Forall (λ n, is_Some (parseGRPCCode n)) names →
  ∃ out, parseOKCodes names codes = Ok out ∧
    ∀ c, c ∈ out ↔ c ∈ codes ∨ ∃ n, n ∈ names ∧ parseGRPCCode n = Some c.
Proof.
  revert codes. induction names as [|n names IH]; intros codes Hn; cbn.
  { exists codes. split; [done|]. set_solver. }
  apply Forall_cons in Hn as [[c Hc] Hn]. rewrite Hc. destruct (IH ({[c]} ∪ codes) Hn) as (out & Ho & Hin).
  exists out. split; [done|]. intros c'. rewrite Hin. set_solver.
Qed.

Lemma parseOKCodes_Err names codes e :
  parseOKCodes names codes = Err e → ¬ Forall (λ n, is_Some (parseGRPCCode n)) names.
Proof. intros He Hn. destruct (parseOKCodes_Ok names codes Hn) as (out & Ho & _). congruence. Qed.

(** A gRPC check passes exactly when the health service says SERVING or, with
    a method, the status code of the call is an accepted one. *)
Theorem GRPC_Check_passes names c health invoke ctxErr dur :
  let md := entries (GRPC_Metadata (gc_cfg c)) in
  Success (GRPC_Check names c health invoke ctxErr dur) = true ↔
  if decide (gc_method c = EmptyString) then health (gc_conn c) md (GRPC_Service (gc_cfg c)) = inr "SERVING"
  else St_Code (invoke (gc_conn c) md (gc_method c)) ∈ gc_okCodes c.
Proof.
  intros md. unfold GRPC_Check. fold md. destruct (isEmpty (gc_method c)) eqn:E.
  - apply isEmpty_true in E. rewrite decide_True by done. unfold checkStandardHealth.
    destruct (health _ _ _) as [st|status]; [naive_solver|]. case_decide; naive_solver.
  - apply isEmpty_false in E. rewrite decide_False by done. unfold checkCustomMethod. case_decide; naive_solver.
Qed.

(** ** Kafka *)

Definition hasLeader (p : Partition) : Prop := Part_Err p = None ∧ 0 ≤ Part_Leader p.

Lemma noLeader_false p : noLeader p = false ↔ hasLeader p.
Proof.
  unfold noLeader, hasLeader. rewrite orb_false_iff, negb_false_iff, isNil_true, Z.ltb_ge. done.
Qed.

(** The loop counts the partitions without a leader and keeps the first
    error. *)
Lemma leaderLoop_spec l n e :
  leaderLoop l n e =
    (n + len (filter (λ p, noLeader p = true) l),
     match e with Some _ => e | None => partitionErr <$> head (filter (λ p, noLeader p = true) l) end).
Proof.
  revert n e. induction l as [|p l IH]; intros n e; cbn [leaderLoop].
  { rewrite filter_nil. unfold len. cbn. rewrite Z.add_0_r. by destruct e. }
  rewrite filter_cons. destruct (noLeader p) eqn:E; rewrite IH.
  - rewrite decide_True by done. unfold len. cbn. f_equal; [lia|by destruct e].
  - rewrite decide_False by congruence. done.
Qed.

(** The topic exists, has partitions, and all have a leader. *)
Definition healthyTopic (td : TopicDetail) : Prop :=
  TD_Err td = None ∧ TD_Partitions td ≠ [] ∧ Forall hasLeader (TD_Partitions td).

Lemma evalKafkaTopic_spec td :
  (evalKafkaTopic td).2 = None ↔ healthyTopic td.
Proof.
  unfold evalKafkaTopic, healthyTopic. destruct (TD_Err td); [naive_solver|].
  destruct (TD_Partitions td) as [|p l]; [naive_solver|]. rewrite leaderLoop_spec.
  set (lost := filter _ _). rewrite Z.add_0_l.
  assert (lost = [] ↔ Forall hasLeader (p :: l)) as Hl.
  { unfold lost. rewrite Forall_forall. setoid_rewrite <-noLeader_false. split.
    - intros Hf q Hq. destruct (noLeader q) eqn:E; [|done]. exfalso.
      assert (q ∈ filter (λ p, noLeader p = true) (p :: l)) as Hin by (by apply list_elem_of_filter).
      rewrite Hf in Hin. set_solver.
    - intros Hall. destruct (filter _ _) as [|q l'] eqn:E; [done|]. exfalso.
      assert (q ∈ filter (λ p, noLeader p = true) (p :: l)) as [Hq Hin]%list_elem_of_filter
        by (rewrite E; set_solver).
      rewrite (Hall q Hin) in Hq. done. }
  rewrite <-Hl. destruct lost as [|q l']; unfold len; cbn; case_decide; naive_solver lia.
Qed.

(** A Kafka check passes exactly when the metadata was returned, lists at least
    min_brokers (and at least one) broker, and, if a topic is configured, the
    topic is there and every partition has a leader. *)
Theorem Kafka_Check_passes c newClient metadata ctxErr dur :
  let topic := Kafka_Topic (kc_cfg c) in
  Success (Kafka_Check errText c newClient metadata ctxErr dur) = true ↔
  newClient (kc_opts c) = None ∧ ∃ meta,
    metadata (kc_opts c) (if isEmpty topic then None else Some topic) = Ok meta ∧
    Z.max 1 (Kafka_MinBrokers (kc_cfg c)) ≤ Meta_Brokers meta ∧
    (topic ≠ EmptyString → ∃ td, Meta_Topics meta !! topic = Some td ∧ healthyTopic td).
Proof.
  intros topic. unfold Kafka_Check. fold topic. destruct (newClient _); [naive_solver|].
  destruct (metadata _ _) as [meta|]; [|naive_solver]. cbn zeta.
  assert ((if decide (Kafka_MinBrokers (kc_cfg c) ≤ 0) then 1 else Kafka_MinBrokers (kc_cfg c)) =
    Z.max 1 (Kafka_MinBrokers (kc_cfg c))) as -> by (case_decide; lia).
  case_decide; [split; [done|]; intros (_ & m & [= <-] & ? & _); lia|].
  assert (Z.max 1 (Kafka_MinBrokers (kc_cfg c)) ≤ Meta_Brokers meta) by lia.
  destruct (isEmpty topic) eqn:Et; [apply isEmpty_true in Et; naive_solver|]. apply isEmpty_false in Et.
  destruct (Meta_Topics meta !! topic) as [td|] eqn:Em; [|split; [done|]; naive_solver].
  pose proof (evalKafkaTopic_spec td) as He. destruct (evalKafkaTopic td) as [[n m] [err|]]; cbn in *.
  - split; [done|]. intros (_ & meta' & [= <-] & _ & Ht). destruct (Ht Et) as (td' & Htd & Hh).
    rewrite Em in Htd. injection Htd as <-. by apply He in Hh.
  - split; [|done]. intros _. split; [done|]. exists meta. split_and!; [done..|]. intros _. exists td.
    split; [done|]. by apply He.
Qed.

(** ** SQL *)

(** A query passes: it runs, and its rows make the expression true. *)
Definition queryPasses (answer : string → result error Rows * Z) (maxRows : Z) (q : sqlQuery) : Prop :=
  ∃ rows, runQuery (answer (sq_sql q)).1 maxRows = (rows, None) ∧
    ifSet (sq_jq q) (λ jq, ∃ v, jqRunRows jq rows = JQValue true v).

Lemma evalJQ_None q rows : evalJQ q rows = None ↔ ∃ v, jqRunRows q rows = JQValue true v.
Proof. unfold evalJQ. destruct (jqRunRows q rows) as [| |[]]; naive_solver. Qed.

Lemma sqlLoop_None answer target maxRows l details :
  (sqlLoop errText answer target maxRows l details).2 = None ↔ Forall (queryPasses answer maxRows) l.
Proof.
  revert details. induction l as [|q l IH]; intros details; cbn; [done|].
  rewrite Forall_cons. unfold queryPasses at 1. destruct (answer (sq_sql q)) as [res qDur]. cbn [fst].
  destruct (runQuery res maxRows) as [rows [e|]]; cbn; [naive_solver|].
  destruct (sq_jq q) as [jq|]; cbn [ifSet].
  - pose proof (evalJQ_None jq rows) as Hj. destruct (evalJQ jq rows); [naive_solver|]. rewrite IH. naive_solver.
  - rewrite IH. naive_solver.
Qed.

Definition effectiveMaxRows (c : SQLChecker) : Z :=
  if decide (SQL_MaxRows (sq_cfg c) ≤ 0) then sqlMaxRowsDefault else SQL_MaxRows (sq_cfg c).

(** A SQL check passes exactly when the connection is made and every query
    runs and makes its result_jq true on the rows that are fetched. *)
Theorem SQL_Check_passes c conn answer ctxErr dur :
  Success (SQL_Check errText c conn answer ctxErr dur) = true ↔
  conn (sq_db c) = None ∧ Forall (queryPasses answer (effectiveMaxRows c)) (sq_queries c).
Proof.
  unfold SQL_Check. destruct (conn (sq_db c)); [naive_solver|]. fold (effectiveMaxRows c).
  rewrite <-(sqlLoop_None answer (sq_target c) (effectiveMaxRows c) (sq_queries c) []).
  destruct (sqlLoop _ _ _ _ _ _) as [details [[e d]|]]; naive_solver.
Qed.

Lemma fetch_bounded cols numeric maxRows rows out res :
  len out ≤ Z.max 0 maxRows → fetch cols numeric maxRows rows out = Ok res → len res ≤ Z.max 0 maxRows.
Proof.
  revert out. induction rows as [|r rows IH]; intros out Hout; cbn; [by intros [= <-]|].
  case_decide; [|by intros [= <-]]. destruct r as [raw|]; [|done]. apply IH.
  unfold len in *. rewrite length_app. cbn. lia.
Qed.

(** No query hands more than max_rows rows to jq. *)
Lemma runQuery_bounded query maxRows : len (runQuery query maxRows).1 ≤ Z.max 0 maxRows.
Proof.
  assert (len (@nil sqlRow) ≤ Z.max 0 maxRows) by (unfold len; cbn; lia).
  unfold runQuery. destruct query as [[[cols|] [types|] rows e]|]; cbn; try done.
  destruct (fetch _ _ _ _ _) as [out|] eqn:E; [|done]. by eapply fetch_bounded.
Qed.

(** ** The factory *)

(** Nothing outside the config fails: certificate files, the system pool, the
    constructors of the clients. *)
Record Environment : Prop := {
  env_ca : ∀ path, ∃ pem, readFile path = Ok pem ∧ appendCertsFromPEM pem = true;
  env_pool : systemCertPoolErr = None;
  env_grpc : ∀ addr, grpcNewClient addr = None;
  env_mysql : ∀ cfg, mysqlNewConnector cfg = None;
  env_pgx : pgxParseConfig = None }.

Lemma loadCA_Ok poolErr path : Environment → poolErr = None → ∃ roots, loadCA poolErr path = Ok roots.
Proof.
  intros Henv ->. unfold loadCA. destruct (isEmpty path); [eauto|].
  destruct (env_ca Henv path) as (pem & -> & ->). eauto.
Qed.

Lemma NewHTTPChecker_Ok h prefix :
  Environment → ValidHTTP h prefix →
  HTTP_ResponseJQ h = EmptyString ∨ jqParses (HTTP_ResponseJQ h) = true →
  ∃ c, NewHTTPChecker h = Ok c ∧ hc_cfg c = h.
Proof.
  intros Henv (_ & _ & _ & Hre & Hca & Hproxy) Hjq. unfold NewHTTPChecker.
  rewrite (proj2 (andb_false_iff _ _)) by (rewrite isSet_false; tauto).
  rewrite (proj2 (andb_false_iff _ _)).
  2: { rewrite isSet_false, isNil_false. destruct (decide (HTTP_Proxy h = EmptyString)); [by left|right].
       destruct Hproxy as [(u & -> & _) _]; [done|]. by exists u. }
  destruct (loadCA_Ok systemCertPoolErr (HTTP_TLSCACert h) Henv (env_pool Henv)) as [roots ->].
  rewrite (proj2 (andb_false_iff _ _)) by (rewrite isSet_false, negb_false_iff; tauto).
  rewrite (proj2 (andb_false_iff _ _)) by (rewrite isSet_false, negb_false_iff; tauto). eauto.
Qed.

Lemma NewGRPCChecker_Ok g prefix :
  Environment → ValidGRPC g prefix → ∃ c, NewGRPCChecker g = Ok c ∧ gc_cfg c = g.
Proof.
  intros Henv (_ & _ & [_ Hx] & Hcodes). unfold NewGRPCChecker.
  rewrite (proj2 (andb_false_iff _ _)) by (rewrite isSet_false; tauto).
  destruct (loadCA_Ok None (GRPC_TLSCACert g) Henv eq_refl) as [roots Hr].
  assert (∃ creds, (if GRPC_TLS g then
    match loadCA None (GRPC_TLSCACert g) with
    | Ok roots => Ok (Some (mkTLSConfig (GRPC_TLSInsecure g) (GRPC_TLSServerName g) roots))
    | Err err => Err err end else Ok None) = Ok creds) as [creds ->] by (rewrite Hr; destruct (GRPC_TLS g); eauto).
  rewrite (env_grpc Henv).
  destruct (parseOKCodes_Ok (elems (GRPC_OKCodes g)) ∅) as (codes & -> & _); [|eauto].
  eapply Forall_impl; [done|]. intros n Hn. by apply parseGRPCCode_valid.
Qed.

Lemma NewKafkaChecker_Ok k prefix :
  Environment → ValidKafka k prefix → ∃ c, NewKafkaChecker k = Ok c ∧ kc_cfg c = k.
Proof.
  intros Henv (_ & _ & _ & Hsasl). unfold NewKafkaChecker, kafkaTLSConfig.
  destruct (loadCA_Ok None (Kafka_TLSCACert k) Henv eq_refl) as [roots ->].
  assert (∀ s, Kafka_SASL k = Some s → kafkaSASL s = Ok s) as Hs.
  { intros s Hk. rewrite Hk in Hsasl. destruct Hsasl as [Hm _]. unfold kafkaSASL.
    by rewrite (proj2 (mem_true _ _) Hm). }
  destruct (Kafka_TLS k), (Kafka_SASL k) as [s|]; rewrite ?(Hs s eq_refl); eauto.
Qed.

Lemma compileQueries_Ok i l :
  Forall (λ q, Query_ResultJQ q = EmptyString ∨ jqParses (Query_ResultJQ q) = true) l →
  ∃ qs, compileQueries i l = Ok qs ∧ sq_sql <$> qs = Query_SQL <$> l.
Proof.
  revert i. induction l as [|q l IH]; intros i Hl; cbn; [by exists []|].
  apply Forall_cons in Hl as [Hq Hl].
  rewrite (proj2 (andb_false_iff _ _)) by (rewrite isSet_false, negb_false_iff; tauto).
  destruct (IH (S i) Hl) as (qs & -> & Hqs). eexists. split; [done|]. cbn. by rewrite Hqs.
Qed.

Lemma NewSQLChecker_Ok s prefix :
  Environment → ValidSQL s prefix → ∃ c, NewSQLChecker s = Ok c ∧ sq_cfg c = s.
Proof.
  intros Henv (Hd & _ & _ & _ & _ & Hq & _). unfold NewSQLChecker, sqlConnector, sqlTLSConfig.
  destruct (loadCA_Ok None (SQL_TLSCACert s) Henv eq_refl) as [roots ->].
  assert (∃ qs, compileQueries 0 (match elems (SQL_Queries s) with
    | [] => [mkSQLQueryConfig EmptyString "SELECT 1" EmptyString] | l => l end) = Ok qs) as [qs Hqs].
  { destruct (elems (SQL_Queries s)) as [|q l] eqn:E; [by eexists|].
    destruct (compileQueries_Ok 0 (q :: l)) as (qs & -> & _); [|eauto].
    eapply Forall_impl; [done|]. naive_solver. }
  rewrite (env_mysql Henv), (env_pgx Henv). unfold newSQLChecker. rewrite Hqs.
  rewrite !elem_of_cons in Hd.
  destruct (SQL_TLS s); (destruct Hd as [Hd|[Hd|Hd]]; [..|by apply not_elem_of_nil in Hd]);
    rewrite Hd; cbn; eauto.
Qed.

Lemma NewHTTPChecker_jq h c :
  NewHTTPChecker h = Ok c → HTTP_ResponseJQ h = EmptyString ∨ jqParses (HTTP_ResponseJQ h) = true.
Proof.
  unfold NewHTTPChecker. do 2 (destruct (_ && _); [done|]). destruct (loadCA _ _); [|done].
  destruct (isSet (HTTP_ResponseRegex h) && _); [done|].
  destruct (isSet (HTTP_ResponseJQ h) && _) eqn:E; [done|]. intros _.
  by rewrite andb_false_iff, isSet_false, negb_false_iff in E.
Qed.

Lemma valid_check_builds c prefix :
  Environment → ValidCheck prefix c →
  (∃ ck, NewChecker c = Ok ck ∧ Checker_Type ck = Check_Type c) ↔
  (Check_Type c = CheckTypeHTTP →
   ifSet (Check_HTTP c) (λ h, HTTP_ResponseJQ h = EmptyString ∨ jqParses (HTTP_ResponseJQ h) = true)).
Proof.
  intros Henv [_ _ _ _ Hb]. unfold NewChecker.
  destruct Hb as [Ht (b & Hb & Hv)|Ht (b & Hb & Hv)|Ht (b & Hb & Hv)|Ht (b & Hb & Hv)|Ht (b & Hb & Hv)
    |Ht (b & Hb & Hv)|Ht (b & Hb & Hv)|Ht (b & Hb & Hv)|Ht (b & Hb & Hv)]; rewrite Ht, Hb; cbn.
  - split.
    + intros (ck & Hck & _) _. destruct (NewHTTPChecker b) as [c'|] eqn:E; [|done]. by eapply NewHTTPChecker_jq.
    + intros Hjq. destruct (NewHTTPChecker_Ok b prefix Henv Hv (Hjq eq_refl)) as (ck & -> & _). by eexists.
  - by split; [|eexists].
  - by split; [|eexists].
  - by split; [|eexists].
  - by split; [|eexists].
  - by split; [|eexists].
  - split; [done|]. intros _. destruct (NewSQLChecker_Ok b prefix Henv Hv) as (ck & -> & _). by eexists.
  - split; [done|]. intros _. destruct (NewKafkaChecker_Ok b prefix Henv Hv) as (ck & -> & _). by eexists.
  - split; [done|]. intros _. destruct (NewGRPCChecker_Ok b prefix Henv Hv) as (ck & -> & _). by eexists.
Qed.

(** A check that validation accepts is built, with the checker of its
    type, unless something outside the config fails (certificate files, client
    constructors), with one exception: an HTTP check is built only if its
    response_jq parses, which validation does not look at. *)
Theorem valid_check_starts c prefix :
  Environment → ValidCheck prefix c →
  (∃ ck, NewChecker c = Ok ck ∧ Checker_Type ck = Check_Type c) ↔
  (Check_Type c = CheckTypeHTTP →
   ifSet (Check_HTTP c) (λ h, HTTP_ResponseJQ h = EmptyString ∨ jqParses (HTTP_ResponseJQ h) = true)).
Proof. apply valid_check_builds. Qed.

End Proofs.
End BackendsProofs.
Export BackendsProofs.
