(* ===== verification/CheckersWitness.v ===== *)
(** * The theorems on checkers, applied

    Concrete checks against concrete answers of the network: runs of every
    checker, and the theorems with hypotheses at concrete inputs. *)

From S2P Require Import Prelude GoStrings NetIP Net Config Model ChecksPolicy Defaults Validate.
From S2P Require Import ValidateProofs DefaultsProofs LocalAddr Checkers Backends SQLBackend.
From S2P Require Import CheckersProofs BackendsProofs.
From Stdlib Require Import Ascii SpecFloat.

Module CheckersWitness.

(** A standard library whose jq takes every program that does not start with
    a parenthesis. *)
#[local] Instance cw_go : GoStd :=
  {| urlParse := refURL; LookupPort s := ParseUint s 16; regexpCompiles _ := true;
     jqParses s := negb (HasPrefix s "(") |}.

(** A machine on which every file holds a certificate; jq programs give the
    value of the body, and rows the number of rows. *)
#[local] Instance cw_std : CheckStd :=
  {| regexpMatch re body := Contains body re;
     jsonUnmarshal body := if isEmpty body then Some (External "unexpected end of JSON input") else None;
     jqRun q body := JQValue (bool_decide (body = "true")) body;
     readFile path := Ok "PEM";
     systemCertPoolErr := None;
     appendCertsFromPEM pem := true;
     grpcNewClient addr := None;
     mysqlNewConnector cfg := None;
     pgxParseConfig := None |}.
#[local] Instance cw_sql : SQLStd :=
  {| ParseFloat s := None;
     formatTime t := Itoa t;
     jqRunRows q rows := JQValue (bool_decide (q = Itoa (len rows))) (Itoa (len rows)) |}.

Definition cw_text (e : error) : string := match e with External t => t | Errorf f _ => f | Wrapf f _ _ => f end.

Lemma cw_environment : Environment.
Proof. split; try done. intros path. by exists "PEM". Qed.

(** ** Runs *)

(** A proxy is not used together with the SNI host; a Host header names the
    virtual host. *)
Definition cw_http : HTTPCheckConfig :=
  applyHTTPDefaults (mkHTTPCheckConfig "/health" "https" EmptyString 0 EmptyString None "up" EmptyString EmptyString
    false "/etc/ca.pem" "web.example" EmptyString (Some {["host" := "web.example"]}) false) "2001:db8::1/128".

Example cw_http_request :
  ∃ c, NewHTTPChecker cw_http = Ok c ∧ requestURL c = "https://web.example:443/health" ∧
    Tr_ConnectTo (hc_transport c) = Some "2001:db8::1" ∧ Req_Host (requestOf "pathosd/dev" c) = Some "web.example" ∧
    Req_Header (requestOf "pathosd/dev" c) = {["User-Agent" := "pathosd-check/1.0"]}.
Proof. eexists. split; [by vm_compute|]. split_and!; by vm_compute. Qed.

Definition cw_listen : ListenCheckConfig := mkListenCheckConfig "tcp" 443 "10.0.0.1" 7 "/host/proc/".
Definition cw_proc (addr : IPBytes) (root : string) : ProcNet :=
  mkProcNet (if decide (root = "/host/proc/7") then None else Some (External "no such file"))
    (λ _, [TableLines [None; Some (mkSocketLine addr 443 tcpListen)]; TableMissing]).

Example cw_listen_wildcard : Success (Listen_Check cw_text cw_listen (cw_proc (Bytes16 0)) 0) = true.
Proof. by vm_compute. Qed.
Example cw_listen_other : Success (Listen_Check cw_text cw_listen (cw_proc (Bytes4 0x0a000002)) 0) = false.
Proof. by vm_compute. Qed.

Definition cw_topic (leaders : list Z) : TopicDetail :=
  mkTopicDetail "t" None (imap (λ i l, mkPartition (Z.of_nat i) l None) leaders).

Example cw_kafka_leaderless : (evalKafkaTopic (cw_topic [1; -1; 2; -1])).1 = (4, 2).
Proof. by vm_compute. Qed.

Definition cw_rows : Rows :=
  mkRows (Ok ["n"; "v"]) (Ok ["UNSIGNED BIGINT"; "TEXT"])
    [Ok [VBytes "42"; VBytes "42"]; Ok [VBytes "-7"; VNil]; Ok [VBytes "x"; VBool true]] None.

Example cw_sql_rows :
  (runQuery (Ok cw_rows) 2).1 = [{["n" := JInt 42; "v" := JString "42"]}; {["n" := JInt (-7); "v" := JNull]}].
Proof. by vm_compute. Qed.

(** ** The theorems applied *)

Definition cw_check (jq : string) : CheckConfig :=
  mkCheckConfig "c" "http" false (Some (10 * second)) (Some second) (Some 1) (Some 3)
    (Some (applyHTTPDefaults (mkHTTPCheckConfig EmptyString EmptyString EmptyString 0 EmptyString None EmptyString
       EmptyString jq false EmptyString EmptyString EmptyString None false) "10.0.0.1/32"))
    None None None None None None None None.

Lemma cw_check_valid jq : ValidCheck "10.0.0.1/32" (cw_check jq).
Proof.
  split; cbn; try done; [by right|]. apply VB_HTTP; [done|]. eexists. split; [done|]. unfold ValidHTTP, ValidHost.
  cbn. split_and!; try done; first [by left|by right; set_solver].
Qed.

Lemma valid_check_starts_witness :
  ∃ ck, NewChecker (cw_check ".ok") = Ok ck ∧ Checker_Type ck = "http".
Proof.
  apply (valid_check_starts (cw_check ".ok") "10.0.0.1/32" cw_environment (cw_check_valid ".ok")).
  intros _. right. by vm_compute.
Defined.

(** The check with a jq program that does not parse is as valid. *)
Example cw_bad_jq : NewChecker (cw_check "(") = Err (Errorf "invalid response_jq: %w" []).
Proof. by vm_compute. Qed.

Definition cw_ping : PingCheckConfig := mkPingCheckConfig "10.0.0.1" EmptyString false 3 None None S754_nan.
Definition cw_lost : PingStats := mkPingStats float_100 [] 3 0.

Lemma nan_ratio_always_passes_witness :
  Success (Ping_Check cw_text (λ _, "100") cw_ping (λ _, None) (λ _, PingRun (Ok cw_lost)) 0) = true.
Proof.
  apply (nan_ratio_always_passes cw_text (λ _, "100") cw_ping "10.0.0.1/32" (λ _, None) (λ _, PingRun (Ok cw_lost))
    (mkPinger "10.0.0.1" 3 false EmptyString None None) cw_lost 0); by vm_compute.
Defined.

End CheckersWitness.
