(* ===== verification/HTTPAPI.v ===== *)
(** * The HTTP API: internal/httpapi/server.go

    A handler is a function from the state of the components and what the
    request says to a [Response]: the status code and what is encoded in the
    body.  Schedulers are pointers into a heap, as in Registry; only
    [handleTriggerCheck] writes it.  Rendering (JSON, the landing page's
    template), the metrics exposition and static files are left to their
    libraries. *)

From stdpp Require Import functions.
From S2P Require Import Prelude GoStrings Config Model Metrics ChecksPolicy Scheduler Registry.
From S2P Require Import PolicyManager PolicyProofs Defaults.

Module HTTPAPI.
Import PolicyManager.

(** What a handler writes. *)
Inductive Payload :=
| PHealthz
| PReady (peers : list PeerStatus)
| PNotReady (unready peers : list PeerStatus)
| PStatus (st : DaemonStatus)
| PError (msg : string)
| PTriggered (vip : string) (result : Result) (results : gmap string Result)
| PReload (st : ReloadStatus).

Record Response := mkResponse { Resp_Code : Z; Resp_Payload : Payload }.

Definition StatusOK : Z := 200.
Definition StatusNotFound : Z := 404.
Definition StatusUnprocessableEntity : Z := 422.
Definition StatusInternalServerError : Z := 500.
Definition StatusNotImplemented : Z := 501.
Definition StatusServiceUnavailable : Z := 503.

(** [durationOr]. *)
Definition durationOr (d : option Z) (fallback : Z) : Z := default fallback d.

(** [NewServer]: the routes of the mux, and the server. *)
Inductive Handler :=
| HLanding | HAssets | HHealthz | HReadyz | HStatus | HMetrics | HTriggerCheck | HReload.

Record Server := mkServer {
  Srv_Routes : list (string * Handler);
  Srv_Addr : string;
  Srv_ReadHeaderTimeout : Z;
  Srv_ReadTimeout : Z;
  Srv_WriteTimeout : Z;
  Srv_IdleTimeout : Z }.

Definition NewServer (cfg : Config) : Server :=
  let api := Cfg_API cfg in
  mkServer
    [("GET /{$}", HLanding); ("GET /assets/", HAssets); ("GET /healthz", HHealthz);
     ("GET /readyz", HReadyz); ("GET /status", HStatus); ("GET /metrics", HMetrics);
     ("POST /api/v1/vips/{name}/check", HTriggerCheck); ("POST /api/v1/reload", HReload)]
    (API_Listen api)
    (durationOr (API_ReadHeaderTimeout api) (10 * second))
    (durationOr (API_ReadTimeout api) (30 * second))
    (durationOr (API_WriteTimeout api) (60 * second))
    (durationOr (API_IdleTimeout api) (120 * second)).

(** [handleHealthz], [handleReadyz] and [handleReload]. *)
Definition handleHealthz : Response := mkResponse StatusOK PHealthz.

Definition handleReadyz (peers : list PeerStatus) : Response :=
  match UnreadyPeers peers with
  | [] => mkResponse StatusOK (PReady peers)
  | unready => mkResponse StatusServiceUnavailable (PNotReady unready peers)
  end.

(** [reload] is the reloader's method on its state; [None] without one. *)
Definition handleReload {R} (reload : option (R → R * ReloadStatus)) (r : R) : R * Response :=
  match reload with
  | None => (r, mkResponse StatusNotImplemented (PError "config reload is not available"))
  | Some reload =>
      let '(r', res) := reload r in
      (r', mkResponse
             match RS_Outcome res with
             | ReloadRejected => StatusUnprocessableEntity
             | ReloadFailed => StatusInternalServerError
             | _ => StatusOK
             end (PReload res))
  end.

(** ** Status *)

Section Status.
Context `{ExprLang} {TCb RCb : Type}.
Abbreviation Sched := (Scheduler TCb RCb).
Abbreviation Heap := (nat → Sched).

(** The fields [vipStatuses] writes. *)
Definition setCheckCounters (c : CheckStatus) (ok fail : Z) : CheckStatus :=
  mkCheckStatus (CS_Name c) (CS_Type c) (CS_Health c) (CS_HealthName c) ok fail (CS_LastSuccess c)
    (CS_LastDetail c) (CS_LastTime c).

Definition setVIPCounters (v : VIPStatus) (checks : list CheckStatus) (ok fail : Z) : VIPStatus :=
  mkVIPStatus (VS_Name v) (VS_Prefix v) (VS_State v) (VS_StateName v) (VS_Health v) (VS_HealthName v)
    ok fail (VS_LastCheckSuccess v) (VS_LastCheckDetail v) (VS_LastCheckTime v) (VS_LastTransitionTime v)
    (VS_LastTransitionReason v) (VS_CheckType v) (VS_ChecksPolicy v) checks (VS_BGPPending v)
    (VS_ASPathPrependBase v) (VS_ASPathPrepend v) (VS_Communities v).

(** [byName]: the last scheduler of a name wins. *)
Definition schedsByName (h : Heap) (l : list nat) : gmap string nat :=
  foldl (λ m s, <[sc_checkName (h s) := s]> m) ∅ l.

(** The loop over the checks of a VIP: [first], and the VIP's counters. *)
Fixpoint countersLoop (h : Heap) (byName : gmap string nat) (first : bool) (ok fail : Z)
    (l : list CheckStatus) : list CheckStatus * (Z * Z) :=
  match l with
  | [] => ([], (ok, fail))
  | c :: l' =>
      match byName !! CS_Name c with
      | None =>
          let '(out, r) := countersLoop h byName first ok fail l' in (c :: out, r)
      | Some s =>
          let okN := sc_consecutiveOK (h s) in
          let failN := sc_consecutiveFail (h s) in
          let '(out, r) :=
            countersLoop h byName false
              (if first || (okN <? ok) then okN else ok)
              (if first || (fail <? failN) then failN else fail) l' in
          (setCheckCounters c okN failN :: out, r)
      end
  end.

Definition withCounters (h : Heap) (scheds : gmap string (list nat)) (st : VIPStatus) : VIPStatus :=
  let byName := schedsByName h (default [] (scheds !! VS_Name st)) in
  let '(checks, (ok, fail)) :=
    countersLoop h byName true (VS_ConsecutiveOK st) (VS_ConsecutiveFail st) (VS_Checks st) in
  setVIPCounters st checks ok fail.

(** [vipStatuses]. *)
Definition vipStatuses {B} (pol : Manager (B := B)) (h : Heap) (scheds : gmap string (list nat))
    : outcome (list VIPStatus) :=
  match GetVIPStatuses pol with
  | Ret l => Ret (withCounters h scheds <$> l)
  | Panic => Panic
  end.

(** [handleStatus]; the build's version and commit are arguments. *)
Definition handleStatus {B} (version commit : string) (cfg : Config) (peers : list PeerStatus)
    (pol : Manager (B := B)) (h : Heap) (scheds : gmap string (list nat)) (config : option ConfigStatus)
    : outcome Response :=
  match vipStatuses pol h scheds with
  | Panic => Panic
  | Ret vips =>
      Ret (mkResponse StatusOK
             (PStatus (mkDaemonStatus (Router_RouterID (Cfg_Router cfg)) (Router_ASN (Cfg_Router cfg))
                         version commit 0 peers vips config)))
  end.

(** ** The dependencies and the landing page *)

(** [ServerDeps]: the schedulers come from the registry, or from the static
    list when there is none; the reloader is optional. *)
Record ServerDeps {B} := mkServerDeps {
  sd_Config : Config;
  sd_Peers : list PeerStatus;
  sd_Policy : Manager (B := B);
  sd_Schedulers : gmap string (list nat);
  sd_Registry : option Registry;
  sd_ReloaderStatus : option ConfigStatus }.
#[global] Arguments ServerDeps : clear implicits.

(** [ServerDeps.schedulers] and [ServerDeps.configStatus]. *)
Definition schedulers {B} (d : ServerDeps B) : gmap string (list nat) :=
  match sd_Registry d with Some reg => Schedulers reg | None => sd_Schedulers d end.
Definition configStatus {B} (d : ServerDeps B) : option ConfigStatus := sd_ReloaderStatus d.

Record landingPageData := mkLanding {
  LP_RouterID : string;
  LP_ASN : Z;
  LP_Version : string;
  LP_Commit : string;
  LP_GeneratedAt : Z;
  LP_Peers : list PeerStatus;
  LP_VIPs : list VIPStatus;
  LP_Config : option ConfigStatus }.

(** [landingPageData.ConfigNotice]. *)
Definition landingNotice (errText : error → string) (formatTime : Z → string) (d : landingPageData) : string :=
  ConfigNotice errText formatTime (LP_Config d).

(** What a handler wrote: the status line goes out with the first byte, so
    [http.Error] can change it only before. *)
Record Written := mkWritten { Wr_ContentType : string; Wr_Code : Z; Wr_Body : string }.

(** [handleLanding]; [execute] is the template: what it wrote and its error. *)
Definition handleLanding {B} (execute : landingPageData → string * goerror) (version commit : string) (now : Z)
    (h : Heap) (d : ServerDeps B) : outcome Written :=
  match vipStatuses (sd_Policy d) h (schedulers d) with
  | Panic => Panic
  | Ret vips =>
      let r := Cfg_Router (sd_Config d) in
      let data := mkLanding (Router_RouterID r) (Router_ASN r) version commit now (sd_Peers d) vips (configStatus d) in
      let html := "text/html; charset=utf-8" in
      Ret match execute data with
          | (body, None) => mkWritten html StatusOK body
          | (EmptyString, Some _) => mkWritten "text/plain; charset=utf-8" StatusInternalServerError "internal server error"
          | (body, Some _) => mkWritten html StatusOK (body +:+ "internal server error")
          end
  end.

(** [writeJSON]: the status is written before the payload is encoded, so a
    failed encoding leaves the code as it was. *)
Definition writeJSON (encode : Payload → string * goerror) (r : Response) : Written :=
  mkWritten "application/json" (Resp_Code r) (encode (Resp_Payload r)).1.

(** The landing page is rendered from what the status endpoint reports; when
    the template fails, the answer is a server error only if nothing was
    written before. *)
Theorem landing_shows_status {B} execute version commit now h (d : ServerDeps B) st :
  handleStatus version commit (sd_Config d) (sd_Peers d) (sd_Policy d) h (schedulers d) (configStatus d) =
    Ret (mkResponse StatusOK (PStatus st)) →
  ∃ data w, handleLanding execute version commit now h d = Ret w ∧
    LP_Peers data = DS_Peers st ∧ LP_VIPs data = DS_VIPs st ∧ LP_Config data = DS_Config st ∧
    match execute data with
    | (body, None) => Wr_Code w = StatusOK ∧ Wr_Body w = body
    | (body, Some _) => Wr_Code w = StatusInternalServerError ↔ body = EmptyString
    end.
Proof.
  unfold handleStatus, handleLanding. destruct (vipStatuses _ _ _) as [vips|]; [|done]. intros [= <-].
  set (data := mkLanding _ _ _ _ _ _ _ _). exists data. eexists. split; [done|]. split_and!; [done..|].
  destruct (execute data) as [[] [e|]]; done.
Qed.

(** ** Ad-hoc checks *)

(** What the request's context and the checker give for a scheduler. *)
Definition Answers : Type := nat → goerror * Result.

Record trigger := mkTrigger {
  tr_heap : Heap;
  tr_calls : list (Call TCb RCb);
  tr_results : gmap string Result;
  tr_healthy : gmap string bool;
  tr_combined : Result;
  tr_details : list string }.

Definition addDuration (r : Result) (d : Z) : Result :=
  mkResult (Success r) (Detail r) (wrap64 (Duration r + d)) (Result_Err r) (TimedOut r) (Details r).

(** One scheduler; [first] is [i == 0]. *)
Definition triggerOne (answers : Answers) (first : bool) (s : nat) (t : trigger) : trigger * goerror :=
  let sched := tr_heap t s in
  let name := sc_checkName sched in
  let '(sched', calls, (result, err)) := TriggerCheck sched (answers s).1 (answers s).2 in
  let heap := <[s := sched']> (tr_heap t) in
  match err with
  | Some e =>
      (mkTrigger heap (tr_calls t ++ calls) (tr_results t) (tr_healthy t) (tr_combined t) (tr_details t), Some e)
  | None =>
      (mkTrigger heap (tr_calls t ++ calls) (<[name := result]> (tr_results t))
         (<[name := Success result]> (tr_healthy t))
         (if first then result else addDuration (tr_combined t) (Duration result))
         (if decide (Detail result = EmptyString) then tr_details t
          else tr_details t ++ [name +:+ ": " +:+ Detail result]), None)
  end.

Fixpoint triggerLoop (answers : Answers) (first : bool) (l : list nat) (t : trigger) : trigger * goerror :=
  match l with
  | [] => (t, None)
  | s :: l' =>
      let '(t', err) := triggerOne answers first s t in
      match err with
      | Some e => (t', Some e)
      | None => triggerLoop answers false l' t'
      end
  end.

(** [handleTriggerCheck]: the heap after it, the callbacks fired and the
    response; [only] is the query parameter check.  [CombineChecks] reads only
    the VIP's evaluator, which no callback of a check changes, so the manager
    at entry gives its answer. *)
Definition handleTriggerCheck {B} (errText : error → string) (pol : Manager (B := B)) (h : Heap)
    (schedulers : gmap string (list nat)) (name only : string) (answers : Answers)
    : Heap * list (Call TCb RCb) * Response :=
  match default [] (schedulers !! name) with
  | [] => (h, [], mkResponse StatusNotFound (PError ("VIP not found: " +:+ name)))
  | scheds =>
      let selected :=
        if decide (only = EmptyString) then scheds
        else filter (λ s, sc_checkName (h s) = only) scheds in
      match selected with
      | [] => (h, [], mkResponse StatusNotFound (PError ("check not found: " +:+ only)))
      | _ =>
          let '(t, err) := triggerLoop answers true selected (mkTrigger h [] ∅ ∅ zeroResult []) in
          (tr_heap t, tr_calls t,
           match err with
           | Some e => mkResponse StatusInternalServerError (PError (errText e))
           | None =>
               let combined :=
                 if decide (1 < len scheds) then
                   mkResult (CombineChecks pol name (tr_healthy t)).1 (Join (tr_details t) "; ")
                     (Duration (tr_combined t)) None false None
                 else tr_combined t in
               mkResponse StatusOK (PTriggered name combined (tr_results t))
           end)
      end
  end.

End Status.
End HTTPAPI.
Export HTTPAPI.
