(* ===== verification/HTTPAPIProofs.v ===== *)
(** * What the HTTP API reports and triggers

    The counters of /status are those of the schedulers that run, and an
    ad-hoc check runs exactly the checks it was asked for, through the same
    path as a scheduled one. *)

From stdpp Require Import functions.
From S2P Require Import Prelude GoStrings NetIP Net Config Model Metrics ChecksPolicy Scheduler Registry.
From S2P Require Import PolicyManager PolicyProofs Defaults HTTPAPI.

Module HTTPAPIProofs.
Import PolicyManager.

(** ** The server *)

(** The fallbacks of [NewServer] are the defaults of the config. *)
Lemma NewServer_defaults `{GoStd} cfg :
  let srv := NewServer cfg in
  NewServer (ApplyDefaults cfg) =
    mkServer (Srv_Routes srv) (orString (Srv_Addr srv) ":59179") (Srv_ReadHeaderTimeout srv) (Srv_ReadTimeout srv)
      (Srv_WriteTimeout srv) (Srv_IdleTimeout srv).
Proof. by destruct cfg as [? ? [? [] [] [] []]]. Qed.

(** The status code of a reload tells whether what runs is what the file
    says. *)
Lemma handleReload_code {R} (reload : R → R * ReloadStatus) r :
  Resp_Code (handleReload (Some reload) r).2 = StatusOK ↔ OK (Some (reload r).2) = true.
Proof.
  unfold handleReload, OK. destruct (reload r) as [r' res]. cbn. by destruct (RS_Outcome res).
Qed.

(** /readyz answers 200 exactly when every required peer is established. *)
Lemma handleReadyz_code peers :
  Resp_Code (handleReadyz peers) = StatusOK ↔
  ∀ p, p ∈ peers → PS_Required p = true → PS_SessionState p = SessionEstablished.
Proof. rewrite <-UnreadyPeers_empty_iff. unfold handleReadyz. by destruct (UnreadyPeers peers). Qed.

(** ** Status *)

Definition lowest (n : Z) (l : list Z) : Prop := n ∈ l ∧ ∀ x, x ∈ l → n ≤ x.
Definition highest (n : Z) (l : list Z) : Prop := n ∈ l ∧ ∀ x, x ∈ l → x ≤ n.

Section Status.
Context `{ExprLang} {TCb RCb : Type}.
Abbreviation Heap := (nat → Scheduler TCb RCb).
Implicit Types (h : Heap).

Definition named h (s : nat) : string := sc_checkName (h s).

Lemma schedsByName_lookup h l n s :
  NoDup (named h <$> l) → schedsByName h l !! n = Some s ↔ s ∈ l ∧ named h s = n.
Proof.
  intros Hnd. assert (∀ m : gmap string nat, foldl (λ m s, <[sc_checkName (h s) := s]> m) m l !! n = Some s ↔
    s ∈ l ∧ named h s = n ∨ n ∉ named h <$> l ∧ m !! n = Some s) as Hgen.
  { induction l as [|a l IH]; intros m; cbn; [set_solver|]. cbn in Hnd. apply NoDup_cons in Hnd as [Ha Hnd].
    rewrite (IH Hnd), lookup_insert_Some, !elem_of_cons. fold (named h a).
    assert (∀ x, x ∈ l → named h x ∈ named h <$> l) by (intros; by apply list_elem_of_fmap_2). split.
    - intros [?|(Hn & [[<- <-]|[? ?]])]; naive_solver.
    - intros [[[->|?] Hs]|[Hn ?]]; [right|by left|right; naive_solver]. rewrite <-Hs. naive_solver. }
  unfold schedsByName. rewrite Hgen, lookup_empty. naive_solver.
Qed.

(** What a check's status shows once its scheduler is found. *)
Definition enriched h (byName : gmap string nat) (c : CheckStatus) : CheckStatus :=
  match byName !! CS_Name c with
  | Some s => setCheckCounters c (sc_consecutiveOK (h s)) (sc_consecutiveFail (h s))
  | None => c
  end.

Definition matched (byName : gmap string nat) (l : list CheckStatus) : list nat :=
  omap (λ c, byName !! CS_Name c) l.

Lemma countersLoop_checks h byName first ok fail l :
  (countersLoop h byName first ok fail l).1 = enriched h byName <$> l.
Proof.
  revert first ok fail. induction l as [|c l IH]; intros first ok fail; cbn; [done|]. unfold enriched at 1.
  destruct (byName !! CS_Name c) as [s|].
  - specialize (IH false (if first || (sc_consecutiveOK (h s) <? ok) then sc_consecutiveOK (h s) else ok)
      (if first || (fail <? sc_consecutiveFail (h s)) then sc_consecutiveFail (h s) else fail)).
    destruct (countersLoop _ _ _ _ _ l). cbn in *. by rewrite IH.
  - specialize (IH first ok fail). destruct (countersLoop _ _ _ _ _ l). cbn in *. by rewrite IH.
Qed.

(** The counters: the minimum and the maximum of what was seen so far. *)
Lemma countersLoop_false h byName ok fail l :
  (countersLoop h byName false ok fail l).2 =
    (foldr Z.min ok (sc_consecutiveOK ∘ h <$> matched byName l),
     foldr Z.max fail (sc_consecutiveFail ∘ h <$> matched byName l)).
Proof.
  assert (∀ (op : Z → Z → Z) (l : list Z) x y, (∀ a b c, op a (op b c) = op b (op a c)) →
    foldr op (op x y) l = op x (foldr op y l)) as Hop.
  { clear. intros op l x y Hop. induction l as [|a l IH]; cbn; [done|]. by rewrite IH, Hop. }
  revert ok fail. induction l as [|c l IH]; intros ok fail; cbn; [done|].
  destruct (byName !! CS_Name c) as [s|]; cbn.
  - specialize (IH (if sc_consecutiveOK (h s) <? ok then sc_consecutiveOK (h s) else ok)
      (if fail <? sc_consecutiveFail (h s) then sc_consecutiveFail (h s) else fail)).
    destruct (countersLoop _ _ _ _ _ l) as [out r]. cbn in *. rewrite IH.
    assert ((if sc_consecutiveOK (h s) <? ok then sc_consecutiveOK (h s) else ok) =
      Z.min (sc_consecutiveOK (h s)) ok) as -> by (destruct (Z.ltb_spec (sc_consecutiveOK (h s)) ok); lia).
    assert ((if fail <? sc_consecutiveFail (h s) then sc_consecutiveFail (h s) else fail) =
      Z.max (sc_consecutiveFail (h s)) fail) as -> by (destruct (Z.ltb_spec fail (sc_consecutiveFail (h s))); lia).
    rewrite !Hop by lia. done.
  - specialize (IH ok fail). destruct (countersLoop _ _ _ _ _ l). done.
Qed.

Lemma countersLoop_true h byName ok fail l s ss :
  matched byName l = s :: ss →
  (countersLoop h byName true ok fail l).2 =
    (foldr Z.min (sc_consecutiveOK (h s)) (sc_consecutiveOK ∘ h <$> ss),
     foldr Z.max (sc_consecutiveFail (h s)) (sc_consecutiveFail ∘ h <$> ss)).
Proof.
  revert ok fail. induction l as [|c l IH]; intros ok fail; cbn; [done|].
  destruct (byName !! CS_Name c) as [s'|]; cbn.
  - intros [= -> <-]. pose proof (countersLoop_false h byName (sc_consecutiveOK (h s)) (sc_consecutiveFail (h s)) l) as Hl.
    destruct (countersLoop _ _ _ _ _ l). done.
  - intros Hm. specialize (IH ok fail Hm). destruct (countersLoop _ _ _ _ _ l). done.
Qed.

Lemma foldr_min_lowest x l : lowest (foldr Z.min x l) (x :: l).
Proof.
  unfold lowest. setoid_rewrite elem_of_cons. induction l as [|a l [IHin IHle]]; cbn; [set_solver by lia|].
  split.
  - destruct (Z.min_spec a (foldr Z.min x l)) as [[_ ->]|[_ ->]]; set_solver.
  - intros y Hy. rewrite elem_of_cons in Hy. destruct Hy as [Hy|[->|Hy]]; [..|];
      first [lia|specialize (IHle y ltac:(tauto)); lia].
Qed.

Lemma foldr_max_highest x l : highest (foldr Z.max x l) (x :: l).
Proof.
  unfold highest. setoid_rewrite elem_of_cons. induction l as [|a l [IHin IHle]]; cbn; [set_solver by lia|].
  split.
  - destruct (Z.max_spec a (foldr Z.max x l)) as [[_ ->]|[_ ->]]; set_solver.
  - intros y Hy. rewrite elem_of_cons in Hy. destruct Hy as [Hy|[->|Hy]]; [..|];
      first [lia|specialize (IHle y ltac:(tauto)); lia].
Qed.

(** Each check of the status has its scheduler, and no other runs. *)
Definition inStep h (ss : list nat) (st : VIPStatus) : Prop :=
  NoDup (named h <$> ss) ∧ NoDup (CS_Name <$> VS_Checks st) ∧
  ∀ n, n ∈ named h <$> ss ↔ n ∈ CS_Name <$> VS_Checks st.

Lemma matched_all h ss st :
  inStep h ss st → ∀ s, s ∈ matched (schedsByName h ss) (VS_Checks st) ↔ s ∈ ss.
Proof.
  intros (Hnd & _ & Hn) s. unfold matched. rewrite list_elem_of_omap. split.
  - intros (c & _ & Hs). by apply schedsByName_lookup in Hs as [].
  - intros Hs. assert (named h s ∈ CS_Name <$> VS_Checks st) as (c & Hc & Hin)%list_elem_of_fmap
      by (by apply Hn, list_elem_of_fmap_2).
    exists c. split; [done|]. by apply schedsByName_lookup.
Qed.

(** The status API shows for every check the counters of the scheduler
    that runs it, and for the VIP the lowest count of successes and the
    highest count of failures among them; nothing else of what the policy
    manager reports is changed. *)
Theorem status_counters h scheds st :
  let ss := default [] (scheds !! VS_Name st) in
  let st' := withCounters h scheds st in
  inStep h ss st → ss ≠ [] →
  lowest (VS_ConsecutiveOK st') (sc_consecutiveOK ∘ h <$> ss) ∧
  highest (VS_ConsecutiveFail st') (sc_consecutiveFail ∘ h <$> ss) ∧
  Forall2 (λ c c', ∃ s, s ∈ ss ∧ named h s = CS_Name c ∧
    c' = setCheckCounters c (sc_consecutiveOK (h s)) (sc_consecutiveFail (h s))) (VS_Checks st) (VS_Checks st') ∧
  st' = setVIPCounters st (VS_Checks st') (VS_ConsecutiveOK st') (VS_ConsecutiveFail st').
Proof.
  intros ss st' Hs Hne. subst st'. unfold withCounters. fold ss.
  pose proof (matched_all h ss st Hs) as Hm.
  pose proof (countersLoop_checks h (schedsByName h ss) true (VS_ConsecutiveOK st) (VS_ConsecutiveFail st) (VS_Checks st)) as Hc.
  destruct (matched (schedsByName h ss) (VS_Checks st)) as [|s0 rest] eqn:Em.
  { destruct ss as [|s ss']; [done|]. specialize (Hm s). set_solver. }
  pose proof (countersLoop_true h _ (VS_ConsecutiveOK st) (VS_ConsecutiveFail st) _ _ _ Em) as Ht.
  destruct (countersLoop _ _ _ _ _ _) as [checks [ok fail]]. cbn in Hc, Ht. subst checks.
  injection Ht as Hok Hfail. subst ok fail. cbn [setVIPCounters VS_ConsecutiveOK VS_ConsecutiveFail VS_Checks].
  assert (∀ (f : nat → Z) x, x ∈ f s0 :: (f <$> rest) ↔ x ∈ f <$> ss) as Hf.
  { intros f x. change (f s0 :: (f <$> rest)) with (f <$> s0 :: rest). rewrite !list_elem_of_fmap.
    by setoid_rewrite Hm. }
  split_and!; [..|done].
  - destruct (foldr_min_lowest (sc_consecutiveOK (h s0)) (sc_consecutiveOK ∘ h <$> rest)) as [Hin Hle].
    split; [by apply (Hf (sc_consecutiveOK ∘ h))|]. intros x Hx. by apply Hle, (Hf (sc_consecutiveOK ∘ h)).
  - destruct (foldr_max_highest (sc_consecutiveFail (h s0)) (sc_consecutiveFail ∘ h <$> rest)) as [Hin Hle].
    split; [by apply (Hf (sc_consecutiveFail ∘ h))|]. intros x Hx. by apply Hle, (Hf (sc_consecutiveFail ∘ h)).
  - apply Forall2_fmap_r, Forall_Forall2_diag, Forall_forall. intros c Hcin.
    destruct Hs as (Hnd & _ & Hn).
    assert (CS_Name c ∈ named h <$> ss) as (s & Hsn & Hs)%list_elem_of_fmap by (by apply Hn, list_elem_of_fmap_2).
    exists s. split_and!; [done..|]. unfold enriched.
    by rewrite (proj2 (schedsByName_lookup h ss (CS_Name c) s Hnd) (conj Hs (eq_sym Hsn))).
Qed.

(** ** Ad-hoc checks *)

Section Trigger.
Context (answers : Answers).

(** A scheduler after an ad-hoc run, and what the run called. *)
Definition ran h (s : nat) : Scheduler TCb RCb := (runCheck (h s) (answers s).2).1.
Definition called h (s : nat) : list (Call TCb RCb) := (runCheck (h s) (answers s).2).2.

Lemma triggerOne_alive first s (t : trigger) :
  (answers s).1 = None →
  triggerOne answers first s t =
    (mkTrigger (<[s := ran (tr_heap t) s]> (tr_heap t)) (tr_calls t ++ called (tr_heap t) s)
       (<[named (tr_heap t) s := (answers s).2]> (tr_results t))
       (<[named (tr_heap t) s := Success (answers s).2]> (tr_healthy t))
       (if first then (answers s).2 else addDuration (tr_combined t) (Duration (answers s).2))
       (if decide (Detail (answers s).2 = EmptyString) then tr_details t
        else tr_details t ++ [named (tr_heap t) s +:+ ": " +:+ Detail (answers s).2]), None).
Proof.
  intros Ha. unfold triggerOne, TriggerCheck, ran, called. rewrite Ha. by destruct (runCheck _ _).
Qed.

(** The loop over schedulers whose context is alive. *)
Record triggered (l : list nat) (t t' : trigger (TCb := TCb) (RCb := RCb)) : Prop := {
  tg_heap : ∀ s, tr_heap t' s = if decide (s ∈ l) then ran (tr_heap t) s else tr_heap t s;
  tg_calls : tr_calls t' = tr_calls t ++ concat (called (tr_heap t) <$> l);
  tg_results : tr_results t' = foldl (λ m s, <[named (tr_heap t) s := (answers s).2]> m) (tr_results t) l;
  tg_healthy : tr_healthy t = Success <$> tr_results t → tr_healthy t' = Success <$> tr_results t' }.

Lemma triggered_cons s l t t1 t' first :
  s ∉ l → (answers s).1 = None → triggerOne answers first s t = (t1, None) → triggered l t1 t' →
  triggered (s :: l) t t'.
Proof.
  intros Hs Ha. rewrite (triggerOne_alive first s t Ha). intros [= <-] [Hh Hc Hr Hhl]. cbn in *.
  assert (∀ x, x ∈ l → <[s := ran (tr_heap t) s]> (tr_heap t) x = tr_heap t x) as Hsame
    by (intros x Hx; apply fn_lookup_insert_ne; set_solver).
  split.
  - intros x. rewrite Hh. destruct (decide (x = s)) as [->|Hne].
    + rewrite decide_False, decide_True by set_solver. by rewrite fn_lookup_insert.
    + unfold ran. rewrite fn_lookup_insert_ne by done.
      by rewrite (decide_ext (x ∈ l) (x ∈ s :: l)) by set_solver.
  - rewrite Hc, <-app_assoc. cbn. do 3 f_equal. apply list_fmap_ext. intros i x Hx%list_elem_of_lookup_2.
    unfold called. by rewrite Hsame.
  - rewrite Hr. cbn. clear -Hsame. revert Hsame. generalize (<[named (tr_heap t) s := (answers s).2]> (tr_results t)).
    induction l as [|a l IH]; intros m Hsame; cbn; [done|]. rewrite IH by set_solver. do 2 f_equal.
    unfold named. by rewrite Hsame by set_solver.
  - intros He. apply Hhl. by rewrite fmap_insert, He.
Qed.

Lemma triggerLoop_alive first l (t : trigger) :
  NoDup l → (∀ s, s ∈ l → (answers s).1 = None) →
  ∃ t', triggerLoop answers first l t = (t', None) ∧ triggered l t t'.
Proof.
  revert first t. induction l as [|s l IH]; intros first t Hnd Ha; cbn.
  { exists t. split; [done|]. split; [..|done]; cbn; [done|by rewrite app_nil_r|done]. }
  apply NoDup_cons in Hnd as [Hs Hnd].
  destruct (triggerOne answers first s t) as [t1 err] eqn:E.
  assert (err = None) as -> by (rewrite triggerOne_alive in E by (apply Ha; left); by injection E).
  destruct (IH false t1 Hnd) as (t' & Hl & Ht); [set_solver|]. exists t'. split; [done|].
  eapply triggered_cons; [done|apply Ha; left|done|done].
Qed.

(** The first scheduler whose context has ended stops the loop. *)
Lemma triggerLoop_dead first l s e rest (t : trigger) :
  NoDup (l ++ s :: rest) → (∀ s, s ∈ l → (answers s).1 = None) → (answers s).1 = Some e →
  ∃ t', triggerLoop answers first (l ++ s :: rest) t = (t', Some e) ∧
    (∀ x, tr_heap t' x = if decide (x ∈ l) then ran (tr_heap t) x else tr_heap t x) ∧
    tr_calls t' = tr_calls t ++ concat (called (tr_heap t) <$> l).
Proof.
  intros Hnd Ha He. destruct (triggerLoop_alive first l t) as (t1 & Hl & Ht); [by apply NoDup_app in Hnd as [? _]|done|].
  assert (∃ first', triggerLoop answers first (l ++ s :: rest) t = triggerLoop answers first' (s :: rest) t1)
    as [first' ->].
  { clear -Hl. revert first t Hl. induction l as [|a l IH]; intros first t; cbn.
    - intros [= <-]. by exists first.
    - destruct (triggerOne _ _ _ _) as [t2 [err|]]; [done|]. apply IH. }
  cbn. unfold triggerOne, TriggerCheck. rewrite He. eexists. split; [done|]. cbn.
  destruct Ht as [Hh Hc _ _]. split; [|by rewrite app_nil_r].
  intros x. rewrite <-Hh. destruct (decide (x = s)) as [->|]; [by rewrite fn_lookup_insert|].
  by rewrite fn_lookup_insert_ne.
Qed.

Lemma results_lookup h (l : list nat) n r :
  NoDup (named h <$> l) →
  foldl (λ m s, <[named h s := (answers s).2]> m) (∅ : gmap string Result) l !! n = Some r ↔
  ∃ s, s ∈ l ∧ named h s = n ∧ r = (answers s).2.
Proof.
  intros Hnd. assert (∀ m : gmap string Result,
    foldl (λ m s, <[named h s := (answers s).2]> m) m l !! n = Some r ↔
    (∃ s, s ∈ l ∧ named h s = n ∧ r = (answers s).2) ∨ n ∉ named h <$> l ∧ m !! n = Some r) as Hgen.
  { induction l as [|a l IH]; intros m; cbn; [set_solver|]. cbn in Hnd. apply NoDup_cons in Hnd as [Ha Hnd].
    rewrite (IH Hnd), lookup_insert_Some. setoid_rewrite elem_of_cons.
    assert (∀ x, x ∈ l → named h x ∈ named h <$> l) by (intros; by apply list_elem_of_fmap_2). split.
    - intros [?|(Hn & [[<- <-]|[? ?]])]; naive_solver.
    - intros [(s & [->|?] & Hs & ->)|[Hn ?]]; [right|left; eauto|right; naive_solver]. rewrite <-Hs. naive_solver. }
  rewrite Hgen, lookup_empty. naive_solver.
Qed.

(** The schedulers a request asks for. *)
Definition asked h (scheds : list nat) (only : string) : list nat :=
  if decide (only = EmptyString) then scheds else filter (λ s, named h s = only) scheds.

Lemma asked_sublist h scheds only : asked h scheds only `sublist_of` scheds.
Proof. unfold asked. case_decide; [done|apply sublist_filter]. Qed.

Lemma fmap_sublist {A C} (f : A → C) (l k : list A) : l `sublist_of` k → (f <$> l) `sublist_of` (f <$> k).
Proof. induction 1; cbn; by constructor. Qed.

Lemma asked_NoDup h scheds only : NoDup (named h <$> scheds) → NoDup (named h <$> asked h scheds only) ∧ NoDup (asked h scheds only).
Proof.
  intros Hnd. assert (NoDup (named h <$> asked h scheds only)) as Hn.
  { eapply sublist_NoDup; [done|]. apply fmap_sublist, asked_sublist. }
  split; [done|]. by eapply NoDup_fmap_1.
Qed.

(** C16: an ad-hoc check runs exactly the checks it asks for, each once and
    through the same code as a scheduled run (so the policy manager sees the
    results), and no other scheduler moves; the response lists their results
    and combines them with the VIP's policy when the VIP has several checks;
    404 means that nothing was asked for and nothing ran. *)
Theorem trigger_exact {B} errText (pol : Manager (B := B)) h schedulers name only :
  let scheds := default [] (schedulers !! name) in
  let sel := asked h scheds only in
  let '(h', calls, resp) := handleTriggerCheck errText pol h schedulers name only answers in
  NoDup (named h <$> scheds) → (∀ s, s ∈ sel → (answers s).1 = None) →
  (∀ s, h' s = if decide (s ∈ sel) then ran h s else h s) ∧
  calls = concat (called h <$> sel) ∧
  (Resp_Code resp = StatusNotFound ↔ sel = []) ∧
  (sel ≠ [] → ∃ combined results, resp = mkResponse StatusOK (PTriggered name combined results) ∧
    (∀ n r, results !! n = Some r ↔ ∃ s, s ∈ sel ∧ named h s = n ∧ r = (answers s).2) ∧
    (∀ s, scheds = [s] → combined = (answers s).2) ∧
    (1 < len scheds → Success combined = (CombineChecks pol name (Success <$> results)).1)).
Proof.
  intros scheds sel. unfold handleTriggerCheck. fold scheds.
  destruct scheds as [|s0 scheds'] eqn:Es.
  { assert (sel = []) as -> by (unfold sel, asked; by case_decide). intros _ _.
    split_and!; [intros s; by rewrite decide_False by set_solver|done|done|done]. }
  change (if decide (only = EmptyString) then s0 :: scheds' else filter _ (s0 :: scheds')) with sel.
  assert (sel = asked h (s0 :: scheds') only) as Hsel by done. clearbody sel.
  destruct sel as [|s1 sel'].
  { intros _ _. split_and!; [intros s; by rewrite decide_False by set_solver|done|done|done]. }
  destruct (triggerLoop _ _ _ _) as [t err] eqn:El. intros Hnd Ha.
  destruct (asked_NoDup h (s0 :: scheds') only Hnd) as [Hnn Hns]. rewrite <-Hsel in Hnn, Hns.
  destruct (triggerLoop_alive true (s1 :: sel') (mkTrigger h [] ∅ ∅ zeroResult []) Hns Ha) as (t' & El' & Ht).
  rewrite El in El'. injection El' as <- ->. destruct Ht as [Hh Hc Hr Hhl]. cbn in Hh, Hc, Hr, Hhl.
  split_and!; [done|done|done|]. intros _. eexists _, (tr_results t). split; [done|]. split_and!.
  - intros n r. rewrite Hr. exact (results_lookup h (s1 :: sel') n r Hnn).
  - intros s [= -> ->]. rewrite decide_False by (unfold len; cbn; lia).
    assert (s1 = s ∧ sel' = []) as [-> ->].
    { pose proof (asked_sublist h [s] only) as Hsub. rewrite <-Hsel in Hsub.
      apply sublist_length in Hsub as Hlen. destruct sel'; [|cbn in Hlen; lia]. split; [|done].
      assert (s1 ∈ [s]) as Hin by (eapply elem_of_sublist; [left|done]). by apply list_elem_of_singleton in Hin. }
    cbn in El. rewrite triggerOne_alive in El by (apply Ha; left). by injection El as <-.
  - intros Hlen. rewrite decide_True by done. cbn. by rewrite Hhl.
Qed.

(** When the client goes away during an ad-hoc check the answer is an
    error, the checks before that point have run and been reported, and the
    rest have not been touched. *)
Theorem trigger_cancelled {B} errText (pol : Manager (B := B)) h schedulers name only pre s e post :
  let scheds := default [] (schedulers !! name) in
  NoDup (named h <$> scheds) → asked h scheds only = pre ++ s :: post →
  (∀ x, x ∈ pre → (answers x).1 = None) → (answers s).1 = Some e →
  ∃ h', handleTriggerCheck errText pol h schedulers name only answers =
    (h', concat (called h <$> pre), mkResponse StatusInternalServerError (PError (errText e))) ∧
    ∀ x, h' x = if decide (x ∈ pre) then ran h x else h x.
Proof.
  intros scheds Hnd Hsel Ha He. unfold handleTriggerCheck. fold scheds.
  destruct (asked_NoDup h scheds only Hnd) as [_ Hns]. rewrite Hsel in Hns.
  destruct (triggerLoop_dead true pre s e post (mkTrigger h [] ∅ ∅ zeroResult []) Hns Ha He) as (t' & Hl & Hh & Hc).
  destruct scheds as [|s0 scheds'].
  { exfalso. unfold asked in Hsel. by case_decide; destruct pre. }
  change (if decide (only = EmptyString) then s0 :: scheds' else filter _ (s0 :: scheds')) with (asked h (s0 :: scheds') only).
  rewrite Hsel. destruct (pre ++ s :: post) as [|s1 sel'] eqn:E; [by destruct pre|].
  rewrite Hl. exists (tr_heap t'). by rewrite Hc.
Qed.

End Trigger.

End Status.
End HTTPAPIProofs.
Export HTTPAPIProofs.
