(* ===== verification/HTTPWitness.v ===== *)
(** * The theorems on the HTTP API, applied

    The VIP of PolicyWitness with two schedulers: its status, an ad-hoc check
    of both, and one whose client goes away after the first. *)

From stdpp Require Import functions.
From S2P Require Import Prelude GoStrings NetIP Net Config Model Metrics ChecksPolicy Scheduler Registry.
From S2P Require Import PolicyManager PolicyProofs PolicyWitness Defaults HTTPAPI HTTPAPIProofs.

Module HTTPWitness.
Import PolicyManager PolicyWitness.

Definition hw_sched (check : string) (ok fail : Z) : Scheduler unit unit :=
  setCounters (NewScheduler (mkSchedulerConfig "web" check None 10 1 3 3 (Some ()) (Some ()))) false ok fail zeroResult.
Definition hw_heap (s : nat) : Scheduler unit unit :=
  match s with O => hw_sched "a" 2 0 | _ => hw_sched "b" 0 1 end.
Definition hw_scheds : gmap string (list nat) := {["web" := [0%nat; 1%nat]]}.
Definition hw_result (ok : bool) : Result := mkResult ok "d" 5 None false None.
Definition hw_answers (s : nat) : goerror * Result :=
  match s with O => (None, hw_result true) | _ => (None, hw_result false) end.
Definition hw_gone (s : nat) : goerror * Result :=
  match s with O => (None, hw_result true) | _ => (Some (External "context canceled"), zeroResult) end.
Definition hw_text (e : error) : string := match e with External t => t | Errorf f _ => f | Wrapf f _ _ => f end.

Definition hw_status : VIPStatus := statusOfVIP "web" (newVIPEntry pw_stat 0 pw_web).

Lemma hw_names : NoDup (named hw_heap <$> [0%nat; 1%nat]).
Proof. by_compute. Qed.

Lemma status_counters_witness :
  VS_ConsecutiveOK (withCounters hw_heap hw_scheds hw_status) = 0 ∧
  VS_ConsecutiveFail (withCounters hw_heap hw_scheds hw_status) = 1 ∧
  lowest (VS_ConsecutiveOK (withCounters hw_heap hw_scheds hw_status)) [2; 0].
Proof.
  split_and!; [by vm_compute..|].
  apply (status_counters hw_heap hw_scheds hw_status); [|done].
  split_and!; [exact hw_names|by_compute|]. intros n. by vm_compute.
Defined.

Lemma trigger_exact_witness :
  ∃ combined results,
    (handleTriggerCheck hw_text (pw_new true) hw_heap hw_scheds "web" EmptyString hw_answers).2 =
      mkResponse StatusOK (PTriggered "web" combined results) ∧ Success combined = true.
Proof.
  pose proof (trigger_exact hw_answers hw_text (pw_new true) hw_heap hw_scheds "web" EmptyString) as Ht.
  destruct (handleTriggerCheck hw_text (pw_new true) hw_heap hw_scheds "web" EmptyString hw_answers)
    as [[h' calls] resp] eqn:E.
  destruct (Ht hw_names) as (_ & _ & _ & Hok); [by intros [|s] _|].
  destruct Hok as (combined & results & Hr & _ & _ & Hc); [done|].
  exists combined, results. split; [exact Hr|]. cbn in Hr. clear -E Hr.
  assert (resp = (handleTriggerCheck hw_text (pw_new true) hw_heap hw_scheds "web" EmptyString hw_answers).2) as ->
    by (by rewrite E). by vm_compute in Hr; injection Hr as <- _.
Defined.

Lemma trigger_cancelled_witness :
  ∃ h', handleTriggerCheck hw_text (pw_new true) hw_heap hw_scheds "web" EmptyString hw_gone =
    (h', called hw_gone hw_heap 0%nat, mkResponse StatusInternalServerError (PError "context canceled")) ∧
    sc_healthy (h' 0%nat) = true ∧ h' 1%nat = hw_heap 1%nat.
Proof.
  destruct (trigger_cancelled hw_gone hw_text (pw_new true) hw_heap hw_scheds "web" EmptyString [0%nat] 1%nat
    (External "context canceled") []) as (h' & Hh & Hx); [exact hw_names|done| |done|].
  - intros x Hx. by apply list_elem_of_singleton in Hx as ->.
  - exists h'. rewrite Hh. split; [by vm_compute|]. rewrite !Hx. split; by vm_compute.
Defined.

End HTTPWitness.
