(* ===== verification/Commands.v ===== *)
(** * The subcommands that ask about health: cmd/pathosd

    [check] (check.go) runs the checks of a config once, [healthcheck]
    (healthcheck.go) and [reload] (reload.go) talk to a running daemon.  A
    command ends with [None] (exit code 0) or an [exitCodeError].  The
    goroutines of [check] each write a slot of their own, so they are a loop;
    what a built checker answers is an argument.  Flag parsing and the table
    printed by [check] are left out. *)

From S2P Require Import Prelude GoStrings NetIP Net Config Model ChecksPolicy Defaults Validate LocalAddr.
From S2P Require Import Loader Checkers Backends SQLBackend HTTPAPI.
From Stdlib Require Import Ascii SpecFloat.

Module Commands.

Definition exitUnhealthy : Z := 1.
Definition exitInternal : Z := 200.

Record exitCodeError := mkExit { ex_code : Z; ex_msg : string }.

(** [main]: the exit code of a command that returned. *)
Definition exitCode (r : option exitCodeError) : Z :=
  match r with None => 0 | Some e => ex_code e end.

(** The end of [main]: what it prints on standard error and the exit code.
    An error that is not an [exitCodeError] goes to kong's [FatalIfErrorf]. *)
Definition main_exit {E} (fatal : E → string * Z) (err : option (exitCodeError + E)) : option string * Z :=
  match err with
  | None => (None, 0)
  | Some (inl ec) => (if decide (ex_msg ec = EmptyString) then None else Some (ex_msg ec), ex_code ec)
  | Some (inr e) => let '(text, code) := fatal e in (Some text, code)
  end.

Lemma main_exit_code {E} (fatal : E → string * Z) r : (main_exit fatal (inl <$> r)).2 = exitCode r.
Proof. by destruct r. Qed.

(** ** check *)

Section Check.
Context `{GoStd} `{ExprLang} `{CheckStd} `{SQLStd}.
Context (errText : error → string).

Record CheckCmd := mkCheckCmd {
  cc_VIP : list string;
  cc_Check : list string;
  cc_Timeout : Z;
  cc_SkipLocalAddress : bool }.

Record checkResultReport := mkResultReport {
  rr_Name : string;
  rr_Type : string;
  rr_Ran : bool;
  rr_Success : bool;
  rr_Detail : string;
  rr_Duration : Z;
  rr_TimedOut : bool;
  rr_Details : option CheckDetails }.

Record checkReport := mkReport {
  rp_VIP : string;
  rp_Prefix : string;
  rp_Policy : string;
  rp_Healthy : bool;
  rp_Checks : list checkResultReport }.

(** [selectVIPs]. *)
Fixpoint selectNamed (all : list VIPConfig) (names : list string) : result error (list VIPConfig) :=
  match names with
  | [] => Ok []
  | name :: names' =>
      match list_find (λ v, VIP_Name v = name) all with
      | None => Err (Errorf "no VIP named %q in config" [name])
      | Some (_, v) => try out <- selectNamed all names' ; Ok (v :: out)
      end
  end.

Definition selectVIPs (cfg : Config) (names : list string) : result error (list VIPConfig) :=
  let all := elems (Cfg_VIPs cfg) in
  match names with [] => Ok all | _ => selectNamed all names end.

(** [verifyCheckNames]. *)
Definition namesOf (vips : list VIPConfig) : list string := concat (checkNames <$> vips).

Fixpoint verifyCheckNames (vips : list VIPConfig) (wants : list string) : goerror :=
  match wants with
  | [] => None
  | want :: wants' =>
      if mem want (namesOf vips) then verifyCheckNames vips wants'
      else Some (Errorf "no check named %q in the selected VIPs" [want])
  end.

(** [build]: the checker, behind a guard if the VIP asks for one. *)
Inductive builtChecker :=
| Plain (c : Checker)
| Guarded (g : LocalAddressGuard) (c : Checker).

Definition build (c : CheckCmd) (vip : VIPConfig) (cc : CheckConfig) : result error builtChecker :=
  try checker <- NewChecker cc ;
  if VIP_RequireLocalAddress vip && negb (cc_SkipLocalAddress c) then
    try guard <- NewLocalAddressGuard (VIP_Name vip) (VIP_Prefix vip) (VIP_LocalInterface vip) true ;
    Ok (Guarded guard checker)
  else Ok (Plain checker).

(** What check [j] of the [i]-th VIP answers within a timeout. *)
Context (answer : nat → nat → builtChecker → Z → Result).

Definition selected (c : CheckCmd) (cc : CheckConfig) : bool :=
  bool_decide (cc_Check c = []) || mem (EffectiveName cc) (cc_Check c).

(** What the goroutine of a check writes into its slot. *)
Definition reportOf (cc : CheckConfig) (res : Result) : checkResultReport :=
  mkResultReport (EffectiveName cc) (Check_Type cc) true (Success res)
    (match Result_Err res with
     | Some e => if decide (Detail res = EmptyString) then errText e else Detail res
     | None => Detail res
     end) (Duration res) (TimedOut res) (Details res).

(** One check; a nil timeout is dereferenced. *)
Definition runOne (c : CheckCmd) (i j : nat) (vip : VIPConfig) (cc : CheckConfig)
    : outcome (result error checkResultReport) :=
  if negb (selected c cc) then
    Ret (Ok (mkResultReport (EffectiveName cc) (Check_Type cc) false false "not selected" 0 false None))
  else
    match build c vip cc with
    | Err e => Ret (Err (Wrapf "vip %s check %s: %w" [VIP_Name vip; EffectiveName cc] e))
    | Ok checker =>
        match Check_Timeout cc with
        | None => Panic
        | Some t =>
            let timeout := if decide (0 < cc_Timeout c) then cc_Timeout c else t in
            Ret (Ok (reportOf cc (answer i j checker timeout)))
        end
    end.

Fixpoint runChecks (c : CheckCmd) (i j : nat) (vip : VIPConfig) (l : list CheckConfig)
    : outcome (result error (list checkResultReport)) :=
  match l with
  | [] => Ret (Ok [])
  | cc :: l' =>
      match runOne c i j vip cc with
      | Panic => Panic
      | Ret (Err e) => Ret (Err e)
      | Ret (Ok r) =>
          match runChecks c i (S j) vip l' with
          | Panic => Panic
          | Ret (Err e) => Ret (Err e)
          | Ret (Ok rs) => Ret (Ok (r :: rs))
          end
      end
  end.

Fixpoint runVIPs (c : CheckCmd) (i : nat) (vips : list VIPConfig) : outcome (result error (list checkReport)) :=
  match vips with
  | [] => Ret (Ok [])
  | vip :: vips' =>
      match runChecks c i 0 vip (CheckList vip) with
      | Panic => Panic
      | Ret (Err e) => Ret (Err e)
      | Ret (Ok rs) =>
          match runVIPs c (S i) vips' with
          | Panic => Panic
          | Ret (Err e) => Ret (Err e)
          | Ret (Ok reports) =>
              Ret (Ok (mkReport (VIP_Name vip) (VIP_Prefix vip) (EffectiveChecksPolicy vip) false rs :: reports))
          end
      end
  end.

(** The second loop of [execute]: the checks combined by the policy. *)
Definition verdicts (rs : list checkResultReport) : gmap string bool :=
  foldl (λ m r, <[rr_Name r := rr_Ran r && rr_Success r]> m) ∅ rs.

Definition combineOne (vip : VIPConfig) (rep : checkReport) : result error checkReport :=
  match CompileChecksPolicy (EffectiveChecksPolicy vip) (rr_Name <$> rp_Checks rep) with
  | Err e => Err (Wrapf "vip %s: %w" [VIP_Name vip] e)
  | Ok eval =>
      Ok (mkReport (rp_VIP rep) (rp_Prefix rep) (rp_Policy rep) (Eval eval (verdicts (rp_Checks rep)))
            (rp_Checks rep))
  end.

Fixpoint combineAll (l : list (VIPConfig * checkReport)) : result error (list checkReport) :=
  match l with
  | [] => Ok []
  | (vip, rep) :: l' =>
      try rep' <- combineOne vip rep ;
      try rest <- combineAll l' ;
      Ok (rep' :: rest)
  end.

(** [execute]. *)
Definition execute (c : CheckCmd) (cfg : Config) : outcome (result error (list checkReport)) :=
  match selectVIPs cfg (cc_VIP c) with
  | Err e => Ret (Err e)
  | Ok vips =>
      match verifyCheckNames vips (cc_Check c) with
      | Some e => Ret (Err e)
      | None =>
          match runVIPs c 0 vips with
          | Panic => Panic
          | Ret (Err e) => Ret (Err e)
          | Ret (Ok reports) => Ret (combineAll (zip vips reports))
          end
      end
  end.

(** [CheckCmd.Run], from what [config.Load] returned; [printed] is the error
    of [print]. *)
Definition CheckCmd_Run (c : CheckCmd) (loaded : result string Config) (printed : list checkReport → goerror)
    : outcome (option exitCodeError) :=
  match loaded with
  | Err text => Ret (Some (mkExit exitInternal ("pathosd: error: loading config: " +:+ text)))
  | Ok cfg =>
      match execute c cfg with
      | Panic => Panic
      | Ret (Err e) => Ret (Some (mkExit exitInternal ("pathosd: error: " +:+ errText e)))
      | Ret (Ok reports) =>
          match printed reports with
          | Some e => Ret (Some (mkExit exitInternal ("pathosd: error: " +:+ errText e)))
          | None =>
              let unhealthy := len (filter (λ r, rp_Healthy r = false) reports) in
              if decide (0 < unhealthy) then
                Ret (Some (mkExit exitUnhealthy
                       (Itoa unhealthy +:+ " of " +:+ Itoa (len reports) +:+ " VIPs unhealthy")))
              else Ret None
          end
      end
  end.

End Check.

(** ** The address of the daemon *)

Definition defaultAPIAddr : string := "127.0.0.1:59179".

(** [loopbackFor]. *)
Definition loopbackFor (listen : string) : result error string :=
  match SplitHostPort listen with
  | None => Err (Wrapf "api address %q: %w" [listen] (External "net.SplitHostPort"))
  | Some (host, port) =>
      let host :=
        if mem host [EmptyString; "0.0.0.0"] then "127.0.0.1"
        else if decide (host = "::") then "::1" else host in
      Ok (JoinHostPort host port)
  end.

(** What [config.Load] of the client returns. *)
Inductive clientLoad := CLoaded (cfg : Config) | CNotExist (text : string) | CFailed (text : string).

(** [resolveAPIAddr]. *)
Definition resolveAPIAddr (addr configPath : string) (missingOK : bool) (load : string → clientLoad)
    : result error string :=
  let finish listen := if isEmpty listen then Ok defaultAPIAddr else loopbackFor listen in
  if isEmpty addr && isSet configPath then
    match load configPath with
    | CLoaded cfg => finish (API_Listen (Cfg_API cfg))
    | CNotExist text => if missingOK then finish addr else Err (Wrapf "loading config: %w" [] (External text))
    | CFailed text => Err (Wrapf "loading config: %w" [] (External text))
    end
  else finish addr.

(** ** healthcheck and reload *)

(** What the HTTP client gets: the status code, and the body or the error of
    reading it. *)
Definition HTTPClient : Type := string → string → result error (Z * result error string).

Section Client.
Context (errText : error → string).
(** [json.Unmarshal] into the peers of /readyz, and into a [ReloadStatus] with
    an outcome. *)
Context (decodePeers : string → option (list PeerStatus)) (decodeReload : string → option ReloadStatus).

(** [io.LimitReader(resp.Body, 1<<20)]. *)
Definition clientBody (body : result error string) : result error string :=
  match body with Ok b => Ok (limitBytes (2 ^ 20) b) | Err e => Err e end.

(** [probe]: the summary, the verdict and the error. *)
Definition probe (live : bool) (client : HTTPClient) (addr : string) : string * bool * goerror :=
  let path := if live then "/healthz" else "/readyz" in
  match client "GET" ("http://" +:+ addr +:+ path) with
  | Err e => (EmptyString, false, Some e)
  | Ok (code, body) =>
      match clientBody body with
      | Err e => (EmptyString, false, Some (Wrapf "reading %s: %w" [path] e))
      | Ok body =>
          let unexpected := (EmptyString, false, Some (Errorf "GET %s: HTTP %d" [path; Itoa code])) in
          if live then
            if decide (code = StatusOK) then ("HTTP API answers on " +:+ addr, true, None) else unexpected
          else
            let summary :=
              match decodePeers body with
              | None => "GET " +:+ path +:+ ": HTTP " +:+ Itoa code
              | Some peers => SummarizePeers peers
              end in
            if decide (code = StatusOK) then (summary, true, None)
            else if decide (code = StatusServiceUnavailable) then (summary, false, None)
            else unexpected
      end
  end.

(** [HealthcheckCmd.run]: the line it prints, if any, and the exit. *)
Definition Healthcheck_run (addr : result error string) (live quiet : bool) (client : HTTPClient)
    : option string * option exitCodeError :=
  match addr with
  | Err e => (None, Some (mkExit exitInternal ("pathosd: error: " +:+ errText e)))
  | Ok addr =>
      let '(summary, healthy, err) := probe live client addr in
      let summary := match err with Some e => errText e | None => summary end in
      let verdict := if live then "alive" else "ready" in
      if healthy then (if quiet then None else Some (verdict +:+ ": " +:+ summary), None)
      else (None, Some (mkExit exitUnhealthy
                          (if quiet then EmptyString else "not " +:+ verdict +:+ ": " +:+ summary)))
  end.

(** [postReload] and [describeReload]. *)
Definition postReload (client : HTTPClient) (addr : string) : result error ReloadStatus :=
  match client "POST" ("http://" +:+ addr +:+ "/api/v1/reload") with
  | Err e => Err e
  | Ok (code, body) =>
      match clientBody body with
      | Err e => Err (Wrapf "reading response: %w" [] e)
      | Ok body =>
          match decodeReload body with
          | Some res => Ok res
          | None => Err (Errorf "POST /api/v1/reload: HTTP %d: %s" [Itoa code; TrimSpace (ToValidUTF8 body)])
          end
      end
  end.

Definition describeReload (res : ReloadStatus) : string :=
  let some what l := match l with [] => [] | _ => [what +:+ Join l ", "] end in
  let changed :=
    match RS_Changed res with
    | [] => []
    | l =>
        ["changed " +:+ Join l ", " +:+
         match RS_Pending res with
         | [] => EmptyString
         | p => " (pending verdict: " +:+ Join p ", " +:+ ")"
         end]
    end in
  let error :=
    match RS_Error res with
    | None => []
    | Some e => if decide (errText e = EmptyString) then [] else [errText e]
    end in
  let parts :=
    some "added " (RS_Added res) ++ some "removed " (RS_Removed res) ++ changed ++ error ++
    (errText <$> RS_Errors res) in
  match parts with
  | [] => ReloadOutcome_string (RS_Outcome res)
  | _ => ReloadOutcome_string (RS_Outcome res) +:+ ": " +:+ Join parts "; "
  end.

(** [ReloadCmd.run]. *)
Definition Reload_run (addr : result error string) (client : HTTPClient)
    : option string * option exitCodeError :=
  match addr with
  | Err e => (None, Some (mkExit exitInternal ("pathosd: error: " +:+ errText e)))
  | Ok addr =>
      match postReload client addr with
      | Err e => (None, Some (mkExit exitUnhealthy ("reload not applied: " +:+ errText e)))
      | Ok res =>
          let line := describeReload res in
          if OK (Some res) then (Some line, None) else (None, Some (mkExit exitUnhealthy line))
      end
  end.

End Client.

Example loopback_ex :
  (loopbackFor ":59179", loopbackFor "[::]:80", loopbackFor "0.0.0.0:1", loopbackFor "10.0.0.1:2") =
  (Ok defaultAPIAddr, Ok "[::1]:80", Ok "127.0.0.1:1", Ok "10.0.0.1:2").
Proof. by vm_compute. Qed.

End Commands.
Export Commands.
