(* ===== verification/CheckPrintProofs.v ===== *)
(** * The table check prints

    The tabwriter on texts without control characters: every report is its
    own table, with the line of the VIP above it, and each of the first four
    columns is as wide as its widest cell and two blanks. *)

From Stdlib Require Import Ascii.
From S2P Require Import Prelude GoStrings Floats NetIP Net Config Model ChecksPolicy Durations DurationsProofs Defaults Validate LocalAddr.
From S2P Require Import Loader Checkers Backends SQLBackend HTTPAPI Commands CheckPrint.

Module CheckPrintProofs.
Import Commands DurationsProofs CheckPrint.

(** ** Reading *)

Definition plain (s : string) : Prop := all_chars (λ a, isNil (controlOf a)) s = true.

Lemma plain_app a b : plain (a +:+ b) ↔ plain a ∧ plain b.
Proof.
  unfold plain. induction a as [|c a IH]; [by rewrite app_empty; naive_solver|].
  rewrite app_cons. cbn [all_chars]. rewrite !andb_true_iff, IH. tauto.
Qed.

Lemma scan_plain t rest seg c cells :
  plain t → scan (t +:+ rest) seg c false cells = scan rest (seg +:+ t) c false cells.
Proof.
  revert seg. induction t as [|a t IH]; intros seg; [by rewrite app_empty, string_app_nil|].
  unfold plain. cbn [all_chars]. intros [Ha Ht]%andb_true_iff. rewrite app_cons. cbn [scan].
  destruct (controlOf a); [done|]. rewrite IH by done. by rewrite string_app_assoc.
Qed.

Definition cellOf (s : string) : cell := mkCell s (RuneCount s).

Lemma scan_cell t rest cells :
  plain t → scan (t +:+ tab +:+ rest) EmptyString emptyCell false cells = scan rest EmptyString emptyCell false (cells ++ [cellOf t]).
Proof.
  intros Ht. rewrite scan_plain by done. unfold tab. rewrite app_cons. cbn [scan controlOf]. rewrite !app_empty.
  unfold addSegment, cellOf, emptyCell. cbn [ce_text ce_width]. by rewrite app_empty, Nat.add_0_l, Nat.sub_0_r.
Qed.

Lemma scan_line t rest cells :
  plain t → scan (t +:+ newline +:+ rest) EmptyString emptyCell false cells =
    pushLine (mkLine (cells ++ [cellOf t]) true) (scan rest EmptyString emptyCell false []).
Proof.
  intros Ht. rewrite scan_plain by done. unfold newline. rewrite app_cons. cbn [scan controlOf]. rewrite !app_empty.
  unfold addSegment, cellOf, emptyCell. cbn [ce_text ce_width]. by rewrite app_empty, Nat.add_0_l, Nat.sub_0_r.
Qed.

(** ** Reports *)

(** The cells of the line of a check, and the texts of the line of a VIP. *)
Definition rowCells (cr : checkResultReport) : list string :=
  ["  " +:+ mark cr; rr_Name cr; rr_Type cr; durText cr; TrimSpace (rr_Detail cr)].
Definition vipText (r : checkReport) : string :=
  "VIP " +:+ rp_VIP r +:+ " (" +:+ rp_Prefix r +:+ "): " +:+ (if rp_Healthy r then "healthy" else "unhealthy") +:+
  " [" +:+ rp_Policy r +:+ "]".
Record plainReport (r : checkReport) : Prop := {
  pr_vip : plain (vipText r);
  pr_checks : Forall (λ cr, Forall plain (rowCells cr)) (rp_Checks r) }.

Definition rowLine (cr : checkResultReport) : line := mkLine (cellOf <$> rowCells cr) true.
Definition oneCell (s : string) : line := mkLine [cellOf s] true.
Definition linesOf (first : bool) (r : checkReport) : list line :=
  (if first then [] else [oneCell EmptyString]) ++ oneCell (vipText r) :: (rowLine <$> rp_Checks r).
Fixpoint allLines (first : bool) (reports : list checkReport) : list line :=
  match reports with
  | [] => [mkLine [] false]
  | r :: reports' => linesOf first r ++ allLines false reports'
  end.

Lemma scan_row cr rest :
  Forall plain (rowCells cr) →
  scan (checkLine cr +:+ rest) EmptyString emptyCell false [] =
    pushLine (rowLine cr) (scan rest EmptyString emptyCell false []).
Proof.
  unfold rowCells. rewrite !Forall_cons. intros (H1 & H2 & H3 & H4 & H5 & _). unfold checkLine.
  rewrite <-(string_app_assoc "  " (mark cr)), !string_app_assoc. rewrite <-(string_app_assoc "  " (mark cr)).
  by rewrite !scan_cell, scan_line by done.
Qed.

Lemma scan_rows rows rest lines :
  Forall (λ cr, Forall plain (rowCells cr)) rows → scan rest EmptyString emptyCell false [] = [lines] →
  scan (concatMap checkLine rows +:+ rest) EmptyString emptyCell false [] = [(rowLine <$> rows) ++ lines].
Proof.
  intros Hrows Hrest. induction Hrows as [|cr rows Hcr Hrows IH]; [done|]. cbn [concatMap foldr].
  fold (concatMap checkLine rows). rewrite string_app_assoc, scan_row by done. by rewrite IH.
Qed.

Lemma scan_reports first reports :
  Forall plainReport reports →
  scan (reportLines first reports) EmptyString emptyCell false [] = [allLines first reports].
Proof.
  intros Hr. revert first. induction Hr as [|r reports [Hvip Hrows] Hr IH]; intros first; [done|]. cbn [reportLines allLines].
  pose proof (scan_rows (rp_Checks r) (reportLines false reports) _ Hrows (IH false)) as Hrest.
  assert (scan (vipLine r +:+ concatMap checkLine (rp_Checks r) +:+ reportLines false reports) EmptyString emptyCell false [] =
    [oneCell (vipText r) :: (rowLine <$> rp_Checks r) ++ allLines false reports]) as Hv.
  { assert (vipLine r = vipText r +:+ newline) as -> by (unfold vipLine, vipText; by rewrite !string_app_assoc).
    rewrite string_app_assoc, scan_line by done. by rewrite Hrest. }
  destruct first; cbn [linesOf app]; [by rewrite app_empty|].
  rewrite <-(app_empty (newline +:+ _)), (scan_line EmptyString) by done. by rewrite Hv.
Qed.

(** ** Formatting *)

Lemma concatMap_app {A} (f : A → string) l1 l2 : concatMap f (l1 ++ l2) = concatMap f l1 +:+ concatMap f l2.
Proof.
  induction l1 as [|x l1 IH]; [done|]. cbn [concatMap foldr app]. fold (concatMap f (l1 ++ l2)) (concatMap f l1).
  by rewrite IH, string_app_assoc.
Qed.

Lemma format_nil fuel widths : format fuel widths [] = EmptyString.
Proof. by destruct fuel. Qed.

(** A line without a cell in the column is written as it is. *)
Lemma format_skip fuel widths l ls :
  hasColumn (length widths) l = false → format fuel widths (l :: ls) = writeLine widths l +:+ format fuel widths ls.
Proof.
  intros Hl. destruct fuel as [|fuel]; [done|]. cbn [format runs]. rewrite Hl.
  destruct (runs (hasColumn (length widths)) ls) as [|[[] run] rest]; cbn [Bool.eqb concatMap foldr]; rewrite ?string_app_nil; try done.
  fold (concatMap (writeLine widths) run). by rewrite string_app_assoc.
Qed.

Lemma format_skips fuel widths ls ls' :
  Forall (λ l, hasColumn (length widths) l = false) ls →
  format fuel widths (ls ++ ls') = concatMap (writeLine widths) ls +:+ format fuel widths ls'.
Proof.
  intros Hls. induction Hls as [|l ls Hl Hls IH]; [done|]. cbn [app concatMap foldr]. fold (concatMap (writeLine widths) ls).
  by rewrite format_skip, IH, string_app_assoc.
Qed.

(** The head of the remaining lines ends a block. *)
Definition endsBlock (column : nat) (ls : list line) : Prop :=
  match ls with [] => True | l :: _ => hasColumn column l = false end.

Lemma runs_block f rows ls :
  rows ≠ [] → Forall (λ l, f l = true) rows → match ls with [] => True | l :: _ => f l = false end →
  runs f (rows ++ ls) = (true, rows) :: runs f ls.
Proof.
  intros Hne Hrows Hls. induction Hrows as [|l rows Hl Hrows IH]; [done|]. cbn [app runs].
  destruct rows as [|l' rows]; [|by rewrite IH, Hl]. cbn [app]. rewrite Hl. destruct ls as [|l' ls]; [done|].
  cbn [runs] in *. rewrite Hls. destruct (runs f ls) as [|[[] ?] ?]; done.
Qed.

Lemma format_block fuel widths rows ls :
  rows ≠ [] → Forall (λ l, hasColumn (length widths) l = true) rows → endsBlock (length widths) ls →
  format (S fuel) widths (rows ++ ls) =
    format fuel (widths ++ [blockWidth (length widths) rows]) rows +:+ format (S fuel) widths ls.
Proof. intros Hne Hrows Hls. cbn [format]. by rewrite runs_block. Qed.

(** ** The table *)

Definition colWidth (column : nat) (checks : list checkResultReport) : nat :=
  foldr (λ cr w, (RuneCount (default EmptyString (rowCells cr !! column)) + 2) `max` w)%nat 0%nat checks.
Definition padTo (w : nat) (s : string) : string := s +:+ blanks (w - RuneCount s).
Definition tableRow (checks : list checkResultReport) (cr : checkResultReport) : string :=
  padTo (colWidth 0 checks) ("  " +:+ mark cr) +:+ padTo (colWidth 1 checks) (rr_Name cr) +:+
  padTo (colWidth 2 checks) (rr_Type cr) +:+ padTo (colWidth 3 checks) (durText cr) +:+
  TrimSpace (rr_Detail cr) +:+ newline.
Fixpoint tables (first : bool) (reports : list checkReport) : string :=
  match reports with
  | [] => EmptyString
  | r :: reports' =>
      (if first then EmptyString else newline) +:+ vipText r +:+ newline +:+
      concatMap (tableRow (rp_Checks r)) (rp_Checks r) +:+ tables false reports'
  end.

Lemma blockWidth_col column checks : (column < 5)%nat → blockWidth column (rowLine <$> checks) = colWidth column checks.
Proof.
  intros Hc. induction checks as [|cr checks IH]; [done|]. rewrite fmap_cons.
  unfold blockWidth, colWidth in *. cbn [foldr]. rewrite IH. f_equal. f_equal. cbn [rowLine ln_cells].
  rewrite list_lookup_fmap. by destruct column as [|[|[|[|[|]]]]]; [..|lia].
Qed.

Lemma rows_column column checks :
  (column < 4)%nat → Forall (λ l, hasColumn column l = true) (rowLine <$> checks).
Proof. intros Hc. apply Forall_fmap, Forall_true. intros cr. by apply Nat.ltb_lt. Qed.

Lemma format_rows fuel checks ls :
  checks ≠ [] → (4 ≤ fuel)%nat → endsBlock 0 ls →
  format fuel [] ((rowLine <$> checks) ++ ls) = concatMap (tableRow checks) checks +:+ format fuel [] ls.
Proof.
  intros Hne Hf Hls. set (rows := rowLine <$> checks).
  assert (rows ≠ []) as Hr by (unfold rows; by destruct checks).
  assert (∀ n w, (length w < 4)%nat → format (S n) w rows = format n (w ++ [blockWidth (length w) rows]) rows) as Hstep.
  { intros n w Hw. rewrite <-(app_nil_r rows) at 1. rewrite format_block; [|done|by apply rows_column|done].
    cbn [format runs concatMap foldr]. by rewrite string_app_nil. }
  destruct fuel as [|[|[|[|n]]]]; [lia..|]. rewrite format_block; [|done|by apply (rows_column 0); lia|done]. f_equal.
  rewrite !Hstep by (cbn; lia). cbn [app length]. unfold rows. rewrite !blockWidth_col by lia.
  rewrite <-(app_nil_r (rowLine <$> checks)), format_skips.
  2: { apply Forall_fmap, Forall_true. by intros cr. }
  rewrite format_nil, string_app_nil.
  clear. generalize checks at 1 2 3 4 6. intros all. induction checks as [|cr checks IH]; [done|].
  rewrite fmap_cons. cbn [concatMap foldr]. fold (concatMap (tableRow all) checks). rewrite <-IH. f_equal.
  unfold writeLine, tableRow, padTo. cbn [rowLine rowCells fmap list_fmap ln_cells ln_newline writeCells cellOf ce_text ce_width].
  by rewrite !string_app_assoc.
Qed.

Lemma allLines_ends reports : endsBlock 0 (allLines false reports).
Proof. by destruct reports. Qed.

Lemma format_reports fuel first reports :
  Forall (λ r, rp_Checks r ≠ [] → (4 ≤ fuel)%nat) reports →
  format fuel [] (allLines first reports) = tables first reports.
Proof.
  intros Hf. revert first. induction Hf as [|r reports Hr Hf IH]; intros first; cbn [allLines tables].
  { rewrite format_skip by done. by rewrite format_nil. }
  assert (format fuel [] ((rowLine <$> rp_Checks r) ++ allLines false reports) =
    concatMap (tableRow (rp_Checks r)) (rp_Checks r) +:+ tables false reports) as Hrows.
  { destruct (decide (rp_Checks r = [])) as [->|Hne]; [exact (IH false)|].
    rewrite format_rows by (first [done|by apply Hr|apply allLines_ends]). by rewrite IH. }
  assert (∀ s, writeLine [] (oneCell s) = s +:+ newline) as Hw by (intros s; unfold writeLine; cbn; by rewrite string_app_nil).
  unfold linesOf. destruct first; cbn [app]; rewrite !format_skip by done; rewrite !Hw, Hrows, !string_app_assoc; by rewrite ?app_empty.
Qed.

Lemma columns_rows first reports r :
  r ∈ reports → rp_Checks r ≠ [] → (4 ≤ columns (allLines first reports))%nat.
Proof.
  assert (∀ l ls, l ∈ ls → (length (ln_cells l) ≤ columns ls)%nat) as Hcol.
  { intros l ls Hl. induction ls as [|x ls IH]; [by apply not_elem_of_nil in Hl|]. unfold columns in *. cbn [foldr].
    apply elem_of_cons in Hl as [->|Hl]; [lia|]. specialize (IH Hl). lia. }
  intros Hin Hne. destruct (rp_Checks r) as [|cr crs] eqn:Ecr; [done|]. clear Hne.
  assert (rowLine cr ∈ allLines first reports) as Hrow.
  { revert first Hin. induction reports as [|x reports IH]; intros first Hin; [by apply not_elem_of_nil in Hin|]. cbn [allLines].
    apply elem_of_app. apply elem_of_cons in Hin as [<-|Hin]; [left|right; by apply IH]. unfold linesOf. rewrite Ecr.
    apply elem_of_app. right. rewrite fmap_cons. set_solver. }
  apply Hcol in Hrow. cbn in Hrow. lia.
Qed.

(** [check] prints a table per VIP: the VIP with its prefix, verdict and
    policy, then a line per check with its mark, name, type, duration and
    detail, in which every column is as wide as its widest cell and two
    blanks, so that the columns of a table line up; for reports whose texts
    hold no tab, line break or other control character of the tabwriter. *)
Theorem printText_table reports :
  Forall plainReport reports → printText reports = tables true reports.
Proof.
  intros Hr. unfold printText, tabwriter. rewrite scan_reports by done. cbn [concatMap foldr]. rewrite string_app_nil.
  apply format_reports, Forall_forall. intros r. apply columns_rows.
Qed.

(** A VIP with a check that passed and one that was skipped. *)
Definition pt_report : checkReport :=
  mkReport "web" "10.0.0.1/32" "all" false
    [mkResultReport "http" "http" true true " status 200 " 1500000 false None;
     mkResultReport "database" "sql" false false EmptyString 0 false None].

Lemma printText_table_witness :
  Forall plainReport [pt_report] ∧
  printText [pt_report] =
    "VIP web (10.0.0.1/32): unhealthy [all]" +:+ newline +:+
    "  OK    http      http  1.5ms  status 200" +:+ newline +:+
    "  SKIP  database  sql          " +:+ newline.
Proof.
  assert (Forall plainReport [pt_report]) as Hr.
  { constructor; [|constructor]. split; [by vm_compute|]. repeat constructor; by vm_compute. }
  split; [exact Hr|]. rewrite (printText_table _ Hr). by vm_compute.
Defined.
End CheckPrintProofs.
