(* ===== verification/CommandsProofs.v ===== *)
(** * What the subcommands' exit codes mean

    [check] exits 0 exactly when every selected VIP is healthy by its own
    policy, and combines results like the daemon's API; [healthcheck] and
    [reload] relay the daemon's verdict. *)

From S2P Require Import Prelude GoStrings NetIP Net Config Model Metrics ChecksPolicy Engine.
From S2P Require Import Scheduler Defaults Validate ValidateProofs Loader LoadProofs DefaultsProofs.
From S2P Require Import PolicyManager PolicyProofs BGPManager BGPProofs System Daemon Reload Loaded.
From S2P Require Import LocalAddr Checkers Backends SQLBackend HTTPAPI HTTPAPIProofs Commands.
From Stdlib Require Import Ascii.

Module CommandsProofs.
Import PolicyManager.

(** ** check *)

Section Check.
Context `{GoStd} `{ExprLang} `{CheckStd} `{SQLStd} `{Decoders}.
Context (errText : error → string) (answer : nat → nat → builtChecker → Z → Result).
Context (LookupEnv : string → option string) (c : CheckCmd).

(** The check is selected and its probe succeeded. *)
Definition passes (i j : nat) (vip : VIPConfig) (cc : CheckConfig) : bool :=
  selected c cc &&
  match build c vip cc, Check_Timeout cc with
  | Ok checker, Some t => Success (answer i j checker (if decide (0 < cc_Timeout c) then cc_Timeout c else t))
  | _, _ => false
  end.

Definition ready (vip : VIPConfig) (cc : CheckConfig) : Prop :=
  selected c cc = true → is_Some (Check_Timeout cc) ∧ ∃ checker, build c vip cc = Ok checker.

(** A report as the combination reads it. *)
Definition verdictOf (r : checkResultReport) : string * bool := (rr_Name r, rr_Ran r && rr_Success r).

Definition passMap (i : nat) (vip : VIPConfig) : gmap string bool :=
  foldl (λ m p, <[p.1 := p.2]> m) ∅ (imap (λ j cc, (EffectiveName cc, passes i j vip cc)) (CheckList vip)).

Lemma runOne_ready i j vip cc :
  ready vip cc →
  ∃ r, runOne errText answer c i j vip cc = Ret (Ok r) ∧ verdictOf r = (EffectiveName cc, passes i j vip cc).
Proof.
  intros Hr. unfold runOne, passes. destruct (selected c cc) eqn:E; cbn; [|by eexists].
  destruct (Hr E) as [[t ->] [checker ->]]. by eexists.
Qed.

Lemma runChecks_ready i j vip l :
  Forall (ready vip) l →
  ∃ rs, runChecks errText answer c i j vip l = Ret (Ok rs) ∧
    verdictOf <$> rs = imap (λ k cc, (EffectiveName cc, passes i (j + k) vip cc)) l.
Proof.
  revert j. induction l as [|cc l IH]; intros j Hl; cbn; [by exists []|].
  apply Forall_cons in Hl as [Hc Hl]. destruct (runOne_ready i j vip cc Hc) as (r & -> & Hr).
  destruct (IH (S j) Hl) as (rs & -> & Hrs). exists (r :: rs). split; [done|]. cbn. rewrite Hr, Hrs, Nat.add_0_r.
  f_equal. apply imap_ext. intros k x _. cbn. do 2 f_equal. lia.
Qed.

(** A VIP's report as far as the combination depends on it. *)
Definition reportsVIP (i : nat) (vip : VIPConfig) (rep : checkReport) : Prop :=
  verdictOf <$> rp_Checks rep = imap (λ j cc, (EffectiveName cc, passes i j vip cc)) (CheckList vip).

Lemma runVIPs_ready i vips :
  (∀ vip, vip ∈ vips → Forall (ready vip) (CheckList vip)) →
  ∃ reports, runVIPs errText answer c i vips = Ret (Ok reports) ∧ length reports = length vips ∧
    ∀ k vip rep, vips !! k = Some vip → reports !! k = Some rep → reportsVIP (i + k) vip rep.
Proof.
  revert i. induction vips as [|vip vips IH]; intros i Hv; cbn; [by exists []|].
  destruct (runChecks_ready i 0 vip (CheckList vip)) as (rs & -> & Hrs); [apply Hv; left|].
  destruct (IH (S i)) as (reports & -> & Hlen & Hreps); [intros v Hin; apply Hv; by right|].
  eexists. split; [done|]. split; [cbn; lia|]. intros [|k] vip' rep; cbn.
  - intros [= <-] [= <-]. by rewrite Nat.add_0_r.
  - intros Hk Hr. rewrite Nat.add_succ_r. by eapply (Hreps k).
Qed.

Lemma verdicts_eq rs : verdicts rs = foldl (λ m p, <[p.1 := p.2]> m) ∅ (verdictOf <$> rs).
Proof.
  unfold verdicts. generalize (∅ : gmap string bool). induction rs as [|r rs IH]; intros m; cbn; [done|].
  by rewrite IH.
Qed.

Lemma imap_fst {A B C} (f : A → B) (g : nat → A → C) l : fst <$> imap (λ j a, (f a, g j a)) l = f <$> l.
Proof. revert g. induction l as [|a l IH]; intros g; cbn; [done|]. f_equal. apply (IH (g ∘ S)). Qed.

Lemma foldl_pairs_lookup (l : list (string * bool)) m n b :
  NoDup l.*1 → (n, b) ∈ l → foldl (λ m p, <[p.1 := p.2]> m) (m : gmap string bool) l !! n = Some b.
Proof.
  revert m. induction l as [|[n' b'] l IH]; intros m Hnd Hin; [by apply not_elem_of_nil in Hin|]. cbn in *.
  apply NoDup_cons in Hnd as [Hn Hnd]. apply elem_of_cons in Hin as [[= <- <-]|Hin]; [|by apply IH].
  clear IH. assert (<[n := b]> m !! n = Some b) as Hm by apply lookup_insert_eq. revert Hm.
  generalize (<[n := b]> m). clear -Hn. induction l as [|[k v] l IH]; intros m Hm; cbn; [done|].
  apply IH; [set_solver|]. cbn in Hn. rewrite lookup_insert_ne by set_solver. done.
Qed.

Lemma reportsVIP_names i vip rep : reportsVIP i vip rep → rr_Name <$> rp_Checks rep = checkNames vip.
Proof.
  intros Hr. assert (fst <$> (verdictOf <$> rp_Checks rep) = rr_Name <$> rp_Checks rep) as <-
    by (by rewrite <-list_fmap_compose).
  rewrite Hr. apply imap_fst.
Qed.

(** The evaluator of a VIP. *)
Definition healthy (i : nat) (vip : VIPConfig) : Prop :=
  ∃ eval, CompileChecksPolicy (EffectiveChecksPolicy vip) (checkNames vip) = Ok eval ∧
          Eval eval (passMap i vip) = true.

Definition compiles (vip : VIPConfig) : Prop :=
  ∃ eval, CompileChecksPolicy (EffectiveChecksPolicy vip) (checkNames vip) = Ok eval.

Lemma combineOne_spec i vip rep :
  reportsVIP i vip rep → compiles vip →
  ∃ rep', combineOne vip rep = Ok rep' ∧ (rp_Healthy rep' = true ↔ healthy i vip).
Proof.
  intros Hr [eval Heval]. unfold combineOne. rewrite (reportsVIP_names i vip rep Hr), Heval.
  eexists. split; [done|]. cbn. rewrite verdicts_eq, Hr. fold (passMap i vip). unfold healthy. rewrite Heval.
  naive_solver.
Qed.

Lemma combineAll_spec i vips reports :
  length reports = length vips → (∀ vip, vip ∈ vips → compiles vip) →
  (∀ k vip rep, vips !! k = Some vip → reports !! k = Some rep → reportsVIP (i + k) vip rep) →
  ∃ out, combineAll (zip vips reports) = Ok out ∧
    (Forall (λ r, rp_Healthy r = true) out ↔ ∀ k vip, vips !! k = Some vip → healthy (i + k) vip).
Proof.
  revert i reports. induction vips as [|vip vips IH]; intros i [|rep reports] Hlen Hc Hr; try done; cbn.
  { exists []. split; [done|]. split; [done|constructor]. }
  destruct (combineOne_spec i vip rep) as (rep' & -> & Hrep).
  { specialize (Hr 0%nat vip rep eq_refl eq_refl). by rewrite Nat.add_0_r in Hr. }
  { apply Hc. left. }
  destruct (IH (S i) reports) as (out & -> & Hout); [cbn in Hlen; lia|intros v Hv; apply Hc; by right| |].
  { intros k v rp Hv Hrp. specialize (Hr (S k) v rp Hv Hrp). by rewrite Nat.add_succ_r in Hr. }
  eexists. split; [done|]. rewrite Forall_cons, Hrep, Hout. split.
  - intros [Hh Hs] [|k] v; cbn; [intros [= <-]; by rewrite Nat.add_0_r|]. intros Hv.
    rewrite Nat.add_succ_r. by apply (Hs k).
  - intros Hall. split; [specialize (Hall 0%nat vip eq_refl); by rewrite Nat.add_0_r in Hall|].
    intros k v Hv. specialize (Hall (S k) v Hv). by rewrite Nat.add_succ_r in Hall.
Qed.

(** Selected VIPs are VIPs of the config. *)
Lemma selectVIPs_in cfg names vips v :
  selectVIPs cfg names = Ok vips → v ∈ vips → v ∈ elems (Cfg_VIPs cfg).
Proof.
  assert (∀ all names out, selectNamed all names = Ok out → v ∈ out → v ∈ all) as Hn.
  { clear. intros all names. induction names as [|n names IH]; intros out; cbn; [intros [= <-]; set_solver|].
    destruct (list_find _ all) as [[k w]|] eqn:E; [|done]. apply list_find_Some in E as (Hk & _).
    destruct (selectNamed all names) as [rest|]; [|done]. intros [= <-].
    intros [->|Hv]%elem_of_cons; [by eapply list_elem_of_lookup_2|by eapply IH]. }
  unfold selectVIPs. destruct names; [by intros [= <-]|]. apply Hn.
Qed.

(** In a loaded config every check has its timeout and every policy
    compiles. *)
Lemma loaded_timeout data path cfg v cc :
  loadBytes LookupEnv data path = Ok cfg → v ∈ elems (Cfg_VIPs cfg) → cc ∈ CheckList v →
  is_Some (Check_Timeout cc).
Proof.
  intros Hl Hv Hcc. pose proof (loaded_valid LookupEnv _ _ _ Hl) as Hvalid. unfold loadBytes in Hl.
  destruct (expandEnvPlaceholders LookupEnv data); [|done]. destruct (Parse _ _) as [raw|]; [|done].
  destruct (Validate _); [|done]. injection Hl as <-. pose proof (valid_vip _ Hvalid v Hv) as Hvv.
  cbn -[elems slice_map applyVIPDefaults] in Hv. rewrite elems_slice_map in Hv.
  apply list_elem_of_fmap in Hv as (v0 & -> & Hv0).
  set (procfs := orString _ _) in *.
  assert (hasCheck v0 ∨ applyVIPDefaults procfs v0 = v0 ∧ CheckList v0 = [VIP_Check v0] ∧
    Check_Type (VIP_Check v0) = EmptyString) as [Hc|(Heq & Hlist & Htype)].
  { unfold hasCheck, applyVIPDefaults, CheckList. destruct (elems (VIP_Checks v0)); [|by left; left].
    case_decide; [by right|by left; right]. }
  - rewrite applyVIPDefaults_checks in Hcc by done. apply list_elem_of_fmap in Hcc as (c0 & -> & _).
    destruct (fill_filled procfs (VIP_Prefix v0) c0) as (_ & _ & _ & [Ht _] & _). done.
  - pose proof (vv_checks _ Hvv) as Hall. rewrite Forall_forall in Hall. specialize (Hall cc Hcc).
    apply vc_block, ValidBlock_type in Hall. rewrite Heq, Hlist in Hcc.
    apply list_elem_of_singleton in Hcc as ->. done.
Qed.

Lemma loaded_compiles data path cfg v :
  loadBytes LookupEnv data path = Ok cfg → v ∈ elems (Cfg_VIPs cfg) → compiles v.
Proof.
  intros Hl Hv. pose proof (valid_vip _ (loaded_valid LookupEnv _ _ _ Hl) v Hv) as Hvv.
  unfold compiles, EffectiveChecksPolicy. case_decide as E.
  { destruct (Compile_shortcut ChecksPolicyAll (checkNames v)) as (e & He & _); [auto|by exists e]. }
  destruct (vv_policy _ Hvv) as [Hb|(_ & e & He)]; [|by exists e]. unfold builtinPolicy in Hb.
  destruct (Compile_shortcut (VIP_ChecksPolicy v) (checkNames v)) as (e & He & _); [set_solver|by exists e].
Qed.

(** C18: for a config the loader accepts, with the VIPs and checks that were
    asked for known and every selected checker built, [pathosd check] never
    panics and exits 0 exactly when every selected VIP is healthy: its policy
    holds of the results of its selected checks, the others counting as
    failed; otherwise it exits 1. *)
Theorem check_exit data path cfg vips printed :
  loadBytes LookupEnv data path = Ok cfg →
  selectVIPs cfg (cc_VIP c) = Ok vips → verifyCheckNames vips (cc_Check c) = None →
  (∀ vip cc, vip ∈ vips → cc ∈ CheckList vip → selected c cc = true →
     ∃ checker, build c vip cc = Ok checker) →
  (∀ reports, printed reports = None) →
  ∃ r, CheckCmd_Run errText answer c (Ok cfg) printed = Ret r ∧
    (exitCode r = 0 ∨ exitCode r = exitUnhealthy) ∧
    (exitCode r = 0 ↔ ∀ i vip, vips !! i = Some vip → healthy i vip).
Proof.
  intros Hl Hs Hn Hb Hp. assert (∀ v, v ∈ vips → v ∈ elems (Cfg_VIPs cfg)) as Hin
    by (intros v Hv; by eapply selectVIPs_in).
  unfold CheckCmd_Run, execute. rewrite Hs, Hn.
  destruct (runVIPs_ready 0 vips) as (reports & -> & Hlen & Hreps).
  { intros v Hv. apply Forall_forall. intros cc Hcc Hsel. split; [|by apply Hb].
    eapply loaded_timeout; [done|by apply Hin|done]. }
  destruct (combineAll_spec 0 vips reports Hlen) as (out & -> & Hout); [|done|].
  { intros v Hv. eapply loaded_compiles; [done|by apply Hin]. }
  rewrite Hp. cbn in Hout.
  assert (len (filter (λ r, rp_Healthy r = false) out) = 0 ↔ Forall (λ r, rp_Healthy r = true) out) as Hf.
  { clear. induction out as [|r out IH]; [done|]. rewrite filter_cons, Forall_cons, <-IH. unfold len.
    case_decide; cbn; destruct (rp_Healthy r); naive_solver lia. }
  assert (0 ≤ len (filter (λ r, rp_Healthy r = false) out)) by (unfold len; lia).
  case_decide; eexists; (split; [done|]); cbn; (split; [auto|]); rewrite <-Hout, <-Hf; unfold exitUnhealthy; lia.
Qed.

(** [pathosd check] and the daemon's ad-hoc trigger combine results alike:
    when both ran the same checks of a VIP with the same results, the report
    says healthy exactly when the API says success. *)
Theorem check_agrees_with_api {B} (pol : Manager (B := B)) e i vip (results : gmap string Result) :
  NoDup (checkNames vip) → mg_vips pol !! VIP_Name vip = Some e →
  CompileChecksPolicy (EffectiveChecksPolicy vip) (checkNames vip) = Ok (ve_eval e) →
  (∀ j cc, CheckList vip !! j = Some cc →
     passes i j vip cc = default false (Success <$> results !! EffectiveName cc)) →
  healthy i vip ↔ (CombineChecks pol (VIP_Name vip) (Success <$> results)).1 = true.
Proof.
  intros Hnd He Hc Hr. unfold CombineChecks, healthy. rewrite He, Hc. cbn.
  assert (Eval (ve_eval e) (passMap i vip) = Eval (ve_eval e) (Success <$> results)) as Heq;
    [|rewrite <-Heq; naive_solver].
  apply Eval_ext. intros n Hn. rewrite (Compile_names _ _ _ Hc) in Hn.
  apply list_elem_of_fmap in Hn as (cc & -> & (j & Hj)%list_elem_of_lookup). unfold healthyAt.
  rewrite lookup_fmap, <-(Hr j cc Hj). unfold passMap.
  rewrite (foldl_pairs_lookup _ _ _ (passes i j vip cc)); [done|by rewrite imap_fst|].
  apply list_elem_of_lookup. exists j. by rewrite list_lookup_imap, Hj.
Qed.

End Check.

(** ** healthcheck and reload *)

Section Client.
Context (errText : error → string).
Context (decodePeers : string → option (list PeerStatus)) (decodeReload : string → option ReloadStatus).
(** The daemon's encoder, and what fits into the client's limit. *)
Context (encode : Payload → string).

(** A client connected to a daemon whose handlers answer. *)
Definition servedBy (respond : string → string → HTTPAPI.Response) : HTTPClient :=
  λ method url,
    let r := respond method url in
    Ok (Resp_Code r, Ok (encode (Resp_Payload r))).

(** The container health check exits 0 exactly when every required peer is
    established, and never with the code of a misconfigured command. *)
Theorem healthcheck_ready peers addr quiet :
  let respond (method url : string) := handleReadyz peers in
  let r := (Healthcheck_run errText decodePeers (Ok addr) false quiet (servedBy respond)).2 in
  (exitCode r = 0 ∨ exitCode r = exitUnhealthy) ∧
  (exitCode r = 0 ↔ ∀ p, p ∈ peers → PS_Required p = true → PS_SessionState p = SessionEstablished).
Proof.
  intros respond r. unfold r, Healthcheck_run, probe, servedBy, respond. clear.
  rewrite <-handleReadyz_code. unfold handleReadyz. destruct (UnreadyPeers peers); cbn -[limitBytes Z.pow];
    (split; [by auto|done]).
Qed.

(** [pathosd reload] exits 0 exactly when the daemon answers 200, that is when
    it runs what the file says. *)
Theorem reload_exit {R} (reload : R → R * ReloadStatus) st addr :
  decodeReload (limitBytes (2 ^ 20) (encode (PReload (reload st).2))) = Some (reload st).2 →
  let resp := (handleReload (Some reload) st).2 in
  let r := (Reload_run errText decodeReload (Ok addr) (servedBy (λ _ _, resp))).2 in
  (exitCode r = 0 ∨ exitCode r = exitUnhealthy) ∧ (exitCode r = 0 ↔ Resp_Code resp = StatusOK).
Proof.
  intros Hd resp r. unfold r, resp. rewrite handleReload_code.
  unfold Reload_run, postReload, servedBy, handleReload. destruct (reload st) as [st' res]. cbn [snd] in *.
  cbn -[limitBytes Z.pow describeReload OK]. rewrite Hd. destruct (OK (Some res)); cbn; (split; [by auto|done]).
Qed.

End Client.
End CommandsProofs.
Export CommandsProofs.
