(* ===== verification/CommandsWitness.v ===== *)
(** * The theorems on the subcommands, applied

    [pathosd check] on the config file of LoadedWitness: a VIP with two TCP
    checks. *)

From S2P Require Import Prelude GoStrings NetIP Net Config Model Metrics ChecksPolicy Engine.
From S2P Require Import Scheduler Defaults Validate ValidateProofs Loader LoadProofs DefaultsProofs.
From S2P Require Import PolicyManager PolicyProofs BGPManager BGPProofs PolicyWitness System Daemon.
From S2P Require Import Reload Loaded LoadedWitness LocalAddr Checkers Backends SQLBackend.
From S2P Require Import CheckersWitness HTTPAPI HTTPAPIProofs Commands CommandsProofs.

Module CommandsWitness.
Import PolicyManager PolicyWitness LoadedWitness CheckersWitness.
#[local] Existing Instance refStd.
#[local] Existing Instance vw_decoders.
#[local] Existing Instance cw_std.
#[local] Existing Instance cw_sql.

Definition mw_cmd : CheckCmd := mkCheckCmd [] [] 0 false.

(** The second check of a VIP gives [ok]. *)
Definition mw_answer (ok : bool) (i j : nat) (ck : builtChecker) (timeout : Z) : Result :=
  mkResult (match j with O => true | _ => ok end) "probed" timeout None false None.

Lemma mw_build vip cc :
  vip ∈ elems (Cfg_VIPs vw_cfg) → cc ∈ CheckList vip → selected mw_cmd cc = true →
  ∃ checker, build mw_cmd vip cc = Ok checker.
Proof.
  intros Hv Hc _. change (vip ∈ [vw_web]) in Hv. apply list_elem_of_singleton in Hv as ->.
  apply list_elem_of_lookup in Hc as [j Hj].
  destruct j as [|[|j]]; vm_compute in Hj; [injection Hj as <-; eexists; by vm_compute..|done].
Defined.

Lemma check_exit_witness :
  ∃ r, CheckCmd_Run cw_text (mw_answer false) mw_cmd (Ok vw_cfg) (λ _, None) = Ret r ∧ exitCode r = 1.
Proof.
  destruct (check_exit cw_text (mw_answer false) vw_env mw_cmd vw_file "/etc/pathosd.yaml" vw_cfg
    (elems (Cfg_VIPs vw_cfg)) (λ _, None) vw_loaded eq_refl eq_refl mw_build (λ _, eq_refl)) as (r & Hr & _ & _).
  exists r. split; [exact Hr|]. vm_compute in Hr. by injection Hr as <-.
Defined.

(** The same VIP in a policy manager, asked through the API. *)
Definition mw_pol : Manager (B := RefBGP) := NewManager pw_stat 0 [vw_web] ∅ None.
Definition mw_results (ok : bool) : gmap string Result :=
  {["a" := mw_answer ok 0 0 (Plain (CheckerTCP zeroTCP)) 0; "b" := mw_answer ok 0 1 (Plain (CheckerTCP zeroTCP)) 0]}.

Lemma check_agrees_with_api_witness :
  ¬ healthy (mw_answer false) mw_cmd 0 vw_web ∧ healthy (mw_answer true) mw_cmd 0 vw_web.
Proof.
  assert (∀ ok, healthy (mw_answer ok) mw_cmd 0 vw_web ↔
    (CombineChecks mw_pol "web" (Success <$> mw_results ok)).1 = true) as Hok.
  { intros ok. apply (check_agrees_with_api (mw_answer ok) mw_cmd mw_pol (newVIPEntry pw_stat 0 vw_web) 0 vw_web
      (mw_results ok)); [by_compute|by vm_compute|by vm_compute|].
    intros j cc Hj. destruct j as [|[|j]]; vm_compute in Hj; [injection Hj as <-; by vm_compute..|done]. }
  split; [|apply Hok; by vm_compute]. intros Hh. apply Hok in Hh. by vm_compute in Hh.
Defined.

End CommandsWitness.
