(* ===== verification/Watcher.v ===== *)
(** * Peer session events: internal/bgp/watcher.go

    GoBGP delivers peer events to a callback, which logs a line and calls the
    status reporter.  An event holds what the callback reads: whether it is
    the marker that closes the initial dump, the peer's address in its
    configuration and in its state ([None] is the zero address), and the name
    of the session state. *)

From S2P Require Import Prelude GoStrings NetIP Net Config Model Validate.
From Stdlib Require Import Ascii.

Module Watcher.

(** [netip.Addr.String]; an IPv4-mapped address keeps its dots. *)
Definition Addr_String (a : option Addr) : string :=
  match a with
  | None => "invalid IP"
  | Some (Addr4 v) => dotted v
  | Some (Addr6 v zone) =>
      match To4 v with Some v4 => "::ffff:" +:+ dotted v4 | None => text6 v end
      +:+ (if decide (zone = EmptyString) then EmptyString else "%" +:+ zone)
  end.

(** The peer of an [apiutil.WatchEventMessage_PeerEvent], and the event. *)
Record Peer := mkPeer {
  Peer_ConfAddress : option Addr;
  Peer_StateAddress : option Addr;
  Peer_SessionState : string }.
Record PeerEvent := mkPeerEvent { PE_EndOfInit : bool; PE_Peer : Peer }.

(** A logged state change: name, address and state. *)
Record PeerLine := mkPeerLine { PL_Name : string; PL_Address : string; PL_State : string }.

(** [resolvePeerIdentity]. *)
Definition resolvePeerIdentity (peer : option Peer) (neighbors : gmap string string) : string * string :=
  match peer with
  | None => (EmptyString, EmptyString)
  | Some p =>
      let addr := TrimSpace (Addr_String (Peer_ConfAddress p)) in
      let addr := if decide (addr = "invalid IP") then TrimSpace (Addr_String (Peer_StateAddress p)) else addr in
      let name := if decide (addr = EmptyString) then EmptyString else default EmptyString (neighbors !! addr) in
      (if decide (name = EmptyString) then addr else name, addr)
  end.

(** [logPeerEvent]: the line, if the event described a peer. *)
Definition logPeerEvent (p : option PeerEvent) (neighbors : gmap string string) : option PeerLine :=
  match p with
  | None => None
  | Some p =>
      if PE_EndOfInit p then None
      else
        let '(name, addr) := resolvePeerIdentity (Some (PE_Peer p)) neighbors in
        let unknown s := if decide (s = EmptyString) then "unknown" else s in
        Some (mkPeerLine (unknown name) (unknown addr) (unknown (ToLower (Peer_SessionState (PE_Peer p)))))
  end.

(** The callback of [WatchPeerState] over the events up to the end of its
    context; [onChange] is [None] when nil, and [watchErr] the error of
    [WatchEvent]. *)
Definition onPeerUpdate {W} (neighbors : gmap string string) (onChange : option (W → W))
    (acc : W * list PeerLine) (p : option PeerEvent) : W * list PeerLine :=
  match logPeerEvent p neighbors with
  | None => acc
  | Some l => (match onChange with Some f => f acc.1 | None => acc.1 end, acc.2 ++ [l])
  end.

Definition WatchPeerState {W} (watchErr : goerror) (neighbors : gmap string string)
    (onChange : option (W → W)) (events : list (option PeerEvent)) (w : W) : W * list PeerLine :=
  match watchErr with
  | Some _ => (w, [])
  | None => foldl (onPeerUpdate neighbors onChange) (w, []) events
  end.

(** The names by address, as registerPeerWatcherLifecycle (daemon.go)
    collects them. *)
Definition neighborNames (neighbors : list NeighborConfig) : gmap string string :=
  foldl (λ m n, <[Neighbor_Address n := Neighbor_Name n]> m) ∅ neighbors.

(** ** Lemmas *)

Lemma neighborNames_lookup ns n :
  NoDup (Neighbor_Address <$> ns) → n ∈ ns → neighborNames ns !! Neighbor_Address n = Some (Neighbor_Name n).
Proof.
  unfold neighborNames. induction ns as [|x ns IH] using rev_ind; intros Hnd Hn.
  { by apply not_elem_of_nil in Hn. }
  rewrite foldl_snoc. rewrite fmap_app, NoDup_app in Hnd. destruct Hnd as (Hnd & Hd & _).
  apply elem_of_app in Hn as [Hn|Hn%list_elem_of_singleton]; [|subst; by rewrite lookup_insert_eq].
  rewrite lookup_insert_ne; [by apply IH|]. intros Heq.
  apply (Hd (Neighbor_Address n)); [by apply list_elem_of_fmap_2|]. rewrite <-Heq. cbn. by left.
Qed.

Lemma neighborNames_None ns addr :
  (∀ n, n ∈ ns → Neighbor_Address n ≠ addr) → neighborNames ns !! addr = None.
Proof.
  unfold neighborNames. induction ns as [|x ns IH] using rev_ind; intros Hn; [done|].
  rewrite foldl_snoc, lookup_insert_ne.
  - apply IH. intros n Hin. apply Hn, elem_of_app. by left.
  - apply Hn, elem_of_app. right. by left.
Qed.

(** The peer events of a stream: all but the marker. *)
Definition describes (p : option PeerEvent) : bool :=
  match p with Some e => negb (PE_EndOfInit e) | None => false end.

Lemma logPeerEvent_describes p neighbors : is_Some (logPeerEvent p neighbors) ↔ describes p = true.
Proof.
  destruct p as [[end_ peer]|]; cbn; [|by split; [intros []|]].
  destruct end_; [by split; [intros []|]|]. cbn [negb].
  by destruct (resolvePeerIdentity (Some peer) neighbors).
Qed.

(** ** Properties *)

(** Every event but the marker that closes the initial dump is logged
    once and followed by one status update, in order; the marker by none. *)
Theorem watch_reports {W} neighbors (f : W → W) events w :
  let '(w', lines) := WatchPeerState None neighbors (Some f) events w in
  lines = omap (λ p, logPeerEvent p neighbors) events ∧
  w' = Nat.iter (length (filter (λ p, describes p = true) events)) f w.
Proof.
  cbn [WatchPeerState].
  assert (∀ acc, foldl (onPeerUpdate neighbors (Some f)) acc events =
    (Nat.iter (length (filter (λ p, describes p = true) events)) f acc.1,
     acc.2 ++ omap (λ p, logPeerEvent p neighbors) events)) as Hf.
  { induction events as [|p events IH]; intros [w0 l0]; [cbn; by rewrite app_nil_r|].
    cbn [foldl omap list_omap]. rewrite IH, filter_cons. unfold onPeerUpdate.
    pose proof (logPeerEvent_describes p neighbors) as Hd.
    destruct (logPeerEvent p neighbors) as [l|].
    - rewrite decide_True by (apply Hd; eauto). cbn. rewrite <-app_assoc.
      by rewrite Nat.iter_swap.
    - rewrite decide_False; [done|]. intros Hc%Hd. by destruct Hc. }
  rewrite Hf. done.
Qed.

(** A session event is logged under the name the config gives the
    neighbour exactly if the config writes its address the way
    netip.Addr.String prints it: a neighbour written otherwise (an IPv6
    address with capitals or leading zeros) is logged by its address. *)
Theorem peer_named ns n a st peerState :
  NoDup (Neighbor_Address <$> ns) → n ∈ ns → Neighbor_Name n ≠ EmptyString →
  TrimSpace (Addr_String (Some a)) = Addr_String (Some a) →
  Addr_String (Some a) ≠ "invalid IP" → Addr_String (Some a) ≠ EmptyString →
  let line := logPeerEvent (Some (mkPeerEvent false (mkPeer (Some a) st peerState))) (neighborNames ns) in
  (Neighbor_Address n = Addr_String (Some a) → PL_Name <$> line = Some (Neighbor_Name n)) ∧
  ((∀ n', n' ∈ ns → Neighbor_Address n' ≠ Addr_String (Some a)) →
     PL_Name <$> line = Some (Addr_String (Some a))).
Proof.
  intros Hnd Hn Hname Htrim Hvalid Hne line.
  assert (PL_Name <$> line =
    Some (if decide (default EmptyString (neighborNames ns !! Addr_String (Some a)) = EmptyString)
          then Addr_String (Some a)
          else default EmptyString (neighborNames ns !! Addr_String (Some a)))) as Hline.
  { subst line. unfold logPeerEvent, resolvePeerIdentity. cbn [PE_EndOfInit PE_Peer Peer_ConfAddress].
    rewrite Htrim. rewrite !(decide_False (P := Addr_String (Some a) = _)) by done. cbn [fmap option_fmap option_map PL_Name].
    f_equal. repeat case_decide; congruence. }
  rewrite Hline. split.
  - intros Ha. rewrite <-Ha, (neighborNames_lookup ns n Hnd Hn). cbn. by rewrite decide_False.
  - intros Hall. rewrite (neighborNames_None ns _ Hall). cbn. by rewrite decide_True.
Qed.

(** ** Witness *)

Definition ww_neighbor (name addr : string) : NeighborConfig :=
  mkNeighborConfig name addr 65001 None 0 EmptyString false false 0 None EmptyString.
Definition ww_neighbors : list NeighborConfig :=
  [ww_neighbor "upper" "2001:DB8::1"; ww_neighbor "lower" "2001:db8::2"].
Definition ww_addr (i : Z) : Addr := Addr6 (0x20010db8000000000000000000000000 + i) EmptyString.
Definition ww_event (i : Z) : option PeerEvent :=
  Some (mkPeerEvent false (mkPeer (Some (ww_addr i)) None "ESTABLISHED")).

(** Both texts are the address of the event; only one is found. *)
Lemma peer_named_witness :
  ParseAddr "2001:DB8::1" = Some (ww_addr 1) ∧
  PL_Name <$> logPeerEvent (ww_event 1) (neighborNames ww_neighbors) = Some "2001:db8::1" ∧
  PL_Name <$> logPeerEvent (ww_event 2) (neighborNames ww_neighbors) = Some "lower".
Proof.
  assert (NoDup (Neighbor_Address <$> ww_neighbors)) as Hnd by by_compute.
  split; [by vm_compute|]. split.
  - refine (proj2 (peer_named ww_neighbors (ww_neighbor "upper" "2001:DB8::1") (ww_addr 1) None "ESTABLISHED"
      Hnd _ _ _ _ _) _); [by left|done|by vm_compute|by_compute|by_compute|].
    intros n' Hn. unfold ww_neighbors in Hn. rewrite !elem_of_cons, elem_of_nil in Hn.
    destruct Hn as [->|[->|[]]]; by_compute.
  - refine (proj1 (peer_named ww_neighbors (ww_neighbor "lower" "2001:db8::2") (ww_addr 2) None "ESTABLISHED"
      Hnd _ _ _ _ _) _); [by right; left|done|by vm_compute|by_compute|by_compute|by vm_compute].
Defined.

End Watcher.
