(* ===== verification/Telemetry.v ===== *)
(** * OpenTelemetry export: internal/telemetry/telemetry.go

    The SDK is not part of the repository: creating a resource or an exporter
    and shutting a provider down are operations of the class [OTelSDK].  What
    the code does with it is a list of events: providers created on an
    exporter, registered as globals, and shut down. *)

From S2P Require Import Prelude GoStrings Config Model ValidateProofs.

Module Telemetry.

Inductive Signal := Traces | Metrics | Logs.
#[export] Instance Signal_eq : EqDecision Signal.
Proof. solve_decision. Defined.

(** The options an exporter is made with. *)
Record Exporter := mkExporter {
  Exp_Protocol : OTelProtocol;
  Exp_URL : string;
  Exp_Insecure : bool;
  Exp_Headers : gmap string string }.

Class OTelSDK := {
  resourceNew : string → string → goerror;
  newExporter : Signal → Exporter → goerror;
  providerShutdown : Signal → goerror;
  (** [Path] of the parsed URL, if it parses. *)
  urlPath : string → option string }.

Inductive Event :=
| Created (s : Signal) (e : Exporter)
| SetGlobal (s : Signal)
| Stopped (s : Signal).

(** [Provider]: whether it has a logger provider, and what to shut down. *)
Record Provider := mkProvider { pv_lp : bool; pv_shutdown : list Signal }.
Definition zeroProvider : Provider := mkProvider false [].

(** [Provider.LogHandler], whether it returns a handler. *)
Definition LogHandler (p : Provider) : bool := pv_lp p.

Section Telemetry.
Context `{OTelSDK}.

(** [Provider.Shutdown]: every provider, whatever the others answer. *)
Definition Shutdown (p : Provider) : list Event * goerror :=
  (Stopped <$> pv_shutdown p,
   foldl (λ last s, match providerShutdown s with Some e => Some e | None => last end) None (pv_shutdown p)).

(** What the three builders share: the endpoint, then the options. *)
Definition exporterFor (what : string) (cfg : OTelConfig) (sig : OTelSignalConfig)
    : outcome (result error Exporter) :=
  match ParseOTelEndpoint (EffectiveEndpoint sig (OTel_Endpoint cfg)) with
  | None => Ret (Err (Wrapf ("otel: " +:+ what +:+ " endpoint: %w") [] (External "unsupported scheme")))
  | Some (proto, normURL) =>
      match EffectiveHeaders sig (OTel_Headers cfg) with
      | Panic => Panic
      | Ret headers =>
          Ret (Ok (mkExporter proto normURL (EffectiveInsecure sig (OTel_Insecure cfg)) (entries headers)))
      end
  end.

Definition createExporter (s : Signal) (what : string) (e : Exporter) : result error Exporter :=
  match newExporter s e with
  | None => Ok e
  | Some err =>
      Err (Wrapf ("otel: creating " +:+ match Exp_Protocol e with OTelProtocolGRPC => "gRPC " | OTelProtocolHTTP => "HTTP " end
                  +:+ what +:+ " exporter: %w") [] err)
  end.

(** [buildTraceExporter] and [buildMetricsExporter]. *)
Definition buildTraceExporter (cfg : OTelConfig) (sig : OTelSignalConfig) : outcome (result error Exporter) :=
  match exporterFor "trace" cfg sig with
  | Ret (Ok e) => Ret (createExporter Traces "trace" e)
  | r => r
  end.

Definition buildMetricsExporter (cfg : OTelConfig) (sig : OTelSignalConfig) : outcome (result error Exporter) :=
  match exporterFor "metrics" cfg sig with
  | Ret (Ok e) => Ret (createExporter Metrics "metrics" e)
  | r => r
  end.

(** [strings.TrimSuffix(s, "/")]. *)
Fixpoint trimSlash (s : string) : string :=
  match s with
  | EmptyString => EmptyString
  | String a s' =>
      if decide (s' = EmptyString ∧ a = Ascii.ascii_of_nat 47) then EmptyString else String a (trimSlash s')
  end.

(** The URL of the HTTP log exporter: a URL without a path gets the default. *)
Definition logURL (normURL : string) : string :=
  match urlPath normURL with
  | Some path =>
      if decide (path = EmptyString ∨ path = "/") then trimSlash normURL +:+ "/v1/logs" else normURL
  | None => normURL
  end.

(** [buildLogExporter]. *)
Definition buildLogExporter (cfg : OTelConfig) (sig : OTelSignalConfig) : outcome (result error Exporter) :=
  match exporterFor "log" cfg sig with
  | Ret (Ok e) =>
      Ret (createExporter Logs "log"
             match Exp_Protocol e with
             | OTelProtocolGRPC => e
             | OTelProtocolHTTP => mkExporter OTelProtocolHTTP (logURL (Exp_URL e)) (Exp_Insecure e) (Exp_Headers e)
             end)
  | r => r
  end.

(** One signal of [Setup]: nothing when it is off; a provider that is
    registered; or the failure, after what exists was shut down. *)
Definition setupSignal (s : Signal) (sig : OTelSignalConfig) (build : outcome (result error Exporter))
    (acc : list Event * result error Provider) : outcome (list Event * result error Provider) :=
  match acc with
  | (ev, Err e) => Ret (ev, Err e)
  | (ev, Ok p) =>
      if IsEnabled sig then
        match build with
        | Panic => Panic
        | Ret (Err e) => Ret (ev ++ (Shutdown p).1, Err e)
        | Ret (Ok x) =>
            Ret (ev ++ [Created s x; SetGlobal s],
                 Ok (mkProvider (pv_lp p || bool_decide (s = Logs)) (pv_shutdown p ++ [s])))
        end
      else Ret (ev, Ok p)
  end.

(** [Setup]. *)
Definition Setup (cfg : OTelConfig) (svcVersion : string) : outcome (list Event * result error Provider) :=
  if bool_decide (OTel_Endpoint cfg = EmptyString) || negb (OTel_IsEnabled cfg) then Ret ([], Ok zeroProvider)
  else
    match resourceNew (OTel_ServiceName cfg) svcVersion with
    | Some e => Ret ([], Err (Wrapf "otel: building resource: %w" [] e))
    | None =>
        match setupSignal Traces (OTel_Traces cfg) (buildTraceExporter cfg (OTel_Traces cfg)) ([], Ok zeroProvider) with
        | Panic => Panic
        | Ret acc =>
            match setupSignal Metrics (OTel_Metrics cfg) (buildMetricsExporter cfg (OTel_Metrics cfg)) acc with
            | Panic => Panic
            | Ret acc => setupSignal Logs (OTel_Logs cfg) (buildLogExporter cfg (OTel_Logs cfg)) acc
            end
        end
    end.

(** ** Lemmas *)

Definition created (ev : list Event) : list Signal :=
  omap (λ e, match e with Created s _ => Some s | _ => None end) ev.
Definition stopped (ev : list Event) : list Signal :=
  omap (λ e, match e with Stopped s => Some s | _ => None end) ev.

Definition enabledSignals (cfg : OTelConfig) : list Signal :=
  (if IsEnabled (OTel_Traces cfg) then [Traces] else []) ++
  (if IsEnabled (OTel_Metrics cfg) then [Metrics] else []) ++
  (if IsEnabled (OTel_Logs cfg) then [Logs] else []).

(** What exists is what will be shut down, or was. *)
Definition accounted (acc : list Event * result error Provider) : Prop :=
  match acc.2 with
  | Ok p => stopped acc.1 = [] ∧ pv_shutdown p = created acc.1 ∧ pv_lp p = bool_decide (Logs ∈ created acc.1)
  | Err _ => stopped acc.1 = created acc.1
  end.

Lemma stopped_app a b : stopped (a ++ b) = stopped a ++ stopped b.
Proof. apply omap_app. Qed.
Lemma created_app a b : created (a ++ b) = created a ++ created b.
Proof. apply omap_app. Qed.
Lemma Shutdown_stopped p : stopped (Shutdown p).1 = pv_shutdown p ∧ created (Shutdown p).1 = [].
Proof. cbn. induction (pv_shutdown p) as [|s l [IH1 IH2]]; [done|]. cbn. by rewrite IH1. Qed.

Lemma setupSignal_accounted s sig build acc acc' :
  accounted acc → setupSignal s sig build acc = Ret acc' → accounted acc'.
Proof.
  destruct acc as [ev [p|e]]; cbn [setupSignal]; [|by intros Ha [= <-]]. intros (Hs & Hp & Hl); cbn [fst snd] in *.
  destruct (IsEnabled sig); [|by intros [= <-]]. destruct build as [[x|e]|]; [| |done]; intros [= <-]; unfold accounted; cbn [fst snd pv_lp pv_shutdown].
  - rewrite stopped_app, created_app, Hs, Hp, Hl. change (created [Created s x; SetGlobal s]) with [s]. split; [done|]. split; [done|].
    rewrite <-bool_decide_or. apply bool_decide_ext. rewrite elem_of_app, list_elem_of_singleton. naive_solver.
  - destruct (Shutdown_stopped p) as [H1 H2]. cbn [Shutdown fst] in H1, H2. rewrite stopped_app, created_app, Hs, H1, H2.
    by rewrite app_nil_r.
Qed.

(** The signals created, when all could be. *)
Lemma setupSignal_created s sig build ev p ev' p' :
  setupSignal s sig build (ev, Ok p) = Ret (ev', Ok p') →
  created ev' = created ev ++ if IsEnabled sig then [s] else [].
Proof.
  cbn. destruct (IsEnabled sig); [|intros [= <- <-]; by rewrite app_nil_r].
  destruct build as [[x|e]|]; [|done..]. intros [= <- <-]. by rewrite created_app.
Qed.

Lemma setupSignal_Ok s sig build acc ev' p' :
  setupSignal s sig build acc = Ret (ev', Ok p') → ∃ ev p, acc = (ev, Ok p).
Proof. destruct acc as [ev [p|e]]; [eauto|done]. Qed.

(** ** When set-up panics *)

(** A signal that sets headers while there is no global map. *)
Definition headersPanic (cfg : OTelConfig) (sig : OTelSignalConfig) : Prop :=
  OTel_Headers cfg = None ∧ entries (Sig_Headers sig) ≠ ∅.

Lemma exporterFor_panic what cfg sig :
  is_Some (ParseOTelEndpoint (EffectiveEndpoint sig (OTel_Endpoint cfg))) →
  (exporterFor what cfg sig = Panic ↔ headersPanic cfg sig) ∧
  (¬ headersPanic cfg sig → ∃ e, exporterFor what cfg sig = Ret (Ok e)).
Proof.
  intros [[proto url] Hp]. unfold exporterFor, headersPanic, EffectiveHeaders. rewrite Hp.
  case_decide as Hs.
  - apply map_size_empty_iff in Hs. split; [|eauto]. split; [done|]. by intros [_ []].
  - rewrite map_size_empty_iff in Hs. unfold mapsCopy. destruct (OTel_Headers cfg); [naive_solver|].
    rewrite decide_False by done. naive_solver.
Qed.

Lemma valid_endpoint cfg sig :
  ValidOTel cfg → OTel_Endpoint cfg ≠ EmptyString → sig ∈ [OTel_Traces cfg; OTel_Metrics cfg; OTel_Logs cfg] →
  is_Some (ParseOTelEndpoint (EffectiveEndpoint sig (OTel_Endpoint cfg))).
Proof.
  intros [?|(Hg & Hs & _)] Hne Hin; [done|]. rewrite Forall_forall in Hs.
  unfold EffectiveEndpoint. case_decide; [done|]. by destruct (Hs sig Hin).
Qed.

Lemma Setup_accounted cfg v acc : Setup cfg v = Ret acc → accounted acc.
Proof.
  unfold Setup. destruct (_ || _); [by intros [= <-]|]. destruct (resourceNew _ _); [by intros [= <-]|].
  destruct (setupSignal Traces _ _ _) as [a1|] eqn:E1; [|done].
  destruct (setupSignal Metrics _ _ _) as [a2|] eqn:E2; [|done]. intros E3.
  eapply setupSignal_accounted, E3. eapply setupSignal_accounted, E2. by eapply setupSignal_accounted, E1.
Qed.

Lemma Setup_created cfg v ev p :
  OTel_Endpoint cfg ≠ EmptyString → OTel_IsEnabled cfg = true → Setup cfg v = Ret (ev, Ok p) →
  created ev = enabledSignals cfg.
Proof.
  intros Hne Hen. unfold Setup. rewrite bool_decide_eq_false_2, Hen by done. cbn [orb negb].
  destruct (resourceNew _ _); [done|].
  destruct (setupSignal Traces _ _ _) as [a1|] eqn:E1; [|done].
  destruct (setupSignal Metrics _ _ _) as [a2|] eqn:E2; [|done]. intros E3.
  destruct (setupSignal_Ok _ _ _ _ _ _ E3) as (ev2 & p2 & ->).
  destruct (setupSignal_Ok _ _ _ _ _ _ E2) as (ev1 & p1 & ->).
  rewrite (setupSignal_created _ _ _ _ _ _ _ E3), (setupSignal_created _ _ _ _ _ _ _ E2),
    (setupSignal_created _ _ _ _ _ _ _ E1).
  unfold enabledSignals. by rewrite <-app_assoc.
Qed.

(** ** Properties *)

(** C22: Set-up leaks no provider: when it fails, every provider that was
    created has been shut down, in the order of creation; when it succeeds
    nothing was shut down, the signals created are those that are enabled,
    Shutdown will stop exactly these, and there is a log handler exactly if
    logs are exported. *)
Theorem Setup_no_leak cfg version ev res :
  Setup cfg version = Ret (ev, res) →
  match res with
  | Err _ => stopped ev = created ev
  | Ok p =>
      stopped ev = [] ∧ stopped (Shutdown p).1 = created ev ∧
      LogHandler p = bool_decide (Logs ∈ created ev) ∧
      created ev = (if bool_decide (OTel_Endpoint cfg = EmptyString) || negb (OTel_IsEnabled cfg) then []
                    else enabledSignals cfg)
  end.
Proof.
  intros Hs. pose proof (Setup_accounted _ _ _ Hs) as Ha. destruct res as [p|e]; [|done].
  destruct Ha as (H1 & H2 & H3); cbn [fst snd] in *. split; [done|]. split; [|split; [done|]].
  - by rewrite (proj1 (Shutdown_stopped p)).
  - destruct (_ || _) eqn:E.
    + unfold Setup in Hs. rewrite E in Hs. by injection Hs as <- <-.
    + apply orb_false_iff in E as [E1%bool_decide_eq_false E2%negb_false_iff]. by eapply Setup_created.
Qed.

End Telemetry.

(** ** When set-up panics *)

Section Panic.
Context `{OTelSDK}.

(** An SDK that answers. *)
Definition sdk_ok : Prop :=
  (∀ name v, resourceNew name v = None) ∧ (∀ s e, newExporter s e = None).

Lemma build_panic cfg (s : Signal) sig (build : OTelConfig → OTelSignalConfig → outcome (result error Exporter)) what f :
  (build cfg sig = match exporterFor what cfg sig with
                   | Ret (Ok e) => Ret (createExporter s what (f e)) | r => r end) →
  sdk_ok → is_Some (ParseOTelEndpoint (EffectiveEndpoint sig (OTel_Endpoint cfg))) →
  if decide (OTel_Headers cfg = None ∧ entries (Sig_Headers sig) ≠ ∅)
  then build cfg sig = Panic else ∃ e, build cfg sig = Ret (Ok e).
Proof.
  intros -> [_ Hn] Hp. destruct (exporterFor_panic what cfg sig Hp) as [H1 H2].
  case_decide as Hd; [by rewrite (proj2 H1 Hd)|]. destruct (H2 Hd) as [e ->].
  unfold createExporter. rewrite Hn. eauto.
Qed.

Lemma setupSignal_panic s sig build ev p (Q : Prop) `{Decision Q} :
  (if decide Q then build = Panic else ∃ e, build = Ret (Ok e)) →
  if decide (IsEnabled sig = true ∧ Q) then setupSignal s sig build (ev, Ok p) = Panic
  else ∃ ev' p', setupSignal s sig build (ev, Ok p) = Ret (ev', Ok p').
Proof.
  cbn [setupSignal]. destruct (decide Q) as [HQ|HQ]; [intros ->|intros [e ->]];
    destruct (IsEnabled sig); case_decide; naive_solver.
Qed.

(** C40: A config that validation accepts makes the set-up panic, with an
    SDK that answers, exactly when some enabled signal sets headers while
    there are no global headers. *)
Theorem Setup_panics cfg version :
  ValidOTel cfg → OTel_Endpoint cfg ≠ EmptyString → OTel_IsEnabled cfg = true → sdk_ok →
  Setup cfg version = Panic ↔
  OTel_Headers cfg = None ∧
  ∃ sig, sig ∈ [OTel_Traces cfg; OTel_Metrics cfg; OTel_Logs cfg] ∧ IsEnabled sig = true ∧
         entries (Sig_Headers sig) ≠ ∅.
Proof.
  intros Hv Hne Hen Hsdk. pose proof (λ sig Hin, valid_endpoint cfg sig Hv Hne Hin) as Hp.
  assert (OTel_Traces cfg ∈ [OTel_Traces cfg; OTel_Metrics cfg; OTel_Logs cfg]) as I1 by set_solver.
  assert (OTel_Metrics cfg ∈ [OTel_Traces cfg; OTel_Metrics cfg; OTel_Logs cfg]) as I2 by set_solver.
  assert (OTel_Logs cfg ∈ [OTel_Traces cfg; OTel_Metrics cfg; OTel_Logs cfg]) as I3 by set_solver.
  pose proof (build_panic cfg Traces (OTel_Traces cfg) buildTraceExporter "trace" id eq_refl Hsdk (Hp _ I1)) as B1.
  pose proof (build_panic cfg Metrics (OTel_Metrics cfg) buildMetricsExporter "metrics" id eq_refl Hsdk (Hp _ I2)) as B2.
  pose proof (build_panic cfg Logs (OTel_Logs cfg) buildLogExporter "log"
    (λ e, match Exp_Protocol e with OTelProtocolGRPC => e
          | OTelProtocolHTTP => mkExporter OTelProtocolHTTP (logURL (Exp_URL e)) (Exp_Insecure e) (Exp_Headers e) end)
    eq_refl Hsdk (Hp _ I3)) as B3.
  unfold Setup. rewrite bool_decide_eq_false_2, Hen, (proj1 Hsdk) by done. cbn [orb negb].
  assert (∀ sig, sig ∈ [OTel_Traces cfg; OTel_Metrics cfg; OTel_Logs cfg] →
    IsEnabled sig = true ∧ OTel_Headers cfg = None ∧ entries (Sig_Headers sig) ≠ ∅ →
    Panic = Panic (A := list Event * result error Provider) ↔ OTel_Headers cfg = None ∧
    ∃ sig, sig ∈ [OTel_Traces cfg; OTel_Metrics cfg; OTel_Logs cfg] ∧ IsEnabled sig = true ∧
           entries (Sig_Headers sig) ≠ ∅) as Hyes by naive_solver.
  pose proof (setupSignal_panic Traces (OTel_Traces cfg) _ [] zeroProvider _ B1) as S1.
  case_decide as D1; [rewrite S1; by apply (Hyes _ I1)|]. destruct S1 as (ev1 & p1 & ->).
  pose proof (setupSignal_panic Metrics (OTel_Metrics cfg) _ ev1 p1 _ B2) as S2.
  case_decide as D2; [rewrite S2; by apply (Hyes _ I2)|]. destruct S2 as (ev2 & p2 & ->).
  pose proof (setupSignal_panic Logs (OTel_Logs cfg) _ ev2 p2 _ B3) as S3.
  case_decide as D3; [rewrite S3; by apply (Hyes _ I3)|]. destruct S3 as (ev3 & p3 & ->).
  split; [done|]. intros (Hg & sig & Hin & Hs & Hh). exfalso.
  rewrite !elem_of_cons, elem_of_nil in Hin. by destruct Hin as [->|[->|[->|[]]]]; [apply D1|apply D2|apply D3].
Qed.

End Panic.

(** ** Witnesses *)

(** An SDK whose exporters of one signal cannot be created. *)
Definition ref_sdk (failing : option Signal) : OTelSDK := {|
  resourceNew _ _ := None;
  newExporter s _ := if decide (failing = Some s) then Some (External "connection refused") else None;
  providerShutdown _ := None;
  urlPath _ := Some EmptyString |}.

Definition tw_signal (headers : gomap string) : OTelSignalConfig :=
  mkOTelSignalConfig EmptyString None None headers.
Definition tw_cfg (headers : gomap string) : OTelConfig :=
  mkOTelConfig None "http://collector:4318/" false None "pathosd" (tw_signal None) (tw_signal headers) (tw_signal None).

(** Without metrics the trace provider is shut down again. *)
Lemma Setup_no_leak_witness :
  ∃ ev e, Setup (H := ref_sdk (Some Metrics)) (tw_cfg None) "1.0" = Ret (ev, Err e) ∧
    created ev = [Traces] ∧ stopped ev = created ev.
Proof.
  destruct (Setup (H := ref_sdk (Some Metrics)) (tw_cfg None) "1.0") as [[ev [p|e]]|] eqn:E;
    [by vm_compute in E| |by vm_compute in E].
  exists ev, e. split; [done|]. split; [vm_compute in E; by injection E as <- <-|].
  exact (Setup_no_leak (H := ref_sdk (Some Metrics)) (tw_cfg None) "1.0" ev (Err e) E).
Defined.

Lemma Setup_panics_witness :
  Setup (H := ref_sdk None) (tw_cfg (Some {["authorization" := "Bearer x"]})) "1.0" = Panic.
Proof.
  apply (Setup_panics (H := ref_sdk None)).
  - right. split; [eexists; by vm_compute|]. split; [|done]. by repeat (constructor; [by left|]).
  - done.
  - done.
  - split; [done|]. intros s e. cbn. by rewrite decide_False.
  - split; [done|]. exists (tw_signal (Some {["authorization" := "Bearer x"]})). split; [by right; left|].
    split; [done|]. by_compute.
Defined.

Example logs_ex :
  created <$> (match Setup (H := ref_sdk None) (tw_cfg None) "1.0" with Ret (ev, Ok _) => Some ev | _ => None end) =
    Some [Traces; Metrics; Logs] ∧
  logURL (H := ref_sdk None) "http://collector:4318/" = "http://collector:4318/v1/logs".
Proof. by vm_compute. Qed.

End Telemetry.
