(* ===== verification/Platform.v ===== *)
(** * The service manager and file capabilities: internal/systemd,
    internal/caps and internal/daemon/sdstatus.go

    The notify socket, the journal and the two capability system calls are
    parameters; what was delivered to the service manager is the list of
    messages a call adds. *)

From S2P Require Import Prelude GoStrings Config Model Logging ChecksPolicy PolicyManager BGPManager.

Module Platform.

(** ** systemd.go *)

(** $NOTIFY_SOCKET, [daemon.SdNotify(false, state)] and
    [journal.StderrIsJournalStream]. *)
Class Systemd := {
  NOTIFY_SOCKET : string;
  SdNotify : string → bool * goerror;
  StderrIsJournalStream : bool * goerror }.

Definition SdNotifyReady : string := "READY=1".
Definition SdNotifyStopping : string := "STOPPING=1".

Section Notify.
Context `{Systemd}.

(** [NotifyAvailable]. *)
Definition NotifyAvailable : bool := negb (bool_decide (NOTIFY_SOCKET = EmptyString)).

(** [Notify]: the messages delivered, and whether this one was. *)
Definition Notify (state : string) : list string * bool :=
  let '(sent, err) := SdNotify state in
  match err with
  | Some _ => ([], false)
  | None => (if sent then [state] else [], sent)
  end.

(** [Ready], [Stopping], [Status] and [StderrIsJournal]. *)
Definition Ready : list string * bool := Notify SdNotifyReady.
Definition Stopping : list string * bool := Notify SdNotifyStopping.
Definition Status (text : string) : list string * bool := Notify ("STATUS=" +:+ text).
Definition StderrIsJournal : bool :=
  let '(ok, err) := StderrIsJournalStream in bool_decide (err = None) && ok.

End Notify.

(** ** sdstatus.go *)

Section StatusReporter.
Context `{ExprLang} {S UUID : Type} `{BGPManager.GoBGP S UUID} `{Systemd}.
Context (errText : error → string) (formatTime : Z → string) (cfg : Config).

(** The line of [Update]; [config] is what [configStatus] returns, if set. *)
Definition statusLine (vips : list VIPStatus) (peers : list PeerStatus) (config : option ConfigStatus) : string :=
  let line := Summarize vips peers in
  match config with
  | None => line
  | Some st =>
      let notice := ConfigNotice errText formatTime (Some st) in
      if decide (notice = EmptyString) then line else line +:+ "; " +:+ notice
  end.

(** [statusReporter.Update]: the messages it delivers. *)
Definition Update {B} (pol : PolicyManager.Manager (B := B)) (bgp : BGPManager.Manager (S := S) (UUID := UUID))
    (config : option ConfigStatus) : outcome (list string) :=
  if negb NotifyAvailable then Ret []
  else
    match GetVIPStatuses pol with
    | Panic => Panic
    | Ret vips => Ret (Status (statusLine vips (BGPManager.GetPeerStates cfg bgp) config)).1
    end.

End StatusReporter.

(** ** caps_linux.go *)

(** [unix.CapUserData]: three words of 32 bits. *)
Record CapUserData := mkCaps { Cap_Effective : Z; Cap_Permitted : Z; Cap_Inheritable : Z }.

Definition raiseOne (d : CapUserData) : CapUserData := mkCaps (Cap_Permitted d) (Cap_Permitted d) (Cap_Inheritable d).

(** [RaiseEffective]; [capget] is what the call returns, [capset] applies two
    words to every thread.  The capabilities asked for are part of the
    result. *)
Definition RaiseEffective (capget : result error (CapUserData * CapUserData))
    (capset : CapUserData * CapUserData → goerror) : option (CapUserData * CapUserData) * (bool * goerror) :=
  match capget with
  | Err e => (None, (false, Some (Wrapf "capget: %w" [] e)))
  | Ok (d0, d1) =>
      if bool_decide (Cap_Effective d0 = Cap_Permitted d0) && bool_decide (Cap_Effective d1 = Cap_Permitted d1) then
        (None, (false, None))
      else
        let data := (raiseOne d0, raiseOne d1) in
        match capset data with
        | Some e => (Some data, (false, Some (Wrapf "capset: %w" [] e)))
        | None => (Some data, (true, None))
        end
  end.

(** The caps_other.go variant. *)
Definition RaiseEffective_other : bool * goerror := (false, None).

(** [raiseCapabilities] of daemon.go: the line it logs. *)
Definition raiseCapabilities (raised : bool * goerror) : option (Z * string * goerror) :=
  match raised with
  | (_, Some err) => Some (Logging.LevelWarn, "could not raise file capabilities", Some err)
  | (true, None) => Some (Logging.LevelInfo, "raised file capabilities to effective", None)
  | (false, None) => None
  end.

(** Raising asks for what is permitted and for nothing else, and once it
    succeeded there is nothing left to raise. *)
Theorem RaiseEffective_exact d0 d1 capset data raised err :
  RaiseEffective (Ok (d0, d1)) capset = (data, (raised, err)) →
  (data = None ↔ Cap_Effective d0 = Cap_Permitted d0 ∧ Cap_Effective d1 = Cap_Permitted d1) ∧
  (∀ c0 c1, data = Some (c0, c1) →
     Cap_Effective c0 = Cap_Permitted d0 ∧ Cap_Effective c1 = Cap_Permitted d1 ∧
     Cap_Permitted c0 = Cap_Permitted d0 ∧ Cap_Permitted c1 = Cap_Permitted d1 ∧
     Cap_Inheritable c0 = Cap_Inheritable d0 ∧ Cap_Inheritable c1 = Cap_Inheritable d1 ∧
     ∀ capset', RaiseEffective (Ok (c0, c1)) capset' = (None, (false, None))) ∧
  (raised = true ↔ is_Some data ∧ err = None).
Proof.
  unfold RaiseEffective. destruct (bool_decide _ && bool_decide _) eqn:E.
  - intros [= <- <- <-]. apply andb_true_iff in E as [E1%bool_decide_eq_true E2%bool_decide_eq_true].
    split; [done|]. split; [done|]. split; [done|]. by intros [[]%is_Some_None _].
  - apply andb_false_iff in E. rewrite !bool_decide_eq_false in E.
    destruct (capset _) eqn:Ec; intros [= <- <- <-]; (split; [split; [done|]; intros []; naive_solver|]);
      (split; [|naive_solver]); intros c0 c1 [= <- <-]; cbn; by rewrite !bool_decide_eq_true_2.
Qed.

End Platform.
