(* ===== verification/Wiring.v ===== *)
(** * The daemon put together: internal/daemon/daemon.go

    [Run] constructs every component, starts the lifecycle hooks in the order
    they were appended, waits for a signal, and stops the hooks in reverse.
    The dependency container is fx, which is not part of the repository: it
    enters through the class [Fx], and [FxLaws] states what it documents
    about hooks.  The constructors are called in the order in which the list
    of [fx.Invoke] first needs them.

    [App] is the running process: the reloader (which holds the registry, the
    schedulers, the policy manager and, inside it, the BGP manager), the
    goroutines the hooks start, and the messages sent to the service manager.
    What the operating system answers is the record [Env]. *)

From S2P Require Import Prelude GoStrings NetIP Config Model Metrics ChecksPolicy Engine Logging Scheduler.
From S2P Require Import Defaults Registry PolicyManager BGPManager Reload Checkers Backends SQLBackend HTTPAPI.
From S2P Require Import Watcher Telemetry Platform Floats Buckets.

Module Wiring.
Import BGPManager Reload Platform.

(** [ConfigFile]. *)
Record ConfigFile := mkConfigFile { CF_Path : string; CF_Raw : string; CF_DebugForced : bool }.

Definition configPollInterval : Z := 5 * second.

(** What the operating system answers: the listener of an address; whether
    the reload loop ends, which scheduler runs end, and how the HTTP server
    shuts down before the stop context ends. *)
Record Env := mkEnv {
  env_listen : string → goerror;
  env_loopDone : bool;
  env_exited : gset nat;
  env_httpShutdown : goerror;
  (** The end of [srv.Serve]; [None] is a stop context that ends first. *)
  env_serveEnd : option goerror }.

(** The answer of [prometheus.Registerer.Register]. *)
Inductive RegisterResult := Registered | AlreadyRegistered | RegisterFailed (e : error).

(** What the process runs beside the schedulers: the BGP server, the peer
    watcher, the HTTP server, the reload loop and its context, the goroutine
    that waits for SIGHUP, a SIGHUP in its channel, and whether signals are
    delivered there. *)
Record Procs := mkProcs {
  pr_bgp : bool;
  pr_watching : bool;
  pr_serving : bool;
  pr_loop : bool;
  pr_ctx : bool;
  pr_hupLoop : bool;
  pr_hup : bool;
  pr_notify : bool }.
Definition noProcs : Procs := mkProcs false false false false false false false false.

Section Wiring.
Context `{ExprLang} `{GoStd} `{CheckStd} `{SQLStd} {S UUID : Type} `{GoBGP S UUID}.
Context {Hash : Type} `{EqDecision Hash} (zeroHash : Hash) (Sum256 : string → Hash).
Context {T : Type} `{Logging.Sinks T} `{Telemetry.OTelSDK} `{Systemd}.
Context (stat : string → bool) (errText : error → string) (formatTime : Z → string).
(** [server.NewBgpServer] with the address of its gRPC API, the bridge of
    [Provider.LogHandler], and the two collectors of the BGP manager. *)
Context (newBgpServer : option string → S) (otelBridge : T) (registerCollector : nat → RegisterResult).
(** The config the daemon starts with, which the BGP manager keeps. *)
Context (cfg : Config).


Local Abbreviation BGP := (BGPManager.Manager (S := S) (UUID := UUID)).
Local Abbreviation Pol := (PolicyManager.Manager (B := BGP)).

#[local] Instance daemon_notifier : BGPNotifier BGP := bgp_notifier cfg.

(** The policy manager as the reloader's [Policy]. *)
#[local] Instance daemon_policy : Policy Pol := {|
  pol_AddVIP now v m := PolicyManager.AddVIP stat now v m;
  pol_RemoveVIP name m := PolicyManager.RemoveVIP name m;
  pol_CommitVIP now v seeds m := PolicyManager.CommitVIP stat now v seeds m;
  pol_OnHealthTransition now t m := PolicyManager.OnHealthTransition stat now t m;
  pol_OnCheckResult now vip check res m := PolicyManager.OnCheckResult stat now vip check res m |}.

(** [checks.NewChecker], by the type of the checker. *)
Definition newChecker (c : CheckConfig) : result error string :=
  match NewChecker c with Ok ck => Ok (Checker_Type ck) | Err e => Err e end.

Local Abbreviation Rl := (Reloader (P := Pol) (Hash := Hash)).

(** ** The process *)

Record App := mkApp {
  ap_rl : Rl;
  ap_tel : Telemetry.Provider;
  ap_log : Logging.Handler T;
  ap_gobgpLog : Logging.Handler T;
  ap_server : Server;
  ap_statusConfig : bool;
  ap_procs : Procs;
  (** Schedulers whose run outlived [Registry.Stop]. *)
  ap_inflight : gset ptr;
  ap_messages : list string;
  ap_telEvents : list Telemetry.Event }.

Definition setRl (a : App) (r : Rl) : App :=
  mkApp r (ap_tel a) (ap_log a) (ap_gobgpLog a) (ap_server a) (ap_statusConfig a) (ap_procs a)
    (ap_inflight a) (ap_messages a) (ap_telEvents a).
Definition setProcs (a : App) (p : Procs) : App :=
  mkApp (ap_rl a) (ap_tel a) (ap_log a) (ap_gobgpLog a) (ap_server a) (ap_statusConfig a) p
    (ap_inflight a) (ap_messages a) (ap_telEvents a).
Definition setInflight (a : App) (s : gset ptr) : App :=
  mkApp (ap_rl a) (ap_tel a) (ap_log a) (ap_gobgpLog a) (ap_server a) (ap_statusConfig a) (ap_procs a)
    s (ap_messages a) (ap_telEvents a).
Definition addMessages (a : App) (l : list string) : App :=
  mkApp (ap_rl a) (ap_tel a) (ap_log a) (ap_gobgpLog a) (ap_server a) (ap_statusConfig a) (ap_procs a)
    (ap_inflight a) (ap_messages a ++ l) (ap_telEvents a).
Definition addTelEvents (a : App) (l : list Telemetry.Event) : App :=
  mkApp (ap_rl a) (ap_tel a) (ap_log a) (ap_gobgpLog a) (ap_server a) (ap_statusConfig a) (ap_procs a)
    (ap_inflight a) (ap_messages a) (ap_telEvents a ++ l).

(** The BGP manager, behind the policy manager's pointer. *)
Definition bgpOf (a : App) : option BGP := mg_notifier (rl_pol (ap_rl a)).
Definition setBGP (a : App) (b : BGP) : App :=
  setRl a (setPol (ap_rl a) (setNotifier (rl_pol (ap_rl a)) (Some b))).

(** [statusReporter.Update]. *)
Definition updateStatus (a : App) : outcome App :=
  match bgpOf a with
  | None => Panic
  | Some b =>
      match Update errText formatTime cfg (rl_pol (ap_rl a)) b
              (if ap_statusConfig a then Some (Reload.Status (ap_rl a)) else None) with
      | Panic => Panic
      | Ret msgs => Ret (addMessages a msgs)
      end
  end.

(** ** Constructors *)

(** The longest timeout, which the histogram buckets cover. *)
Definition maxTimeout : Z :=
  foldl (λ m v, foldl (λ m c, match Check_Timeout c with
                              | Some t => if decide (m < t) then t else m
                              | None => m
                              end) m (CheckList v)) 0 (elems (Cfg_VIPs cfg)).

(** [provideMetrics]: the bounds of the check histogram; [order] is the order
    in which a map's keys are walked. *)
Definition provideMetrics (order : list Floats.float → list Floats.float) : list Floats.float :=
  Buckets.GenerateCheckBuckets order maxTimeout.

(** [provideTelemetry]. *)
Definition provideTelemetry (version : string) : outcome (list Telemetry.Event * result error Telemetry.Provider) :=
  match Telemetry.Setup (Cfg_OTel cfg) version with
  | Ret (ev, Err e) => Ret (ev, Err (Wrapf "setting up OTEL telemetry: %w" [] e))
  | r => r
  end.

(** [provideLogger]. *)
Definition provideLogger (tel : Telemetry.Provider) : Z * Logging.Handler T :=
  let l := Cfg_Logging cfg in
  let timestamps := default (negb StderrIsJournal) (Logging_Timestamps l) in
  if Telemetry.LogHandler tel then
    let h := Logging.Sink otelBridge in
    let otelH :=
      if decide (Logging_OTelLevel l = EmptyString) then h
      else Logging.NewLevelFilter (Logging.setupLevel (Logging_OTelLevel l)) h in
    Logging.Setup (Logging_Level l) (Logging_Format l) timestamps [otelH]
  else Logging.Setup (Logging_Level l) (Logging_Format l) timestamps [].

(** [bgp.NewManager], on the default logger's handler. *)
Definition grpcListen : option string :=
  let api := BGP_GoBGPAPI (Cfg_BGP cfg) in
  if GoBGPAPI_Enabled api then Some (orString (GoBGPAPI_Listen api) DefaultGoBGPAPIListen) else None.
Definition gobgpLogger (default : Logging.Handler T) : Logging.Handler T :=
  Logging.WithAttrs [Logging.mkAttr "component" "gobgp"] (Logging.newGoBGPHandler default).
Definition bgpNewManager : BGP := mkManager (newBgpServer grpcListen) ∅ (Some ∅) ∅.

(** [RegisterMetrics]: a collector that is there already is no error. *)
Fixpoint RegisterMetrics (collectors : list nat) : goerror :=
  match collectors with
  | [] => None
  | c :: l =>
      match registerCollector c with
      | RegisterFailed e => Some (Wrapf "registering GoBGP collector: %w" [] e)
      | _ => RegisterMetrics l
      end
  end.

(** [provideBGPManager]. *)
Definition provideBGPManager : result error BGP :=
  match RegisterMetrics [0; 1]%nat with
  | Some e => Err (Wrapf "registering GoBGP metrics: %w" [] e)
  | None => Ok bgpNewManager
  end.

(** [provideSchedulers]: the heap, the next pointer and the registry. *)
Fixpoint provideSchedulersLoop (vips : list VIPConfig) (h : gmap ptr Sched) (next : ptr) (reg : Registry)
    : result error (gmap ptr Sched * ptr * Registry) :=
  match vips with
  | [] => Ok (h, next, reg)
  | v :: vips' =>
      match newGuard v with
      | Some e => Err e
      | None =>
          match newSchedulersLoop newChecker v (CheckList v) h next [] with
          | (_, _, Err e) => Err e
          | (h, next, Ok scheds) =>
              provideSchedulersLoop vips' h next (foldl (λ reg s, Registry.Add (vipOf h) s reg) reg scheds)
          end
      end
  end.
Definition provideSchedulers : result error (gmap ptr Sched * ptr * Registry) :=
  provideSchedulersLoop (elems (Cfg_VIPs cfg)) ∅ 0%nat NewRegistry.

(** [providePolicyManager], with the transition listener that
    [registerSystemdLifecycle] sets before any hook runs. *)
Definition providePolicyManager (now : Z) (bgp : BGP) : Pol :=
  SetTransitionListener (NewManager stat now (elems (Cfg_VIPs cfg)) ∅ (Some bgp)).

(** [provideReloader]; it also sets the status reporter's config status. *)
Definition provideReloader (now : Z) (file : ConfigFile) (pol : Pol) (reg : Registry) (h : gmap ptr Sched)
    (next : ptr) : Rl :=
  let rl := Reload.New Sum256 now (CF_Path file) cfg (CF_Raw file) pol reg h next ∅ true in
  if CF_DebugForced file then LockLogLevel rl else rl.

(** The constructors in the order they are needed: telemetry and the logger
    for [ensureLoggerInitialized], the BGP manager, the policy manager and
    the status reporter, the schedulers, the reloader and the HTTP server. *)
Definition construct (now : Z) (version : string) (file : ConfigFile) : outcome (result error App) :=
  match provideTelemetry version with
  | Panic => Panic
  | Ret (_, Err e) => Ret (Err e)
  | Ret (ev, Ok tel) =>
      let '(_, log) := provideLogger tel in
      match provideBGPManager with
      | Err e => Ret (Err e)
      | Ok bgp =>
          let pol := providePolicyManager now bgp in
          match provideSchedulers with
          | Err e => Ret (Err e)
          | Ok (h, next, reg) =>
              Ret (Ok (mkApp (provideReloader now file pol reg h next) tel log (gobgpLogger log)
                         (NewServer cfg) true noProcs ∅ [] ev))
          end
      end
  end.

(** ** Lifecycle hooks *)

(** An [fx.Hook]; a nil function does nothing. *)
Record Hook := mkHook {
  hk_OnStart : App → outcome (App * goerror);
  hk_OnStop : App → outcome (App * goerror) }.

Definition nothing (a : App) : outcome (App * goerror) := Ret (a, None).

(** The hook of [provideTelemetry]. *)
Definition telemetryHook : Hook :=
  mkHook nothing
    (λ a, let '(ev, err) := Telemetry.Shutdown (ap_tel a) in Ret (addTelEvents a ev, err)).

(** [registerProcessLifecycle] only logs. *)
Definition registerProcessLifecycle : Hook := mkHook nothing nothing.

Definition setBgpUp (p : Procs) (b : bool) : Procs :=
  mkProcs b (pr_watching p) (pr_serving p) (pr_loop p) (pr_ctx p) (pr_hupLoop p) (pr_hup p) (pr_notify p).
Definition setWatching (p : Procs) (b : bool) : Procs :=
  mkProcs (pr_bgp p) b (pr_serving p) (pr_loop p) (pr_ctx p) (pr_hupLoop p) (pr_hup p) (pr_notify p).
Definition setServing (p : Procs) (b : bool) : Procs :=
  mkProcs (pr_bgp p) (pr_watching p) b (pr_loop p) (pr_ctx p) (pr_hupLoop p) (pr_hup p) (pr_notify p).

(** [registerBGPLifecycle]. *)
Definition registerBGPLifecycle : Hook :=
  mkHook
    (λ a, match bgpOf a with
          | None => Panic
          | Some b =>
              match BGPManager.Start cfg b with
              | (b, Some e) => Ret (setBGP a b, Some (Wrapf "BGP start: %w" [] e))
              | (b, None) =>
                  let a := setProcs a (setBgpUp (ap_procs a) true) in
                  match AddPeers cfg b with
                  | (b, Some e) => Ret (setBGP a b, Some (Wrapf "BGP add peers: %w" [] e))
                  | (b, None) => Ret (setBGP a b, None)
                  end
              end
          end)
    (λ a, match bgpOf a with
          | None => Panic
          | Some b => Ret (setProcs (setBGP a (bgpStop b)) (setBgpUp (ap_procs a) false), None)
          end).

(** [registerPeerWatcherLifecycle]: the goroutine runs
    [WatchPeerState] with the names of the neighbours. *)
Definition registerPeerWatcherLifecycle : Hook :=
  mkHook (λ a, Ret (setProcs a (setWatching (ap_procs a) true), None))
         (λ a, Ret (setProcs a (setWatching (ap_procs a) false), None)).

(** [registerSchedulersLifecycle]. *)
Definition attachAll (r : Rl) : Rl :=
  foldl (λ r s, setCallbacks (Some PolicyTransition) (Some PolicyResult) s r) r
    (concat (map_to_list (Schedulers (rl_reg r))).*2).
Definition registerSchedulersLifecycle (env : Env) : Hook :=
  mkHook
    (λ a, let r := attachAll (ap_rl a) in Ret (setRl a (setReg r (Registry.Start (rl_reg r))), None))
    (λ a, let r := ap_rl a in
          let '(reg, err) := Registry.Stop (env_exited env) (rl_reg r) in
          let late := filter (λ e, run_id e.2 ∉ env_exited env) (reg_running (rl_reg r)) in
          Ret (setInflight (setRl a (setReg r reg)) (dom late ∪ ap_inflight a), err)).

(** [registerHTTPServerLifecycle]. *)
Definition registerHTTPServerLifecycle (env : Env) : Hook :=
  mkHook
    (λ a, match env_listen env (Srv_Addr (ap_server a)) with
          | Some e =>
              Ret (a, Some (Wrapf "starting HTTP API listener on %q: %w" [Srv_Addr (ap_server a)] e))
          | None => Ret (setProcs a (setServing (ap_procs a) true), None)
          end)
    (λ a, match env_httpShutdown env with
          | Some e => Ret (a, Some (Wrapf "stopping HTTP API: %w" [] e))
          | None =>
              let a := setProcs a (setServing (ap_procs a) false) in
              match env_serveEnd env with
              | Some (Some e) => Ret (a, Some (Wrapf "HTTP API serve loop: %w" [] e))
              | Some None => Ret (a, None)
              | None => Ret (a, Some (Wrapf "waiting for HTTP API shutdown: %w" [] (External "context deadline exceeded")))
              end
          end).

(** [registerReloadLifecycle]: the reload loop and the goroutine that waits
    for SIGHUP; stopping waits for the first only. *)
Definition registerReloadLifecycle (env : Env) : Hook :=
  mkHook
    (λ a, let p := ap_procs a in
          Ret (setProcs a (mkProcs (pr_bgp p) (pr_watching p) (pr_serving p) true true true (pr_hup p) true), None))
    (λ a, let p := ap_procs a in
          let stopped := mkProcs (pr_bgp p) (pr_watching p) (pr_serving p) (negb (env_loopDone env) && pr_loop p) false
                           (pr_hupLoop p) (pr_hup p) false in
          Ret (setProcs a stopped,
               if env_loopDone env then None else Some (External "context deadline exceeded"))).

(** [registerSystemdLifecycle]. *)
Definition registerSystemdLifecycle : Hook :=
  mkHook
    (λ a, if negb NotifyAvailable then Ret (a, None)
          else match updateStatus a with
               | Panic => Panic
               | Ret a => Ret (addMessages a Ready.1, None)
               end)
    (λ a, Ret (addMessages a Stopping.1, None)).

(** The hooks in the order they are appended. *)
Definition hooks (env : Env) : list Hook :=
  [telemetryHook; registerProcessLifecycle; registerBGPLifecycle; registerPeerWatcherLifecycle;
   registerSchedulersLifecycle env; registerHTTPServerLifecycle env; registerReloadLifecycle env;
   registerSystemdLifecycle].

(** ** What fx documents *)

(** The OnStop functions of a list of hooks, all of them, and the errors. *)
Fixpoint stopAll (l : list Hook) (a : App) : outcome (App * list error) :=
  match l with
  | [] => Ret (a, [])
  | h :: l' =>
      match hk_OnStop h a with
      | Panic => Panic
      | Ret (a, err) =>
          match stopAll l' a with
          | Panic => Panic
          | Ret (a, errs) => Ret (a, match err with Some e => e :: errs | None => errs end)
          end
      end
  end.

(** The OnStart functions in order, until one fails; then the hooks that had
    started, latest first ([started]), are stopped. *)
Fixpoint startAll (started l : list Hook) (a : App) : outcome (App * list error) :=
  match l with
  | [] => Ret (a, [])
  | h :: l' =>
      match hk_OnStart h a with
      | Panic => Panic
      | Ret (a, None) => startAll (h :: started) l' a
      | Ret (a, Some e) =>
          match stopAll started a with
          | Panic => Panic
          | Ret (a, errs) => Ret (a, e :: errs)
          end
      end
  end.

(** [App.Start] and [App.Stop] of fx, and how it joins errors. *)
Class Fx := {
  fx_Start : list Hook → App → outcome (App * goerror);
  fx_Stop : list Hook → App → outcome (App * goerror);
  fx_Combine : list error → goerror }.

Definition joined (f : list error → goerror) (r : outcome (App * list error)) : outcome (App * goerror) :=
  match r with Panic => Panic | Ret (a, errs) => Ret (a, f errs) end.

Class FxLaws `{Fx} := {
  fx_Start_law l a : fx_Start l a = joined fx_Combine (startAll [] l a);
  fx_Stop_law l a : fx_Stop l a = joined fx_Combine (stopAll (reverse l) a);
  fx_Combine_law errs : fx_Combine errs = None ↔ errs = [] }.

(** ** [Run] *)

(** [life] is what happened to the process between its start and the signal,
    [exitCode] the code of the shutdown request. *)
Definition Run `{Fx} (now : Z) (version : string) (file : ConfigFile) (env : Env)
    (life : App → App) (exitCode : Z) : outcome (option App * goerror) :=
  match construct now version file with
  | Panic => Panic
  | Ret (Err e) => Ret (None, Some e)
  | Ret (Ok a) =>
      match fx_Start (hooks env) a with
      | Panic => Panic
      | Ret (a, Some e) => Ret (Some a, Some (Wrapf "starting daemon: %w" [] e))
      | Ret (a, None) =>
          match fx_Stop (hooks env) (life a) with
          | Panic => Panic
          | Ret (a, Some e) => Ret (Some a, Some (Wrapf "stopping daemon: %w" [] e))
          | Ret (a, None) =>
              Ret (Some a,
                   if decide (exitCode = 0) then None
                   else Some (Errorf "shutdown requested with non-zero exit code %d" [Itoa exitCode]))
          end
      end
  end.

(** ** The daemon as it runs

    A step is a check result of a scheduler that runs (or whose run outlived
    the registry's stop) or that the HTTP API triggers, a step of the reload
    loop, a SIGHUP or its handling, a reload over HTTP, an end of a
    goroutine, or the next stop hook.  The select of the SIGHUP goroutine
    takes any ready case, so it may take a waiting signal after its context
    ended. *)
Definition runs (a : App) (p : ptr) : Prop :=
  is_Some (reg_running (rl_reg (ap_rl a)) !! p) ∨ p ∈ ap_inflight a.

Definition setHup (p : Procs) (b : bool) : Procs :=
  mkProcs (pr_bgp p) (pr_watching p) (pr_serving p) (pr_loop p) (pr_ctx p) (pr_hupLoop p) b (pr_notify p).
Definition endHupLoop (p : Procs) : Procs :=
  mkProcs (pr_bgp p) (pr_watching p) (pr_serving p) (pr_loop p) (pr_ctx p) false (pr_hup p) (pr_notify p).
Definition endLoop (p : Procs) : Procs :=
  mkProcs (pr_bgp p) (pr_watching p) (pr_serving p) false (pr_ctx p) (pr_hupLoop p) (pr_hup p) (pr_notify p).

Local Abbreviation reload := (Reload.Reload zeroHash Sum256 newChecker).

Inductive d_step : App * list Hook * list error → App * list Hook * list error → Prop :=
| d_check now p res a todo errs :
    runs a p → d_step (a, todo, errs) (setRl a (schedResult now p res (ap_rl a)), todo, errs)
| d_checkEnds p a todo errs :
    p ∈ ap_inflight a → d_step (a, todo, errs) (setInflight a (ap_inflight a ∖ {[p]}), todo, errs)
| d_trigger now vip p res a todo errs :
    pr_serving (ap_procs a) = true → p ∈ visibleOf (rl_reg (ap_rl a)) vip →
    d_step (a, todo, errs) (setRl a (schedResult now p res (ap_rl a)), todo, errs)
| d_httpReload now loaded a r res todo errs :
    pr_serving (ap_procs a) = true → reload now loaded (ap_rl a) = Ret (r, res) →
    d_step (a, todo, errs) (setRl a r, todo, errs)
| d_wake now between a todo errs :
    pr_loop (ap_procs a) = true → rl_wake (ap_rl a) = true →
    d_step (a, todo, errs) (setRl a (commitReady now between (ap_rl a)), todo, errs)
| d_tick now between raw a todo errs :
    pr_loop (ap_procs a) = true →
    d_step (a, todo, errs) (setRl a (pollFile Sum256 raw (expireStaged now between (ap_rl a))), todo, errs)
| d_loopEnds a todo errs :
    pr_ctx (ap_procs a) = false → d_step (a, todo, errs) (setProcs a (endLoop (ap_procs a)), todo, errs)
| d_signal a todo errs :
    pr_notify (ap_procs a) = true → d_step (a, todo, errs) (setProcs a (setHup (ap_procs a) true), todo, errs)
| d_hupReload now loaded a r res todo errs :
    pr_hupLoop (ap_procs a) = true → pr_hup (ap_procs a) = true → reload now loaded (ap_rl a) = Ret (r, res) →
    d_step (a, todo, errs) (setProcs (setRl a r) (setHup (ap_procs a) false), todo, errs)
| d_hupEnds a todo errs :
    pr_ctx (ap_procs a) = false → d_step (a, todo, errs) (setProcs a (endHupLoop (ap_procs a)), todo, errs)
| d_stop hk a a' err todo errs :
    hk_OnStop hk a = Ret (a', err) →
    d_step (a, hk :: todo, errs) (a', todo, match err with Some e => errs ++ [e] | None => errs end).

End Wiring.
End Wiring.
