(* ===== verification/RunCommand.v ===== *)
(** * run, validate and jq-test: cmd/pathosd

    [run] (run.go) loads the config, applies the flags and runs the daemon of
    Wiring; [validate] (validate.go) only loads; [jq-test] (jqtest.go) runs a
    jq program over one JSON document.  The theorems are about [--debug]: the
    level it sets survives every reload of the running daemon. *)

From S2P Require Import Prelude GoStrings NetIP Config Model Metrics ChecksPolicy Engine Logging Scheduler.
From S2P Require Import Defaults Validate Registry Diff Loader PolicyManager BGPManager Reload ReloadStaging ReloadFrame.
From S2P Require Import Checkers Backends SQLBackend HTTPAPI Watcher Telemetry Platform Wiring.

Module RunCommand.
Import Logging BGPManager Reload ReloadStaging ReloadFrame Platform Wiring.

(** ** run.go *)

Record RunCmd := mkRunCmd { rc_Config : string; rc_Debug : bool }.

(** [applyRunOverrides]. *)
Definition withLevel (l : LoggingConfig) (level : string) : LoggingConfig :=
  mkLoggingConfig level (Logging_Format l) (Logging_OTelLevel l) (Logging_Timestamps l).
Definition applyRunOverrides (cfg : Config) (debug : bool) : Config :=
  if debug then
    mkConfig (Cfg_Schema cfg) (Cfg_Router cfg) (Cfg_API cfg) (withLevel (Cfg_Logging cfg) "debug") (Cfg_OTel cfg)
      (Cfg_Paths cfg) (Cfg_BGP cfg) (Cfg_VIPs cfg)
  else cfg.

(** What a command returns; [prefix] is the text before the loader's error. *)
Inductive cmdError := LoadingFailed (prefix : string) (e : loadError) | RunFailed (e : error).

Section Run.
Context `{ExprLang} `{GoStd} `{CheckStd} `{SQLStd} `{Decoders} {Srv UUID : Type} `{GoBGP Srv UUID}.
Context {Hash : Type} `{EqDecision Hash} (zeroHash : Hash) (Sum256 : string → Hash).
Context {T : Type} `{Logging.Sinks T} `{Telemetry.OTelSDK} `{Systemd}.
Context (stat : string → bool) (errText : error → string) (formatTime : Z → string).
Context (newBgpServer : option string → Srv) (otelBridge : T) (registerCollector : nat → RegisterResult).
Context (LookupEnv : string → option string).
Context `{!Fx (S := Srv) (UUID := UUID) (Hash := Hash) (T := T)}.

(** [RunCmd.Run]; [readFile] is what reading the file returns. *)
Definition RunCmd_Run (cmd : RunCmd) (readFile : result error string) (now : Z) (version : string) (env : Env)
    life (exitCode : Z) : outcome (option cmdError) :=
  match LoadRaw LookupEnv readFile (rc_Config cmd) with
  | (Err e, _) => Ret (Some (LoadingFailed "loading config" e))
  | (Ok cfg, raw) =>
      match Wiring.Run Sum256 stat errText formatTime newBgpServer otelBridge registerCollector
              (applyRunOverrides cfg (rc_Debug cmd)) now version
              (mkConfigFile (rc_Config cmd) (default EmptyString raw) (rc_Debug cmd)) env life exitCode with
      | Panic => Panic
      | Ret (_, Some e) => Ret (Some (RunFailed (Wrapf "running daemon: %w" [] e)))
      | Ret (_, None) => Ret None
      end
  end.

(** ** validate.go *)

(** [ValidateCmd.Run]: what it prints, and its error. *)
Definition ValidateCmd_Run (path : string) (readFile : result error string) : list string * option cmdError :=
  match Load LookupEnv readFile path with
  | Err e => ([], Some (LoadingFailed "validation failed" e))
  | Ok _ => (["configuration is valid"], None)
  end.

End Run.

(** ** jqtest.go *)

(** What a jq program yields one by one: a value, as it is printed with
    indentation, or an error. *)
Inductive jqItem := JQOut (text : string) | JQFail (e : error).

Record JQTestCmd := mkJQTestCmd { jq_Expression : string; jq_File : string }.

(** The loop over the results. *)
Fixpoint jqLoop (items : list jqItem) : list string * goerror :=
  match items with
  | [] => ([], None)
  | JQFail e :: _ => ([], Some (Wrapf "JQ error: %w" [] e))
  | JQOut out :: items' => let '(printed, err) := jqLoop items' in (out :: printed, err)
  end.

(** [JQTestCmd.Run]: [parse] and [run] are gojq, [open] and [close] the file
    system, [decode] reads one JSON document.  The deferred close assigns the
    variable of the inner block, which is not the result. *)
Definition JQTestCmd_Run (parse : string → goerror) (open : string → result error string) (close : goerror)
    (stdin : string) (decode : string → result error string) (run : string → string → list jqItem)
    (cmd : JQTestCmd) : list string * goerror :=
  match parse (jq_Expression cmd) with
  | Some e => ([], Some (Wrapf "invalid JQ expression: %w" [] e))
  | None =>
      let '(input, innerErr) :=
        if decide (jq_File cmd = EmptyString) then (Ok stdin, None)
        else match open (jq_File cmd) with
             | Err e => (Err e, Some e)
             | Ok s => (Ok s, match close with
                              | Some e => Some (Wrapf "closing %s: %w" [jq_File cmd] e)
                              | None => None
                              end)
             end in
      match input with
      | Err e => ([], Some e)
      | Ok text =>
          match decode text with
          | Err e => ([], Some (Wrapf "invalid JSON input: %w" [] e))
          | Ok data => jqLoop (run (jq_Expression cmd) data)
          end
      end
  end.

(** ** The log level under reloads *)

Section Levels.
Context {P : Type} `{Policy P} {Hash : Type} `{EqDecision Hash} (zeroHash : Hash) (Sum256 : string → Hash).
Context `{GoStd} (newChecker : CheckConfig → result error string).
Implicit Types (r : Reloader (P := P) (Hash := Hash)).

Definition levels r : bool * Z * Z := (rl_lockLogLevel r, rl_logLevel r, rl_bgpLogLevel r).

Lemma levels_frame l : frame (λ r, levels r = l).
Proof. by constructor. Qed.

(** A reload of a locked level changes neither level. *)
Lemma Reload_levels now loaded r r' res :
  rl_lockLogLevel r = true → Reload.Reload zeroHash Sum256 newChecker now loaded r = Ret (r', res) → levels r' = levels r.
Proof.
  intros Hlock E.
  destruct (Reload_frame zeroHash Sum256 newChecker _ (levels_frame (levels r)) _ _ _ _ _ E eq_refl)
    as [[_ Hl]|(r1 & level & c & h & ch & Hl & ->)]; [done|].
  cbn. unfold applyLogLevel. assert (rl_lockLogLevel r1 = true) as -> by (by injection Hl as -> _ _). done.
Qed.

End Levels.

(** ** The daemon under [--debug] *)

Section Debug.
Context `{ExprLang} `{GoStd} `{CheckStd} `{SQLStd} {Srv UUID : Type} `{GoBGP Srv UUID}.
Context {Hash : Type} `{EqDecision Hash} (zeroHash : Hash) (Sum256 : string → Hash).
Context {T : Type} `{Logging.Sinks T} `{Telemetry.OTelSDK} `{Systemd}.
Context (stat : string → bool) (errText : error → string) (formatTime : Z → string).
Context (newBgpServer : option string → Srv) (otelBridge : T) (registerCollector : nat → RegisterResult).
Context (cfg : Config) (env : Env).
Local Abbreviation App := (Wiring.App (S := Srv) (UUID := UUID) (Hash := Hash) (T := T)).
Local Abbreviation Hook := (Wiring.Hook (S := Srv) (UUID := UUID) (Hash := Hash) (T := T)).
Local Abbreviation hooks := (Wiring.hooks (Hash := Hash) (T := T) errText formatTime cfg env).
Implicit Types (a : App) (hk : Hook).

Definition keepsLevels (f : App → outcome (App * goerror)) : Prop :=
  ∀ a a' err, f a = Ret (a', err) → levels (ap_rl a') = levels (ap_rl a).
Definition hookKeeps hk : Prop := keepsLevels (hk_OnStart hk) ∧ keepsLevels (hk_OnStop hk).

Lemma hooks_keep : Forall hookKeeps hooks.
Proof.
  repeat constructor; intros a a' err; cbn; unfold nothing;
    try (intros ?; repeat (case_match; simplify_eq); simplify_eq; done).
  - intros [= <- <-]. change (levels (attachAll (ap_rl a)) = levels (ap_rl a)). by apply (foldl_keeps levels).
  - unfold updateStatus. by repeat (case_match; simplify_eq); intros [= <- <-].
Qed.

Lemma stopAll_levels l a a' errs : Forall hookKeeps l → stopAll l a = Ret (a', errs) → levels (ap_rl a') = levels (ap_rl a).
Proof.
  intros Hl. revert a errs. induction Hl as [|hk l [_ Hk] Hl IH]; intros a errs; cbn [stopAll]; [by intros [= <- <-]|].
  destruct (hk_OnStop hk a) as [[a1 err]|] eqn:E1; [|done]. destruct (stopAll l a1) as [[a2 errs2]|] eqn:E2; [|done].
  intros [= <- <-]. by rewrite (IH _ _ E2), (Hk _ _ _ E1).
Qed.

Lemma startAll_levels started l a a' errs :
  Forall hookKeeps started → Forall hookKeeps l → startAll started l a = Ret (a', errs) →
  levels (ap_rl a') = levels (ap_rl a).
Proof.
  intros Hs Hl. revert started Hs a errs. induction Hl as [|hk l Hhk Hl IH]; intros started Hs a errs; cbn [startAll].
  { by intros [= <- <-]. }
  pose proof (proj1 Hhk) as Hk. destruct (hk_OnStart hk a) as [[a1 [e|]]|] eqn:E1; [| |done].
  - destruct (stopAll started a1) as [[a2 errs2]|] eqn:E2; [|done]. intros [= <- <-].
    by rewrite (stopAll_levels _ _ _ _ Hs E2), (Hk _ _ _ E1).
  - intros Hr. rewrite (IH (hk :: started) ltac:(by constructor) _ _ Hr). by apply (Hk _ _ _ E1).
Qed.

Lemma d_step_levels st st' :
  d_step zeroHash Sum256 stat cfg st st' → Forall hookKeeps st.1.2 → rl_lockLogLevel (ap_rl st.1.1) = true →
  Forall hookKeeps st'.1.2 ∧ levels (ap_rl st'.1.1) = levels (ap_rl st.1.1).
Proof.
  intros Hst Hk Hlock. destruct Hst; cbn [fst snd] in *; try (split; [done|]); try done.
  - by apply (schedResult_frame _ (levels_frame _)).
  - by apply (schedResult_frame _ (levels_frame _)).
  - by eapply (Reload_levels zeroHash Sum256 newChecker); [|eassumption].
  - by apply (commitReady_frame _ (levels_frame _)).
  - pose proof (levels_frame (H := daemon_policy stat cfg) (Hash := Hash) (levels (ap_rl a))) as HF. by apply (pollFile_frame Sum256 _ HF), (expireStaged_frame _ HF).
  - by eapply (Reload_levels zeroHash Sum256 newChecker); [|eassumption].
  - apply Forall_cons in Hk as [[_ Hk] Htodo]. split; [done|]. by eapply Hk.
Qed.

Lemma d_steps_levels st st' :
  rtc (d_step zeroHash Sum256 stat cfg) st st' → Forall hookKeeps st.1.2 → rl_lockLogLevel (ap_rl st.1.1) = true →
  levels (ap_rl st'.1.1) = levels (ap_rl st.1.1).
Proof.
  induction 1 as [|st1 st2 st3 Hst _ IH]; intros Hk Hlock; [done|].
  destruct (d_step_levels _ _ Hst Hk Hlock) as [Hk2 Hl2].
  rewrite IH; [done|done|]. injection Hl2 as -> _ _. done.
Qed.

End Debug.

Section DebugRun.
Context `{ExprLang} `{GoStd} `{CheckStd} `{SQLStd} {Srv UUID : Type} `{GoBGP Srv UUID}.
Context {Hash : Type} `{EqDecision Hash} (zeroHash : Hash) (Sum256 : string → Hash).
Context {T : Type} `{Logging.Sinks T} `{Telemetry.OTelSDK} `{Systemd}.
Context (stat : string → bool) (errText : error → string) (formatTime : Z → string).
Context (newBgpServer : option string → Srv) (otelBridge : T) (registerCollector : nat → RegisterResult).
Context `{!Fx (S := Srv) (UUID := UUID) (Hash := Hash) (T := T)} `{!FxLaws}.

(** C38: [run --debug] logs at debug for as long as the daemon lives:
    whatever reloads, signals and stop hooks run after it started, and
    whatever level the file sets, the console and GoBGP stay at debug. *)
Theorem debug_level_sticks file env now version path raw a0 a a' todo errs :
  let cfg := applyRunOverrides file true in
  construct Sum256 stat newBgpServer otelBridge registerCollector cfg now version (mkConfigFile path raw true)
    = Ret (Ok a0) →
  fx_Start (hooks errText formatTime cfg env) a0 = Ret (a, None) →
  rtc (d_step zeroHash Sum256 stat cfg) (a, reverse (hooks errText formatTime cfg env), []) (a', todo, errs) →
  rl_logLevel (ap_rl a') = LevelDebug ∧ rl_bgpLogLevel (ap_rl a') = LevelDebug.
Proof.
  intros cfg Hc Hs Hrun. assert (Forall hookKeeps (hooks (S := Srv) (UUID := UUID) (Hash := Hash) (T := T) errText formatTime cfg env)) as Hk
    by apply hooks_keep.
  assert (levels (ap_rl a0) = (true, LevelDebug, LevelDebug)) as Ha0.
  { revert Hc. unfold construct. destruct (provideTelemetry _ _) as [[ev [tel|e]]|]; [|done..].
    destruct (provideLogger _ _ _) as [lv log]. destruct (provideBGPManager _ _ _) as [bgp|e]; [|done].
    destruct (provideSchedulers cfg) as [[[h next] reg]|e]; [|done]. by intros [= <-]. }
  rewrite fx_Start_law in Hs. unfold joined in Hs. destruct (startAll [] _ a0) as [[a1 errs1]|] eqn:E; [|done].
  injection Hs as -> _. apply startAll_levels in E; [|constructor|done].
  assert (levels (ap_rl a') = (true, LevelDebug, LevelDebug)) as Hl.
  { rewrite Ha0 in E. rewrite <-E. apply (d_steps_levels zeroHash Sum256 stat cfg _ _ Hrun); cbn [fst snd].
    - by rewrite Forall_reverse.
    - by injection E. }
  by injection Hl.
Qed.

End DebugRun.
End RunCommand.
