(* ===== verification/WiringProofs.v ===== *)
(** * Start-up and shutdown of the daemon: theorems

    What a daemon that started looks like, what a failed start leaves behind,
    and what can still happen after the stop hooks ran. *)

From S2P Require Import Prelude GoStrings NetIP Config Model Metrics ChecksPolicy Engine Logging Scheduler.
From S2P Require Import Defaults Validate ValidateProofs Registry PolicyManager PolicyProofs BGPManager Reload.
From S2P Require Import ReloadProofs ReloadStaging Checkers Backends SQLBackend HTTPAPI Watcher Telemetry Platform Wiring.

Module WiringProofs.
Import BGPManager Reload ReloadProofs ReloadStaging Platform Wiring.

Section WiringProofs.
Context `{ExprLang} `{GoStd} `{CheckStd} `{SQLStd} {Srv UUID : Type} `{GoBGP Srv UUID}.
Context {Hash : Type} `{EqDecision Hash} (zeroHash : Hash) (Sum256 : string → Hash).
Context {T : Type} `{Logging.Sinks T} `{Telemetry.OTelSDK} `{Systemd}.
Context (stat : string → bool) (errText : error → string) (formatTime : Z → string).
Context (cfg : Config) (env : Env).

Local Abbreviation App := (Wiring.App (S := Srv) (UUID := UUID) (Hash := Hash) (T := T)).
Local Abbreviation hooks := (Wiring.hooks (Hash := Hash) (T := T) errText formatTime cfg env).
Local Abbreviation step := (d_step zeroHash Sum256 (T := T) stat cfg).
Implicit Types (a : App) (todo : list (Hook (S := Srv) (UUID := UUID) (Hash := Hash) (T := T))).

(** ** Shutdown *)

(** The stop hooks that are left after [k] of them. *)
Definition remaining (k : nat) := drop k (reverse hooks).

(** What the stop hooks that ran without an error have ended; no run outlives
    the registry before it is stopped. *)
Definition ended (k : nat) a : Prop :=
  ((2 ≤ k)%nat → pr_loop (ap_procs a) = false) ∧ ((3 ≤ k)%nat → pr_serving (ap_procs a) = false) ∧
  ((k ≤ 3)%nat → ap_inflight a = ∅).

Definition phase_ok (st : App * list Hook * list error) : Prop :=
  ∃ k, (k ≤ 8)%nat ∧ st.1.2 = remaining k ∧ (st.2 = [] → ended k st.1.1).

Lemma remaining_inj j k : (j ≤ 8)%nat → (k ≤ 8)%nat → remaining j = remaining k → j = k.
Proof. intros Hj Hk Heq%(f_equal length). unfold remaining in Heq. rewrite !length_drop in Heq. cbn in Heq. lia. Qed.

Lemma remaining_stop k hk todo a a' err :
  hk :: todo = remaining k → hk_OnStop hk a = Ret (a', err) →
  (S k ≤ 8)%nat ∧ todo = remaining (S k) ∧ (err = None → ended k a → ended (S k) a').
Proof.
  unfold remaining, ended. intros Heq Hs.
  do 8 (destruct k as [|k]; [injection Heq as -> ->; cbn in Hs; unfold nothing in Hs;
    split; [lia|]; split; [done|]; intros -> (Hl2 & Hl3 & Hi);
    repeat (case_match; simplify_eq); simplify_eq; cbn in *;
    split_and!; intros ?; first [lia|done|apply Hl2; lia|apply Hl3; lia|apply Hi; lia]|]).
  exfalso. cbn in Heq. by rewrite drop_nil in Heq.
Qed.

Lemma ended_inflight k a p : ended k a → ended k (setInflight a (ap_inflight a ∖ {[p]})).
Proof. intros (Hl2 & Hl3 & Hi). split_and!; cbn; auto. intros ?. rewrite Hi by done. set_solver. Qed.

Lemma phase_step st st' : step st st' → phase_ok st → phase_ok st'.
Proof.
  intros Hst (k & Hk & Htodo & Hend). destruct Hst; cbn [fst snd] in *;
    try (exists k; split; [done|]; split; [done|]; intros He;
         first [by apply ended_inflight, Hend|destruct (Hend He) as (Hl2 & Hl3 & Hi); by split_and!; cbn; auto]; fail).
  edestruct (remaining_stop k) as (Hk' & Ht & He); [exact Htodo|done|].
  exists (S k). split; [done|]. split; [done|]. cbn. destruct err; [by intros [_ ?]%app_nil|].
  intros ->. auto.
Qed.

Lemma phase_steps st st' : rtc step st st' → phase_ok st → phase_ok st'.
Proof. induction 1; eauto using phase_step. Qed.

(** Nothing runs that could call the policy manager. *)
Definition quiet a : Prop :=
  pr_loop (ap_procs a) = false ∧ pr_serving (ap_procs a) = false ∧ pr_hupLoop (ap_procs a) = false ∧
  reg_running (rl_reg (ap_rl a)) = ∅ ∧ ap_inflight a = ∅.

(** The reloader's state after the stop of the BGP server. *)
Definition withBGPStopped (r : Reloader (P := PolicyManager.Manager) (Hash := Hash)) :=
  setPol r (setNotifier (rl_pol r) (bgpStop (S := Srv) (UUID := UUID) <$> mg_notifier (rl_pol r))).

(** The state [k] stop hooks after the registry stopped in state [r]. *)
Definition stoppedIn (r : Reloader) (k : nat) := if decide (k ≤ 5)%nat then r else withBGPStopped r.

Definition quietFrom (r : Reloader) (st : App * list Hook * list error) : Prop :=
  ∃ k, (4 ≤ k ≤ 8)%nat ∧ st.1.2 = remaining k ∧ quiet st.1.1 ∧ ap_rl st.1.1 = stoppedIn r k.

Lemma quiet_stop r k hk todo a a' err :
  (4 ≤ k)%nat → hk :: todo = remaining k → hk_OnStop hk a = Ret (a', err) → quiet a → ap_rl a = stoppedIn r k →
  quiet a' ∧ ap_rl a' = stoppedIn r (S k).
Proof.
  unfold remaining, quiet, stoppedIn. intros Hk Heq Hs (Hl & Hsv & Hh & Hr & Hi) Hrl.
  destruct k as [|[|[|[|k]]]]; try lia. clear Hk.
  destruct k as [|k]; [injection Heq as -> ->; cbn in Hs; simplify_eq; by split_and!|].
  destruct k as [|k].
  { injection Heq as -> ->. cbn in Hs. rewrite decide_True in Hrl by lia.
    unfold bgpOf in Hs. destruct (mg_notifier (rl_pol (ap_rl a))) as [b|] eqn:Eb; simplify_eq.
    split; [by split_and!|]. rewrite decide_False by lia. cbn. unfold withBGPStopped. by rewrite Eb. }
  rewrite !decide_False in * by lia.
  destruct k as [|k]; [injection Heq as -> ->; cbn in Hs; unfold nothing in Hs; simplify_eq; by split_and!|].
  destruct k as [|k]; [injection Heq as -> ->; cbn in Hs; simplify_eq; by split_and!|].
  exfalso. cbn in Heq. by rewrite drop_nil in Heq.
Qed.

Lemma quiet_step r st st' : step st st' → quietFrom r st → quietFrom r st'.
Proof.
  intros Hst (k & Hk & Htodo & Hq & Hrl). pose proof Hq as (Hl & Hsv & Hh & Hr & Hi).
  destruct Hst; cbn [fst snd] in *; try (exfalso; congruence).
  - exfalso. match goal with Hrun : runs _ _ |- _ => destruct Hrun as [[? HR]|HR] end.
    + by rewrite Hr, lookup_empty in HR.
    + rewrite Hi in HR. set_solver.
  - exfalso. set_solver.
  - by exists k.
  - by exists k.
  - by exists k.
  - edestruct (remaining_stop k) as (Hk' & Ht & _); [exact Htodo|done|].
    edestruct quiet_stop as [Hq' Hrl']; [|exact Htodo|done..|]; [lia|].
    exists (S k). split_and!; try lia; done.
Qed.

Lemma quiet_steps r st st' : rtc step st st' → quietFrom r st → quietFrom r st'.
Proof. induction 1; eauto using quiet_step. Qed.

(** Stopping the registry without an error leaves nothing running. *)
Lemma registry_stops_all reg :
  (Registry.Stop (env_exited env) reg).2 = None →
  filter (λ e : ptr * runningScheduler, run_id e.2 ∉ env_exited env) (reg_running reg) = ∅.
Proof.
  unfold Registry.Stop. cbn. case_decide as Hsub; [|done]. intros _. apply map_empty. intros p.
  apply map_lookup_filter_None. right. intros run Hrun Hn. cbn in Hn. apply Hn, Hsub.
  apply elem_of_map_to_set. eauto.
Qed.

(** ** Properties of the shutdown *)

(** C9: Once the registry is stopped nothing reaches BGP but its own stop:
    if the stop hooks up to the registry's reported no error and the
    goroutine that waits for SIGHUP had ended, then in every later state, in
    whatever order the remaining goroutines and hooks run, the policy manager,
    the schedulers and the reloader are what they were, except that the BGP
    server is stopped once the hook for it ran. *)
Theorem shutdown_quiet a0 a1 a2 a3 todo errs :
  ap_inflight a0 = ∅ →
  rtc step (a0, remaining 0, []) (a1, remaining 3, []) → pr_hupLoop (ap_procs a1) = false →
  step (a1, remaining 3, []) (a2, remaining 4, []) → rtc step (a2, remaining 4, []) (a3, todo, errs) →
  ∃ k, (4 ≤ k ≤ 8)%nat ∧ todo = remaining k ∧ ap_rl a3 = stoppedIn (ap_rl a2) k.
Proof.
  intros Hi0 H01 Hh H12 H23.
  assert (phase_ok (a1, remaining 3, [])) as (k & Hk & Hrem & Hend).
  { eapply phase_steps; [done|]. exists 0%nat. split; [lia|]. split; [done|]. intros _.
    by split_and!; intros; try lia. }
  cbn [fst snd] in *. apply remaining_inj in Hrem as <-; [|lia..]. destruct (Hend eq_refl) as (Hl & Hsv & Hi).
  assert (quietFrom (ap_rl a2) (a2, remaining 4, [])) as Hq.
  { inversion H12; subst; try (exfalso; match goal with He : remaining 3 = remaining 4 |- _ =>
      apply remaining_inj in He; lia end).
    destruct err as [e|]; [done|]. exists 4%nat. split; [lia|]. split; [done|].
    match goal with Hs : hk_OnStop _ _ = Ret _ |- _ => cbn in Hs; injection Hs as <- Herr end.
    cbn [fst snd]. split; [|done].
    split_and!; cbn; [by apply Hl; lia|by apply Hsv; lia|done|done|].
    rewrite Hi by lia. rewrite registry_stops_all; [set_solver|exact Herr]. }
  destruct (quiet_steps _ _ _ H23 Hq) as (k & Hk4 & Ht & _ & Hrl). by exists k.
Qed.

End WiringProofs.
End WiringProofs.
