(* ===== verification/Startup.v ===== *)
(** * How the daemon starts: theorems on the constructors and start hooks

    The registry that [provideSchedulers] builds, the state of a daemon whose
    hooks all started, and what a hook that failed leaves behind. *)

From S2P Require Import Prelude GoStrings NetIP Config Model Metrics ChecksPolicy Engine Logging Scheduler.
From S2P Require Import Defaults Validate ValidateProofs Registry PolicyManager PolicyProofs BGPManager Reload.
From S2P Require Import ReloadProofs ReloadStaging Checkers Backends SQLBackend BackendsProofs HTTPAPI.
From S2P Require Import Loaded Telemetry Platform Wiring.

Module Startup.
Import BGPManager Reload ReloadProofs ReloadStaging Platform Wiring.

(** ** The registry *)

Section Schedulers.
Context `{GoStd} `{CheckStd} `{SQLStd}.
Implicit Types (h : gmap ptr Sched) (reg : Registry).

(** Adding the schedulers of a VIP to a registry that has not started. *)
Lemma foldl_Add name h scheds reg :
  reg_started reg = false → (∀ s, s ∈ scheds → vipOf h s = name) → scheds ≠ [] →
  foldl (λ reg s, Registry.Add (vipOf h) s reg) reg scheds =
    setVisible (<[name := visibleOf reg name ++ scheds]> (reg_visible reg)) reg.
Proof.
  revert reg. induction scheds as [|s scheds IH]; intros reg Hst Hv Hne; [done|]. cbn [foldl].
  assert (vipOf h s = name) as Hs by (apply Hv; by left).
  assert (Registry.Add (vipOf h) s reg = setVisible (<[name := visibleOf reg name ++ [s]]> (reg_visible reg)) reg) as ->.
  { unfold Registry.Add. rewrite Hs. cbn [setVisible reg_started]. by rewrite Hst. }
  destruct scheds as [|s' scheds]; [done|].
  rewrite IH; [|done|intros x Hx; apply Hv; by right|done]. unfold visibleOf. cbn.
  rewrite lookup_insert_eq, insert_insert_eq. cbn. by rewrite <-app_assoc.
Qed.

(** The schedulers of a VIP, as its config describes them; [f] is what was
    done to them since. *)
Definition schedulersFor (f : Sched → Sched) h (v : VIPConfig) (l : list ptr) : Prop :=
  Forall2 (λ s c, ∃ typ, newChecker c = Ok typ ∧ h !! s = Some (f (newSchedulerFor v c typ))) l (CheckList v).

Record built (vips : list VIPConfig) h (next : ptr) reg : Prop := {
  bu_listed : ∀ v, v ∈ vips → ∃ l, reg_visible reg !! VIP_Name v = Some l ∧ schedulersFor id h v l ∧
    ∀ s, s ∈ l → (s < next)%nat;
  bu_only : ∀ name, is_Some (reg_visible reg !! name) → name ∈ VIP_Name <$> vips;
  bu_idle : reg_started reg = false ∧ reg_running reg = ∅ ∧ reg_live reg = ∅ }.

Lemma schedulersFor_vipOf f h v l s :
  (∀ x, sc_vipName (f x) = sc_vipName x) → schedulersFor f h v l → s ∈ l → vipOf h s = VIP_Name v.
Proof.
  intros Hf Hl Hs. apply list_elem_of_lookup in Hs as [i Hi].
  destruct (Forall2_lookup_l _ _ _ _ _ Hl Hi) as (c & _ & typ & _ & Hh). unfold vipOf. rewrite Hh, Hf. done.
Qed.

Lemma schedulersFor_checks f h v l :
  (∀ x, sc_checkName (f x) = sc_checkName x) → (∀ c, c ∈ CheckList v → EffectiveName c ≠ EmptyString) →
  schedulersFor f h v l → checkOf h <$> l = checkNames v.
Proof.
  intros Hf Hn Hl. unfold schedulersFor, checkNames in *. revert Hn.
  induction Hl as [|s c l cs (typ & _ & Hh) _ IH]; intros Hn; [done|]. cbn. f_equal.
  - unfold checkOf. rewrite Hh, Hf. cbn. rewrite decide_False; [done|]. apply Hn. by left.
  - apply IH. intros c' Hc'. apply Hn. by right.
Qed.

Lemma CheckList_nonempty v : CheckList v ≠ [].
Proof. unfold CheckList. by destruct (elems (VIP_Checks v)). Qed.

Lemma provideSchedulersLoop_built vips done_ h next reg h' next' reg' :
  NoDup (VIP_Name <$> done_ ++ vips) → built done_ h next reg →
  provideSchedulersLoop vips h next reg = Ok (h', next', reg') → built (done_ ++ vips) h' next' reg'.
Proof.
  revert done_ h next reg. induction vips as [|v vips IH]; intros done_ h next reg Hnd Hb; cbn.
  { intros [= <- <- <-]. by rewrite app_nil_r. }
  destruct (newGuard v); [done|].
  destruct (newSchedulersLoop newChecker v (CheckList v) h next []) as [[h1 n1] [scheds|e]] eqn:E; [|done].
  apply newSchedulersLoop_builds in E as (-> & -> & Hlow & Hnew). cbn [app].
  intros Hloop. rewrite (cons_middle v done_ vips), app_assoc in Hnd |- *. eapply IH; [done| |exact Hloop].
  destruct Hb as [Hlisted Honly (Hst & Hrun & Hlive)].
  assert (schedulersFor id h1 v (seq next (length (CheckList v)))) as Hfor.
  { apply Forall2_same_length_lookup. split; [by rewrite length_seq|].
    intros i s c Hs Hc. apply lookup_seq in Hs as [-> _]. by apply Hnew. }
  assert (VIP_Name v ∉ VIP_Name <$> done_) as Hfresh.
  { rewrite !fmap_app, <-app_assoc, NoDup_app in Hnd. destruct Hnd as (_ & Hd & _). intros Hin.
    apply (Hd _ Hin). apply elem_of_app. left. by left. }
  assert (visibleOf reg (VIP_Name v) = []) as Hempty.
  { unfold visibleOf. destruct (reg_visible reg !! VIP_Name v) eqn:E; [|done].
    destruct Hfresh. apply Honly. by eexists. }
  rewrite (foldl_Add (VIP_Name v)), Hempty; [|done| |].
  2: { intros s Hs. by eapply (schedulersFor_vipOf id). }
  2: { destruct (CheckList v) eqn:Ec; [by destruct (CheckList_nonempty v)|done]. }
  constructor.
  - intros w [Hw|Hw%list_elem_of_singleton]%elem_of_app; cbn [setVisible reg_visible].
    + destruct (Hlisted w Hw) as (l & Hl & Hf & Hlt). exists l. rewrite lookup_insert_ne.
      2: { intros Heq. apply Hfresh. rewrite Heq. by apply list_elem_of_fmap_2. }
      split; [done|]. split; [|intros s Hs; specialize (Hlt s Hs); lia].
      apply Forall2_same_length_lookup in Hf as [Hlen Hf]. apply Forall2_same_length_lookup.
      split; [done|]. intros i s c Hs Hc. destruct (Hf i s c Hs Hc) as (typ & Ht & Hh).
      exists typ. split; [done|]. rewrite Hlow; [done|]. apply Hlt. by eapply list_elem_of_lookup_2.
    + subst w. rewrite lookup_insert_eq. eexists. split; [done|]. split; [done|].
      intros s Hs%elem_of_seq. lia.
  - intros name. cbn. rewrite fmap_app, elem_of_app.
    intros [l [[<- _]|[_ Hl]]%lookup_insert_Some]; [right; by left|left; apply Honly; by eexists].
  - by split_and!.
Qed.

(** Which configs have all their schedulers built. *)
Lemma newSchedulersLoop_Ok v l h next out :
  (∃ h' next' scheds, newSchedulersLoop newChecker v l h next out = (h', next', Ok scheds)) ↔
  ∀ c, c ∈ l → ∃ typ, newChecker c = Ok typ.
Proof.
  revert h next out. induction l as [|c l IH]; intros h next out; cbn [newSchedulersLoop].
  { split; [by intros _ c ?%not_elem_of_nil|eauto]. }
  setoid_rewrite elem_of_cons. destruct (newChecker c) as [typ|e] eqn:E.
  - rewrite IH. split; [|by auto]. intros Hl c' [->|Hc']; eauto.
  - split; [by intros (? & ? & ? & ?)|]. intros Hl. destruct (Hl c) as [typ ?]; [by left|congruence].
Qed.

Lemma provideSchedulersLoop_Ok vips h next reg :
  (∃ res, provideSchedulersLoop vips h next reg = Ok res) ↔
  ∀ v, v ∈ vips → newGuard v = None ∧ ∀ c, c ∈ CheckList v → ∃ typ, newChecker c = Ok typ.
Proof.
  revert h next reg. induction vips as [|v vips IH]; intros h next reg; cbn [provideSchedulersLoop].
  { split; [by intros _ v ?%not_elem_of_nil|eauto]. }
  setoid_rewrite elem_of_cons. pose proof (newSchedulersLoop_Ok v (CheckList v) h next []) as Hv.
  destruct (newGuard v) as [e|] eqn:Eg; [split; [by intros []|]; intros Hl; by destruct (Hl v) as [? _]; [left|]; congruence|].
  destruct (newSchedulersLoop newChecker v (CheckList v) h next []) as [[h1 n1] [scheds|e]].
  - rewrite IH. split; [|by auto]. intros Hl w [->|Hw]; [|by apply Hl]. split; [done|]. apply Hv. eauto.
  - split; [by intros []|]. intros Hl. destruct (Hl v) as [_ Hc]; [by left|].
    apply Hv in Hc as (? & ? & ? & ?). done.
Qed.

End Schedulers.

(** ** The start hooks *)

Section Start.
Context `{ExprLang} `{GoStd} `{CheckStd} `{SQLStd} {Srv UUID : Type} `{GoBGP Srv UUID}.
Context {Hash : Type} `{EqDecision Hash} (zeroHash : Hash) (Sum256 : string → Hash).
Context {T : Type} `{Logging.Sinks T} `{Telemetry.OTelSDK} `{Systemd}.
Context (stat : string → bool) (errText : error → string) (formatTime : Z → string).
Context (newBgpServer : option string → Srv) (otelBridge : T) (registerCollector : nat → RegisterResult).
Context (cfg : Config) (env : Env).

#[local] Instance startup_policy : Policy (PolicyManager.Manager (B := BGPManager.Manager (S := Srv) (UUID := UUID))) :=
  daemon_policy stat cfg.
Local Abbreviation App := (Wiring.App (S := Srv) (UUID := UUID) (Hash := Hash) (T := T)).
Local Abbreviation hooks := (Wiring.hooks (Hash := Hash) (T := T) errText formatTime cfg env).
Local Abbreviation construct :=
  (Wiring.construct Sum256 stat newBgpServer otelBridge registerCollector cfg).
Local Abbreviation Rl := (Reloader (P := PolicyManager.Manager (B := BGPManager.Manager (S := Srv) (UUID := UUID)))
  (Hash := Hash)).
Implicit Types (a : App) (r : Rl).

Definition attached (s : Sched) : Sched := SetCallbacks (Some PolicyTransition) (Some PolicyResult) s.

Lemma attach_fold l r :
  ∃ h', foldl (λ r s, setCallbacks (Some PolicyTransition) (Some PolicyResult) s r) r l
          = setHeap r h' (rl_nextPtr r) ∧
        ∀ p, h' !! p = if decide (p ∈ l) then attached <$> rl_heap r !! p else rl_heap r !! p.
Proof.
  induction l as [|s l (h' & IH & Hh)] using rev_ind.
  { exists (rl_heap r). split; [by destruct r|]. done. }
  rewrite foldl_snoc, IH. eexists. split; [done|]. intros p. cbn. destruct (decide (p = s)) as [->|Hne].
  - rewrite lookup_alter_eq, Hh, (decide_True (P := s ∈ l ++ [s])) by (apply elem_of_app; right; by left).
    case_decide; [|done]. by destruct (rl_heap r !! s).
  - rewrite lookup_alter_ne, Hh by done. apply decide_ext. rewrite elem_of_app, list_elem_of_singleton. naive_solver.
Qed.

(** The pointers a registry lists. *)
Lemma listed_concat reg (s : ptr) :
  s ∈ concat (map_to_list (reg_visible reg)).*2 ↔ ∃ vip, s ∈ visibleOf reg vip.
Proof.
  rewrite list_elem_of_In, in_concat. split.
  - intros (l & Hl%list_elem_of_In & Hs%list_elem_of_In).
    apply list_elem_of_fmap in Hl as ([vip l'] & -> & Hin%elem_of_map_to_list). exists vip. unfold visibleOf.
    by rewrite Hin.
  - intros (vip & Hs). unfold visibleOf in Hs. destruct (reg_visible reg !! vip) as [l|] eqn:E; cbn in Hs.
    + exists l. rewrite <-!list_elem_of_In. split; [|done].
      apply list_elem_of_fmap. exists (vip, l). split; [done|]. by apply elem_of_map_to_list.
    + by apply not_elem_of_nil in Hs.
Qed.

(** The schedulers hook on a registry that was just built. *)
Record running (vips : list VIPConfig) r : Prop := {
  ru_reg : reg_ok (vipOf (rl_heap r)) (checkOf (rl_heap r)) (rl_reg r);
  ru_started : reg_started (rl_reg r) = true;
  ru_listed : ∀ v, v ∈ vips → schedulersFor attached (rl_heap r) v (visibleOf (rl_reg r) (VIP_Name v));
  ru_only : ∀ name s, s ∈ visibleOf (rl_reg r) name → name ∈ VIP_Name <$> vips }.

Lemma schedulers_start vips r :
  NoDup (VIP_Name <$> vips) → (∀ v, v ∈ vips → NoDup (checkNames v)) →
  (∀ v c, v ∈ vips → c ∈ CheckList v → EffectiveName c ≠ EmptyString) →
  built vips (rl_heap r) (rl_nextPtr r) (rl_reg r) →
  running vips (setReg (attachAll r) (Registry.Start (rl_reg (attachAll r)))).
Proof.
  intros Hnd Hchecks Hnames [Hlisted Honly (Hst & Hrun & Hlive)].
  unfold attachAll. destruct (attach_fold (concat (map_to_list (Schedulers (rl_reg r))).*2) r) as (h' & -> & Hh).
  cbn [setReg setHeap rl_reg rl_heap].
  assert (∀ v, v ∈ vips → schedulersFor attached h' v (visibleOf (rl_reg r) (VIP_Name v))) as Hfor.
  { intros v Hv. destruct (Hlisted v Hv) as (l & Hl & Hf & _). unfold visibleOf. rewrite Hl. cbn.
    apply Forall2_same_length_lookup in Hf as [Hlen Hf]. apply Forall2_same_length_lookup. split; [done|].
    intros i s c Hs Hc. destruct (Hf i s c Hs Hc) as (typ & Ht & Hx). exists typ. split; [done|].
    rewrite Hh, decide_True, Hx; [done|]. apply listed_concat. exists (VIP_Name v). unfold visibleOf. rewrite Hl.
    by eapply list_elem_of_lookup_2. }
  assert (∀ name l, reg_visible (rl_reg r) !! name = Some l →
    ∃ v, v ∈ vips ∧ VIP_Name v = name ∧ visibleOf (rl_reg r) name = l) as Hdom.
  { intros name l Hl. destruct (list_elem_of_fmap_1 VIP_Name vips name) as (v & -> & Hv); [apply Honly; by eexists|].
    exists v. unfold visibleOf. by rewrite Hl. }
  assert (reg_ok (vipOf h') (checkOf h') (rl_reg r)) as Hok.
  { split; [|split].
    - intros name l Hl. destruct (Hdom name l Hl) as (v & Hv & <- & Heq). pose proof (Hfor v Hv) as Hf. rewrite Heq in Hf.
      split; [|split].
      + intros ->. apply Forall2_nil_inv_l in Hf. by destruct (CheckList_nonempty v).
      + rewrite (schedulersFor_checks attached h' v l); [by apply Hchecks|done| |done]. intros c Hc. by apply (Hnames v c).
      + intros s Hs. by eapply (schedulersFor_vipOf attached).
    - split; [|split].
      + intros g. rewrite Hlive, Hrun. split; [set_solver|]. intros (s & run & Hs & _). by rewrite lookup_empty in Hs.
      + intros s1 s2 r1 r2 Hs. by rewrite Hrun, lookup_empty in Hs.
      + intros s run Hs. by rewrite Hrun, lookup_empty in Hs.
    - intros Hc. by rewrite Hst in Hc. }
  assert (reg_ok (vipOf h') (checkOf h') (Registry.Start (rl_reg r))) as Hok'.
  { apply Start_preserves; [done|]. intros vip s run _ Hs. by rewrite Hrun, lookup_empty in Hs. }
  destruct (Registry.startAll (concat (map_to_list (reg_visible (rl_reg r))).*2) (setStarted true (rl_reg r)))
    as (_ & Hvis & Hstd & _); [by apply Hok|].
  assert (∀ name, visibleOf (Registry.Start (rl_reg r)) name = visibleOf (rl_reg r) name) as Hv.
  { intros name. unfold visibleOf, Registry.Start. by rewrite Hvis. }
  constructor; cbn [setReg setHeap rl_reg rl_heap];
    [done|exact Hstd|by intros v Hin; rewrite Hv; apply Hfor|].
  intros name s Hs. rewrite Hv in Hs. apply Honly. unfold visibleOf in Hs.
  destruct (reg_visible (rl_reg r) !! name); [by eexists|]. by apply not_elem_of_nil in Hs.
Qed.

(** ** From the config to the started daemon *)

Local Abbreviation bgp0 := (bgpNewManager (S := Srv) (UUID := UUID) newBgpServer cfg).
Local Abbreviation policy0 now := (providePolicyManager stat cfg now bgp0).

Lemma construct_inv now version file a0 :
  construct now version file = Ret (Ok a0) →
  ∃ ev tel h next reg,
    Telemetry.Setup (Cfg_OTel cfg) version = Ret (ev, Ok tel) ∧ provideSchedulers cfg = Ok (h, next, reg) ∧
    ap_rl a0 = provideReloader Sum256 cfg now file (policy0 now) reg h next ∧ ap_tel a0 = tel ∧
    ap_server a0 = NewServer cfg ∧ ap_procs a0 = noProcs ∧ ap_inflight a0 = ∅ ∧ ap_messages a0 = [] ∧
    ap_telEvents a0 = ev.
Proof.
  unfold Wiring.construct, provideTelemetry.
  destruct (Telemetry.Setup _ _) as [[ev [tel|e]]|] eqn:Et; [|done..].
  destruct (provideLogger _ _ _) as [lv log].
  unfold provideBGPManager. destruct (RegisterMetrics _ _); [done|].
  destruct (provideSchedulers cfg) as [[[h next] reg]|e] eqn:Es; [|done]. intros [= <-].
  exists ev, tel, h, next, reg. by split_and!.
Qed.

Lemma provideReloader_fields now file pol reg h next :
  let r := provideReloader (S := Srv) (UUID := UUID) Sum256 cfg now file pol reg h next in
  rl_pol r = pol ∧ rl_reg r = reg ∧ rl_heap r = h ∧ rl_nextPtr r = next.
Proof. unfold provideReloader. by destruct (CF_DebugForced file). Qed.

(** The hooks of a daemon that was constructed do not panic, and they all
    start exactly if BGP starts, takes the peers, and the API can listen. *)
Definition canStart : Prop :=
  ∃ b1 b2, BGPManager.Start cfg bgp0 = (b1, None) ∧ AddPeers cfg b1 = (b2, None) ∧
    env_listen env (API_Listen (Cfg_API cfg)) = None.

Lemma statuses_ok now (b : BGPManager.Manager (S := Srv) (UUID := UUID)) :
  NoDup (VIP_Name <$> elems (Cfg_VIPs cfg)) →
  ∃ l, GetVIPStatuses (setNotifier (policy0 now) (Some b)) = Ret l.
Proof.
  intros Hnd. destruct (GetVIPStatuses_Ret (setNotifier (policy0 now) (Some b))) as (l & Hl & _); [|by exists l].
  exact (NewManager_ok stat now (elems (Cfg_VIPs cfg)) ∅ (Some bgp0) Hnd).
Qed.

(** What a failed start leaves. *)
Definition unwound a : Prop :=
  let p := ap_procs a in
  pr_watching p = false ∧ pr_serving p = false ∧ pr_loop p = false ∧ pr_hupLoop p = false ∧
  reg_running (rl_reg (ap_rl a)) = ∅ ∧ ap_messages a = [] ∧
  Telemetry.stopped (ap_telEvents a) = Telemetry.created (ap_telEvents a) ∧
  (pr_bgp p = true → ∃ b1 b2 e, BGPManager.Start cfg bgp0 = (b1, None) ∧ AddPeers cfg b1 = (b2, Some e)).

Lemma tel_unwound version ev tel :
  Telemetry.Setup (Cfg_OTel cfg) version = Ret (ev, Ok tel) →
  Telemetry.stopped (ev ++ (Telemetry.Shutdown tel).1) = Telemetry.created (ev ++ (Telemetry.Shutdown tel).1).
Proof.
  intros Hs%Telemetry.Setup_accounted. destruct Hs as (H1' & H2' & _); cbn [fst snd] in *.
  rewrite Telemetry.stopped_app, Telemetry.created_app, H1'.
  destruct (Telemetry.Shutdown_stopped tel) as [-> ->]. by rewrite app_nil_r.
Qed.

(** A process as the constructors leave it. *)
Record fresh now a : Prop := {
  fr_pol : rl_pol (ap_rl a) = policy0 now;
  fr_bgp : bgpOf a = Some bgp0;
  fr_built : built (elems (Cfg_VIPs cfg)) (rl_heap (ap_rl a)) (rl_nextPtr (ap_rl a)) (rl_reg (ap_rl a));
  fr_addr : Srv_Addr (ap_server a) = API_Listen (Cfg_API cfg);
  fr_procs : ap_procs a = noProcs;
  fr_inflight : ap_inflight a = ∅;
  fr_messages : ap_messages a = [];
  fr_tel : Telemetry.stopped (ap_telEvents a ++ (Telemetry.Shutdown (ap_tel a)).1) =
           Telemetry.created (ap_telEvents a ++ (Telemetry.Shutdown (ap_tel a)).1) }.

Lemma built_empty : built [] ∅ 0%nat NewRegistry.
Proof. constructor; [by intros v ?%not_elem_of_nil|by intros name [l Hl]|done]. Qed.

Lemma construct_fresh now version file a0 :
  NoDup (VIP_Name <$> elems (Cfg_VIPs cfg)) → construct now version file = Ret (Ok a0) → fresh now a0.
Proof.
  intros Hnd Hc.
  destruct (construct_inv _ _ _ _ Hc) as (ev & tel & h & next & reg & Ht & Hs & Hrl & Htel & Hsrv & Hp & Hi & Hm & He).
  destruct (provideReloader_fields now file (policy0 now) reg h next) as (Fp & Fr & Fh & Fn).
  rewrite <-Hrl in Fp, Fr, Fh, Fn. constructor; try done.
  - unfold bgpOf. rewrite Fp. unfold providePolicyManager, NewManager. cbn. by rewrite (foldl_keeps mg_notifier).
  - rewrite Fh, Fn, Fr. eapply (provideSchedulersLoop_built _ []); [done|apply built_empty|exact Hs].
  - by rewrite Hsrv.
  - rewrite He, Htel. by eapply tel_unwound.
Qed.

Lemma attachAll_heap r : ∃ h', attachAll r = setHeap r h' (rl_nextPtr r).
Proof. destruct (attach_fold (concat (map_to_list (Schedulers (rl_reg r))).*2) r) as (h' & Hh & _). by exists h'. Qed.

(** Running hooks one by one. *)
Lemma startAll_ok st hk l a a' :
  hk_OnStart hk a = Ret (a', None) → startAll st (hk :: l) a = startAll (hk :: st) l a'.
Proof. cbn [startAll]. by intros ->. Qed.

Lemma startAll_fails st hk l a a' e a'' errs :
  hk_OnStart hk a = Ret (a', Some e) → stopAll st a' = Ret (a'', errs) →
  startAll st (hk :: l) a = Ret (a'', e :: errs).
Proof. cbn [startAll]. by intros -> ->. Qed.

Lemma stopAll_cons hk l a a1 err a2 errs :
  hk_OnStop hk a = Ret (a1, err) → stopAll l a1 = Ret (a2, errs) →
  stopAll (hk :: l) a = Ret (a2, match err with Some e => e :: errs | None => errs end).
Proof. cbn [stopAll]. by intros -> ->. Qed.

Local Abbreviation bgpHook := (registerBGPLifecycle (Hash := Hash) (T := T) cfg).

Lemma bgp_up a b b1 b2 :
  bgpOf a = Some b → BGPManager.Start cfg b = (b1, None) → AddPeers cfg b1 = (b2, None) →
  hk_OnStart bgpHook a = Ret (setBGP (setProcs a (setBgpUp (ap_procs a) true)) b2, None).
Proof. cbn [hk_OnStart registerBGPLifecycle]. by intros -> -> ->. Qed.

(** The hooks that had started when BGP fails. *)
Lemma stop_first a :
  ∃ errs, stopAll [registerProcessLifecycle; telemetryHook] a =
          Ret (addTelEvents a (Telemetry.Shutdown (ap_tel a)).1, errs).
Proof. eexists. done. Qed.

(** The hooks that had started when the API cannot listen. *)
Lemma stop_five a b :
  bgpOf a = Some b →
  ∃ a' errs, stopAll [registerSchedulersLifecycle env; registerPeerWatcherLifecycle; bgpHook;
                      registerProcessLifecycle; telemetryHook] a = Ret (a', errs) ∧
    ap_procs a' = setBgpUp (setWatching (ap_procs a) false) false ∧
    reg_running (rl_reg (ap_rl a')) = ∅ ∧ ap_messages a' = ap_messages a ∧
    ap_telEvents a' = ap_telEvents a ++ (Telemetry.Shutdown (ap_tel a)).1.
Proof.
  intros Hb. destruct (Registry.Stop (env_exited env) (rl_reg (ap_rl a))) as [reg err] eqn:Es.
  assert (reg_running reg = ∅) as Hr by (apply (f_equal fst) in Es; cbn in Es; by subst reg).
  set (late := filter (λ e : ptr * runningScheduler, run_id e.2 ∉ env_exited env) (reg_running (rl_reg (ap_rl a)))).
  set (a1 := setInflight (setRl a (setReg (ap_rl a) reg)) (dom late ∪ ap_inflight a)).
  set (a2 := setProcs a1 (setWatching (ap_procs a1) false)).
  set (a3 := setProcs (setBGP a2 (bgpStop b)) (setBgpUp (ap_procs a2) false)).
  destruct (stop_first a3) as [errs Hf].
  assert (hk_OnStop bgpHook a2 = Ret (a3, None)) as H3'.
  { cbn [hk_OnStop registerBGPLifecycle]. change (bgpOf a2) with (bgpOf a). by rewrite Hb. }
  assert (hk_OnStop (registerSchedulersLifecycle env) a = Ret (a1, err)) as H1'.
  { cbn [hk_OnStop registerSchedulersLifecycle]. by rewrite Es. }
  eexists _, _. split.
  { eapply stopAll_cons; [exact H1'|]. eapply stopAll_cons; [done|]. eapply stopAll_cons; [exact H3'|exact Hf]. }
  by split_and!.
Qed.

(** The last hook sends its messages and changes nothing else. *)
Lemma systemd_up now a b :
  NoDup (VIP_Name <$> elems (Cfg_VIPs cfg)) → rl_pol (ap_rl a) = setNotifier (policy0 now) (Some b) →
  ∃ l, hk_OnStart (registerSystemdLifecycle errText formatTime cfg) a = Ret (addMessages a l, None).
Proof.
  intros Hnd Hp. cbn [hk_OnStart registerSystemdLifecycle]. destruct NotifyAvailable eqn:En; cbn [negb].
  - unfold updateStatus, bgpOf, Update. rewrite Hp, En. cbn [setNotifier mg_notifier negb].
    destruct (statuses_ok now b Hnd) as [l Hl]. rewrite Hl. eexists. unfold addMessages. cbn.
    rewrite <-app_assoc. done.
  - exists []. unfold addMessages. rewrite app_nil_r. by destruct a.
Qed.

(** The process up to each hook. *)
Definition upBGP a b : App := setBGP (setProcs a (setBgpUp (ap_procs a) true)) b.
Definition upWatcher a b : App := setProcs (upBGP a b) (setWatching (ap_procs (upBGP a b)) true).
Definition startedRl r : Rl := setReg (attachAll r) (Registry.Start (rl_reg (attachAll r))).
Definition upSchedulers a b : App := setRl (upWatcher a b) (startedRl (ap_rl (upWatcher a b))).
Definition upAll a b : App :=
  let a' := upSchedulers a b in
  setProcs a' (mkProcs (pr_bgp (ap_procs a')) (pr_watching (ap_procs a')) true true true true (pr_hup (ap_procs a')) true).

Lemma upSchedulers_pol now a b :
  fresh now a → rl_pol (ap_rl (upSchedulers a b)) = setNotifier (policy0 now) (Some b).
Proof.
  intros Hf. destruct (attachAll_heap (ap_rl (upWatcher a b))) as (h' & Hh).
  unfold upSchedulers, startedRl. cbn [setRl ap_rl setReg rl_pol]. rewrite Hh. cbn. by rewrite (fr_pol _ _ Hf).
Qed.

Lemma start_succeeds now a b1 b2 :
  NoDup (VIP_Name <$> elems (Cfg_VIPs cfg)) → fresh now a →
  BGPManager.Start cfg bgp0 = (b1, None) → AddPeers cfg b1 = (b2, None) →
  env_listen env (API_Listen (Cfg_API cfg)) = None →
  ∃ l, startAll [] hooks a = Ret (addMessages (upAll a b2) l, []).
Proof.
  intros Hnd Hf E1 E2 E3.
  destruct (systemd_up now (upAll a b2) b2 Hnd) as [l Hl]; [by apply upSchedulers_pol|]. exists l.
  unfold Wiring.hooks. erewrite startAll_ok by done. erewrite startAll_ok by done.
  erewrite startAll_ok by (eapply bgp_up; [apply (fr_bgp _ _ Hf)|done..]).
  erewrite startAll_ok by done. erewrite startAll_ok by done.
  erewrite (startAll_ok _ (registerHTTPServerLifecycle env)).
  2: { cbn [hk_OnStart registerHTTPServerLifecycle].
       change (ap_server _) with (ap_server a). rewrite (fr_addr _ _ Hf), E3. done. }
  erewrite startAll_ok by done. erewrite startAll_ok by exact Hl. done.
Qed.

Lemma start_fails now a :
  fresh now a → ¬ canStart → ∃ a' e errs, startAll [] hooks a = Ret (a', e :: errs) ∧ unwound a'.
Proof.
  intros Hf Hno. pose proof Hf as [Fpol Fbgp [_ _ (_ & Frun & _)] Faddr Fprocs _ Fmsg Ftel].
  unfold Wiring.hooks. erewrite startAll_ok by done. erewrite startAll_ok by done.
  destruct (BGPManager.Start cfg bgp0) as [b1 [e|]] eqn:E1.
  { destruct (stop_first (setBGP a b1)) as [errs Hs]. eexists _, _, errs. split.
    - eapply startAll_fails; [|exact Hs]. cbn [hk_OnStart registerBGPLifecycle]. by rewrite Fbgp, E1.
    - unfold unwound. cbn -[Telemetry.Shutdown]. rewrite Fprocs. by split_and!. }
  destruct (AddPeers cfg b1) as [b2 [e|]] eqn:E2.
  { destruct (stop_first (setBGP (setProcs a (setBgpUp (ap_procs a) true)) b2)) as [errs Hs]. eexists _, _, errs. split.
    - eapply startAll_fails; [|exact Hs]. cbn [hk_OnStart registerBGPLifecycle]. by rewrite Fbgp, E1, E2.
    - unfold unwound. cbn -[Telemetry.Shutdown]. rewrite Fprocs. split_and!; try done. intros _. by exists b1, b2, e. }
  destruct (env_listen env (API_Listen (Cfg_API cfg))) as [e|] eqn:E3; [|by destruct Hno; exists b1, b2].
  erewrite startAll_ok by (eapply bgp_up; [apply Fbgp|done..]).
  erewrite startAll_ok by done. erewrite startAll_ok by done. fold (upBGP a b2).
  assert (bgpOf (upSchedulers a b2) = Some b2) as Hb.
  { unfold bgpOf. by rewrite (upSchedulers_pol now a b2 Hf). }
  destruct (stop_five _ _ Hb) as (a' & errs & Hs & Hp & Hr & Hm & Ht). eexists a', _, errs. split.
  - eapply startAll_fails; [|exact Hs]. cbn [hk_OnStart registerHTTPServerLifecycle].
    change (ap_server _) with (ap_server a). by rewrite Faddr, E3.
  - unfold unwound. rewrite Hp, Hr, Hm, Ht.
    change (ap_procs (upSchedulers a b2)) with (setWatching (setBgpUp (ap_procs a) true) true).
    change (ap_telEvents (upSchedulers a b2)) with (ap_telEvents a).
    change (ap_messages (upSchedulers a b2)) with (ap_messages a).
    change (ap_tel (upSchedulers a b2)) with (ap_tel a).
    rewrite Fprocs. by split_and!.
Qed.

(** ** Properties *)

(** What keeps a valid config from being built: an HTTP check whose
    response_jq does not parse, and a VIP that requires a local address and
    whose prefix netip.ParsePrefix rejects. *)
Definition buildable : Prop :=
  ∀ v, v ∈ elems (Cfg_VIPs cfg) →
    (VIP_RequireLocalAddress v = true → is_Some (ParsePrefix (VIP_Prefix v))) ∧
    ∀ c, c ∈ CheckList v → Check_Type c = CheckTypeHTTP →
      ifSet (Check_HTTP c) (λ h, HTTP_ResponseJQ h = EmptyString ∨ jqParses (HTTP_ResponseJQ h) = true).

Lemma newGuard_None v : newGuard v = None ↔ (VIP_RequireLocalAddress v = true → is_Some (ParsePrefix (VIP_Prefix v))).
Proof.
  unfold newGuard. destruct (VIP_RequireLocalAddress v); [|done].
  destruct (ParsePrefix _); split; [by eauto|done|done|]. intros Hs. by destruct Hs as [? ?].
Qed.

Lemma newChecker_Ok c prefix :
  Environment → ValidCheck prefix c →
  (∃ typ, newChecker c = Ok typ) ↔
  (Check_Type c = CheckTypeHTTP →
   ifSet (Check_HTTP c) (λ h, HTTP_ResponseJQ h = EmptyString ∨ jqParses (HTTP_ResponseJQ h) = true)).
Proof.
  intros Henv Hv. pose proof (valid_check_builds c prefix Henv Hv) as Hb. rewrite <-Hb.
  unfold newChecker. destruct (NewChecker c) as [ck|e] eqn:E.
  - split; [|eauto]. intros _. apply Hb. intros Ht. unfold NewChecker in E. rewrite Ht in E. cbn in E.
    destruct (Check_HTTP c) as [h|]; [|done]. cbn in *.
    destruct (NewHTTPChecker h) as [hc|] eqn:Eh; [|done]. by eapply NewHTTPChecker_jq.
  - split; [by intros []|by intros (? & ? & _)].
Qed.

Lemma RegisterMetrics_None : (∀ c e, registerCollector c ≠ RegisterFailed e) → ∀ l, RegisterMetrics registerCollector l = None.
Proof.
  intros Hreg. induction l as [|c l IH]; [done|]. cbn. destruct (registerCollector c) eqn:E; [done..|].
  by destruct (Hreg c e).
Qed.

(** C20: A loaded config becomes a daemon: with telemetry that can be set
    up, collectors that register and nothing outside the config failing, the
    components are constructed if and only if every HTTP check's response_jq
    parses and the prefix of every VIP that requires a local address is one
    that netip.ParsePrefix accepts; validation checks neither. *)
Theorem construct_succeeds now version file ev tel :
  ValidConfig cfg → Environment → Telemetry.Setup (Cfg_OTel cfg) version = Ret (ev, Ok tel) →
  (∀ c e, registerCollector c ≠ RegisterFailed e) →
  (∃ a, construct now version file = Ret (Ok a)) ↔ buildable.
Proof.
  intros Hv Henv Ht Hreg.
  assert ((∃ a, construct now version file = Ret (Ok a)) ↔ ∃ res, provideSchedulers cfg = Ok res) as ->.
  { unfold Wiring.construct, provideTelemetry. rewrite Ht. destruct (provideLogger _ _ _) as [lv log].
    unfold provideBGPManager. rewrite RegisterMetrics_None by done.
    destruct (provideSchedulers cfg) as [[[h next] reg]|e]; naive_solver. }
  unfold provideSchedulers, buildable. rewrite provideSchedulersLoop_Ok.
  assert (∀ (P Q : VIPConfig → Prop), (∀ v, v ∈ elems (Cfg_VIPs cfg) → P v ↔ Q v) →
    (∀ v, v ∈ elems (Cfg_VIPs cfg) → P v) ↔ (∀ v, v ∈ elems (Cfg_VIPs cfg) → Q v)) as Hext by naive_solver.
  apply Hext. intros v Hin. rewrite newGuard_None.
  assert (∀ c, c ∈ CheckList v → (∃ typ, newChecker c = Ok typ) ↔ _) as Hc
    by (intros c Hc; apply (newChecker_Ok c (VIP_Prefix v) Henv); by apply (valid_check cfg Hv)).
  split; intros [Hg Hl]; (split; [done|]); intros c Hin'; by apply Hc, Hl.
Qed.

Context `{!Fx (S := Srv) (UUID := UUID) (Hash := Hash) (T := T)} `{!FxLaws}.

(** C8: A daemon that starts runs its config: when BGP starts and takes
    the peers and the API can listen, the start succeeds, and then the
    registry runs exactly one scheduler per check of every VIP, in the order
    of the config, with its thresholds and intervals, none in shadow, each
    reporting to the policy manager; the policy manager has the VIPs of the
    config and a started speaker; and the reloader is in a state from which
    the theorems on reloads hold. *)
Theorem startup_runs_config now version file a0 :
  ValidConfig cfg → construct now version file = Ret (Ok a0) → canStart →
  ∃ a, fx_Start hooks a0 = Ret (a, None) ∧ running (elems (Cfg_VIPs cfg)) (ap_rl a) ∧
    (∃ b1 b2, BGPManager.Start cfg bgp0 = (b1, None) ∧ AddPeers cfg b1 = (b2, None) ∧
       rl_pol (ap_rl a) = setNotifier (policy0 now) (Some b2)) ∧
    (∃ r0, initial Sum256 r0 ∧ rtc (rl_step zeroHash Sum256 newChecker) r0 (ap_rl a)) ∧
    ap_procs a = mkProcs true true true true true true false true ∧ ap_inflight a = ∅.
Proof.
  intros Hv Hc (b1 & b2 & E1 & E2 & E3). pose proof (valid_names _ Hv) as Hnd.
  pose proof (construct_fresh _ _ _ _ Hnd Hc) as Hf.
  destruct (start_succeeds now a0 b1 b2 Hnd Hf E1 E2 E3) as [l Hl].
  exists (addMessages (upAll a0 b2) l). split; [rewrite fx_Start_law, Hl; cbn; f_equal; f_equal; by apply fx_Combine_law|].
  change (ap_rl (addMessages (upAll a0 b2) l)) with (startedRl (setPol (ap_rl a0) (setNotifier (rl_pol (ap_rl a0)) (Some b2)))).
  split; [|split; [|split; [|split]]].
  - apply schedulers_start; [done| | |exact (fr_built _ _ Hf)].
    + intros v Hin. apply vv_checkNames, (valid_vip cfg Hv v Hin).
    + intros v c Hin Hcl. apply (valid_named cfg Hv v); [done|]. by apply list_elem_of_fmap_2.
  - exists b1, b2. split; [done|]. split; [done|]. exact (upSchedulers_pol now a0 b2 Hf).
  - destruct (construct_inv _ _ _ _ Hc) as (ev & tel & h & next & reg & _ & _ & -> & _).
    unfold startedRl. edestruct attachAll_heap as [h' ->]. unfold provideReloader.
    exists (Reload.New Sum256 now (CF_Path file) cfg (CF_Raw file) (setNotifier (policy0 now) (Some b2))
      (Registry.Start reg) h' next ∅ true). split; [by repeat eexists|].
    destruct (CF_DebugForced file); [|apply rtc_refl]. apply rtc_once.
    exact (step_lock zeroHash Sum256 newChecker _).
  - cbn. by rewrite (fr_procs _ _ Hf).
  - exact (fr_inflight _ _ Hf).
Qed.


End Start.
End Startup.
