(* ===== verification/DaemonRun.v ===== *)
(** * The daemon while it runs

    The components composed: from a config that loads, through the start
    hooks, over every interleaving of check results, triggered checks,
    reloads, signals and stop hooks ([d_step]).  In all of these states the
    policy manager keeps its invariant, so that the status pages can be
    rendered; and while no reload was applied and BGP was not stopped, what
    they report is what the BGP server originates. *)

From S2P Require Import Prelude GoStrings NetIP Config Model Metrics ChecksPolicy Engine Logging Scheduler.
From S2P Require Import Defaults Validate ValidateProofs Registry PolicyManager PolicyProofs BGPManager BGPProofs.
From S2P Require Import System Daemon Reload ReloadProofs ReloadStaging ReloadFrame Loaded.
From S2P Require Import Checkers Backends SQLBackend HTTPAPI Telemetry Platform Wiring WiringProofs Startup.

Module DaemonRun.
Import BGPManager BGPProofs Daemon Reload ReloadProofs ReloadStaging ReloadFrame Platform Wiring WiringProofs Startup.

(** ** The policy manager's pointer to BGP *)

Section Notifier.
Context `{ExprLang} {B : Type} `{BGPNotifier B}.
Implicit Types m : PolicyManager.Manager (B := B).

Definition connected m : Prop := is_Some (mg_notifier m).

Lemma transition_connected now m vs cfg st reason :
  connected m → connected (transitionStateLocked now m vs cfg st reason).1.
Proof.
  intros [b Hb]. unfold transitionStateLocked. case_decide; [by exists b|]. rewrite Hb.
  destruct (applyBGP cfg st b) as [b' err]. by eexists.
Qed.

Lemma retry_connected m vs cfg : connected m → connected (retryBGP m vs cfg).1.
Proof.
  intros Hm. pose proof Hm as [b Hb]. unfold retryBGP. destruct (vs_bgpPending vs); [|done]. rewrite Hb.
  destruct (applyBGP _ _ b) as [b' err]. by eexists.
Qed.

Lemma reevaluate_connected now m vs cfg f c : connected m → connected (reevaluate now m vs cfg f c).1.
Proof. intros Hm. unfold reevaluate. case_decide; [done|]. case_decide; [done|]. by apply transition_connected. Qed.

Lemma exec_connected m op : connected m → connected (exec m op).
Proof.
  intros Hm. destruct op; cbn [exec].
  - unfold OnHealthTransition. destruct (mg_vips m !! _) as [e|]; [|done]. destruct (findCheck _ _) as [[k c]|]; [|done].
    cbv zeta. case_decide; [done|]. rewrite (surjective_pairing (transitionStateLocked _ _ _ _ _ _)).
    by apply (transition_connected now m).
  - unfold OnCheckResult. destruct (mg_vips m !! _) as [e|]; [|done]. destruct (findCheck _ _) as [[k c]|]; [|done].
    cbv zeta. rewrite (surjective_pairing (reevaluate _ _ _ _ _ _)), (surjective_pairing (retryBGP _ _ _)).
    apply (retry_connected (reevaluate _ _ _ _ _ _).1), reevaluate_connected, Hm.
  - unfold AddVIP. by destruct (mg_vips m !! _).
  - unfold RemoveVIP. destruct (mg_vips m !! _) as [e|]; [|done]. destruct (bool_decide _); [done|].
    destruct (mg_notifier m) as [b|] eqn:Eb; [|done]. destruct (WithdrawVIP _ _) as [b' [err|]]; by eexists.
  - unfold CommitVIP. destruct (mg_vips m !! _) as [e|]; [|done]. cbv zeta. destruct (negb _); [done|].
    destruct (commitChecks _ _ _ _) as [running [next|bad]]; [|done].
    destruct (CompileChecksPolicy _ _) as [eval|err]; [|done].
    rewrite (surjective_pairing (commitState _ _ _ _ _ _)). cbn [fst]. change (connected (setEntry ?a _ _)) with (connected a).
    unfold commitState. case_decide; [done|]. cbv zeta. case_decide; [|by apply transition_connected].
    destruct (mg_notifier _) as [b|] eqn:Eb; [|done]. case_match; [|done]. destruct (applyBGP _ _ b) as [b' err]. by eexists.
Qed.

Lemma transition_order stat now t m : mg_order (OnHealthTransition stat now t m) = mg_order m.
Proof.
  unfold OnHealthTransition. destruct (mg_vips m !! _) as [e|]; [|done]. destruct (findCheck _ _) as [[k c]|]; [|done].
  cbv zeta. case_decide; [done|]. rewrite (surjective_pairing (transitionStateLocked _ _ _ _ _ _)).
  cbn. apply transition_vips.
Qed.

Lemma result_order stat now vip check res m : mg_order (OnCheckResult stat now vip check res m) = mg_order m.
Proof.
  unfold OnCheckResult. destruct (mg_vips m !! _) as [e|]; [|done]. destruct (findCheck _ _) as [[k c]|]; [|done].
  cbv zeta. rewrite (surjective_pairing (reevaluate _ _ _ _ _ _)), (surjective_pairing (retryBGP _ _ _)). cbn.
  unfold retryBGP, reevaluate. repeat case_match; cbn; try done; apply transition_vips.
Qed.

(** The pointer is the only thing [NewManager] does with BGP. *)
Lemma NewManager_notifier stat now vips x (n n' : option B) :
  setNotifier (NewManager stat now vips x n) n' = NewManager stat now vips x n'.
Proof.
  unfold NewManager. change (PolicyManager.mkManager ∅ [] x n' false 0) with (setNotifier (PolicyManager.mkManager ∅ [] x n false 0) n').
  generalize (PolicyManager.mkManager (B := B) ∅ [] x n false 0). induction vips as [|v vips IH]; intros m; cbn; [done|]. by rewrite IH.
Qed.

Lemma NewManager_order stat now vips x (n : option B) : mg_order (NewManager stat now vips x n) = VIP_Name <$> vips.
Proof.
  unfold NewManager. assert (∀ m, mg_order (foldl (registerVIP stat now) m vips) = mg_order m ++ (VIP_Name <$> vips)) as Hl.
  { induction vips as [|v vips IH]; intros m; cbn; [by rewrite app_nil_r|]. rewrite IH. cbn. by rewrite <-app_assoc. }
  by rewrite Hl.
Qed.
End Notifier.

(** ** Starting BGP originates nothing *)

(** What the daemon relies on besides [GoBGPLaws]: a new server has an empty
    table, and starting it or adding a peer adds no local path. *)
Class GoBGPStart {S UUID : Type} `{GoBGPLaws S UUID} (newBgpServer : option string → S) := {
  new_srv l : srv_ok (newBgpServer l);
  new_rib l k : rib (newBgpServer l) k = None;
  startBgp_srv g s : srv_ok s → srv_ok (startBgp g s).1;
  startBgp_rib g s k : srv_ok s → rib (startBgp g s).1 k = rib s k;
  addPeer_srv p s : srv_ok s → srv_ok (addPeer p s).1;
  addPeer_rib p s k : srv_ok s → rib (addPeer p s).1 k = rib s k }.

Section Fresh.
Context {Srv UUID : Type} `{GoBGPLaws Srv UUID} (newBgpServer : option string → Srv).
Context `{!GoBGPStart newBgpServer} (cfg : Config).

Lemma addPeers_fresh (b b' : BGPManager.Manager (S := Srv) (UUID := UUID)) err :
  AddPeers cfg b = (b', err) → freshManager b → freshManager b'.
Proof.
  unfold AddPeers. generalize (elems (BGP_Neighbors (Cfg_BGP cfg))). intros l. revert b.
  induction l as [|n l IH]; intros b; cbn [addPeersLoop]; [by intros [= <- <-]|].
  destruct (buildPeer cfg n) as [p|e]; [|by intros [= <- <-]].
  pose proof (addPeer_srv p (bm_server b)) as Hs. pose proof (λ k, addPeer_rib p (bm_server b) k) as Hr.
  destruct (addPeer p (bm_server b)) as [s err1]. cbn [fst] in *. intros Hl (Ho & Ht & Hn).
  assert (freshManager (setServer b s)) as Hf.
  { split; [by apply Hs|]. split; [done|]. intros k. cbn. by rewrite Hr. }
  destruct err1; [by injection Hl as <- <-|by eapply IH].
Qed.

Lemma started_fresh b1 b2 err1 err2 :
  BGPManager.Start cfg (bgpNewManager (UUID := UUID) newBgpServer cfg) = (b1, err1) → AddPeers cfg b1 = (b2, err2) →
  freshManager b2.
Proof.
  intros Hst Hadd. eapply addPeers_fresh; [exact Hadd|]. revert Hst. unfold BGPManager.Start. cbn [bgpNewManager bm_server].
  set (s0 := newBgpServer _). pose proof (startBgp_srv (buildGlobalConfig cfg) s0 (new_srv _)) as Hs.
  pose proof (λ k, startBgp_rib (buildGlobalConfig cfg) s0 k (new_srv _)) as Hr.
  destruct (startBgp _ s0) as [s e]. intros [= <- _]. cbn in *. split; [done|]. split; [done|].
  intros k. cbn. rewrite Hr. apply new_rib.
Qed.
End Fresh.

(** ** Every reachable state *)

Section Run.
Context `{ExprLang} `{GoStd} `{CheckStd} `{SQLStd} {Srv UUID : Type} `{GoBGP Srv UUID}.
Context {Hash : Type} `{EqDecision Hash} (zeroHash : Hash) (Sum256 : string → Hash).
Context {T : Type} `{Logging.Sinks T} `{Telemetry.OTelSDK} `{Systemd}.
Context (stat : string → bool) (errText : error → string) (formatTime : Z → string).
Context (newBgpServer : option string → Srv) (otelBridge : T) (registerCollector : nat → RegisterResult).
Context (cfg : Config) (env : Env).
Context `{!Fx (S := Srv) (UUID := UUID) (Hash := Hash) (T := T)} `{!FxLaws}.

#[local] Instance run_notifier : BGPNotifier (BGPManager.Manager (S := Srv) (UUID := UUID)) := bgp_notifier cfg.
#[local] Instance run_policy : Policy (PolicyManager.Manager (B := BGPManager.Manager (S := Srv) (UUID := UUID))) :=
  daemon_policy stat cfg.
Local Abbreviation App := (Wiring.App (S := Srv) (UUID := UUID) (Hash := Hash) (T := T)).
Local Abbreviation hooks := (Wiring.hooks (Hash := Hash) (T := T) errText formatTime cfg env).
Local Abbreviation remaining := (WiringProofs.remaining (Srv := Srv) (UUID := UUID) (Hash := Hash) (T := T) errText formatTime cfg env).
Local Abbreviation construct := (Wiring.construct Sum256 stat newBgpServer otelBridge registerCollector cfg).
Local Abbreviation bgp0 := (bgpNewManager (S := Srv) (UUID := UUID) newBgpServer cfg).
Local Abbreviation step := (d_step zeroHash Sum256 (T := T) stat cfg).
Implicit Types (a : App).

(** A start that reported no error. *)
Lemma started_inv now a0 a :
  NoDup (VIP_Name <$> elems (Cfg_VIPs cfg)) → fresh stat newBgpServer cfg now a0 →
  fx_Start hooks a0 = Ret (a, None) →
  ∃ b1 b2 l, BGPManager.Start cfg bgp0 = (b1, None) ∧ AddPeers cfg b1 = (b2, None) ∧ a = addMessages (upAll a0 b2) l.
Proof.
  intros Hnd Hf. rewrite fx_Start_law. intros Hs.
  assert (¬ canStart newBgpServer cfg env → False) as Hno.
  { intros Hc. destruct (start_fails stat errText formatTime newBgpServer registerCollector cfg env now a0 Hf Hc) as (a' & e & errs & Hfl & _).
    rewrite Hfl in Hs. cbn in Hs. injection Hs as _ Hs. by apply fx_Combine_law in Hs. }
  destruct (BGPManager.Start cfg bgp0) as [b1 [e|]] eqn:E1.
  { destruct Hno. intros (? & ? & ? & _). congruence. }
  destruct (AddPeers cfg b1) as [b2 [e|]] eqn:E2.
  { destruct Hno. intros (? & ? & ? & ? & _). congruence. }
  destruct (env_listen env (API_Listen (Cfg_API cfg))) as [e|] eqn:E3.
  { destruct Hno. intros (? & ? & ? & ? & ?). congruence. }
  destruct (start_succeeds stat errText formatTime newBgpServer registerCollector cfg env now a0 b1 b2 Hnd Hf E1 E2 E3) as [l Hl].
  rewrite Hl in Hs. cbn in Hs. injection Hs as <- _. by exists b1, b2, l.
Qed.

(** *** What every policy call keeps *)

Definition policy_ok (m : PolicyManager.Manager (B := BGPManager.Manager (S := Srv) (UUID := UUID))) : Prop :=
  mgr_ok m ∧ connected m.

Lemma call_exec (m m' : PolicyManager.Manager (B := BGPManager.Manager (S := Srv) (UUID := UUID))) :
  pol_call m m' → ∃ op, m' = exec m op.
Proof.
  intros []; [by eexists (OpAdd stat now v)|by eexists (OpRemove name)|by eexists (OpCommit stat now v seeds)
    |by eexists (OpTransition stat now t)|by eexists (OpResult stat now vip check res)].
Qed.

Lemma call_ok m m' : pol_call m m' → policy_ok m → policy_ok m'.
Proof. intros [op ->]%call_exec [Hm Hc]. split; [by apply exec_preserves|by apply exec_connected]. Qed.

Definition app_ok a : Prop := policy_ok (rl_pol (ap_rl a)).

(** The reloader of a stop hook's result, in terms of that before. *)
Lemma stop_rl k hk todo a a' err :
  hk :: todo = remaining k → hk_OnStop hk a = Ret (a', err) →
  rl_pol (ap_rl a') = (if decide (k = 5)%nat then setNotifier (rl_pol (ap_rl a)) (bgpStop <$> bgpOf a)
                       else rl_pol (ap_rl a)) ∧
  rl_generation (ap_rl a') = rl_generation (ap_rl a) ∧ rl_staging (ap_rl a') = rl_staging (ap_rl a).
Proof.
  unfold WiringProofs.remaining. intros Heq Hs.
  do 8 (destruct k as [|k]; [injection Heq as -> ->; cbn in Hs; unfold nothing in Hs; cbn [decide];
    first [rewrite decide_False by lia|rewrite decide_True by lia];
    repeat (case_match; simplify_eq); simplify_eq; cbn;
    try match goal with Hb : bgpOf _ = Some _ |- _ => rewrite Hb end; done|]).
  exfalso. cbn in Heq. by rewrite drop_nil in Heq.
Qed.

(** A step of the daemon is a run of the reloader, or the next stop hook. *)
Lemma d_step_rl st st' :
  step st st' →
  st'.1.2 = st.1.2 ∧ rtc (rl_step zeroHash Sum256 newChecker) (ap_rl st.1.1) (ap_rl st'.1.1) ∨
  ∃ hk err, st.1.2 = hk :: st'.1.2 ∧ hk_OnStop hk st.1.1 = Ret (st'.1.1, err).
Proof.
  intros Hst. destruct Hst; cbn [fst snd]; [left; split; [done|]..|right; by eexists _, _]; try apply rtc_refl.
  - apply rtc_once, step_result.
  - apply rtc_once, step_result.
  - by eapply rtc_once, step_reload.
  - by apply rtc_once, step_wake.
  - eapply rtc_l; [apply (step_expire zeroHash Sum256 newChecker now between)|]. apply rtc_once, step_poll.
  - by eapply rtc_once, step_reload.
Qed.

Lemma step_ok st st' k : step st st' → st.1.2 = remaining k → app_ok st.1.1 →
  (∃ k', st'.1.2 = remaining k') ∧ app_ok st'.1.1.
Proof.
  intros Hst Hk Ha. destruct (d_step_rl _ _ Hst) as [[-> Hr]|(hk & err & Htodo & Hs)].
  - split; [by exists k|]. unfold app_ok in *. revert Ha.
    induction Hr as [|r1 r2 r3 H12 _ IH]; [done|]. intros Ha. apply IH. by eapply (step_policy _ _ _ policy_ok call_ok).
  - rewrite Htodo in Hk. destruct (remaining_stop errText formatTime cfg env _ _ _ _ _ _ Hk Hs) as (_ & Ht & _).
    destruct (stop_rl _ _ _ _ _ _ Hk Hs) as (Hp & _). split; [by eexists|]. unfold app_ok. rewrite Hp.
    case_decide; [|done]. destruct Ha as [Ho [b Hb]]. split; [by apply mgr_ok_setNotifier|].
    unfold bgpOf. rewrite Hb. by eexists.
Qed.

Lemma steps_ok st st' k : rtc step st st' → st.1.2 = remaining k → app_ok st.1.1 → app_ok st'.1.1.
Proof.
  intros Hr. revert k. induction Hr as [|st1 st2 st3 Hst _ IH]; intros k Hk Ha; [done|].
  destruct (step_ok _ _ _ Hst Hk Ha) as [[k' Hk'] Ha']. by eapply IH.
Qed.

Lemma started_ok now version file a0 a :
  NoDup (VIP_Name <$> elems (Cfg_VIPs cfg)) → construct now version file = Ret (Ok a0) →
  fx_Start hooks a0 = Ret (a, None) → app_ok a.
Proof.
  intros Hnd Hc Hs. pose proof (construct_fresh Sum256 stat newBgpServer otelBridge registerCollector cfg now version file a0 Hnd Hc) as Hf.
  destruct (started_inv now a0 a Hnd Hf Hs) as (b1 & b2 & l & _ & _ & ->). unfold app_ok.
  change (rl_pol _) with (rl_pol (ap_rl (upSchedulers a0 b2))). rewrite (upSchedulers_pol stat newBgpServer registerCollector cfg now a0 b2 Hf).
  split; [|by eexists]. apply mgr_ok_setNotifier. exact (NewManager_ok stat now (elems (Cfg_VIPs cfg)) ∅ (Some bgp0) Hnd).
Qed.

(** C7: The status pages of the running daemon never dereference nil: in every
    state reachable from a start, through check results, reloads, signals and
    stop hooks in any order, the policy manager keeps its invariant, the
    status endpoint answers 200 with one entry per VIP in the manager's
    order, and the status line for the service manager can be rendered. *)
Theorem daemon_reports now version file a0 a a' todo errs commit (h : ptr → Sched) scheds peers :
  ValidConfig cfg → construct now version file = Ret (Ok a0) → fx_Start hooks a0 = Ret (a, None) →
  rtc step (a, reverse hooks, []) (a', todo, errs) →
  mgr_ok (rl_pol (ap_rl a')) ∧ (∃ a'', updateStatus errText formatTime cfg a' = Ret a'') ∧
  ∃ vips, handleStatus version commit cfg peers (rl_pol (ap_rl a')) h scheds (Some (Reload.Status (ap_rl a'))) =
            Ret (mkResponse StatusOK (PStatus (mkDaemonStatus (Router_RouterID (Cfg_Router cfg)) (Router_ASN (Cfg_Router cfg))
                   version commit 0 peers vips (Some (Reload.Status (ap_rl a')))))) ∧
    VS_Name <$> vips = VIPNames (rl_pol (ap_rl a')).
Proof.
  intros Hv Hc Hs Hrun. pose proof (started_ok _ _ _ _ _ (valid_names _ Hv) Hc Hs) as Ha.
  assert (app_ok a') as [Hok [b Hb]] by (by apply (steps_ok _ _ 0 Hrun)).
  destruct (GetVIPStatuses_Ret _ Hok) as (l & Hl & Hn & _). split; [done|]. split.
  - unfold updateStatus, bgpOf, Update. rewrite Hb. destruct NotifyAvailable; cbn [negb]; [rewrite Hl|]; by eexists.
  - exists (withCounters h scheds <$> l). unfold handleStatus, vipStatuses. rewrite Hl. split; [done|].
    rewrite <-Hn, <-list_fmap_compose. apply list_fmap_ext. intros i s _. unfold withCounters. cbn.
    by destruct (countersLoop _ _ _ _ _ _) as [? [? ?]].
Qed.

End Run.

(** ** What the daemon reports is what it originates *)

Section Truth.
Context `{ExprLang} `{GoStd} `{CheckStd} `{SQLStd} {Srv UUID : Type} `{GoBGPLaws Srv UUID}.
Context {Hash : Type} `{EqDecision Hash} (zeroHash : Hash) (Sum256 : string → Hash).
Context {T : Type} `{Logging.Sinks T} `{Telemetry.OTelSDK} `{Systemd}.
Context (stat : string → bool) (errText : error → string) (formatTime : Z → string).
Context (newBgpServer : option string → Srv) (otelBridge : T) (registerCollector : nat → RegisterResult).
Context (cfg : Config) (env : Env).
Context `{!Fx (S := Srv) (UUID := UUID) (Hash := Hash) (T := T)} `{!FxLaws} `{!GoBGPStart newBgpServer}.

#[local] Instance truth_notifier : BGPNotifier (BGPManager.Manager (S := Srv) (UUID := UUID)) := bgp_notifier cfg.
#[local] Instance truth_laws : BGPNotifierLaws (BGPManager.Manager (S := Srv) (UUID := UUID)) := bgp_laws cfg.
#[local] Instance truth_policy : Policy (PolicyManager.Manager (B := BGPManager.Manager (S := Srv) (UUID := UUID))) :=
  daemon_policy stat cfg.
Local Abbreviation App := (Wiring.App (S := Srv) (UUID := UUID) (Hash := Hash) (T := T)).
Local Abbreviation hooks := (Wiring.hooks (Hash := Hash) (T := T) errText formatTime cfg env).
Local Abbreviation remaining := (WiringProofs.remaining (Srv := Srv) (UUID := UUID) (Hash := Hash) (T := T) errText formatTime cfg env).
Local Abbreviation construct := (Wiring.construct Sum256 stat newBgpServer otelBridge registerCollector cfg).
Local Abbreviation step := (d_step zeroHash Sum256 (T := T) stat cfg).
Implicit Types (a : App) (m : PolicyManager.Manager (B := BGPManager.Manager (S := Srv) (UUID := UUID))).

(** The policy manager of a daemon that still runs its first config. *)
Record truthful m : Prop := {
  tr_ok : mgr_ok m;
  tr_connected : connected m;
  tr_sound : sound m;
  tr_order : mg_order m = VIP_Name <$> elems (Cfg_VIPs cfg) }.

Lemma truthful_transition now t m : truthful m → truthful (OnHealthTransition stat now t m).
Proof.
  intros [H1' H2' H3' H4']. constructor; [by apply OnHealthTransition_preserves
    |by apply (exec_connected m (OpTransition stat now t))|by apply OnHealthTransition_sound|by rewrite transition_order].
Qed.
Lemma truthful_result now vip check res m : truthful m → truthful (OnCheckResult stat now vip check res m).
Proof.
  intros [H1' H2' H3' H4']. constructor; [by apply OnCheckResult_preserves
    |by apply (exec_connected m (OpResult stat now vip check res))|by apply OnCheckResult_sound|by rewrite result_order].
Qed.

Local Abbreviation first := (unreloaded truthful 1).

(** Before the hook that stops BGP. *)
Definition still (st : App * list Hook * list error) : Prop :=
  ∃ k, (k ≤ 8)%nat ∧ st.1.2 = remaining k ∧ ((k ≤ 5)%nat → first (ap_rl st.1.1)).

Lemma rl_first r r' : rtc (rl_step zeroHash Sum256 newChecker) r r' → first r → first r'.
Proof.
  induction 1 as [|r1 r2 r3 H12 _ IH]; [done|]. intros Hf. apply IH. eapply step_unreloaded; [| |exact H12|exact Hf].
  - intros. by apply truthful_transition.
  - intros. by apply truthful_result.
Qed.

Lemma step_still st st' : step st st' → still st → still st'.
Proof.
  intros Hst (k & Hk8 & Hk & Hf). destruct (d_step_rl _ _ _ _ _ _ Hst) as [[Ht Hr]|(hk & err & Htodo & Hs)].
  - exists k. split; [done|]. split; [by rewrite Ht|]. intros Hk5. by eapply rl_first; [|apply Hf].
  - rewrite Htodo in Hk. destruct (remaining_stop errText formatTime cfg env _ _ _ _ _ _ Hk Hs) as (Hk' & Ht & _).
    destruct (stop_rl _ _ _ _ _ _ _ _ _ _ Hk Hs) as (Hp & Hg & Hst'). exists (S k). split; [done|]. split; [done|].
    intros Hk5. rewrite decide_False in Hp by lia. unfold unreloaded. rewrite Hp, Hg, Hst'. apply Hf. lia.
Qed.

Lemma started_first now version file a0 a :
  ValidConfig cfg → construct now version file = Ret (Ok a0) → fx_Start hooks a0 = Ret (a, None) → first (ap_rl a).
Proof.
  intros Hv Hc Hs. pose proof (valid_names _ Hv) as Hnd.
  pose proof (construct_fresh Sum256 stat newBgpServer otelBridge registerCollector cfg now version file a0 Hnd Hc) as Hf.
  destruct (started_inv stat errText formatTime newBgpServer registerCollector cfg env now a0 a Hnd Hf Hs)
    as (b1 & b2 & l & E1 & E2 & ->).
  right. change (ap_rl (addMessages (upAll a0 b2) l)) with (ap_rl (upSchedulers a0 b2)).
  rewrite (upSchedulers_pol stat newBgpServer registerCollector cfg now a0 b2 Hf).
  unfold providePolicyManager.
  assert (freshManager b2) as Hfr by (by eapply started_fresh).
  set (m0 := NewManager stat now (elems (Cfg_VIPs cfg)) ∅ (Some b2)).
  assert (sound m0) as Hso.
  { apply NewManager_sound; [by apply freshManager_noRoutes|done|]. intros i j v w. by apply valid_distinct. }
  assert (rl_generation (ap_rl (upSchedulers a0 b2)) = 1 ∧ rl_staging (ap_rl (upSchedulers a0 b2)) = ∅) as [Hg Hst].
  { unfold upSchedulers, startedRl. destruct (attachAll_heap registerCollector (ap_rl (upWatcher a0 b2))) as [h' Hh]. cbn [setRl ap_rl setReg rl_generation rl_staging]. rewrite Hh. cbn.
    destruct (construct_inv _ _ _ _ _ _ _ _ _ _ Hc) as (ev & tel & h & next & reg & _ & _ & -> & _).
    unfold provideReloader. by destruct (CF_DebugForced file). }
  split; [done|]. split; [done|].
  change (setNotifier (SetTransitionListener ?m) ?n) with (SetTransitionListener (setNotifier m n)).
  rewrite NewManager_notifier. fold m0. constructor.
  - exact (NewManager_ok stat now (elems (Cfg_VIPs cfg)) ∅ (Some b2) Hnd).
  - unfold connected. cbn. unfold m0, NewManager. rewrite (foldl_keeps mg_notifier) by done. by eexists.
  - exact Hso.
  - exact (NewManager_order stat now (elems (Cfg_VIPs cfg)) ∅ (Some b2)).
Qed.

Lemma steps_still st st' : rtc step st st' → still st → still st'.
Proof. induction 1; eauto using step_still. Qed.

(** What holds of a truthful manager's report. *)
Lemma truthful_report m :
  truthful m →
  ∃ l bm, GetVIPStatuses m = Ret l ∧ mg_notifier m = Some bm ∧
    VS_Name <$> l = VIP_Name <$> elems (Cfg_VIPs cfg) ∧
    ∀ s, s ∈ l → reportsRoute cfg s bm ∧ (VS_State s = StateAnnounced → VS_Health s = HealthHealthy).
Proof.
  intros [Hok [bm Hb] Hs Ho]. destruct (status_sound m Hok Hs) as (l & Hl & Hn & Hall).
  exists l, bm. split; [done|]. split; [done|]. split; [by rewrite Hn, <-Ho|]. intros s Hin.
  split; [by apply statusRoute_reports, Hall|].
  destruct (GetVIPStatuses_Ret m Hok) as (l' & Hl' & _ & Hel). rewrite Hl in Hl'. injection Hl' as <-.
  destruct (Hel s Hin) as (e & He & ->). cbn. intros Ha.
  destruct Hs as [_ Hfc]. specialize (Hfc _ _ He). destruct Hok as (_ & _ & Hok). pose proof (eo_state _ _ _ (Hok _ _ He)) as Hst.
  destruct (vs_health (ve_state e)) eqn:Eh; [by rewrite Hfc in Ha|done|].
  rewrite Hst in Ha by done. by apply Evaluate_announced in Ha as [? _].
Qed.

(** C1: What the daemon reports is what it originates: it loads a valid config,
    starts, and then schedulers, triggered checks, the reload loop, SIGHUPs,
    reloads over HTTP and stop hooks interleave in any way.  As long as the
    config generation it reports is 1, i.e. no reload was applied, and the
    hook that stops BGP has not run, the status lists the VIPs of the config,
    in its order; a VIP without a pending operation has no path in the BGP
    server if it is reported withdrawn, and otherwise exactly the path of its
    reported prefix, prepend and communities; and only VIPs whose checks pass
    are announced at full priority. *)
Theorem running_status_true now version file a0 a a' k errs :
  ValidConfig cfg → construct now version file = Ret (Ok a0) → fx_Start hooks a0 = Ret (a, None) →
  rtc step (a, remaining 0, []) (a', remaining k, errs) → (k ≤ 5)%nat →
  CfS_Generation (Reload.Status (ap_rl a')) = 1 →
  ∃ l bm, GetVIPStatuses (rl_pol (ap_rl a')) = Ret l ∧ bgpOf a' = Some bm ∧
    VS_Name <$> l = VIP_Name <$> elems (Cfg_VIPs cfg) ∧
    ∀ s, s ∈ l → reportsRoute cfg s bm ∧ (VS_State s = StateAnnounced → VS_Health s = HealthHealthy).
Proof.
  intros Hv Hc Hs Hrun Hk Hg. pose proof (started_first _ _ _ _ _ Hv Hc Hs) as Hf.
  destruct (steps_still _ _ Hrun) as (k' & Hk8 & Hrem & Hst).
  { exists 0%nat. split; [lia|]. by split. }
  apply remaining_inj in Hrem as <-; [|lia|done]. destruct (Hst Hk) as [Hgen|(_ & _ & Ht)]; [cbn in *; lia|].
  by apply truthful_report.
Qed.
End Truth.
End DaemonRun.
