(* ===== verification/HotReload.v ===== *)
(** * A daemon that reloads its config runs the checks the config asks for

    The start of the daemon establishes the invariant [governed] of the
    reloader, and every step of the reloader keeps it; so a daemon that was
    started with one config and then reloaded any number of others has the
    schedulers a daemon started with the last of them would have, except for
    the VIPs that still wait for the verdicts of their new checks. *)

From S2P Require Import Prelude GoStrings NetIP Config Model Metrics ChecksPolicy Engine Logging Scheduler.
From S2P Require Import Defaults Validate ValidateProofs Registry Diff PolicyManager PolicyProofs BGPManager BGPProofs.
From S2P Require Import System Daemon Reload ReloadProofs ReloadStaging ReloadOutcome ReloadFrame ReloadOwns ReloadSync ReloadGoverns.
From S2P Require Import ReloadApply ReloadRun Loader LoadProofs Loaded Checkers Backends SQLBackend HTTPAPI Telemetry Platform Wiring.
From S2P Require Import WiringProofs Startup DaemonRun.

Module HotReload.
Import BGPManager Reload ReloadProofs ReloadStaging ReloadOwns ReloadSync ReloadGoverns ReloadApply ReloadRun Platform Wiring.
Import WiringProofs Startup DaemonRun.

(** ** Starting launches what is listed *)

Lemma startOnes_launched l reg p : launched (foldl startOne reg l) p → launched reg p ∨ p ∈ l.
Proof.
  revert reg. induction l as [|s l IH]; intros reg; cbn [foldl]; [by left|].
  intros [Hp|Hp]%IH; [|right; by right]. revert Hp. unfold startOne.
  destruct (reg_running reg !! s) eqn:E; [by left|]. unfold launched. cbn.
  destruct (decide (p = s)) as [->|Hne]; [right; by left|]. rewrite lookup_insert_ne by done. by left.
Qed.

Lemma valid_good `{GoStd} `{ExprLang} cfg : ValidConfig cfg → goodVIPs (elems (Cfg_VIPs cfg)).
Proof.
  intros Hv. split; [by apply valid_names|]. intros v Hin. split; [apply vv_checkNames, (valid_vip cfg Hv v Hin)|].
  intros Hn. by apply (valid_named cfg Hv v EmptyString Hin Hn).
Qed.

(** What the loader returns is such a config. *)
Lemma LoadRaw_good `{GoStd} `{ExprLang} `{Decoders} LookupEnv readFile path cfg raw :
  LoadRaw LookupEnv readFile path = (Ok cfg, Some raw) → goodLoad (Ok (cfg, raw)).
Proof.
  unfold LoadRaw. destruct readFile as [bytes|e]; [|done]. intros [= Hl <-]. by eapply valid_good, loaded_valid.
Qed.

(** ** The state of a started daemon *)

Section Started.
Context `{ExprLang} `{GoStd} `{CheckStd} `{SQLStd} {Srv UUID : Type} `{GoBGP Srv UUID}.
Context {Hash : Type} `{EqDecision Hash} (zeroHash : Hash) (Sum256 : string → Hash).
Context {T : Type} `{Logging.Sinks T} `{Telemetry.OTelSDK} `{Systemd}.
Context (stat : string → bool) (errText : error → string) (formatTime : Z → string).
Context (newBgpServer : option string → Srv) (otelBridge : T) (registerCollector : nat → RegisterResult).
Context (cfg : Config) (env : Env).
Context `{!Fx (S := Srv) (UUID := UUID) (Hash := Hash) (T := T)} `{!FxLaws}.

#[local] Instance hot_policy : Policy (PolicyManager.Manager (B := BGPManager.Manager (S := Srv) (UUID := UUID))) :=
  daemon_policy stat cfg.
Local Abbreviation App := (Wiring.App (S := Srv) (UUID := UUID) (Hash := Hash) (T := T)).
Local Abbreviation hooks := (Wiring.hooks (Hash := Hash) (T := T) errText formatTime cfg env).
Local Abbreviation construct := (Wiring.construct Sum256 stat newBgpServer otelBridge registerCollector cfg).
Local Abbreviation Rl := (Reloader (P := PolicyManager.Manager (B := BGPManager.Manager (S := Srv) (UUID := UUID)))
  (Hash := Hash)).
Implicit Types (r : Rl) (a : App).

(** The schedulers of a VIP, as settings. *)
Lemma schedulersFor_settings (f : Sched → Sched) h v l :
  (∀ x, settings (f x) = settings x) → goodVIP v → schedulersFor f h v l →
  Forall2 (λ s c, settingsOf h s = Some (wanted v c)) l (CheckList v).
Proof.
  intros Hf [_ Hne] Hl. apply Forall2_same_length_lookup in Hl as [Hlen Hl]. apply Forall2_same_length_lookup. split; [done|].
  intros i s c Hs Hc. destruct (Hl i s c Hs Hc) as (typ & _ & Hx). unfold settingsOf. rewrite Hx. cbn. rewrite Hf.
  unfold settings, wanted. cbn. rewrite decide_False; [done|]. intros Heq. apply Hne. rewrite <-Heq.
  by eapply list_elem_of_fmap_2, list_elem_of_lookup_2.
Qed.

Lemma running_governed vips r :
  running vips r → goodVIPs vips → curVIPs r = vips → rl_staging r = ∅ → rl_closed r = ∅ →
  (∀ p, listed (rl_reg r) p → (p < rl_nextPtr r)%nat) → (∀ p, launched (rl_reg r) p → listed (rl_reg r) p) →
  governed r.
Proof.
  intros [Hok Hst Hl Ho] Hg Hcur Hs Hc Hlt Hla.
  assert (∀ v, v ∈ vips → Forall2 (λ s c, settingsOf (rl_heap r) s = Some (wanted v c)) (visibleOf (rl_reg r) (VIP_Name v)) (CheckList v)) as Hset.
  { intros v Hv. apply (schedulersFor_settings attached); [done|by apply Hg|by apply Hl]. }
  assert (∀ p, listed (rl_reg r) p → ∃ v c, v ∈ vips ∧ c ∈ CheckList v ∧ settingsOf (rl_heap r) p = Some (wanted v c)) as Hof.
  { intros p [name Hp]. destruct (list_elem_of_fmap_1 VIP_Name vips name) as (v & -> & Hv); [by eapply Ho|].
    apply list_elem_of_lookup in Hp as [i Hi]. destruct (Forall2_lookup_l _ _ _ _ _ (Hset v Hv) Hi) as (c & Hci & Hd).
    exists v, c. split; [done|]. split; [by eapply list_elem_of_lookup_2|done]. }
  constructor.
  - by rewrite Hcur.
  - intros vip st. by rewrite Hs, lookup_empty.
  - exists ∅. split; [intros p; split; [set_solver|]; intros (vip & st & k & Hv & _); by rewrite Hs, lookup_empty in Hv|]. split.
    + constructor; try done.
      * intros p [Hp|?]; [|set_solver]. destruct (Hof p Hp) as (v & c & _ & _ & Hd). rewrite Hc, Hd. split_and!; [by apply Hlt|set_solver|by eexists].
      * intros p. rewrite Hc. set_solver.
      * intros p. split; [intros; left; by apply Hla|]. intros [[vip Hp]|?]; [|set_solver].
        destruct Hok as (_ & _ & Hr). destruct (Hr Hst vip p Hp) as (run & Hrun & _). by exists run.
    + intros d. rewrite effective_wants by (intros ? ?; by rewrite Hs, lookup_empty). split.
      * intros (p & Hp & Hd). destruct (Hof p Hp) as (v & c & Hv & Hcl & Hd'). rewrite Hd in Hd'. injection Hd' as ->.
        exists v. rewrite Hcur. split; [done|]. split; [done|]. unfold governor. rewrite Hs, lookup_empty. by exists c.
      * intros (v & Hv & _ & Hw). unfold governor in Hw. rewrite Hs, lookup_empty in Hw. destruct Hw as (c & Hcl & ->).
        rewrite Hcur in Hv. apply list_elem_of_lookup in Hcl as [i Hi].
        destruct (Forall2_lookup_r _ _ _ _ _ (Hset v Hv) Hi) as (p & Hp & Hd). exists p. split; [|done].
        exists (VIP_Name v). by eapply list_elem_of_lookup_2.
Qed.

Lemma started_governed now version file a0 a :
  ValidConfig cfg → construct now version file = Ret (Ok a0) → fx_Start hooks a0 = Ret (a, None) → governed (ap_rl a).
Proof.
  intros Hv Hc Hs. pose proof (valid_good cfg Hv) as Hg. pose proof (proj1 Hg) as Hnd.
  pose proof (construct_fresh Sum256 stat newBgpServer otelBridge registerCollector cfg now version file a0 Hnd Hc) as Hf.
  destruct (started_inv stat errText formatTime newBgpServer registerCollector cfg env now a0 a Hnd Hf Hs) as (b1 & b2 & l & _ & _ & ->).
  change (ap_rl (addMessages (upAll a0 b2) l)) with (startedRl (setPol (ap_rl a0) (setNotifier (rl_pol (ap_rl a0)) (Some b2)))).
  set (r0 := setPol _ _). pose proof (fr_built _ _ _ _ _ Hf) as Hb.
  assert (built (elems (Cfg_VIPs cfg)) (rl_heap r0) (rl_nextPtr r0) (rl_reg r0)) as Hb0 by exact Hb.
  assert (rl_cur r0 = cfg ∧ rl_staging r0 = ∅ ∧ rl_closed r0 = ∅) as (Rc & Rs & Rcl).
  { destruct (construct_inv _ _ _ _ _ _ _ _ _ _ Hc) as (ev & tel & h & next & reg & _ & _ & Hr & _).
    unfold r0. cbn. rewrite Hr. unfold provideReloader. by destruct (CF_DebugForced file). }
  clearbody r0. destruct (attachAll_heap registerCollector r0) as [h' Hh].
  assert (running (elems (Cfg_VIPs cfg)) (startedRl r0)) as Hrun.
  { apply (schedulers_start registerCollector); [done| | |done].
    - intros v Hin. by apply Hg.
    - intros v c Hin Hcl Hn. apply (proj2 Hg v Hin). rewrite <-Hn. by apply list_elem_of_fmap_2. }
  assert (reg_visible (Registry.Start (rl_reg r0)) = reg_visible (rl_reg r0)) as Hvis.
  { unfold Registry.Start. set (l0 := concat _). clearbody l0.
    rewrite (foldl_keeps reg_visible); [done|]. intros reg s. unfold startOne. by destruct (reg_running reg !! s). }
  eapply running_governed; [exact Hrun|exact Hg|..]; unfold startedRl, curVIPs; rewrite Hh; cbn; rewrite ?Rc; try done.
  - intros p [name Hp]. unfold visibleOf in Hp. rewrite Hvis in Hp.
    destruct (reg_visible (rl_reg r0) !! name) as [lp|] eqn:El; [|by apply not_elem_of_nil in Hp].
    destruct (list_elem_of_fmap_1 VIP_Name (elems (Cfg_VIPs cfg)) name) as (v & -> & Hin); [apply Hb0; by eexists|].
    destruct (bu_listed _ _ _ _ Hb0 v Hin) as (l' & Hl' & _ & Hlt). rewrite El in Hl'. injection Hl' as ->. by apply Hlt.
  - intros p [Hp|Hp]%startOnes_launched.
    + destruct (bu_idle _ _ _ _ Hb0) as (_ & Hr & _). unfold launched in Hp. cbn in Hp. rewrite Hr, lookup_empty in Hp. by destruct Hp.
    + apply listed_concat in Hp as [vip Hp]. exists vip. unfold visibleOf in *. by rewrite Hvis.
Qed.

(** C2: A reload is as good as a restart: from a daemon that was
    started with a valid config, over any interleaving of check results,
    verdicts, expiries, polls and reloads of configs that load, each VIP that
    the governing definitions name (the running config, with the definition
    it had before for a VIP that still waits for verdicts) lists exactly one
    scheduler per check of that definition, with its name, interval, timeout
    and thresholds, and no other VIP lists any; a goroutine runs exactly for
    the listed schedulers and the staged shadows; and none of these was
    closed. *)
Theorem reload_as_good_as_restart now version file a0 a r :
  ValidConfig cfg → construct now version file = Ret (Ok a0) → fx_Start hooks a0 = Ret (a, None) →
  rtc (run_step zeroHash Sum256 newChecker) (ap_rl a) r →
  (∀ v, v ∈ effectiveVIPsLocked r →
     settingsOf (rl_heap r) <$> visibleOf (rl_reg r) (VIP_Name v) ≡ₚ (Some ∘ wanted v) <$> CheckList v) ∧
  (∀ name, name ∉ VIP_Name <$> elems (Cfg_VIPs (rl_cur r)) → visibleOf (rl_reg r) name = []) ∧
  (∀ p, launched (rl_reg r) p ↔ listed (rl_reg r) p ∨ staged r p) ∧
  (∀ p, p ∈ rl_closed r → ¬ listed (rl_reg r) p ∧ ¬ staged r p ∧ ¬ launched (rl_reg r) p).
Proof.
  intros Hv Hc Hs Hr. pose proof (run_governed _ _ _ _ _ Hr (started_governed _ _ _ _ _ Hv Hc Hs)) as Hg.
  split; [intros v; by apply governed_lists|]. split; [intros name; by apply governed_only|].
  split; [intros p; by apply governed_in_use|]. intros p Hp. destruct (governed_in_use r p Hg) as [Hl Hn]. rewrite Hl. tauto.
Qed.
End Started.
End HotReload.
