(* ===== verification/WiringWitness.v ===== *)
(** * Start-up and shutdown, applied

    The daemon on the config file of LoadedWitness, with the reference BGP
    server, a service manager that listens, and a container that runs hooks
    the way fx documents; and a shutdown that a SIGHUP overtakes. *)

From S2P Require Import Prelude GoStrings NetIP Net Config Model Metrics ChecksPolicy Engine Logging LoggingProofs.
From S2P Require Import Scheduler Defaults Validate ValidateProofs Registry Loader LoadProofs DefaultsProofs.
From S2P Require Import PolicyManager PolicyProofs BGPManager BGPProofs PolicyWitness System Daemon.
From S2P Require Import Reload ReloadStaging ReloadWitness Loaded LoadedWitness Checkers Backends SQLBackend.
From S2P Require Import BackendsProofs CheckersWitness HTTPAPI Watcher Telemetry Platform Wiring WiringProofs Startup.
From S2P Require Import RunCommand ReloadFrame ReloadOwns ReloadGoverns ReloadRun DaemonRun HotReload.

Module WiringWitness.
Import BGPManager PolicyWitness Daemon Reload ReloadWitness LoadedWitness CheckersWitness.
Import LoggingProofs Platform Wiring WiringProofs Startup.
#[local] Existing Instance refStd.
#[local] Existing Instance vw_decoders.
#[local] Existing Instance cw_std.
#[local] Existing Instance cw_sql.
#[local] Instance dm_sdk : Telemetry.OTelSDK := Telemetry.ref_sdk None.
#[local] Instance dm_systemd : Systemd := {|
  NOTIFY_SOCKET := "/run/systemd/notify"; SdNotify _ := (true, None); StderrIsJournalStream := (true, None) |}.

Definition dm_time (t : Z) : string := Itoa t.
Definition dm_server (_ : option string) : RefServer := mkRefServer false ∅ 0.
Definition dm_register (_ : nat) : RegisterResult := Registered.
Definition dm_file : ConfigFile := mkConfigFile "/etc/pathosd.yaml" vw_file false.

(** Everything ends in time; [listen] is the error of the listener. *)
Definition dm_env (listen : goerror) : Env :=
  mkEnv (λ _, listen) true (list_to_set (seq 0 10)) None (Some None).

Local Abbreviation dm_hooks listen :=
  (Wiring.hooks (S := RefServer) (UUID := nat) (Hash := string) (T := nat) cw_text dm_time vw_cfg (dm_env listen)).
Local Abbreviation dm_construct :=
  (Wiring.construct (S := RefServer) (UUID := nat) (Hash := string) (T := nat)
     rw_hash pw_stat dm_server 1%nat dm_register vw_cfg 7 "1.0" dm_file).
Local Abbreviation dm_step :=
  (d_step (S := RefServer) (UUID := nat) (Hash := string) (T := nat) EmptyString rw_hash pw_stat vw_cfg).
Local Abbreviation DApp := (Wiring.App (S := RefServer) (UUID := nat) (Hash := string) (T := nat)).

#[local] Instance dm_fx : Fx (S := RefServer) (UUID := nat) (Hash := string) (T := nat) := {|
  fx_Start l a := joined head (startAll [] l a);
  fx_Stop l a := joined head (stopAll (reverse l) a);
  fx_Combine errs := head errs |}.
#[local] Instance dm_fx_laws : FxLaws.
Proof. split; [done..|]. by intros []. Qed.

Lemma dm_valid : ValidConfig vw_cfg.
Proof. exact (loaded_valid _ _ _ _ vw_loaded). Defined.

Lemma construct_succeeds_witness : ∃ a, dm_construct = Ret (Ok a).
Proof.
  refine (proj2 (construct_succeeds rw_hash pw_stat cw_text dm_time dm_server 1%nat dm_register vw_cfg 7 "1.0" dm_file
    [] Telemetry.zeroProvider dm_valid cw_environment _ _) _); [by vm_compute|done|].
  intros v Hv. change (v ∈ [vw_web]) in Hv. apply list_elem_of_singleton in Hv as ->.
  split; [done|]. intros c Hc Ht. apply list_elem_of_lookup in Hc as [j Hj].
  destruct j as [|[|j]]; vm_compute in Hj; [injection Hj as <-; done..|done].
Defined.

(** The process before and after its start. *)
Definition ofOk {A} (o : outcome (result error A)) : option A := match o with Ret (Ok a) => Some a | _ => None end.
Definition ofStart {A} (o : outcome (A * goerror)) : option A := match o with Ret (a, None) => Some a | _ => None end.


Lemma started_view {A B} (o : outcome (result error A)) (start : A → outcome (A * goerror)) (f : A → B) b :
  f <$> (a0 ← ofOk o; ofStart (start a0)) = Some b →
  ∃ a0, o = Ret (Ok a0) ∧ ∀ a, start a0 = Ret (a, None) → f a = b.
Proof.
  destruct o as [[a0|e]|]; cbn; [|done..]. intros Hs. exists a0. split; [done|]. intros a Ha.
  rewrite Ha in Hs. cbn in Hs. by injection Hs.
Qed.

Lemma run_view {A B} (o : outcome (result error A)) (start : A → outcome (A * goerror)) (next : A → option A)
    (f : A → A → B) b :
  (a0 ← ofOk o; a ← ofStart (start a0); a' ← next a; Some (f a a')) = Some b →
  ∃ a0 a a', o = Ret (Ok a0) ∧ start a0 = Ret (a, None) ∧ next a = Some a' ∧ f a a' = b.
Proof.
  destruct o as [[a0|e]|]; cbn; [|done..]. destruct (start a0) as [[a [e|]]|] eqn:Es; cbn; [done| |done].
  destruct (next a) as [a'|] eqn:En; cbn; [|done]. intros [= Hf]. by exists a0, a, a'.
Qed.

Definition dm_started : option DApp := a0 ← ofOk dm_construct; ofStart (fx_Start (dm_hooks None) a0).

Definition dm_view (a : DApp) : list ptr * gset nat * list string :=
  (visibleOf (rl_reg (ap_rl a)) "web", reg_live (rl_reg (ap_rl a)), ap_messages a).

Lemma dm_canStart : canStart dm_server vw_cfg (dm_env None).
Proof. eexists _, _. split; [by vm_compute|]. split; [by vm_compute|done]. Defined.

Definition dm_seen : list ptr * gset nat * list string :=
  ([0; 1]%nat, {[0; 1]}%nat,
   ["STATUS=VIPs: 0 announced, 0 pessimized, 1 withdrawn; peers: 0/0 established"; "READY=1"]).

Lemma dm_started_sees :
  dm_view <$> (a0 ← ofOk dm_construct; ofStart (fx_Start (dm_hooks None) a0)) = Some dm_seen.
Proof. by vm_compute. Qed.

Lemma startup_runs_config_witness :
  ∃ a0 a, dm_construct = Ret (Ok a0) ∧ fx_Start (dm_hooks None) a0 = Ret (a, None) ∧ dm_view a = dm_seen.
Proof.
  destruct (started_view _ _ _ _ dm_started_sees) as (a0 & E0 & Hv).
  destruct (startup_runs_config EmptyString rw_hash pw_stat cw_text dm_time dm_server 1%nat dm_register vw_cfg
    (dm_env None) 7 "1.0" dm_file a0 dm_valid E0 dm_canStart) as (a & Ha & _).
  exists a0, a. split; [exact E0|]. split; [exact Ha|exact (Hv a Ha)].
Defined.

(** The API's address is taken. *)
Definition dm_taken : goerror := Some (External "address already in use").

Lemma dm_cannotStart : ¬ canStart dm_server vw_cfg (dm_env dm_taken).
Proof. by intros (b1 & b2 & _ & _ & Hl). Defined.


(** ** Shutdown *)

(** Stop hooks that report no error. *)
Fixpoint stops (l : list Hook) (a : DApp) : option DApp :=
  match l with
  | [] => Some a
  | hk :: l' => a' ← ofStart (hk_OnStop hk a); stops l' a'
  end.

Lemma stop_step hk todo a a' : ofStart (hk_OnStop hk a) = Some a' → dm_step (a, hk :: todo, []) (a', todo, []).
Proof.
  destruct (hk_OnStop hk a) as [[a1 [e|]]|] eqn:E; cbn; [done| |done]. intros [= <-].
  exact (d_stop EmptyString rw_hash pw_stat vw_cfg hk a a1 None todo [] E).
Qed.

Lemma stops_steps l todo a a' : stops l a = Some a' → rtc dm_step (a, l ++ todo, []) (a', todo, []).
Proof.
  revert a. induction l as [|hk l IH]; intros a; cbn [stops app]; [by intros [= <-]|].
  destruct (ofStart (hk_OnStop hk a)) as [a1|] eqn:E; cbn; [|done]. intros Hl.
  eapply rtc_l; [by apply stop_step|by apply IH].
Qed.

Local Abbreviation dm_remaining := (remaining (Srv := RefServer) (UUID := nat) (Hash := string) (T := nat)
  cw_text dm_time vw_cfg (dm_env None)).

(** The goroutine that waits for SIGHUP ends between the stop of the reload
    loop and that of the registry. *)
Definition dm_hupEnded (a : DApp) : DApp := setProcs a (endHupLoop (ap_procs a)).
Definition dm_down : option (DApp * DApp * DApp * DApp) :=
  a0 ← dm_started;
  a2 ← stops (take 2 (dm_remaining 0)) a0;
  a3 ← stops (take 1 (dm_remaining 2)) (dm_hupEnded a2);
  a4 ← stops (take 1 (dm_remaining 3)) a3;
  a8 ← stops (dm_remaining 4) a4;
  Some (a0, a3, a4, a8).

Lemma dm_down_runs a0 a3 a4 a8 :
  dm_down = Some (a0, a3, a4, a8) →
  dm_started = Some a0 ∧ rtc dm_step (a0, dm_remaining 0, []) (a3, dm_remaining 3, []) ∧
  dm_step (a3, dm_remaining 3, []) (a4, dm_remaining 4, []) ∧ rtc dm_step (a4, dm_remaining 4, []) (a8, [], []).
Proof.
  unfold dm_down. intros (b0 & E0 & (b2 & E2 & (b3 & E3 & (b4 & E4 & (b8 & E8 & [= -> -> -> ->])
    %bind_Some)%bind_Some)%bind_Some)%bind_Some)%bind_Some.
  split; [done|]. split; [|split].
  - etrans; [exact (stops_steps _ (dm_remaining 2) _ _ E2)|].
    eapply rtc_l; [|exact (stops_steps _ (dm_remaining 3) _ _ E3)].
    apply d_hupEnds. cbn in E2. by injection E2 as <-.
  - cbn [stops take remaining drop] in E4. apply bind_Some in E4 as (c & E4 & [= ->]). exact (stop_step _ _ _ _ E4).
  - pose proof (stops_steps _ [] _ _ E8) as Hs. by rewrite app_nil_r in Hs.
Qed.

Lemma view_Some {A B} (o : option A) (f : A → B) b : f <$> o = Some b → ∃ a, o = Some a ∧ f a = b.
Proof. intros (a & -> & ->)%fmap_Some. eauto. Qed.

Definition dm_down_view (d : DApp * DApp * DApp * DApp) : list (gset nat) * list bool :=
  let '(a0, a3, a4, a8) := d in
  ([reg_live (rl_reg (ap_rl a3)); reg_live (rl_reg (ap_rl a8))],
   [pr_hupLoop (ap_procs a3); pr_bgp (ap_procs a4); pr_bgp (ap_procs a8); bool_decide (ap_inflight a0 = ∅)]).

Lemma dm_down_sees : dm_down_view <$> dm_down = Some ([{[0; 1]}%nat; ∅], [false; true; false; true]).
Proof. by vm_compute. Qed.

Lemma shutdown_quiet_witness :
  ∃ a0 a3 a4 a8, dm_down = Some (a0, a3, a4, a8) ∧ reg_live (rl_reg (ap_rl a3)) = {[0; 1]}%nat ∧
    reg_live (rl_reg (ap_rl a8)) = ∅ ∧ ∃ k, [] = dm_remaining k ∧ ap_rl a8 = stoppedIn (ap_rl a4) k.
Proof.
  destruct (view_Some _ _ _ dm_down_sees) as ([[[a0 a3] a4] a8] & Hd & Hv).
  injection Hv as Hl3 Hl8 Hh _ _ Hi. apply bool_decide_eq_true in Hi.
  destruct (dm_down_runs a0 a3 a4 a8 Hd) as (_ & H03 & H34 & H48).
  destruct (shutdown_quiet EmptyString rw_hash pw_stat cw_text dm_time vw_cfg (dm_env None) a0 a3 a4 a8 [] []
    Hi H03 Hh H34 H48) as (k & _ & Hk & Hrl).
  exists a0, a3, a4, a8. split; [exact Hd|]. split; [exact Hl3|]. split; [exact Hl8|]. exists k. by split.
Defined.

(** ** A SIGHUP that the shutdown overtakes *)

(** The file as it is after the shutdown began: another check. *)
Definition dm_edited : Config :=
  let v := vw_vip "10.0.0.1/32" in
  let v' := mkVIPConfig (VIP_Name v) (VIP_Prefix v) zeroCheck (Some [vw_check "a" (Some 3); vw_check "b" None]) EmptyString
    (VIP_Policy v) false EmptyString in
  let c := vw_raw "10.0.0.1/32" in
  ApplyDefaults (mkConfig (Cfg_Schema c) (Cfg_Router c) (Cfg_API c) (Cfg_Logging c) (Cfg_OTel c) (Cfg_Paths c)
    (Cfg_BGP c) (Some [v'])).

Definition dm_signalled (a : DApp) : DApp := setProcs a (setHup (ap_procs a) true).
Local Abbreviation dm_reload := (Reload.Reload (H := daemon_policy pw_stat vw_cfg) EmptyString rw_hash newChecker 9
  (Ok (dm_edited, "edited"))).
Definition dm_handled (a : DApp) : option DApp :=
  match dm_reload (ap_rl a) with
  | Ret (r, _) => Some (setProcs (setRl a r) (setHup (ap_procs a) false))
  | Panic => None
  end.

Definition dm_late : option (DApp * DApp * DApp) :=
  a0 ← dm_started;
  a8 ← stops (dm_remaining 0) (dm_signalled a0);
  a9 ← dm_handled a8;
  Some (a0, a8, a9).
Definition dm_late_view (d : DApp * DApp * DApp) : list (gset nat) * list bool :=
  let '(a0, a8, a9) := d in
  ([reg_live (rl_reg (ap_rl a0)); reg_live (rl_reg (ap_rl a8)); reg_live (rl_reg (ap_rl a9))],
   [pr_notify (ap_procs a0); pr_bgp (ap_procs a8); pr_hupLoop (ap_procs a8); pr_hup (ap_procs a8)]).

Lemma dm_late_sees : dm_late_view <$> dm_late = Some ([{[0; 1]}%nat; ∅; {[2]}%nat], [true; false; true; true]).
Proof. by vm_compute. Qed.

Lemma handled_step a a' :
  pr_hupLoop (ap_procs a) = true → pr_hup (ap_procs a) = true → dm_handled a = Some a' →
  dm_step (a, [], []) (a', [], []).
Proof.
  intros Hl Hp. unfold dm_handled. destruct (dm_reload (ap_rl a)) as [[r res]|] eqn:E; [|done]. intros [= <-].
  exact (d_hupReload EmptyString rw_hash pw_stat vw_cfg 9 (Ok (dm_edited, "edited")) a r res [] [] Hl Hp E).
Qed.

Lemma dm_late_runs a0 a8 a9 :
  dm_late = Some (a0, a8, a9) →
  dm_started = Some a0 ∧ stops (dm_remaining 0) (dm_signalled a0) = Some a8 ∧ dm_handled a8 = Some a9.
Proof.
  unfold dm_late. intros (b0 & E0 & (b8 & E8 & (b9 & E9 & [= -> -> ->])%bind_Some)%bind_Some)%bind_Some.
  exact (conj E0 (conj E8 E9)).
Qed.

Lemma late_steps a0 a8 a9 :
  dm_late = Some (a0, a8, a9) → pr_notify (ap_procs a0) = true → pr_hupLoop (ap_procs a8) = true →
  pr_hup (ap_procs a8) = true →
  dm_started = Some a0 ∧ rtc dm_step (a0, dm_remaining 0, []) (a8, [], []) ∧ dm_step (a8, [], []) (a9, [], []).
Proof.
  intros Hd Hn Hh Hp. destruct (dm_late_runs _ _ _ Hd) as (E0 & E8 & E9). split; [done|]. split; [|by apply handled_step].
  eapply rtc_l; [by apply d_signal|]. pose proof (stops_steps _ [] _ _ E8) as Hs. by rewrite app_nil_r in Hs.
Qed.


(** ** The running daemon *)

#[local] Instance dm_start : DaemonRun.GoBGPStart (S := RefServer) (UUID := nat) dm_server.
Proof. by split. Qed.

(** Results of schedulers that run. *)
Fixpoint dm_feed (l : list (ptr * bool)) (a : DApp) : option DApp :=
  match l with
  | [] => Some a
  | (p, ok) :: l' =>
      _ ← reg_running (rl_reg (ap_rl a)) !! p;
      dm_feed l' (setRl a (schedResult (H := daemon_policy pw_stat vw_cfg) 8 p (dw_result ok) (ap_rl a)))
  end.

Lemma dm_feed_steps l todo a a' : dm_feed l a = Some a' → rtc dm_step (a, todo, []) (a', todo, []).
Proof.
  revert a. induction l as [|[p ok] l IH]; intros a; cbn [dm_feed]; [by intros [= <-]|].
  intros (run & Hrun & Hl)%bind_Some. eapply rtc_l; [|by apply IH]. apply d_check. left. by eexists.
Qed.

(** Every check passes often enough, then one of them fails once; the routes
    of the server at the end, and what the status says. *)
Definition dm_results : list (ptr * bool) := [(0, true); (1, true); (0, true); (1, true); (0, true); (1, true); (0, false)]%nat.
Definition dm_run_view (a a' : DApp) : Z * outcome (list (string * VIPState)) * list Prefix :=
  (rl_generation (ap_rl a'),
   match GetVIPStatuses (rl_pol (ap_rl a')) with
   | Ret l => Ret ((λ s, (VS_Name s, VS_State s)) <$> l)
   | Panic => Panic
   end,
   match bgpOf a' with Some b => (map_to_list (rg_rib (bm_server b))).*1 | None => [] end).

Lemma dm_run_sees :
  (a0 ← ofOk dm_construct; a ← ofStart (fx_Start (dm_hooks None) a0);
   a' ← dm_feed dm_results a; Some (dm_run_view a a')) =
  Some (1, Ret [("web", StateAnnounced)], [mkPrefix (Addr4 0x0a000001) 32]).
Proof. by vm_compute. Qed.

Lemma running_status_true_witness :
  ∃ (a' : DApp) l bm, GetVIPStatuses (rl_pol (ap_rl a')) = Ret l ∧ bgpOf a' = Some bm ∧
    (λ s, (VS_Name s, VS_State s)) <$> l = [("web", StateAnnounced)] ∧
    (map_to_list (rg_rib (bm_server bm))).*1 = [mkPrefix (Addr4 0x0a000001) 32] ∧
    ∀ s, s ∈ l → reportsRoute vw_cfg s bm.
Proof.
  destruct (run_view _ _ (dm_feed dm_results) dm_run_view _ dm_run_sees) as (a0 & a & a' & Hc & Hs & Hn & Hv).
  destruct (DaemonRun.running_status_true EmptyString rw_hash pw_stat cw_text dm_time dm_server 1%nat dm_register
    vw_cfg (dm_env None) 7 "1.0" dm_file a0 a a' 0 [] dm_valid Hc Hs (dm_feed_steps _ _ _ _ Hn) (Nat.le_0_l 5))
    as (l & bm & Hl & Hb & _ & Hall); [by injection Hv|].
  exists a', l, bm. unfold dm_run_view in Hv. rewrite Hl, Hb in Hv. injection Hv as _ Hst Hrib.
  split; [exact Hl|]. split; [exact Hb|]. split; [exact Hst|]. split; [exact Hrib|]. intros s Hin. exact (proj1 (Hall s Hin)).
Defined.

(** The status of the daemon above, after the SIGHUP that its shutdown
    overtook. *)
Lemma started_of (a : DApp) :
  dm_started = Some a → ∃ a0, dm_construct = Ret (Ok a0) ∧ fx_Start (dm_hooks None) a0 = Ret (a, None).
Proof.
  unfold dm_started. intros (a0 & H0 & H1)%bind_Some. exists a0. split.
  - by destruct dm_construct as [[? | ?]|]; [injection H0 as ->|..].
  - by destruct (fx_Start _ a0) as [[? [?|]]|]; [|injection H1 as ->|].
Qed.

Lemma daemon_reports_witness :
  ∃ a' : DApp, reg_live (rl_reg (ap_rl a')) = {[2]}%nat ∧
    ∃ a'', updateStatus cw_text dm_time vw_cfg a' = Ret a''.
Proof.
  destruct (view_Some _ _ _ dm_late_sees) as ([[a a8] a9] & Hd & Hv). injection Hv as _ _ Hl9 Hn _ Hh Hp.
  destruct (late_steps _ _ _ Hd Hn Hh Hp) as (Hs & H08 & H89). destruct (started_of a Hs) as (a0 & Hc & Hst).
  exists a9. split; [exact Hl9|].
  exact (proj1 (proj2 (DaemonRun.daemon_reports EmptyString rw_hash pw_stat cw_text dm_time dm_server 1%nat dm_register
    vw_cfg (dm_env None) 7 "1.0" dm_file a0 a a9 [] [] "dev" (λ _, newSchedulerFor vw_web zeroCheck "tcp") ∅ []
    dm_valid Hc Hst (rtc_r _ _ _ H08 H89)))).
Defined.

(** ** run --debug *)

Definition dg_cfg : Config := RunCommand.applyRunOverrides vw_cfg true.
Local Abbreviation dg_hooks :=
  (Wiring.hooks (S := RefServer) (UUID := nat) (Hash := string) (T := nat) cw_text dm_time dg_cfg (dm_env None)).
Local Abbreviation dg_construct :=
  (Wiring.construct (S := RefServer) (UUID := nat) (Hash := string) (T := nat)
     rw_hash pw_stat dm_server 1%nat dm_register dg_cfg 7 "1.0" (mkConfigFile "/etc/pathosd.yaml" vw_file true)).
Local Abbreviation dg_step :=
  (d_step (S := RefServer) (UUID := nat) (Hash := string) (T := nat) EmptyString rw_hash pw_stat dg_cfg).
Local Abbreviation dg_reload := (Reload.Reload (H := daemon_policy pw_stat dg_cfg) EmptyString rw_hash newChecker 9
  (Ok (dm_edited, "edited"))).
Definition dg_handled (a : DApp) : option DApp :=
  match dg_reload (ap_rl a) with
  | Ret (r, _) => Some (setProcs (setRl a r) (setHup (ap_procs a) false))
  | Panic => None
  end.

(** The signal and its handling; the file has no level of its own, which is
    info. *)
Definition dg_view (a a' : DApp) : list bool * (string * Z) :=
  ([pr_notify (ap_procs a); pr_hupLoop (ap_procs (dm_signalled a))],
   (Logging_Level (Cfg_Logging (rl_cur (ap_rl a'))), rl_generation (ap_rl a'))).

Lemma dg_sees :
  (a0 ← ofOk dg_construct; a ← ofStart (fx_Start dg_hooks a0);
   a' ← dg_handled (dm_signalled a); Some (dg_view a a')) = Some ([true; true], ("info", 2)).
Proof. by vm_compute. Qed.

Lemma dg_runs a a' todo :
  dg_handled (dm_signalled a) = Some a' → dg_view a a' = ([true; true], ("info", 2)) →
  rtc dg_step (a, todo, []) (a', todo, []).
Proof.
  intros Hn Hv. injection Hv as H1 H2 _ _. unfold dg_handled in Hn.
  destruct (dg_reload (ap_rl (dm_signalled a))) as [[r res]|] eqn:E; [|done]. injection Hn as <-.
  eapply rtc_l; [by apply d_signal|]. apply rtc_once.
  exact (d_hupReload EmptyString rw_hash pw_stat dg_cfg 9 (Ok (dm_edited, "edited")) (dm_signalled a) r res todo [] H2 eq_refl E).
Qed.

Lemma debug_level_sticks_witness :
  ∃ a' : DApp, Logging_Level (Cfg_Logging (rl_cur (ap_rl a'))) = "info" ∧ rl_generation (ap_rl a') = 2 ∧
    rl_logLevel (ap_rl a') = Logging.LevelDebug ∧ rl_bgpLogLevel (ap_rl a') = Logging.LevelDebug.
Proof.
  destruct (run_view _ _ (λ a, dg_handled (dm_signalled a)) dg_view _ dg_sees) as (a0 & a & a' & Hc & Hs & Hn & Hv).
  pose proof (RunCommand.debug_level_sticks EmptyString rw_hash pw_stat cw_text dm_time dm_server 1%nat dm_register
    vw_cfg (dm_env None) 7 "1.0" "/etc/pathosd.yaml" vw_file a0 a a' _ [] Hc Hs (dg_runs a a' _ Hn Hv)) as Hl.
  exists a'. injection Hv as _ _ H1 H2. split; [exact H1|]. split; [exact H2|exact Hl].
Defined.

(** ** A reload whose new check proves itself *)

#[local] Instance hot_policy : Policy (PolicyManager.Manager (B := BGPManager.Manager (S := RefServer) (UUID := nat))) :=
  daemon_policy pw_stat vw_cfg.
Local Abbreviation HotRl := (Reloader (P := PolicyManager.Manager (B := BGPManager.Manager (S := RefServer) (UUID := nat)))
  (Hash := string)).
Local Abbreviation hot_step := (ReloadRun.run_step EmptyString rw_hash newChecker).

(** The results of the shadow, and then the commit loop wakes up. *)
Definition hot_feed (n : nat) (r : HotRl) : HotRl := Nat.iter n (schedResult 8 2%nat (dw_result true)) r.
Definition hot_next (a : DApp) : option DApp :=
  match dm_reload (ap_rl a) with
  | Ret (r, _) => let r := hot_feed 3 r in if rl_wake r then Some (setRl a (commitReady 9 (λ _, []) r)) else None
  | Panic => None
  end.
Definition hot_view (a a' : DApp) : list ptr * list ptr * list string :=
  (visibleOf (rl_reg (ap_rl a')) "web", elements (rl_closed (ap_rl a')), pendingLocked (ap_rl a')).

Lemma hot_sees :
  (a0 ← ofOk dm_construct; a ← ofStart (fx_Start (dm_hooks None) a0);
   a' ← hot_next a; Some (hot_view a a')) = Some ([2; 1]%nat, [0]%nat, []).
Proof. by vm_compute. Qed.

Lemma hot_good : ReloadRun.goodLoad (Ok (dm_edited, "edited")).
Proof.
  assert (∃ v, elems (Cfg_VIPs dm_edited) = [v] ∧ checkNames v = ["a"; "b"]) as (v & Hv & Hn)
    by (eexists; split; [by vm_compute|by vm_compute]).
  unfold ReloadRun.goodLoad. rewrite Hv. split; [apply NoDup_singleton|]. intros w ->%list_elem_of_singleton.
  unfold ReloadGoverns.goodVIP. rewrite Hn. split; [by apply (bool_decide_unpack _)|set_solver].
Qed.

Lemma hot_feed_runs n (r : HotRl) : rtc hot_step r (hot_feed n r).
Proof.
  induction n as [|n IH]; [apply rtc_refl|]. eapply rtc_r; [exact IH|]. cbn. apply ReloadRun.run_other; [apply ReloadStaging.step_result|].
  by apply (ReloadFrame.schedResult_frame _ (ReloadFrame.generation_frame _)).
Qed.

Lemma hot_runs a a' : hot_next a = Some a' → rtc hot_step (ap_rl a) (ap_rl a').
Proof.
  unfold hot_next. destruct (dm_reload (ap_rl a)) as [[r res]|] eqn:E; [|done].
  destruct (rl_wake (hot_feed 3 r)) eqn:Ew; [|done]. intros [= <-]. cbn [ap_rl setRl].
  eapply rtc_l; [by eapply ReloadRun.run_reload, E; apply hot_good|]. eapply rtc_r; [apply (hot_feed_runs 3)|].
  apply ReloadRun.run_other; [by apply ReloadStaging.step_wake|].
  by apply (ReloadFrame.commitReady_frame _ (ReloadFrame.generation_frame _)).
Qed.

Lemma reload_as_good_as_restart_witness :
  ∃ a' : DApp, visibleOf (rl_reg (ap_rl a')) "web" = [2; 1]%nat ∧ rl_closed (ap_rl a') = {[0]}%nat ∧
    ∀ v, v ∈ effectiveVIPsLocked (ap_rl a') →
      ReloadOwns.settingsOf (rl_heap (ap_rl a')) <$> visibleOf (rl_reg (ap_rl a')) (VIP_Name v) ≡ₚ
      (Some ∘ ReloadOwns.wanted v) <$> CheckList v.
Proof.
  destruct (run_view _ _ hot_next hot_view _ hot_sees) as (a0 & a & a' & Hc & Hs & Hn & Hv).
  destruct (HotReload.reload_as_good_as_restart EmptyString rw_hash pw_stat cw_text dm_time dm_server 1%nat dm_register
    vw_cfg (dm_env None) 7 "1.0" dm_file a0 a (ap_rl a') dm_valid Hc Hs (hot_runs _ _ Hn)) as [Hl _].
  exists a'. injection Hv as H1 H2 _. split; [exact H1|]. split; [|exact Hl].
  apply set_eq. intros p. rewrite <-elem_of_elements, H2. set_solver.
Defined.

End WiringWitness.
